(* ===== verification/_CoqProject ===== *)
-Q . S2P
Prelude.v
CLib.v
Utf16.v
Message.v
SerialLine.v
SerialBytes.v
Wheel.v
AlarmRing.v
AlarmRace.v
StdMap.v
MySql.v
DataBase.v
DataTyped.v
CsvError.v
CsvReader.v
CsvAsync.v
CsvThread.v
CsvFailing.v
CsvLine.v
CsvQuote.v
CsvNumber.v
CsvFloat.v
CsvIeee.v
FloatRound.v
CsvRound.v
CsvParse.v
CsvFile.v
HikDev.v
HikText.v
SerialConfig.v
AlarmLoop.v
ServiceRace.v
ServiceLive.v
Main.v
