(* ===== verification/Prelude.v ===== *)
(** * A verification of MotionDetectAlarm

    MotionDetectAlarm is a Linux service: it reads its database settings from a
    CSV file, loads a table of cameras from MySQL, logs in to each camera with
    the Hikvision SDK and arms its motion alarm, and then forwards every alarm as
    a text message through a GSM module on a serial port.  This library models
    the program's own code (src/src) and the CSV reader it carries (csv.h), and
    proves what each part promises.

    ** The parts and how they meet

    [main] (Main.v) starts the parts in order: the pid file, the settings
    (CsvParse.v over CsvReader.v, CsvLine.v and CsvError.v), the camera table
    (DataBase.v), the SDK and the cameras (HikDev.v), the serial port
    (SerialConfig.v).  The SDK's thread then puts alarms in a ring (AlarmRing.v)
    which the loop of [main] (AlarmLoop.v) empties: it looks the camera's name
    and phones up in the table, builds a message (Message.v, with the UTF-16
    conversion of Utf16.v) and writes it to the port (SerialLine.v).

    - Prelude.v: bytes, fixed-width integers, the outcome type [result] with
      undefined behaviour as a value, checked array access, loops with fuel, the
      tactics.  CLib.v: [snprintf] and the other library routines.  StdMap.v:
      [std::map] as a sorted list.
    - Utf16.v, Message.v, SerialLine.v, SerialBytes.v, Wheel.v, SerialConfig.v:
      SerialPort.cpp; [ConvertToUtf16Be], [PackMsgToAlarm], [readLine] with its
      256-byte buffer, the one by single bytes kept under [#else], the wheel speed
      frame, [Open] and [Set].
    - AlarmRing.v, AlarmRace.v, HikDev.v, HikText.v: HikDev.cpp; the ring, the
      same ring under the callback thread, the camera sessions, the texts.
    - MySql.v, DataBase.v, DataTyped.v: the client library's interface,
      DataBase.cpp, and the types its static tables keep.
    - CsvError.v, CsvReader.v, CsvAsync.v, CsvThread.v, CsvFailing.v, CsvLine.v,
      CsvQuote.v, CsvNumber.v, CsvFloat.v, CsvIeee.v, FloatRound.v, CsvRound.v,
      CsvParse.v, CsvFile.v: csv.h and CsvParse.cpp; exceptions, the three-block
      line buffer, the reader thread (a pair of calls, then its whole life), sources
      that throw, the line parser, quoted cells, integer and floating-point columns,
      the error of the latter (from the rounding of one operation), the reader and
      the settings, whole files.
    - AlarmLoop.v, ServiceRace.v, ServiceLive.v, Main.v: main.cpp; the loop with
      whole rounds, the loop in small steps under the callback thread, what it
      then reaches, and [main] from start to return.

    A definition has the name of the function it translates; a record has the
    fields of the class or of its static members; a loop is a [step] function run
    by [loop] or [loopM].

    ** What the theorems show

    - Refinements.  The service is a queue with an outbox, for any schedule of
      notifications, signals and rounds ([service_refines_queue]), and every
      interleaving of the callback thread with the loop has such a schedule
      ([interleaving_linearizes]); the ring is a
      queue of at most 31 alarms ([ring_refines_queue], [ring_count]); [readLine]
      splits the stream of received bytes into lines ([readLine_refines],
      [readLines_stream]); the CSV line reader and parser compute the lines and
      cells of the text ([LineReader_reads_lines], [parse_line_refines_text]); a
      [start_read]/[finish_read] pair over the thread is one read
      ([async_read_correct]).  [main_delivers] composes the start-up, the loop and
      the shutdown: from an environment where every step succeeds, [main] is the
      queue of the cameras of the table until it returns (see below for the words
      behind the arrays of [SerialPort::Set]);
      [main_interleaved_delivers] says the same of the two threads.
    - Equivalence.  The reader thread answers a session of requests as
      [SynchronousReader] does ([async_equals_sync]), and as the line reader's model
      of it does ([line_reader_over_threads]); the nested loops of
      [double_quote_escape] are a scan that toggles at quotes
      ([find_next_column_end_scan]); the buffered [readLine] returns the lines of the
      one by single bytes ([readLine_bytes_same_lines]); the UTF-16 conversion agrees with the table
      kept under [#if 0] ([ConvertToUtf16Be_table]).
    - Types, invariants and termination.  [database_typed]: the camera tables keep
      their types under every operation; [reader_session]: the destructor of the
      reader returns under every interleaving of a session that asks for nothing
      after the end of the source;
      [sigterm_ends_loop]: under light load [main] leaves its loop within 97 of
      its steps after SIGTERM;
      [ConvertToUtf16Be_total].
    - Functional behaviour.  The start-up leaves the state the loop's theorem
      starts from ([startup_ready], with [ParseCsvData_reads_settings],
      [load_builds_directory], [getters_read_directory], [start_alarm_arms]); the
      messages and their conversion ([PackMsgToAlarm_message],
      [ConvertToUtf16Be_utf8]); the port's settings ([Set_raw_8N1]); the callback.
      [parse_float_exact]: over exact arithmetic [parse_float] gives the rational
      number of the literal, [parse_float_outcome] that the type changes the
      rounding only, and [parse_float_rounding] how much.
    - Round trips: UTF-16, the wheel frame, phone lists, printed integers, as
      integers and as floats ([parse_float_fmt_d]), and files of quoted cells
      ([csv_file_roundtrip]).
    - Bounds and errors.  Where the code leaves an array, throws, or waits in
      vain, the theorem gives the exact condition: [send_phone_outcomes],
      [bad_number_stops_service], [PackMsgToAlarm_phone_length], [login_bounds],
      [mac_to_str_bounds], [Set_out_of_bounds], [startup_never_runs],
      [failed_start_returns] (a start-up that fails runs all its steps and still ends
      in a clean return),
      [parse_float_zero_exponent],
      [readLine_overlong_line_stuck], [load_missing_column], [read_source_fails]
      (the lines that come before the exception of a source).
    - Concurrency.  While notifications come with fewer than 31 alarms waiting,
      and with one store and one load per access, the two threads lose and repeat
      nothing ([race_exactly_once], [race_poll_drains]), up to the messages sent
      ([interleaved_round_delivers]); with the loads and stores the compiler may
      choose instead they do ([race_stale_alarms], [interleaved_stale_messages],
      [race_out_of_bounds]).

    ** Fuel

    Loops over arrays and counters have the bound of their counter plus one as
    fuel, and the theorems show that [OutOfFuel] never results.  The loops over a
    result set, whose length only the server knows, take a fuel that the theorems
    require to exceed the number of columns and of rows; the comment loop of the
    CSV reader runs once, since the program's policy has no comments.  The loop
    over an exponent takes at most 61 rounds for a 32-bit [int] and has 64.  The
    [readLine] by single bytes takes at most three rounds for each byte its buffer
    has free, and three more.

    ** Parameters

    The MySQL client ([MySqlApi], [MySqlLaws]), the Hikvision SDK ([HikSdk],
    [HikSdkLaws]), terminals ([Tty]), the calls for the pid file ([PidOs]), the
    serial port's [select], [read] and [write], [fopen], [localtime_r] and
    [strerror] are not part of the repository.  They are classes or arguments;
    the laws are what their manuals document, and each class has an instance that
    the witnesses run on.

    ** What is not modelled

    Logging and the progress lines [main] prints; a [LineReader] that is used again
    after an exception; the accesses to one entry of the ring byte by byte (an
    entry's fields are stored one by one and its device is read at once); memory orders
    weaker than an interleaving of the accesses; fused multiply-add, which the
    x86-64 targets of the Makefiles do not use.  The vendored headers are modelled
    only in the structures and constants the program uses.

    ** The words behind two arrays

    The loop over the speeds in [SerialPort::Set] is bounded by the size of its array
    in bytes and reads 21 words too many.  C leaves that undefined, and so do
    [Set_], [Open], [startup] and [main_]: with them no start-up succeeds
    ([startup_never_runs]).  A machine reads what the stack holds there.  The
    definitions ending in [_with], and [main_interleaved], take those words as an
    argument of type [past_end] and are otherwise the same code with the same
    bound; the theorems on a start-up that succeeds ([main_delivers],
    [main_interleaved_delivers], [Set_raw_8N1]) hold for any such words that let it
    succeed, as zeros do in their witnesses.

    ** Order of further work

    The state a [LineReader] is left in by an exception. *)
(** ** This file: the shared vocabulary *)
From Stdlib Require Export ZArith Lia Ascii.
From stdpp Require Export base tactics list strings numbers option.
#[global] Open Scope Z_scope.

Create HintDb mdalarm.

#[global] Arguments Z.eqb : simpl never.
#[global] Arguments Z.ltb : simpl never.
#[global] Arguments Z.leb : simpl never.
#[global] Arguments Z.land : simpl never.
#[global] Arguments Z.lor : simpl never.
#[global] Arguments Z.shiftl : simpl never.
#[global] Arguments Z.shiftr : simpl never.

(** ** Bytes, C characters and machine integers *)

Abbreviation bytes := (list ascii).

(** A C string or byte literal of the source as the list of its bytes. *)
Definition s2b (s : string) : bytes := String.list_ascii_of_string s.

(** [unsigned char], [char] (signed on the targets of the Makefiles) and the
    narrowing conversion to a byte. *)
Definition uchar (c : ascii) : Z := Z.of_N (N_of_ascii c).
Definition schar (c : ascii) : Z := if uchar c <? 128 then uchar c else uchar c - 256.
Definition chr (z : Z) : ascii := ascii_of_N (Z.to_N (z mod 256)).

(** Fixed-width conversions: [uint8_t], [uint16_t], [uint32_t], [uint64_t], [int32_t]. *)
Definition u8 (z : Z) : Z := z mod 2 ^ 8.
Definition u16 (z : Z) : Z := z mod 2 ^ 16.
Definition u32 (z : Z) : Z := z mod 2 ^ 32.
Definition u64 (z : Z) : Z := z mod 2 ^ 64.
Definition i32 (z : Z) : Z := (z + 2 ^ 31) mod 2 ^ 32 - 2 ^ 31.

Definition in_u32 (z : Z) : Prop := 0 <= z < 2 ^ 32.
Definition in_i32 (z : Z) : Prop := - 2 ^ 31 <= z < 2 ^ 31.

Definition NUL : ascii := chr 0.
Definition LF : ascii := chr 10.
Definition CR : ascii := chr 13.
Definition DQ : ascii := chr 34.

(** [z != 0] as C tests an integer. *)
Definition nz (z : Z) : bool := negb (z =? 0).

(** ** Outcomes of C++ code *)

(** What ends a computation without a value: behaviour the language leaves
    undefined, by the access that causes it. *)
Inductive fault :=
  | OutOfBounds      (** an array access outside the array *)
  | NullPointer      (** a dereference of a null pointer *)
  | Overflow         (** a signed overflow or a conversion out of range *)
  | AssertFailed     (** [assert] aborts *)
  | Blocked          (** a wait for a notification that never comes *)
  | OutOfFuel.       (** the fuel of a loop was too small; excluded by theorems *)

(** [Ok] a value, [Throw] a C++ exception, [Undefined] behaviour. *)
Inductive result (E A : Type) :=
  | Ok (a : A)
  | Throw (e : E)
  | Undefined (f : fault).
Arguments Ok {E A} a.
Arguments Throw {E A} e.
Arguments Undefined {E A} f.

#[export] Instance result_ret E : MRet (result E) := fun A a => Ok a.
#[export] Instance result_bind E : MBind (result E) := fun A B f m =>
  match m with
  | Ok a => f a
  | Throw e => Throw e
  | Undefined u => Undefined u
  end.
#[export] Instance result_fmap E : FMap (result E) := fun A B f m =>
  match m with
  | Ok a => Ok (f a)
  | Throw e => Throw e
  | Undefined u => Undefined u
  end.

(** Code that throws no exception. *)
Abbreviation exec A := (result Empty_set A).

(** Reading an array: outside of it the behaviour is undefined. *)
Definition read {E A} (l : list A) (i : Z) : result E A :=
  if i <? 0 then Undefined OutOfBounds
  else match l !! Z.to_nat i with
       | Some x => Ok x
       | None => Undefined OutOfBounds
       end.

(** Writing an array: outside of it the behaviour is undefined. *)
Definition write {E A} (l : list A) (i : Z) (x : A) : result E (list A) :=
  if (i <? 0) || (Z.of_nat (length l) <=? i) then Undefined OutOfBounds
  else Ok (<[Z.to_nat i := x]> l).

(** [memcpy] of [data] to [l + i], and [memset] of [n] bytes. *)
Definition blit {E A} (l : list A) (i : Z) (data : list A) : result E (list A) :=
  if (i <? 0) || (Z.of_nat (length l) <? i + Z.of_nat (length data)) then Undefined OutOfBounds
  else Ok (take (Z.to_nat i) l ++ data ++ drop (Z.to_nat i + length data) l).

(** Reading [n] consecutive elements at [l + i]. *)
Definition slice {E A} (l : list A) (i n : Z) : result E (list A) :=
  if (i <? 0) || (n <? 0) || (Z.of_nat (length l) <? i + n) then Undefined OutOfBounds
  else Ok (take (Z.to_nat n) (drop (Z.to_nat i) l)).

(** A loop: [step] either yields the next state or leaves with a result. *)
Fixpoint loop {S R} (fuel : nat) (step : S -> S + R) (s : S) : option R :=
  match fuel with
  | O => None
  | Datatypes.S fuel' =>
      match step s with
      | inl s' => loop fuel' step s'
      | inr r => Some r
      end
  end.

(** The loop of an effectful body. *)
Fixpoint loopM {E S R} (fuel : nat) (step : S -> result E (S + R)) (s : S) : result E R :=
  match fuel with
  | O => Undefined OutOfFuel
  | Datatypes.S fuel' =>
      r ← step s;
      match r with
      | inl s' => loopM fuel' step s'
      | inr x => Ok x
      end
  end.

(** ** Tactics *)

(** Case analysis on every boolean test and option of the goal and the context. *)
Ltac cases :=
  repeat match goal with
  | |- context [if ?b then _ else _] => destruct b eqn:?
  | |- context [match ?o with Some _ => _ | None => _ end] => destruct o eqn:?
  end.

(** Boolean comparisons of [Z] in the context as propositions. *)
Ltac bool2prop :=
  repeat match goal with
  | H : (_ && _)%bool = true |- _ => apply andb_true_iff in H; destruct H
  | H : (_ || _)%bool = false |- _ => apply orb_false_iff in H; destruct H
  | H : negb _ = true |- _ => apply negb_true_iff in H
  | H : negb _ = false |- _ => apply negb_false_iff in H
  | H : (_ <? _) = true |- _ => apply Z.ltb_lt in H
  | H : (_ <? _) = false |- _ => apply Z.ltb_ge in H
  | H : (_ <=? _) = true |- _ => apply Z.leb_le in H
  | H : (_ <=? _) = false |- _ => apply Z.leb_gt in H
  | H : (_ =? _) = true |- _ => apply Z.eqb_eq in H
  | H : (_ =? _) = false |- _ => apply Z.eqb_neq in H
  end.

(** Unfold the fixed-width conversions with their moduli computed. *)
Ltac widths :=
  unfold u8, u16, u32, u64, i32, in_u32, in_i32 in *;
  change (2 ^ 8) with 256 in *; change (2 ^ 16) with 65536 in *;
  change (2 ^ 32) with 4294967296 in *; change (2 ^ 31) with 2147483648 in *;
  change (2 ^ 64) with 18446744073709551616 in *.

(** Compute the constant powers of two. *)
Ltac pows :=
  repeat match goal with
  | |- context [2 ^ ?k] =>
      let v := eval vm_compute in (2 ^ k) in
      lazymatch v with Z.pos _ => change (2 ^ k) with v in * end
  | H : context [2 ^ ?k] |- _ =>
      let v := eval vm_compute in (2 ^ k) in
      lazymatch v with Z.pos _ => change (2 ^ k) with v in * end
  end.

(** Linear arithmetic through [/] and [mod] by constants. *)
Ltac divlia := pows; Z.div_mod_to_equations; lia.

(** Evaluate a comparison of [Z] that arithmetic decides. *)
Ltac zdec :=
  repeat match goal with
  | |- context [?a <? ?b] =>
      first [rewrite (proj2 (Z.ltb_lt a b)) by lia | rewrite (proj2 (Z.ltb_ge a b)) by lia]
  | |- context [?a <=? ?b] =>
      first [rewrite (proj2 (Z.leb_le a b)) by lia | rewrite (proj2 (Z.leb_gt a b)) by lia]
  | |- context [?a =? ?b] =>
      first [rewrite (proj2 (Z.eqb_eq a b)) by lia | rewrite (proj2 (Z.eqb_neq a b)) by lia]
  end; simpl andb; simpl orb; simpl negb; cbv iota.

(** A statement about one byte by checking the 256 cases. *)
Ltac byte_cases c :=
  destruct c as [[] [] [] [] [] [] [] []]; vm_compute; try reflexivity; try congruence.

(** As [zdec], with [/] and [mod] by constants. *)
Ltac zdivdec :=
  repeat match goal with
  | |- context [?a <? ?b] =>
      first [replace (a <? b) with true by (symmetry; apply Z.ltb_lt; divlia)
            |replace (a <? b) with false by (symmetry; apply Z.ltb_ge; divlia)]
  | |- context [?a =? ?b] =>
      first [replace (a =? b) with true by (symmetry; apply Z.eqb_eq; divlia)
            |replace (a =? b) with false by (symmetry; apply Z.eqb_neq; divlia)]
  end; cbn [andb orb negb].

(** ** Bytes and characters *)

Lemma uchar_range c : 0 <= uchar c < 256.
Proof. unfold uchar. pose proof (N_ascii_bounded c). lia. Qed.

Lemma uchar_chr z : uchar (chr z) = z mod 256.
Proof.
  unfold uchar, chr. pose proof (Z.mod_pos_bound z 256).
  rewrite N_ascii_embedding by lia. lia.
Qed.

Lemma uchar_chr_small z : 0 <= z < 256 -> uchar (chr z) = z.
Proof. intros ?. by rewrite uchar_chr, Z.mod_small. Qed.

Lemma chr_uchar c : chr (uchar c) = c.
Proof.
  unfold chr, uchar. pose proof (N_ascii_bounded c).
  rewrite Z.mod_small by lia. by rewrite N2Z.id, ascii_N_embedding.
Qed.

#[export] Instance uchar_inj : Inj (=) (=) uchar.
Proof. intros c d H. by rewrite <- (chr_uchar c), H, chr_uchar. Qed.

Lemma u32_small z : 0 <= z < 2 ^ 32 -> u32 z = z.
Proof. apply Z.mod_small. Qed.

Lemma u32_range z : 0 <= u32 z < 2 ^ 32.
Proof. by apply Z.mod_pos_bound. Qed.

(** A field placed at bit [k] does not meet the [k] bits below it. *)
Lemma land_shiftl_low a b k : 0 <= k -> 0 <= b < 2 ^ k -> Z.land (Z.shiftl a k) b = 0.
Proof.
  intros Hk Hb. apply Z.bits_inj'. intros n Hn. rewrite Z.land_spec, Z.bits_0.
  destruct (decide (n < k)); [by rewrite Z.shiftl_spec_low by lia|].
  rewrite <- (Z.mod_small b (2 ^ k)) by done.
  rewrite Z.mod_pow2_bits_high by lia. apply andb_false_r.
Qed.

(** The [|] of two disjoint fields is their sum. *)
Lemma lor_shiftl_add a b k :
  0 <= k -> 0 <= b < 2 ^ k -> Z.lor (Z.shiftl a k) b = a * 2 ^ k + b.
Proof.
  intros Hk Hb. rewrite <- Z.shiftl_mul_pow2 by done.
  symmetry. by apply Z.add_nocarry_lor, land_shiftl_low.
Qed.

(** [x & (2 ^ k - 1)] is the remainder. *)
Lemma land_low_mod x k m : 0 <= k -> m = 2 ^ k - 1 -> Z.land x m = x mod 2 ^ k.
Proof. intros Hk ->. rewrite <- Z.land_ones by done. by rewrite Z.ones_equiv, Z.sub_1_r. Qed.

(** ** Binds *)

Lemma bind_Ok {E A B} (m : result E A) (f : A -> result E B) b :
  m ≫= f = Ok b -> exists a, m = Ok a /\ f a = Ok b.
Proof. destruct m as [a|e|u]; cbn; [eauto|done..]. Qed.

(** ** Arrays *)

Lemma read_lookup {E A} (l : list A) (i : nat) x :
  l !! i = Some x -> @read E A l (Z.of_nat i) = Ok x.
Proof. intros H. unfold read. zdec. by rewrite Nat2Z.id, H. Qed.

Lemma write_insert {E A} (l : list A) (i : nat) x :
  (i < length l)%nat -> @write E A l (Z.of_nat i) x = Ok (<[i := x]> l).
Proof. intros H. unfold write. zdec. by rewrite Nat2Z.id. Qed.

Lemma blit_ok {E A} (l : list A) (i : nat) data :
  (i + length data <= length l)%nat ->
  @blit E A l (Z.of_nat i) data = Ok (take i l ++ data ++ drop (i + length data) l).
Proof. intros H. unfold blit. zdec. by rewrite Nat2Z.id. Qed.

Lemma slice_ok {E A} (l : list A) (i n : nat) :
  (i + n <= length l)%nat ->
  @slice E A l (Z.of_nat i) (Z.of_nat n) = Ok (take n (drop i l)).
Proof. intros H. unfold slice. zdec. by rewrite !Nat2Z.id. Qed.

Lemma drop_cons_lookup {A} (l : list A) k x r : drop k l = x :: r -> l !! k = Some x.
Proof. intros H. by rewrite <- (Nat.add_0_r k), <- lookup_drop, H. Qed.

Lemma drop_cons_tail {A} (l : list A) k x r : drop k l = x :: r -> drop (S k) l = r.
Proof. intros H. rewrite <- Nat.add_1_r, <- drop_drop, H. done. Qed.

Lemma slice_front {E A} (l : list A) (n : nat) :
  (n <= length l)%nat -> @slice E A l 0 (Z.of_nat n) = Ok (take n l).
Proof. intros H. apply (slice_ok l 0 n). lia. Qed.

Lemma read_middle {E A} (a : list A) x b i :
  i = Z.of_nat (length a) -> @read E A (a ++ x :: b) i = Ok x.
Proof. intros ->. apply read_lookup. by rewrite list_lookup_middle. Qed.

Lemma write_middle {E A} (a : list A) x b i y :
  i = Z.of_nat (length a) -> @write E A (a ++ x :: b) i y = Ok (a ++ y :: b).
Proof.
  intros ->. rewrite write_insert by (rewrite length_app; simpl; lia).
  by rewrite insert_app_r_alt, Nat.sub_diag by lia.
Qed.

Lemma blit_middle {E A} (a d d' b : list A) i :
  i = Z.of_nat (length a) -> length d = length d' -> @blit E A (a ++ d ++ b) i d' = Ok (a ++ d' ++ b).
Proof.
  intros -> Hl. rewrite blit_ok by (rewrite !length_app; lia). f_equal.
  rewrite take_app_length. f_equal. f_equal.
  rewrite drop_app_ge, drop_app_ge by lia. f_equal. by replace (_ - _ - _)%nat with 0%nat by lia.
Qed.

Lemma slice_middle {E A} (a d b : list A) i n :
  i = Z.of_nat (length a) -> n = Z.of_nat (length d) -> @slice E A (a ++ d ++ b) i n = Ok d.
Proof.
  intros -> ->. rewrite slice_ok by (rewrite !length_app; lia).
  by rewrite drop_app_length, take_app_length.
Qed.

(** ** Loops *)

Lemma loopM_S {E S R} fuel (step : S -> result E (S + R)) s :
  loopM (Datatypes.S fuel) step s =
    (r ← step s; match r with inl s' => loopM fuel step s' | inr x => Ok x end).
Proof. done. Qed.

(** What a step keeps holds at the end of the loop. *)
Lemma loopM_inv {E S R} (P : S -> Prop) (Q : R -> Prop) (step : S -> result E (S + R)) fuel s r :
  (forall s s', P s -> step s = Ok (inl s') -> P s') ->
  (forall s r, P s -> step s = Ok (inr r) -> Q r) ->
  P s -> loopM fuel step s = Ok r -> Q r.
Proof.
  intros Hl Hr. revert s. induction fuel as [|fuel IH]; intros s Hs; [done|]. cbn [loopM].
  intros ([s'|r'] & Hstep & H)%bind_Ok; [by eapply IH, H; eapply Hl|]. injection H as <-. by eapply Hr.
Qed.
