(* ===== verification/CLib.v ===== *)
(** * The C and C++ library routines the program formats its text with

    [snprintf] with the conversions [%u], [%d], [%x], [%02x], [%s] and [%c],
    [strlen], [std::string::insert] and the decimal value of a text.  These are
    the standard library's documented functions; the lemmas at the end are what
    the components use of them. *)
From S2P Require Import Prelude.

(** ** Definitions *)

(** The exceptions of the standard library that the code can raise. *)
Inductive std_exception := out_of_range.

(** The characters of a C string: those before the first NUL. *)
Fixpoint cstr (b : bytes) : bytes :=
  match b with
  | [] => []
  | c :: b' => if uchar c =? 0 then [] else c :: cstr b'
  end.

(** Reading a [char] array as a C string: without a NUL the read runs past it. *)
Definition c_string {E} (b : bytes) : result E bytes :=
  if decide (NUL ∈ b) then Ok (cstr b) else Undefined OutOfBounds.

Definition strlen (b : bytes) : Z := Z.of_nat (length (cstr b)).

Definition digit_char (d : Z) : ascii := if d <? 10 then chr (48 + d) else chr (87 + d).

Fixpoint digits_go (fuel : nat) (base n : Z) (acc : bytes) : bytes :=
  match fuel with
  | O => acc
  | S fuel' =>
      let acc' := digit_char (n mod base) :: acc in
      if n <? base then acc' else digits_go fuel' base (n / base) acc'
  end.

(** The digits of [n >= 0]; [log2 n + 1] steps are enough for any base. *)
Definition digits (base n : Z) : bytes := digits_go (S (Z.to_nat (Z.log2 n))) base n [].

(** [%u], [%d], [%x], [%02x] and [%c]. *)
Definition fmt_u (n : Z) : bytes := digits 10 n.
Definition fmt_d (n : Z) : bytes := if n <? 0 then s2b "-" ++ digits 10 (- n) else digits 10 n.
Definition fmt_x (n : Z) : bytes := digits 16 n.
Definition fmt_02x (n : Z) : bytes :=
  let d := fmt_x n in if (length d <? 2)%nat then chr 48 :: d else d.

(** [snprintf(buf, size, ...)] of a text [full] without its NUL: the C string
    left in [buf] when [size > 0], and the value returned. *)
Definition snprintf (size : Z) (full : bytes) : bytes * Z :=
  (take (Z.to_nat (size - 1)) full, Z.of_nat (length full)).

(** The usual [snprintf(buf, size, ...); str.append(buf, strlen(buf));]. *)
Definition append_snprintf (size : Z) (full : bytes) (str : bytes) : bytes :=
  str ++ cstr (fst (snprintf size full)).

(** [std::string::insert(pos, s)]. *)
Definition str_insert (str : bytes) (pos : Z) (s : bytes) : result std_exception bytes :=
  if Z.of_nat (length str) <? pos then Throw out_of_range
  else Ok (take (Z.to_nat pos) str ++ s ++ drop (Z.to_nat pos) str).

(** [std::string::at(pos)]. *)
Definition str_at (str : bytes) (pos : Z) : result std_exception ascii :=
  if pos <? 0 then Throw out_of_range
  else match str !! Z.to_nat pos with
       | Some c => Ok c
       | None => Throw out_of_range
       end.

Definition str_size (str : bytes) : Z := Z.of_nat (length str).

Definition is_digit (c : ascii) : bool := (48 <=? schar c) && (schar c <=? 57).

(** The texts of a list with commas between them. *)
Fixpoint join (l : list bytes) : bytes :=
  match l with
  | [] => []
  | [s] => s
  | s :: l' => s ++ s2b "," ++ join l'
  end.

(** The digits a text starts with. *)
Fixpoint digit_prefix (s : bytes) : bytes :=
  match s with
  | [] => []
  | c :: s' => if is_digit c then c :: digit_prefix s' else []
  end.

(** The number a text of decimal digits denotes. *)
Definition dec_value (s : bytes) : Z := foldl (fun v c => v * 10 + (uchar c - 48)) 0 s.

(** The value of a digit character of base 16 or less. *)
Definition digit_value (c : ascii) : Z :=
  if uchar c <? 58 then uchar c - 48 else uchar c - 87.

Definition base_value (base : Z) (s : bytes) : Z :=
  foldl (fun v c => v * base + digit_value c) 0 s.

(** ** Lemmas *)

Lemma digit_value_char d : 0 <= d < 16 -> digit_value (digit_char d) = d.
Proof.
  intros Hd. unfold digit_value, digit_char.
  destruct (Z.ltb_spec d 10); rewrite uchar_chr_small by lia; zdec; lia.
Qed.

Lemma digits_go_app fuel base n acc :
  digits_go fuel base n acc = digits_go fuel base n [] ++ acc.
Proof.
  revert n acc. induction fuel as [|fuel IH]; intros n acc; simpl; [done|].
  case_match; [done|]. rewrite IH, (IH _ [_]), <- app_assoc. done.
Qed.

Lemma digits_go_S fuel base n :
  digits_go (S fuel) base n [] =
    (if n <? base then [] else digits_go fuel base (n / base) []) ++ [digit_char (n mod base)].
Proof. simpl. case_match; [done|]. apply digits_go_app. Qed.

Lemma digits_fuel_step fuel base n :
  2 <= base -> 0 <= n < 2 ^ Z.of_nat (S fuel) -> 0 <= n / base < 2 ^ Z.of_nat fuel.
Proof.
  intros Hb Hn. split; [apply Z.div_pos; lia|].
  apply Z.div_lt_upper_bound; [lia|]. rewrite Nat2Z.inj_succ, Z.pow_succ_r in Hn by lia. nia.
Qed.

Lemma digits_go_value fuel base n :
  2 <= base <= 16 -> 0 <= n < 2 ^ Z.of_nat fuel ->
  base_value base (digits_go fuel base n []) = n.
Proof.
  intros Hb. revert n. induction fuel as [|fuel IH]; intros n Hn.
  { unfold base_value. simpl in *. lia. }
  rewrite digits_go_S. unfold base_value. rewrite foldl_app. simpl.
  rewrite digit_value_char by (pose proof (Z.mod_pos_bound n base); lia).
  destruct (Z.ltb_spec n base).
  - simpl. rewrite Z.mod_small; lia.
  - fold (base_value base (digits_go fuel base (n / base) [])).
    rewrite IH by (apply digits_fuel_step; lia).
    pose proof (Z.div_mod n base). lia.
Qed.

Lemma log2_fuel n : 0 <= n -> 0 <= n < 2 ^ Z.of_nat (S (Z.to_nat (Z.log2 n))).
Proof.
  intros Hn. split; [done|]. rewrite Nat2Z.inj_succ, Z2Nat.id by apply Z.log2_nonneg.
  destruct (decide (n = 0)) as [->|]; [done|]. apply Z.log2_spec. lia.
Qed.

Lemma digits_value base n :
  2 <= base <= 16 -> 0 <= n -> base_value base (digits base n) = n.
Proof. intros ??. apply digits_go_value; [done|by apply log2_fuel]. Qed.

Lemma digits_go_digits fuel base n :
  2 <= base <= 16 -> 0 <= n ->
  Forall (fun c => exists d, 0 <= d < base /\ c = digit_char d) (digits_go fuel base n []).
Proof.
  intros Hb. revert n. induction fuel as [|fuel IH]; intros n Hn; [by constructor|].
  rewrite digits_go_S. apply Forall_app. split.
  - case_match; [by constructor|]. apply IH, Z.div_pos; lia.
  - constructor; [|by constructor]. exists (n mod base).
    split; [apply Z.mod_pos_bound; lia|done].
Qed.

Lemma digit_char_10 d : 0 <= d < 10 -> digit_char d = chr (48 + d).
Proof. intros Hd. unfold digit_char. by rewrite (proj2 (Z.ltb_lt _ _)) by lia. Qed.

Lemma schar_digit d : 0 <= d < 10 -> schar (chr (48 + d)) = 48 + d.
Proof.
  intros Hd. unfold schar. rewrite uchar_chr_small by lia.
  by rewrite (proj2 (Z.ltb_lt _ _)) by lia.
Qed.

Lemma is_digit_uchar c : is_digit c = true <-> 48 <= uchar c <= 57.
Proof.
  unfold is_digit, schar. pose proof (uchar_range c).
  rewrite andb_true_iff, !Z.leb_le. destruct (Z.ltb_spec (uchar c) 128); lia.
Qed.

(** Decimal texts are made of digits, and their value is the number. *)
Lemma digits10_is_digit n : 0 <= n -> Forall (fun c => is_digit c = true) (digits 10 n).
Proof.
  intros Hn. unfold digits.
  pose proof (digits_go_digits (S (Z.to_nat (Z.log2 n))) 10 n ltac:(lia) Hn) as H.
  revert H. apply List.Forall_impl. intros c (d & Hd & ->). apply is_digit_uchar.
  rewrite digit_char_10, uchar_chr_small by lia. lia.
Qed.

Lemma base_value_dec s :
  Forall (fun c => is_digit c = true) s -> base_value 10 s = dec_value s.
Proof.
  unfold base_value, dec_value. generalize 0 as v.
  induction s as [|c s IH]; intros v Hs; simpl; [done|].
  apply Forall_cons_iff in Hs as [Hc Hs]. apply is_digit_uchar in Hc. rewrite IH by done.
  unfold digit_value. by rewrite (proj2 (Z.ltb_lt _ _)) by lia.
Qed.

Lemma fmt_u_value n : 0 <= n -> dec_value (fmt_u n) = n.
Proof.
  intros Hn. rewrite <- base_value_dec by (by apply digits10_is_digit).
  apply digits_value; lia.
Qed.

Lemma digits_go_length fuel base n k :
  2 <= base -> 0 <= n < base ^ Z.of_nat (S k) ->
  (length (digits_go fuel base n []) <= S k)%nat.
Proof.
  intros Hb. revert n k. induction fuel as [|fuel IH]; intros n k Hn; [simpl; lia|].
  rewrite digits_go_S, length_app. simpl.
  destruct (Z.ltb_spec n base); [simpl; lia|].
  destruct k as [|k]; [simpl in Hn; lia|].
  rewrite Nat2Z.inj_succ, Z.pow_succ_r in Hn by lia.
  pose proof (IH (n / base) k). assert (0 <= n / base < base ^ Z.of_nat (S k)).
  { split; [apply Z.div_pos; lia|]. apply Z.div_lt_upper_bound; lia. }
  lia.
Qed.

Lemma digits_nonempty base n : (1 <= length (digits base n))%nat.
Proof. unfold digits. rewrite digits_go_S, length_app. simpl. lia. Qed.

(** [%u] of a 32-bit value takes at most ten characters. *)
Lemma fmt_u_length n : in_u32 n -> (1 <= length (fmt_u n) <= 10)%nat.
Proof.
  intros Hn. split; [apply digits_nonempty|].
  apply digits_go_length; [lia|]. unfold in_u32 in Hn. simpl. lia.
Qed.

Lemma cstr_no_nul s : Forall (fun c => uchar c <> 0) s -> cstr s = s.
Proof.
  induction 1 as [|c s Hc _ IH]; simpl; [done|].
  rewrite (proj2 (Z.eqb_neq _ _)) by done. by rewrite IH.
Qed.

Lemma cstr_Forall s : Forall (fun c => uchar c <> 0) (cstr s).
Proof.
  induction s as [|c s IH]; simpl; [by constructor|].
  destruct (Z.eqb_spec (uchar c) 0); constructor; done.
Qed.

Lemma cstr_length_le s : (length (cstr s) <= length s)%nat.
Proof. induction s as [|c s IH]; simpl; [lia|]. case_match; simpl; lia. Qed.

Lemma snprintf_fits size full :
  Z.of_nat (length full) < size -> snprintf size full = (full, Z.of_nat (length full)).
Proof. intros ?. unfold snprintf. by rewrite take_ge by lia. Qed.

(** What [snprintf] leaves always fits the buffer with its NUL. *)
Lemma snprintf_bounded size full :
  0 < size -> Z.of_nat (length (fst (snprintf size full))) < size.
Proof. intros ?. simpl. rewrite length_take. lia. Qed.

Lemma str_at_lookup str i c : str !! i = Some c -> str_at str (Z.of_nat i) = Ok c.
Proof. intros H. unfold str_at. zdec. by rewrite Nat2Z.id, H. Qed.

Lemma str_insert_length str pos s r :
  0 <= pos -> str_insert str pos s = Ok r -> length r = (length str + length s)%nat.
Proof.
  unfold str_insert. intros ?. case_match; [done|]. bool2prop. intros [= <-].
  rewrite !length_app, length_take, length_drop. lia.
Qed.

Lemma str_insert_app a b pos s :
  pos = Z.of_nat (length a) -> str_insert (a ++ b) pos s = Ok (a ++ s ++ b).
Proof.
  intros ->. unfold str_insert. rewrite length_app.
  rewrite (proj2 (Z.ltb_ge _ _)) by lia.
  by rewrite Nat2Z.id, take_app_length, drop_app_length.
Qed.

#[export] Hint Resolve uchar_range u32_range digits10_is_digit cstr_Forall : mdalarm.

Lemma digit_prefix_all s : forallb is_digit s = true -> digit_prefix s = s.
Proof.
  induction s as [|c s IH]; [done|]. simpl. intros [Hc Hs]%andb_true_iff.
  rewrite Hc. f_equal. auto.
Qed.

Lemma digit_prefix_is_digit s : Forall (fun c => is_digit c = true) (digit_prefix s).
Proof.
  induction s as [|c s IH]; simpl; [constructor|]. destruct (is_digit c) eqn:E; by constructor.
Qed.

Lemma dec_value_snoc s c : dec_value (s ++ [c]) = dec_value s * 10 + (uchar c - 48).
Proof. unfold dec_value. by rewrite foldl_app. Qed.

Lemma schar_digit_value c : is_digit c = true -> schar c = uchar c /\ 0 <= uchar c - 48 <= 9.
Proof.
  intros H. apply is_digit_uchar in H. unfold schar. rewrite (proj2 (Z.ltb_lt _ _)) by lia. lia.
Qed.
