(* ===== verification/Utf16.v ===== *)
(** * Text conversion of SerialPort.cpp: UTF-8 to hexadecimal UTF-16BE

    [ToChar] and [ConvertToUtf16Be] of src/src/SerialPort.cpp.  The loop is
    written over the index [i : uint32_t] as in the source; [units] is the
    reference definition over the remaining text, and [utf8] is the standard
    encoding the input is meant to be in. *)
From S2P Require Import Prelude CLib.

(** ** The code *)

(** [char ToChar(uint8_t val)]: the upper-case hexadecimal digit. *)
Definition ToChar (val : Z) : ascii :=
  if val <? 0xA then chr (val + 0x30) else chr (val + 0x37).

(** [((uint16_t)strIn.at(i) & 0x00ff)]: [char] is sign-extended, then masked. *)
Definition char_in (c : ascii) : Z := Z.land (u16 (schar c)) 0x00ff.

(** [strIn.at(j)] masked when [j < strIn.size()], and [0] otherwise. *)
Definition char_in_at (strIn : bytes) (j : Z) : result std_exception Z :=
  if j <? str_size strIn then char_in <$> str_at strIn j else mret 0.

(** The four [push_back] of a code unit: the bytes of [Utf16Code] high byte
    first, each as two digits. *)
Definition push_unit (Utf16Code : Z) (strOut : bytes) : bytes :=
  let HighChar := u8 (Z.shiftr Utf16Code 8) in
  let LowChar := u8 Utf16Code in
  strOut ++
    [ToChar (Z.land (Z.shiftr HighChar 4) 0x0f); ToChar (Z.land HighChar 0x0f);
     ToChar (Z.land (Z.shiftr LowChar 4) 0x0f); ToChar (Z.land LowChar 0x0f)].

(** One iteration of the [while (i < strIn.size())] loop. *)
Definition convert_step (strIn : bytes) (st : Z * bytes)
    : result std_exception ((Z * bytes) + bytes) :=
  let (i, strOut) := st in
  if i <? str_size strIn then
    c ← str_at strIn i;
    let CharInFirst := char_in c in
    CharInSecond ← char_in_at strIn (u32 (i + 1));
    CharInThird ← char_in_at strIn (u32 (i + 2));
    if negb (nz (Z.land CharInFirst 0x0080)) then
      mret (inl (u32 (i + 1), push_unit CharInFirst strOut))
    else if (Z.shiftr CharInFirst 5 =? 0x06) && (Z.shiftr CharInSecond 6 =? 0x02) then
      let Utf16Code :=
        u16 (Z.lor (Z.shiftl CharInFirst 6) (Z.land CharInSecond 0x3F)) in
      mret (inl (u32 (i + 2), push_unit Utf16Code strOut))
    else if (Z.shiftr CharInFirst 4 =? 0x0E) && (Z.shiftr CharInSecond 6 =? 0x02)
            && (Z.shiftr CharInThird 6 =? 0x02) then
      let Utf16Code :=
        u16 (Z.lor (Z.lor (Z.shiftl CharInFirst 12)
                          (Z.shiftl (Z.land CharInSecond 0x3F) 6))
                   (Z.land CharInThird 0x3F)) in
      mret (inl (u32 (i + 3), push_unit Utf16Code strOut))
    else mret (inl (u32 (i + 1), strOut))
  else mret (inr strOut).

(** [void ConvertToUtf16Be(std::string &strIn, std::string &strOut)]: every
    iteration advances [i], so [strIn.size() + 1] of them are enough. *)
Definition ConvertToUtf16Be (strIn strOut : bytes) : result std_exception bytes :=
  loopM (S (length strIn)) (convert_step strIn) (0, strOut).

(** *** The conversion kept under [#if 0]

    A table of the characters of dates and addresses, filled by the constructor
    of [SerialPort], and the loop that looks each character up in it. *)
Definition Utf16beConvertor : list (ascii * bytes) :=
  [("0"%char, s2b "0030"); ("1"%char, s2b "0031"); ("2"%char, s2b "0032"); ("3"%char, s2b "0033");
   ("4"%char, s2b "0034"); ("5"%char, s2b "0035"); ("6"%char, s2b "0036"); ("7"%char, s2b "0037");
   ("8"%char, s2b "0038"); ("9"%char, s2b "0039"); (" "%char, s2b "0020"); ("-"%char, s2b "002D");
   ("."%char, s2b "002E"); (":"%char, s2b "003A")].

Fixpoint table_find (c : ascii) (table : list (ascii * bytes)) : option bytes :=
  match table with
  | [] => None
  | (d, t) :: table => if bool_decide (c = d) then Some t else table_find c table
  end.

Fixpoint table_convert (strIn strOut : bytes) : bytes :=
  match strIn with
  | [] => strOut
  | c :: strIn =>
      match table_find c Utf16beConvertor with
      | None => table_convert strIn strOut
      | Some t => table_convert strIn (strOut ++ t)
      end
  end.

(** ** Reference definitions *)

(** The code units the loop emits for a text. *)
Fixpoint units (s : bytes) : list Z :=
  match s with
  | [] => []
  | c1 :: s1 =>
      let b1 := uchar c1 in
      if b1 <? 0x80 then b1 :: units s1
      else match s1 with
           | [] => []
           | c2 :: s2 =>
               let b2 := uchar c2 in
               if (b1 / 2 ^ 5 =? 6) && (b2 / 2 ^ 6 =? 2) then
                 (b1 * 2 ^ 6 + b2 mod 2 ^ 6) :: units s2
               else match s2 with
                    | [] => units s1
                    | c3 :: s3 =>
                        let b3 := uchar c3 in
                        if (b1 / 2 ^ 4 =? 14) && (b2 / 2 ^ 6 =? 2) && (b3 / 2 ^ 6 =? 2) then
                          (b1 mod 2 ^ 4 * 2 ^ 12 + b2 mod 2 ^ 6 * 2 ^ 6 + b3 mod 2 ^ 6) :: units s3
                        else units s1
                    end
           end
  end.

Definition second (s : bytes) : Z := match s with [] => 0 | c :: _ => uchar c end.

(** What one iteration does at [c1 :: s1], the rest of the text. *)
Definition unit_step (c1 : ascii) (s1 : bytes) : nat * list Z :=
  let b1 := uchar c1 in let b2 := second s1 in let b3 := second (drop 1 s1) in
  if b1 <? 0x80 then (1%nat, [b1])
  else if (b1 / 2 ^ 5 =? 6) && (b2 / 2 ^ 6 =? 2) then (2%nat, [b1 * 2 ^ 6 + b2 mod 2 ^ 6])
  else if (b1 / 2 ^ 4 =? 14) && (b2 / 2 ^ 6 =? 2) && (b3 / 2 ^ 6 =? 2) then
    (3%nat, [b1 mod 2 ^ 4 * 2 ^ 12 + b2 mod 2 ^ 6 * 2 ^ 6 + b3 mod 2 ^ 6])
  else (1%nat, []).

(** Four upper-case hexadecimal digits, most significant first. *)
Definition hex4 (u : Z) : bytes :=
  [ToChar (u / 2 ^ 12); ToChar (u / 2 ^ 8 mod 2 ^ 4);
   ToChar (u / 2 ^ 4 mod 2 ^ 4); ToChar (u mod 2 ^ 4)].

(** The UTF-8 encoding of a code point, by length. *)
Definition utf8 (cp : Z) : bytes :=
  if cp <? 0x80 then [chr cp]
  else if cp <? 0x800 then [chr (0xC0 + cp / 2 ^ 6); chr (0x80 + cp mod 2 ^ 6)]
  else if cp <? 0x10000 then
    [chr (0xE0 + cp / 2 ^ 12); chr (0x80 + cp / 2 ^ 6 mod 2 ^ 6); chr (0x80 + cp mod 2 ^ 6)]
  else
    [chr (0xF0 + cp / 2 ^ 18); chr (0x80 + cp / 2 ^ 12 mod 2 ^ 6);
     chr (0x80 + cp / 2 ^ 6 mod 2 ^ 6); chr (0x80 + cp mod 2 ^ 6)].

Definition utf8_text (cps : list Z) : bytes := concat (utf8 <$> cps).

Definition code_point (cp : Z) : Prop := 0 <= cp < 0x110000.

(** What the code makes of a code point: a two-byte sequence keeps the marker
    bits of its first byte, a four-byte sequence is dropped. *)
Definition unit_of (cp : Z) : list Z :=
  if cp <? 0x80 then [cp]
  else if cp <? 0x800 then [cp + 0x3000]
  else if cp <? 0x10000 then [cp]
  else [].

(** Code points the code transmits unchanged: ASCII and three-byte sequences. *)
Definition transmitted (cp : Z) : Prop := 0 <= cp < 0x80 \/ 0x800 <= cp < 0x10000.

(** An upper-case hexadecimal digit. *)
Definition is_hex (c : ascii) : Prop := 48 <= uchar c <= 57 \/ 65 <= uchar c <= 70.

(** The receiver: four hexadecimal digits are one code unit. *)
Definition unhex (c : ascii) : Z := if uchar c <? 58 then uchar c - 48 else uchar c - 55.

Fixpoint decode_units (s : bytes) : list Z :=
  match s with
  | a :: b :: c :: d :: s' =>
      (unhex a * 2 ^ 12 + unhex b * 2 ^ 8 + unhex c * 2 ^ 4 + unhex d) :: decode_units s'
  | _ => []
  end.

(** ** The loop computes [units] *)

Lemma char_in_uchar c : char_in c = uchar c.
Proof. byte_cases c. Qed.

Lemma nibbles_hex4 u :
  0 <= u < 2 ^ 16 -> forall strOut, push_unit u strOut = strOut ++ hex4 u.
Proof.
  intros Hu strOut. unfold push_unit, hex4. f_equal.
  rewrite ?(land_low_mod _ 4 15) by done; rewrite ?Z.shiftr_div_pow2 by done; unfold u8.
  repeat apply (f_equal2 cons); try done; apply (f_equal ToChar);
    divlia.
Qed.

Lemma char_in_at_drop strIn j :
  char_in_at strIn (Z.of_nat j) = Ok (match drop j strIn with [] => 0 | c :: _ => uchar c end).
Proof.
  unfold char_in_at, str_size. destruct (Z.ltb_spec (Z.of_nat j) (Z.of_nat (length strIn))).
  - destruct (lookup_lt_is_Some_2 strIn j) as [c Hc]; [lia|].
    rewrite (str_at_lookup _ _ _ Hc), (drop_S _ _ _ Hc). simpl.
    by rewrite char_in_uchar.
  - by rewrite drop_ge by lia.
Qed.

(** The bit tests and shifts of the loop as arithmetic on bytes. *)
Lemma ascii_test b : 0 <= b < 256 -> negb (nz (Z.land b 0x80)) = (b <? 0x80).
Proof.
  intros Hb. rewrite <- (uchar_chr_small b) by done. generalize (chr b) as c. intros c.
  byte_cases c.
Qed.

Lemma two_bytes_value b1 b2 :
  0 <= b1 < 256 -> 0 <= b2 < 256 ->
  u16 (Z.lor (Z.shiftl b1 6) (Z.land b2 0x3F)) = b1 * 2 ^ 6 + b2 mod 2 ^ 6.
Proof.
  intros H1 H2. rewrite (land_low_mod b2 6) by done.
  rewrite lor_shiftl_add by (try lia; apply Z.mod_pos_bound; lia).
  unfold u16. apply Z.mod_small. pose proof (Z.mod_pos_bound b2 (2 ^ 6)). lia.
Qed.

Lemma three_bytes_value b1 b2 b3 :
  0 <= b1 < 256 -> 0 <= b2 < 256 -> 0 <= b3 < 256 ->
  u16 (Z.lor (Z.lor (Z.shiftl b1 12) (Z.shiftl (Z.land b2 0x3F) 6)) (Z.land b3 0x3F)) =
  b1 mod 2 ^ 4 * 2 ^ 12 + b2 mod 2 ^ 6 * 2 ^ 6 + b3 mod 2 ^ 6.
Proof.
  intros H1 H2 H3. rewrite !(land_low_mod _ 6) by done.
  pose proof (Z.mod_pos_bound b2 (2 ^ 6)). pose proof (Z.mod_pos_bound b3 (2 ^ 6)).
  rewrite <- Z.lor_assoc, (lor_shiftl_add (b2 mod 2 ^ 6)) by lia.
  rewrite lor_shiftl_add by lia. unfold u16.
  divlia.
Qed.

Lemma unit_step_units c1 s1 :
  units (c1 :: s1) =
    snd (unit_step c1 s1) ++ units (drop (fst (unit_step c1 s1)) (c1 :: s1)) /\
  (1 <= fst (unit_step c1 s1) <= S (length s1))%nat.
Proof.
  unfold unit_step. cbn [units]. fold units.
  destruct (uchar c1 <? 0x80); [split; [done|simpl; lia]|].
  destruct s1 as [|c2 [|c3 s3]]; cbn [second drop fst snd].
  - rewrite !andb_false_r. split; [done|simpl; lia].
  - rewrite !andb_false_r. destruct (_ && _); (split; [done|simpl; lia]).
  - destruct (_ && _); [split; [done|simpl; lia]|].
    destruct (_ && _ && _); (split; [done|simpl; lia]).
Qed.

Lemma unit_step_range c1 s1 : Forall (fun u => 0 <= u < 2 ^ 16) (snd (unit_step c1 s1)).
Proof.
  unfold unit_step. pose proof (uchar_range c1).
  repeat case_match; simpl; repeat constructor; bool2prop; divlia.
Qed.

Lemma second_range s : 0 <= second s < 256.
Proof. destruct s as [|c s]; simpl; [lia|apply uchar_range]. Qed.

(** One iteration of the loop, away from the wrap-around of [i]. *)
Lemma convert_step_spec strIn k c1 s1 strOut :
  Z.of_nat (length strIn) + 3 <= 2 ^ 32 -> drop k strIn = c1 :: s1 ->
  convert_step strIn (Z.of_nat k, strOut) =
  Ok (inl (Z.of_nat (k + fst (unit_step c1 s1)),
           strOut ++ concat (hex4 <$> snd (unit_step c1 s1)))).
Proof.
  intros Hlen Hk.
  assert (Hlk : strIn !! k = Some c1) by (rewrite <- (Nat.add_0_r k), <- lookup_drop, Hk; done).
  pose proof (lookup_lt_Some _ _ _ Hlk).
  assert (Hi : forall d, 0 <= d <= 3 -> u32 (Z.of_nat k + d) = Z.of_nat (k + Z.to_nat d)).
  { intros d Hd. rewrite u32_small by lia. lia. }
  assert (Hd : forall d, drop (k + S d) strIn = drop d s1).
  { intros d. rewrite Nat.add_comm, <- drop_drop. replace (S d) with (1 + d)%nat by lia.
    rewrite drop_drop, Nat.add_comm, <- !drop_drop. by rewrite Hk. }
  unfold convert_step. unfold str_size. zdec.
  rewrite (str_at_lookup _ _ _ Hlk). cbn [mbind result_bind].
  rewrite !Hi by lia. rewrite !char_in_at_drop. cbn [mbind result_bind mret result_ret].
  change (Z.to_nat 1) with 1%nat. change (Z.to_nat 2) with 2%nat.
  rewrite (Hd 0%nat), (Hd 1%nat), drop_0. fold (second s1) (second (drop 1 s1)).
  rewrite char_in_uchar. pose proof (uchar_range c1) as H1.
  pose proof (second_range s1) as H2. pose proof (second_range (drop 1 s1)) as H3.
  pose proof (unit_step_range c1 s1) as Hr.
  unfold unit_step in *. rewrite ascii_test, !Z.shiftr_div_pow2 by lia.
  rewrite two_bytes_value, three_bytes_value by done.
  repeat case_match; cbn [fst snd fmap list_fmap concat] in *;
    try (apply Forall_cons_iff in Hr as [Hr _]; rewrite nibbles_hex4 by done);
    rewrite ?app_nil_r; done.
Qed.

Lemma convert_loop strIn fuel k strOut :
  Z.of_nat (length strIn) + 3 <= 2 ^ 32 -> (length strIn - k < fuel)%nat ->
  (k <= length strIn)%nat ->
  loopM fuel (convert_step strIn) (Z.of_nat k, strOut) =
  Ok (strOut ++ concat (hex4 <$> units (drop k strIn))).
Proof.
  intros Hlen. revert k strOut. induction fuel as [|fuel IH]; intros k strOut Hf Hk; [lia|].
  cbn [loopM]. destruct (drop k strIn) as [|c1 s1] eqn:E.
  - apply (f_equal length) in E. rewrite length_drop in E. simpl in E.
    unfold convert_step, str_size. zdec. simpl. by rewrite app_nil_r.
  - rewrite (convert_step_spec _ _ _ _ _ Hlen E). cbn [mbind result_bind].
    destruct (unit_step_units c1 s1) as [-> Hn].
    pose proof (f_equal length E) as El. rewrite length_drop in El. simpl in El.
    rewrite IH by lia. rewrite fmap_app, concat_app, app_assoc, <- E, drop_drop.
    done.
Qed.

(** ** What [units] does on UTF-8 text *)

Lemma uchar_chr_off a b : 0 <= b -> 0 <= a -> a + b < 256 -> uchar (chr (a + b)) = a + b.
Proof. intros. apply uchar_chr_small. lia. Qed.

Lemma units_skip c s : 0x80 <= uchar c < 0xC0 -> units (c :: s) = units s.
Proof.
  intros Hc. destruct (unit_step_units c s) as [-> _]. unfold unit_step.
  replace (uchar c / 2 ^ 5 =? 6) with false by (symmetry; apply Z.eqb_neq; divlia).
  replace (uchar c / 2 ^ 4 =? 14) with false by (symmetry; apply Z.eqb_neq; divlia).
  by zdec.
Qed.

(** The first iteration on [c1 :: s1], when its tests are decided. *)
Ltac first_unit :=
  match goal with
  | |- context [units (?c1 :: ?s1)] =>
      destruct (unit_step_units c1 s1) as [-> _]; unfold unit_step; cbn [second drop];
      rewrite ?uchar_chr_off by divlia; zdivdec; cbn [fst snd app drop]
  end.

Lemma units_utf8 cp s : code_point cp -> units (utf8 cp ++ s) = unit_of cp ++ units s.
Proof.
  intros Hcp. unfold code_point in Hcp. unfold utf8, unit_of.
  destruct (Z.ltb_spec cp 0x80); [|destruct (Z.ltb_spec cp 0x800);
    [|destruct (Z.ltb_spec cp 0x10000)]]; cbn [app].
  - cbn [units]. rewrite uchar_chr_small by lia. by zdec.
  - first_unit. f_equal. divlia.
  - first_unit. f_equal. divlia.
  - first_unit. rewrite !units_skip; [done|rewrite uchar_chr_off; divlia..].
Qed.

Lemma units_text cps :
  Forall code_point cps -> units (utf8_text cps) = concat (unit_of <$> cps).
Proof.
  induction 1 as [|cp cps Hcp _ IH]; [done|].
  unfold utf8_text in *. cbn [fmap list_fmap concat].
  by rewrite units_utf8, IH.
Qed.

Lemma units_drop_range s : Forall (fun u => 0 <= u < 2 ^ 16) (units s).
Proof.
  induction s as [s IH] using (induction_ltof1 _ length). destruct s as [|c1 s1]; [constructor|].
  destruct (unit_step_units c1 s1) as [-> Hn]. apply Forall_app. split; [apply unit_step_range|].
  apply IH. unfold ltof. rewrite length_drop. simpl. lia.
Qed.

Lemma units_length s : (length (units s) <= length s)%nat.
Proof.
  induction s as [s IH] using (induction_ltof1 _ length). destruct s as [|c1 s1]; [simpl; lia|].
  destruct (unit_step_units c1 s1) as [-> Hn]. rewrite length_app.
  assert (length (snd (unit_step c1 s1)) <= fst (unit_step c1 s1))%nat
    by (unfold unit_step; repeat case_match; simpl; lia).
  pose proof (IH (drop (fst (unit_step c1 s1)) (c1 :: s1))) as H'. unfold ltof in H'.
  rewrite length_drop in H'. simpl length in *. lia.
Qed.

Lemma ConvertToUtf16Be_units strIn strOut :
  Z.of_nat (length strIn) + 3 <= 2 ^ 32 ->
  ConvertToUtf16Be strIn strOut = Ok (strOut ++ concat (hex4 <$> units strIn)).
Proof.
  intros H. unfold ConvertToUtf16Be. change 0 with (Z.of_nat 0).
  rewrite convert_loop by (try done; lia). by rewrite drop_0.
Qed.

Lemma hex4_length us : length (concat (hex4 <$> us)) = (4 * length us)%nat.
Proof.
  induction us as [|u us IH]; [done|]. rewrite fmap_cons. cbn [concat].
  rewrite length_app, IH. simpl. lia.
Qed.

Lemma ToChar_hex d : 0 <= d < 16 -> is_hex (ToChar d) /\ unhex (ToChar d) = d.
Proof.
  intros Hd. unfold ToChar, is_hex, unhex.
  destruct (Z.ltb_spec d 10); rewrite uchar_chr_small by lia; split; try lia; zdec; lia.
Qed.

Lemma hex4_hex u : 0 <= u < 2 ^ 16 -> Forall is_hex (hex4 u).
Proof.
  intros Hu. unfold hex4.
  repeat (apply List.Forall_cons; [apply ToChar_hex; divlia|]). constructor.
Qed.

Lemma decode_hex4 us :
  Forall (fun u => 0 <= u < 2 ^ 16) us -> decode_units (concat (hex4 <$> us)) = us.
Proof.
  induction 1 as [|u us Hu _ IH]; [done|]. rewrite fmap_cons. cbn [concat].
  unfold hex4 at 1. cbn [app decode_units]. rewrite IH.
  rewrite !(fun d H => proj2 (ToChar_hex d H)) by divlia. f_equal. divlia.
Qed.

(** ** Properties *)

(** On every text, valid UTF-8 or not, [ConvertToUtf16Be] returns: no access
    is out of range and the loop ends.  It appends to [strOut] upper-case
    hexadecimal digits only, four for each of the [units] of the text, so at
    most four times the size of the text. *)
Theorem ConvertToUtf16Be_total strIn strOut :
  Z.of_nat (length strIn) + 3 <= 2 ^ 32 ->
  exists out,
    ConvertToUtf16Be strIn strOut = Ok (strOut ++ out) /\
    decode_units out = units strIn /\
    Forall is_hex out /\
    length out = (4 * length (units strIn))%nat /\
    (length out <= 4 * length strIn)%nat.
Proof.
  intros H. exists (concat (hex4 <$> units strIn)).
  pose proof (units_drop_range strIn) as Hr. pose proof (units_length strIn).
  split; [by apply ConvertToUtf16Be_units|]. split; [by apply decode_hex4|].
  rewrite hex4_length. split; [|lia].
  apply Forall_concat, Forall_fmap. revert Hr. apply List.Forall_impl. apply hex4_hex.
Qed.

Lemma ConvertToUtf16Be_total_witness :
  exists out, ConvertToUtf16Be [chr 0x41; chr 0xE5; chr 0xFF] [] = Ok ([] ++ out) /\
    decode_units out = [0x41].
Proof.
  destruct (ConvertToUtf16Be_total [chr 0x41; chr 0xE5; chr 0xFF] []) as (out & H & D & _);
    [vm_compute; discriminate|].
  exists out. split; [exact H|]. rewrite D. vm_compute. reflexivity.
Defined.

(** C34: on the UTF-8 encoding of a text, [ConvertToUtf16Be] appends the code unit
    of each ASCII character and of each character of three bytes; a character
    of two bytes comes out [0x3000] above its code (the marker bits of its
    first byte are not masked), and a character of four bytes is dropped. *)
Theorem ConvertToUtf16Be_utf8 cps strOut :
  Forall code_point cps -> Z.of_nat (length (utf8_text cps)) + 3 <= 2 ^ 32 ->
  ConvertToUtf16Be (utf8_text cps) strOut =
  Ok (strOut ++ concat (hex4 <$> concat (unit_of <$> cps))).
Proof. intros Hc Hl. by rewrite ConvertToUtf16Be_units, units_text. Qed.

Lemma ConvertToUtf16Be_utf8_witness :
  ConvertToUtf16Be (utf8_text [0x41; 0xE9; 0x53D1; 0x1F600]) [] = Ok (s2b "004130E953D1").
Proof.
  pose proof (ConvertToUtf16Be_utf8 [0x41; 0xE9; 0x53D1; 0x1F600] []) as H.
  rewrite H; [vm_compute; reflexivity| |vm_compute; discriminate].
  repeat constructor; vm_compute; (discriminate || reflexivity).
Defined.

(** C19: round trip: a receiver that reads the digits four by four recovers every
    text of ASCII and three-byte characters (all of Chinese among them). *)
Theorem ConvertToUtf16Be_roundtrip cps :
  Forall transmitted cps -> Z.of_nat (length (utf8_text cps)) + 3 <= 2 ^ 32 ->
  decode_units <$> ConvertToUtf16Be (utf8_text cps) [] = Ok cps.
Proof.
  intros Hc Hl. rewrite ConvertToUtf16Be_units by done. cbn [fmap result_fmap].
  f_equal. change ([] ++ ?l) with l. rewrite decode_hex4 by apply units_drop_range.
  rewrite units_text.
  - clear Hl. induction Hc as [|cp cps Hcp _ IH]; [done|]. cbn [fmap list_fmap concat].
    rewrite IH. unfold unit_of. destruct Hcp; by zdec.
  - revert Hc. apply List.Forall_impl. unfold transmitted, code_point. lia.
Qed.

Lemma ConvertToUtf16Be_roundtrip_witness :
  decode_units <$> ConvertToUtf16Be (utf8_text [0x31; 0x79FB; 0x52A8]) [] =
  Ok [0x31; 0x79FB; 0x52A8].
Proof.
  apply ConvertToUtf16Be_roundtrip; [|vm_compute; discriminate].
  repeat constructor; unfold transmitted; lia.
Defined.

(** The characters of the table. *)
Lemma table_find_hex4 c t :
  table_find c Utf16beConvertor = Some t -> uchar c < 0x80 /\ t = hex4 (uchar c).
Proof.
  unfold Utf16beConvertor. cbn [table_find].
  repeat (case_bool_decide; [subst c; intros [= <-]; split; [vm_compute; reflexivity|reflexivity]|]). done.
Qed.

Lemma table_convert_units strIn : forall strOut,
  Forall (fun c => is_Some (table_find c Utf16beConvertor)) strIn ->
  table_convert strIn strOut = strOut ++ concat (hex4 <$> units strIn).
Proof.
  induction strIn as [|c s IH]; intros strOut H; [by rewrite app_nil_r|].
  apply Forall_cons_iff in H as [[t Ht] H]. cbn [table_convert units]. rewrite Ht.
  apply table_find_hex4 in Ht as [Hc ->]. rewrite (proj2 (Z.ltb_lt _ _)) by done.
  rewrite IH by done. by rewrite fmap_cons, <- app_assoc.
Qed.

(** On texts of digits, blanks, dashes, dots and colons, which dates and
    addresses are, the conversion agrees with the table look-up it replaced. *)
Theorem ConvertToUtf16Be_table strIn strOut :
  Z.of_nat (length strIn) + 3 <= 2 ^ 32 ->
  Forall (fun c => is_Some (table_find c Utf16beConvertor)) strIn ->
  ConvertToUtf16Be strIn strOut = Ok (table_convert strIn strOut).
Proof.
  intros Hl H. rewrite table_convert_units by done. by apply ConvertToUtf16Be_units.
Qed.

Lemma ConvertToUtf16Be_table_witness :
  ConvertToUtf16Be (s2b "2020-1-2 3:4:5") [] = Ok (table_convert (s2b "2020-1-2 3:4:5") []).
Proof.
  apply ConvertToUtf16Be_table; [vm_compute; discriminate|].
  by apply (bool_decide_unpack _).
Defined.
