(* ===== verification/Message.v ===== *)
(** * The alarm message of SerialPort.cpp

    [PackMsgToAlarm] of src/src/SerialPort.cpp: the text message template of the
    constructor with the phone number, the date, the camera name and the camera
    address inserted at positions counted from the front. *)
From S2P Require Import Prelude CLib Utf16.

(** ** The code *)

(** The template the constructor stores in [strMsgSent]. *)
Definition strMsgSent : bytes :=
  s2b "send_message(" ++ [DQ; DQ] ++ s2b "," ++ [DQ] ++
  s2b "002053D1751F79FB52A84FA66D4B62A58B66000A644450CF673A540D79F0FF1A000A644450CF673A00490050FF1A"
  ++ [DQ] ++ s2b ")" ++ [CR; LF].

(** [std::string PackMsgToAlarm(strDateTime, strIp, strName, strPhoneNum)]. *)
Definition PackMsgToAlarm (strDateTime strIp strName strPhoneNum : bytes)
    : result std_exception bytes :=
  if bool_decide (strIp = []) || bool_decide (strPhoneNum = []) then mret []
  else
    strDataTimeUtf16be ← ConvertToUtf16Be strDateTime [];
    strIpUtf16be ← ConvertToUtf16Be strIp [];
    strNameUtf16be ← ConvertToUtf16Be strName [];
    let strMsg := strMsgSent in
    let pos := 14 in
    strMsg ← str_insert strMsg pos strPhoneNum;
    let pos := pos + (3 + 11) in
    strMsg ← str_insert strMsg pos strDataTimeUtf16be;
    let pos := pos + (64 + str_size strDataTimeUtf16be) in
    strMsg ← str_insert strMsg pos strNameUtf16be;
    let pos := pos + (28 + str_size strNameUtf16be) in
    str_insert strMsg pos strIpUtf16be.

(** ** What the message is meant to be *)

(** The fixed texts, in hexadecimal UTF-16BE: " motion detection alarm, camera
    name:" and "camera IP:" in Chinese. *)
Definition text_alarm : bytes :=
  s2b "002053D1751F79FB52A84FA66D4B62A58B66000A644450CF673A540D79F0FF1A".
Definition text_ip : bytes := s2b "000A644450CF673A00490050FF1A".

(** The hexadecimal digits of a text. *)
Definition hex_text (s : bytes) : bytes := concat (hex4 <$> units s).

(** [send_message("<phone>","<date><alarm><name><ip text><ip>")\r\n]. *)
Definition message (strDateTime strIp strName strPhoneNum : bytes) : bytes :=
  s2b "send_message(" ++ [DQ] ++ strPhoneNum ++ [DQ] ++ s2b "," ++ [DQ] ++
  hex_text strDateTime ++ text_alarm ++ hex_text strName ++ text_ip ++ hex_text strIp ++
  [DQ] ++ s2b ")" ++ [CR; LF].

(** A text short enough for the index of the conversion loop. *)
Definition convertible (s : bytes) : Prop := Z.of_nat (length s) + 3 <= 2 ^ 32.

(** The number of characters of the message for a given phone length. *)
Definition message_size (strDateTime strIp strName strPhoneNum : bytes) : Z :=
  113 + str_size strPhoneNum +
  4 * Z.of_nat (length (units strDateTime) + length (units strName) + length (units strIp)).

(** ** Lemmas *)

Lemma strMsgSent_split :
  strMsgSent = (s2b "send_message(" ++ [DQ]) ++ ([DQ] ++ s2b "," ++ [DQ]) ++
    text_alarm ++ text_ip ++ [DQ] ++ s2b ")" ++ [CR; LF].
Proof. reflexivity. Qed.

Lemma PackMsgToAlarm_unfold strDateTime strIp strName strPhoneNum :
  convertible strDateTime -> convertible strIp -> convertible strName ->
  strIp <> [] -> strPhoneNum <> [] ->
  PackMsgToAlarm strDateTime strIp strName strPhoneNum =
    (strMsg ← str_insert strMsgSent 14 strPhoneNum;
     strMsg ← str_insert strMsg 28 (hex_text strDateTime);
     strMsg ← str_insert strMsg (92 + str_size (hex_text strDateTime)) (hex_text strName);
     str_insert strMsg
       (120 + str_size (hex_text strDateTime) + str_size (hex_text strName)) (hex_text strIp)).
Proof.
  intros Hd Hi Hn Hip Hph. unfold PackMsgToAlarm.
  rewrite !bool_decide_eq_false_2 by done. cbn [orb].
  rewrite !ConvertToUtf16Be_units by done. cbn [mbind result_bind app].
  change (14 + (3 + 11)) with 28.
  fold (hex_text strDateTime) (hex_text strIp) (hex_text strName).
  replace (28 + (64 + str_size (hex_text strDateTime)))
    with (92 + str_size (hex_text strDateTime)) by lia.
  by replace (92 + str_size (hex_text strDateTime) + (28 + str_size (hex_text strName)))
    with (120 + str_size (hex_text strDateTime) + str_size (hex_text strName)) by lia.
Qed.

Lemma str_insert_ok str pos s :
  0 <= pos <= str_size str -> exists r,
    str_insert str pos s = Ok r /\ str_size r = str_size str + str_size s.
Proof.
  intros H. unfold str_size in *. unfold str_insert. zdec. eexists. split; [reflexivity|].
  rewrite !length_app, length_take, length_drop. lia.
Qed.

Lemma str_insert_throws str pos s :
  str_size str < pos -> str_insert str pos s = Throw out_of_range.
Proof. intros H. unfold str_insert, str_size in *. by zdec. Qed.

Lemma hex_text_size s : str_size (hex_text s) = 4 * Z.of_nat (length (units s)).
Proof. unfold str_size, hex_text. rewrite hex4_length. lia. Qed.

Lemma strMsgSent_size : str_size strMsgSent = 113.
Proof. reflexivity. Qed.

Lemma PackMsgToAlarm_size strDateTime strIp strName strPhoneNum :
  convertible strDateTime -> convertible strIp -> convertible strName ->
  strIp <> [] -> (7 <= length strPhoneNum)%nat ->
  exists msg, PackMsgToAlarm strDateTime strIp strName strPhoneNum = Ok msg /\
    str_size msg = message_size strDateTime strIp strName strPhoneNum.
Proof.
  intros Hd Hi Hn Hip Hph. rewrite PackMsgToAlarm_unfold; [|done..|intros ->; simpl in Hph; lia].
  pose proof strMsgSent_size as S0.
  assert (P : 7 <= str_size strPhoneNum) by (unfold str_size; lia).
  pose proof (hex_text_size strDateTime) as HD. pose proof (hex_text_size strName) as HN.
  pose proof (hex_text_size strIp) as HI. unfold message_size.
  destruct (str_insert_ok strMsgSent 14 strPhoneNum) as (m1 & -> & S1); [lia|].
  cbn [mbind result_bind].
  destruct (str_insert_ok m1 28 (hex_text strDateTime)) as (m2 & -> & S2); [lia|].
  cbn [mbind result_bind].
  destruct (str_insert_ok m2 (92 + str_size (hex_text strDateTime)) (hex_text strName))
    as (m3 & -> & S3); [lia|].
  cbn [mbind result_bind].
  destruct (str_insert_ok m3
    (120 + str_size (hex_text strDateTime) + str_size (hex_text strName)) (hex_text strIp))
    as (m4 & -> & S4); [lia|].
  exists m4. split; [done|lia].
Qed.

Lemma PackMsgToAlarm_short strDateTime strIp strName strPhoneNum :
  convertible strDateTime -> convertible strIp -> convertible strName ->
  strIp <> [] -> (1 <= length strPhoneNum < 7)%nat ->
  PackMsgToAlarm strDateTime strIp strName strPhoneNum = Throw out_of_range.
Proof.
  intros Hd Hi Hn Hip Hph.
  rewrite PackMsgToAlarm_unfold; [|done..|intros ->; simpl in Hph; lia].
  pose proof strMsgSent_size as S0.
  assert (P : 1 <= str_size strPhoneNum < 7) by (unfold str_size; lia).
  pose proof (hex_text_size strDateTime) as HD. pose proof (hex_text_size strName) as HN.
  destruct (str_insert_ok strMsgSent 14 strPhoneNum) as (m1 & -> & S1); [lia|].
  cbn [mbind result_bind].
  destruct (str_insert_ok m1 28 (hex_text strDateTime)) as (m2 & -> & S2); [lia|].
  cbn [mbind result_bind].
  destruct (str_insert_ok m2 (92 + str_size (hex_text strDateTime)) (hex_text strName))
    as (m3 & -> & S3); [lia|].
  cbn [mbind result_bind]. apply str_insert_throws. lia.
Qed.

(** Each text lands in its gap of the template when the phone has eleven
    characters. *)
Lemma PackMsgToAlarm_eleven strDateTime strIp strName strPhoneNum :
  convertible strDateTime -> convertible strIp -> convertible strName ->
  strIp <> [] -> length strPhoneNum = 11%nat ->
  PackMsgToAlarm strDateTime strIp strName strPhoneNum =
    Ok (message strDateTime strIp strName strPhoneNum).
Proof.
  intros Hd Hi Hn Hip Hph. rewrite PackMsgToAlarm_unfold; [|done..|intros ->; simpl in Hph; lia].
  rewrite strMsgSent_split. rewrite str_insert_app by done. cbn [mbind result_bind].
  rewrite (app_assoc _ _ (text_alarm ++ _)), (app_assoc strPhoneNum), (app_assoc _ _ (text_alarm ++ _)).
  rewrite str_insert_app by (rewrite !length_app, Hph; reflexivity). cbn [mbind result_bind].
  rewrite (app_assoc _ text_alarm), (app_assoc _ _ (text_ip ++ _)).
  rewrite str_insert_app by (unfold str_size; rewrite !length_app, Hph; simpl; lia).
  cbn [mbind result_bind].
  rewrite (app_assoc _ text_ip), (app_assoc _ _ ([DQ] ++ _)).
  rewrite str_insert_app by (unfold str_size; rewrite !length_app, Hph; simpl; lia).
  unfold message. by rewrite <- !app_assoc.
Qed.

(** ** Properties *)

(** C10: for a phone number of eleven characters, the length the insert positions
    are written for, [PackMsgToAlarm] builds the command
    [send_message("phone","...")] with each text at its place. *)
Theorem PackMsgToAlarm_message strDateTime strIp strName strPhoneNum :
  convertible strDateTime -> convertible strIp -> convertible strName ->
  strIp <> [] -> length strPhoneNum = 11%nat ->
  PackMsgToAlarm strDateTime strIp strName strPhoneNum =
    Ok (message strDateTime strIp strName strPhoneNum).
Proof. apply PackMsgToAlarm_eleven. Qed.

Lemma PackMsgToAlarm_message_witness :
  PackMsgToAlarm (s2b "2020-1-2 3:4:5") (s2b "10.0.0.9") (s2b "gate") (s2b "13800138000") =
  Ok (message (s2b "2020-1-2 3:4:5") (s2b "10.0.0.9") (s2b "gate") (s2b "13800138000")).
Proof.
  apply PackMsgToAlarm_message; [vm_compute; discriminate..|discriminate|reflexivity].
Defined.

(** The length of the phone number decides whether [PackMsgToAlarm] returns:
    from seven characters on it does, with a message of known size; a shorter
    one makes the last [insert] point past the end, and it throws
    [std::out_of_range], which no caller catches. *)
Theorem PackMsgToAlarm_phone_length strDateTime strIp strName strPhoneNum :
  convertible strDateTime -> convertible strIp -> convertible strName ->
  strIp <> [] -> strPhoneNum <> [] ->
  if (7 <=? length strPhoneNum)%nat then
    exists msg, PackMsgToAlarm strDateTime strIp strName strPhoneNum = Ok msg /\
      str_size msg = message_size strDateTime strIp strName strPhoneNum
  else PackMsgToAlarm strDateTime strIp strName strPhoneNum = Throw out_of_range.
Proof.
  intros Hd Hi Hn Hip Hph. destruct (Nat.leb_spec 7 (length strPhoneNum)).
  - by apply PackMsgToAlarm_size.
  - apply PackMsgToAlarm_short; [done..|]. destruct strPhoneNum; simpl in *; [done|lia].
Qed.

Lemma PackMsgToAlarm_phone_length_witness :
  PackMsgToAlarm (s2b "2020-1-2 3:4:5") (s2b "10.0.0.9") (s2b "gate") (s2b "110") =
  Throw out_of_range.
Proof.
  apply (PackMsgToAlarm_phone_length (s2b "2020-1-2 3:4:5") (s2b "10.0.0.9") (s2b "gate")
    (s2b "110")); [vm_compute; discriminate..|discriminate|discriminate].
Defined.
