(* ===== verification/SerialLine.v ===== *)
(** * Reading lines from the serial port

    [readBuffer], [readLine] and [writeBuffer] of src/src/SerialPort.cpp.  The
    port keeps a buffer of 256 bytes, [ucReadLineBuf]; the bytes from
    [uiReadLineIdx] to [uiReadLineValidSize] are those received and not yet
    returned.  [select] and [read] are the operating system's and are given by
    [serial_os]. *)
From S2P Require Import Prelude CLib.

(** ** State *)

Definition UART_FALSE : Z := -1.
Definition UART_TRUE : Z := 0.
Definition READ_LINE_BUF_SIZE : Z := 256.

(** The fields of class [SerialPort] that change. *)
Record SerialPort := mkSerialPort {
  fd : Z;
  isnormal : Z;
  ucReadLineBuf : bytes;
  uiReadLineValidSize : Z;
  uiReadLineIdx : Z
}.

(** The part of the constructor that initialises them. *)
Definition SerialPort_init : SerialPort :=
  {| fd := UART_FALSE; isnormal := UART_FALSE;
     ucReadLineBuf := replicate (Z.to_nat READ_LINE_BUF_SIZE) NUL;
     uiReadLineValidSize := 0; uiReadLineIdx := 0 |}.

(** The system calls of one [readBuffer]: [select] by descriptor and delay in
    microseconds; [read] by descriptor and count, [None] for an error. *)
Record serial_os := {
  os_select : Z -> Z -> Z;
  os_read : Z -> Z -> option bytes
}.

(** [read] never returns more than the count it is given. *)
Definition os_ok (os : serial_os) : Prop :=
  forall f n data, os_read os f n = Some data -> Z.of_nat (length data) <= n.

(** ** Operations *)

(** [readBuffer(read_buf, buf_len, delay_us, read_len)] for a non-null
    [read_buf]: [Some data] is [UART_TRUE] with [data] stored at [read_buf] and
    its length in [read_len]; [None] is [UART_FALSE]. *)
Definition readBuffer (os : serial_os) (sp : SerialPort) (buf_len delay_us : Z) : option bytes :=
  if isnormal sp =? UART_FALSE then None
  else
    let fs_sel := os_select os (fd sp) delay_us in
    if fs_sel <? 0 then None
    else if fs_sel =? 0 then None
    else match os_read os (fd sp) buf_len with
         | Some data => if 0 <? Z.of_nat (length data) then Some data else None
         | None => None
         end.

(** What a call of [readLine] leaves: the code returned, [read_len], the bytes
    stored at [read_buf] and the port. *)
Record line_result := mkLineResult {
  lr_ret : Z;
  lr_len : Z;
  lr_line : bytes;
  lr_port : SerialPort
}.

(** How the [for] loop over the buffer ends. *)
Inductive scan_exit :=
  | ScanReturn (r : line_result)
  | ScanBreak (sp : SerialPort).

(** [if (uiReadLineIdx > 0) ucReadLineBuf[i - uiReadLineIdx] = ucReadLineBuf[i];] *)
Definition copy_down (buf : bytes) (idx i : Z) : exec bytes :=
  if 0 <? idx then c ← read buf i; write buf (u32 (i - idx)) c else Ok buf.

(** The rest of the body, for the byte [c = ucReadLineBuf[i]]. *)
Definition scan_test (is_need_return : bool) (read_len i : Z) (c : ascii) (sp : SerialPort)
    : exec ((Z * SerialPort) + scan_exit) :=
  let buf := ucReadLineBuf sp in
  let idx := uiReadLineIdx sp in
  let valid := uiReadLineValidSize sp in
  if negb (0x0A =? uchar c) then
    if i =? u32 (valid - 1) then
      let (valid', idx') := if 0 <? idx then (u32 (valid - idx), 0) else (valid, idx) in
      buf' ← blit buf valid' (replicate (Z.to_nat (u32 (READ_LINE_BUF_SIZE - valid'))) NUL);
      let sp' := mkSerialPort (fd sp) (isnormal sp) buf' valid' idx' in
      if is_need_return then Ok (inr (ScanReturn (mkLineResult UART_FALSE read_len [] sp')))
      else Ok (inr (ScanBreak sp'))
    else Ok (inl (u32 (i + 1), sp))
  else
    let read_len' := u32 (i + 1 - idx) in
    line ← slice buf 0 read_len';
    let idx' := u32 (i + 1) in
    let sp' := if valid <=? idx' then mkSerialPort (fd sp) (isnormal sp) buf 0 0
               else mkSerialPort (fd sp) (isnormal sp) buf valid idx' in
    Ok (inr (ScanReturn (mkLineResult UART_TRUE read_len' line sp'))).

(** One iteration at index [i]. *)
Definition scan_step (is_need_return : bool) (read_len : Z) (st : Z * SerialPort)
    : exec ((Z * SerialPort) + scan_exit) :=
  let (i, sp) := st in
  let idx := uiReadLineIdx sp in
  let valid := uiReadLineValidSize sp in
  if i <? valid then
    buf ← copy_down (ucReadLineBuf sp) idx i;
    c ← read buf i;
    scan_test is_need_return read_len i c (mkSerialPort (fd sp) (isnormal sp) buf valid idx)
  else Ok (inr (ScanBreak sp)).

(** [if (uiReadLineValidSize > 0) for (...) ...]. *)
Definition scan (is_need_return : bool) (read_len : Z) (sp : SerialPort) : exec scan_exit :=
  if 0 <? uiReadLineValidSize sp then
    loopM (S (Z.to_nat (uiReadLineValidSize sp))) (scan_step is_need_return read_len)
      (uiReadLineIdx sp, sp)
  else Ok (ScanBreak sp).

(** The [readBuffer] behind the valid bytes, and the [goto]. *)
Definition fill (os : serial_os) (delay_us read_len : Z) (sp : SerialPort)
    : exec ((bool * Z * SerialPort) + line_result) :=
  let valid := uiReadLineValidSize sp in
  match readBuffer os sp (u32 (READ_LINE_BUF_SIZE - valid)) delay_us with
  | None => Ok (inr (mkLineResult UART_FALSE read_len [] sp))
  | Some data =>
      buf ← blit (ucReadLineBuf sp) valid data;
      let read_len' := Z.of_nat (length data) in
      Ok (inl (true, read_len',
               mkSerialPort (fd sp) (isnormal sp) buf (u32 (valid + read_len'))
                 (uiReadLineIdx sp)))
  end.

(** The code from [read_line_handle:] to the [goto]: the state carries
    [is_need_return], [read_len] and the port. *)
Definition read_line_handle (os : serial_os) (delay_us : Z) (st : bool * Z * SerialPort)
    : exec ((bool * Z * SerialPort) + line_result) :=
  let '(is_need_return, read_len, sp) := st in
  e ← scan is_need_return read_len sp;
  match e with
  | ScanReturn r => Ok (inr r)
  | ScanBreak sp => fill os delay_us read_len sp
  end.

(** [readLine(read_buf, delay_us, read_len)] for a non-null [read_buf]; the label
    is reached at most twice. *)
Definition readLine (os : serial_os) (sp : SerialPort) (delay_us read_len : Z)
    : exec line_result :=
  loopM 2 (read_line_handle os delay_us) (false, read_len, sp).

(** [writeBuffer(write_buf, buf_len)]: the return code, given what [write] of
    the buffer returns. *)
Definition writeBuffer (os_write : Z -> bytes -> Z) (sp : SerialPort) (write_buf : bytes) : Z :=
  if isnormal sp =? UART_FALSE then UART_FALSE
  else
    let len := os_write (fd sp) write_buf in
    if (0 <? len) && (u32 len =? Z.of_nat (length write_buf)) then UART_TRUE
    else UART_FALSE.

(** ** Specification: framing a byte stream into lines *)

(** The bytes up to and including the first line feed, and the rest. *)
Fixpoint first_line (p : bytes) : option (bytes * bytes) :=
  match p with
  | [] => None
  | c :: p' =>
      if 0x0A =? uchar c then Some ([c], p')
      else '(l, r) ← first_line p'; Some (c :: l, r)
  end.

(** The bytes received and not yet returned. *)
Definition pending (sp : SerialPort) : bytes :=
  take (Z.to_nat (uiReadLineValidSize sp - uiReadLineIdx sp))
    (drop (Z.to_nat (uiReadLineIdx sp)) (ucReadLineBuf sp)).

(** The specification of [readLine]: the line returned, if any, the bytes
    received by the call, and the bytes pending after it. *)
Definition line_spec (received : Z -> option bytes) (p : bytes)
    : option bytes * bytes * bytes :=
  match first_line p with
  | Some (l, r) => (Some l, [], r)
  | None =>
      match received (READ_LINE_BUF_SIZE - Z.of_nat (length p)) with
      | None => (None, [], p)
      | Some data =>
          match first_line (p ++ data) with
          | Some (l, r) => (Some l, data, r)
          | None => (None, data, p ++ data)
          end
      end
  end.

(** Successive calls: the lines returned and the port after them. *)
Fixpoint readLines (calls : list (serial_os * Z)) (sp : SerialPort)
    : exec (list bytes * SerialPort) :=
  match calls with
  | [] => Ok ([], sp)
  | (os, delay_us) :: calls' =>
      r ← readLine os sp delay_us 0;
      ls ← readLines calls' (lr_port r);
      Ok ((if lr_ret r =? UART_TRUE then lr_line r :: fst ls else fst ls), snd ls)
  end.

(** Their specification: the lines, all the bytes received, the bytes pending. *)
Fixpoint lines_spec (received : list (Z -> option bytes)) (p : bytes)
    : list bytes * bytes * bytes :=
  match received with
  | [] => ([], [], p)
  | f :: received' =>
      let '(l, data, p1) := line_spec f p in
      let '(ls, data', p2) := lines_spec received' p1 in
      (match l with Some l => l :: ls | None => ls end, data ++ data', p2)
  end.

(** A line: no line feed but the last byte. *)
Definition is_line (l : bytes) : Prop :=
  exists b, l = b ++ [LF] /\ Forall (fun c => c <> LF) b.

(** The invariant of the buffer. *)
Definition line_inv (sp : SerialPort) : Prop :=
  length (ucReadLineBuf sp) = 256%nat /\
  0 <= uiReadLineIdx sp /\ uiReadLineValidSize sp <= 256 /\
  (uiReadLineIdx sp = 0 /\ uiReadLineValidSize sp = 0 \/
   uiReadLineIdx sp < uiReadLineValidSize sp).

(** ** Lemmas on the specification *)

Lemma first_line_None_app q r :
  first_line q = None ->
  first_line (q ++ r) = match first_line r with Some (l, s) => Some (q ++ l, s) | None => None end.
Proof.
  induction q as [|c q IH]; simpl; [by destruct (first_line r) as [[]|]|].
  destruct (0x0A =? uchar c); [done|].
  destruct (first_line q) as [[]|]; intros Hq; [done|]. rewrite IH by done.
  by destruct (first_line r) as [[]|].
Qed.

Lemma first_line_app p l r : first_line p = Some (l, r) -> p = l ++ r /\ l <> [].
Proof.
  revert l r. induction p as [|c p IH]; intros l r; simpl; [done|].
  case_match; [by intros [= <- <-]|].
  destruct (first_line p) as [[l' r']|]; [|done]. intros [= <- <-].
  destruct (IH l' r' eq_refl) as [-> _]. done.
Qed.

(** ** One pass over the buffer *)

(** What a pass must establish. *)
Definition scan_post (need : bool) (rl : Z) (f n : Z) (p : bytes) (e : scan_exit) : Prop :=
  match first_line p with
  | Some (l, s) => exists sp, e = ScanReturn (mkLineResult UART_TRUE (Z.of_nat (length l)) l sp) /\
      line_inv sp /\ pending sp = s /\ fd sp = f /\ isnormal sp = n
  | None => exists sp,
      e = (if need then ScanReturn (mkLineResult UART_FALSE rl [] sp) else ScanBreak sp) /\
      line_inv sp /\ pending sp = p /\ fd sp = f /\ isnormal sp = n /\
      uiReadLineIdx sp = 0 /\ uiReadLineValidSize sp = Z.of_nat (length p)
  end.

(** The iteration at byte [c]: [q] comes before it in the line, [r] after it in
    the valid part of the buffer, [t] is the rest of the buffer. *)
Section ScanStep.
Variables (need : bool) (rl f n : Z) (buf q r t : bytes) (I : nat) (c : ascii).
Hypothesis Hlen : length buf = 256%nat.
Hypothesis Hvalid : (I + length q + S (length r) <= 256)%nat.
Hypothesis Hq : take (length q) buf = q.
Hypothesis Hrest : drop (I + length q) buf = c :: r ++ t.
Hypothesis Hline : first_line q = None.

Let V : Z := Z.of_nat (I + length q + S (length r)).
Let port (b : bytes) : SerialPort := mkSerialPort f n b V (Z.of_nat I).

(** The byte is copied down to index [length q] when [I > 0]. *)
Let buf1 : bytes := if 0 <? Z.of_nat I then <[length q := c]> buf else buf.

Lemma buf1_spec :
  length buf1 = 256%nat /\ take (length q + 1) buf1 = q ++ [c] /\
  drop (I + (length q + 1)) buf1 = r ++ t /\ buf1 !! (I + length q)%nat = Some c.
Proof.
  pose proof (drop_cons_lookup _ _ _ _ Hrest) as Hc.
  pose proof (drop_cons_tail _ _ _ _ Hrest) as Ht.
  rewrite !Nat.add_1_r, Nat.add_succ_r. subst buf1.
  destruct (Z.ltb_spec 0 (Z.of_nat I)).
  - split; [by rewrite length_insert|]. split; [|split].
    + erewrite take_S_r by (apply list_lookup_insert_eq; lia).
      rewrite take_insert_ge by lia. by rewrite Hq.
    + by rewrite drop_insert_lt by lia.
    + by rewrite list_lookup_insert_ne by lia.
  - destruct I; [|lia]. split; [done|]. split; [|done].
    erewrite take_S_r by exact Hc. by rewrite Hq.
Qed.

Lemma scan_step_copied :
  scan_step need rl (Z.of_nat (I + length q), port buf) =
  scan_test need rl (Z.of_nat (I + length q)) c (port buf1).
Proof.
  destruct buf1_spec as (_ & _ & _ & Hc1). pose proof (drop_cons_lookup _ _ _ _ Hrest) as Hc.
  unfold scan_step, copy_down. subst port V. cbn [uiReadLineIdx uiReadLineValidSize ucReadLineBuf].
  zdec. replace (u32 (Z.of_nat (I + length q) - Z.of_nat I)) with (Z.of_nat (length q))
    by (rewrite u32_small; lia).
  subst buf1. destruct (0 <? Z.of_nat I).
  - rewrite (read_lookup _ _ _ Hc). cbn [mbind result_bind].
    rewrite write_insert by lia. cbn [mbind result_bind]. by rewrite (read_lookup _ _ _ Hc1).
  - cbn [mbind result_bind]. by rewrite (read_lookup _ _ _ Hc).
Qed.

(** The byte is a line feed: the line is returned. *)
Lemma scan_test_lf :
  uchar c = 0x0A ->
  exists e, scan_test need rl (Z.of_nat (I + length q)) c (port buf1) = Ok (inr e) /\
    scan_post need rl f n (q ++ c :: r) e.
Proof.
  intros Hc. destruct buf1_spec as (Hl1 & Hq1 & Hd1 & _).
  unfold scan_test. subst port V. cbn [uiReadLineIdx uiReadLineValidSize ucReadLineBuf fd isnormal].
  rewrite Hc. change (negb (10 =? 10)) with false. cbv iota zeta. rewrite !u32_small by lia.
  replace (Z.of_nat (I + length q) + 1 - Z.of_nat I) with (Z.of_nat (length q + 1)) by lia.
  rewrite slice_front by lia. cbn [mbind result_bind]. rewrite Hq1. eexists. split; [reflexivity|]. unfold scan_post.
  rewrite first_line_None_app by done. cbn [first_line]. rewrite Hc. change (10 =? 10) with true.
  replace (Z.of_nat (length q + 1)) with (Z.of_nat (length (q ++ [c])))
    by (rewrite length_app; simpl; lia).
  destruct r as [|c' r']; simpl length in *; zdec;
    eexists; (split; [reflexivity|]); (split; [unfold line_inv; cbn; lia|]); (split; [|done]);
    unfold pending; cbn -[take drop]; [done|].
  replace (Z.to_nat (Z.of_nat (I + length q) + 1)) with (I + (length q + 1))%nat by lia.
  rewrite Hd1. apply (take_app_length' (c' :: r')). simpl. lia.
Qed.

(** The last valid byte is not a line feed: the pass ends without a line. *)
Lemma scan_test_last :
  uchar c <> 0x0A -> r = [] ->
  exists e, scan_test need rl (Z.of_nat (I + length q)) c (port buf1) = Ok (inr e) /\
    scan_post need rl f n (q ++ c :: r) e.
Proof.
  intros Hc Hr. destruct buf1_spec as (Hl1 & Hq1 & _ & _).
  unfold scan_test. subst port V. rewrite Hr in *. cbn [uiReadLineIdx uiReadLineValidSize ucReadLineBuf fd isnormal].
  simpl length in *. zdec. rewrite (u32_small (_ - 1)) by lia. zdec.
  replace (if 0 <? Z.of_nat I then _ else _) with (Z.of_nat (length q + 1), 0)
    by (destruct (Z.ltb_spec 0 (Z.of_nat I)); rewrite ?u32_small by lia; f_equal; lia).
  cbv iota zeta. unfold READ_LINE_BUF_SIZE. rewrite u32_small by lia.
  rewrite blit_ok by (rewrite length_replicate; lia). rewrite Hq1. cbn [mbind result_bind].
  match goal with |- context [ScanBreak ?sp] =>
    exists (if need then ScanReturn (mkLineResult UART_FALSE rl [] sp) else ScanBreak sp) end.
  split; [by destruct need|]. unfold scan_post. rewrite first_line_None_app by done.
  cbn [first_line]. zdec. eexists. split; [reflexivity|].
  unfold line_inv, pending. cbn -[take drop app replicate length].
  rewrite !length_app, length_drop, length_replicate. simpl length.
  split; [lia|]. split; [|repeat split; lia].
  rewrite drop_0. apply take_app_length'. rewrite length_app. simpl. lia.
Qed.

(** Another byte: the loop goes on with [c] in the line. *)
Lemma scan_test_next :
  uchar c <> 0x0A -> r <> [] ->
  scan_test need rl (Z.of_nat (I + length q)) c (port buf1) =
    Ok (inl (Z.of_nat (I + length (q ++ [c])), port buf1)).
Proof.
  intros Hc Hr. unfold scan_test. subst port V. cbn [uiReadLineValidSize].
  destruct r as [|c' r']; [done|]. simpl length in *. zdec. rewrite !u32_small by lia. zdec.
  rewrite length_app. simpl length. rewrite u32_small by lia. repeat f_equal. lia.
Qed.
End ScanStep.

Lemma scan_rounds need rl f n (I : nat) t r : forall fuel buf q,
  length buf = 256%nat -> (I + length q + length r <= 256)%nat -> r <> [] ->
  (length r < fuel)%nat -> take (length q) buf = q -> drop (I + length q) buf = r ++ t ->
  first_line q = None ->
  exists e, loopM fuel (scan_step need rl) (Z.of_nat (I + length q),
      mkSerialPort f n buf (Z.of_nat (I + length q + length r)) (Z.of_nat I)) = Ok e /\
    scan_post need rl f n (q ++ r) e.
Proof.
  induction r as [|c r IH]; intros fuel buf q Hlen Hv Hr Hf Hq Hd Hline; [done|].
  destruct fuel as [|fuel]; [lia|]. cbn [loopM]. simpl length in *.
  rewrite (scan_step_copied need rl f n buf q r t I c) by done.
  destruct (decide (uchar c = 0x0A)) as [Hc|Hc]; [|destruct (decide (r = [])) as [Hr'|Hr']].
  - edestruct (scan_test_lf need rl f n buf q r t I c) as (e & -> & He); eauto.
  - edestruct (scan_test_last need rl f n buf q r t I c) as (e & -> & He); eauto.
  - rewrite (scan_test_next need rl f n buf q r t I c) by done. cbn [mbind result_bind].
    destruct (buf1_spec f n buf q r t I c) as (Hl1 & Hq1 & Hd1 & _); [done..|].
    assert (Hqc : length (q ++ [c]) = (length q + 1)%nat) by (rewrite length_app; done).
    replace (I + length q + S (length r))%nat with (I + length (q ++ [c]) + length r)%nat by lia.
    rewrite (cons_middle c q r). rewrite app_assoc.
    apply IH; rewrite ?Hqc; try done; try lia.
    rewrite first_line_None_app by done. simpl. by zdec.
Qed.

(** ** [readLine] refines [line_spec] *)

Lemma pending_length sp :
  line_inv sp -> Z.of_nat (length (pending sp)) = uiReadLineValidSize sp - uiReadLineIdx sp.
Proof.
  unfold line_inv, pending. intros (? & ? & ? & ?).
  rewrite length_take, length_drop. lia.
Qed.

Lemma pending_front f n buf k : pending (mkSerialPort f n buf (Z.of_nat k) 0) = take k buf.
Proof. unfold pending. cbn -[take drop]. by rewrite Z.sub_0_r, Nat2Z.id. Qed.

Lemma pending_split sp :
  line_inv sp -> drop (Z.to_nat (uiReadLineIdx sp)) (ucReadLineBuf sp) =
    pending sp ++ drop (Z.to_nat (uiReadLineValidSize sp)) (ucReadLineBuf sp).
Proof.
  unfold line_inv, pending. intros (? & ? & ? & ?).
  rewrite <- (take_drop (Z.to_nat (uiReadLineValidSize sp - uiReadLineIdx sp)) (drop _ _)) at 1.
  f_equal. rewrite drop_drop. f_equal. lia.
Qed.

Lemma scan_pass need rl sp :
  line_inv sp -> 0 < uiReadLineValidSize sp ->
  exists e, loopM (S (Z.to_nat (uiReadLineValidSize sp))) (scan_step need rl)
      (uiReadLineIdx sp, sp) = Ok e /\
    scan_post need rl (fd sp) (isnormal sp) (pending sp) e.
Proof.
  intros Hinv Hv. pose proof (pending_length sp Hinv) as Hp. pose proof (pending_split sp Hinv) as Hs.
  destruct sp as [f n buf valid idx]. unfold line_inv in Hinv. cbn in Hinv, Hv, Hp, Hs |- *.
  set (p := pending _) in *.
  destruct (scan_rounds need rl f n (Z.to_nat idx) (drop (Z.to_nat valid) buf) p
    (S (Z.to_nat valid)) buf []) as (e & He & Hpost).
  1-7: simpl; rewrite ?Nat.add_0_r; try done; try lia. { intros E. rewrite E in Hp. simpl in Hp. lia. }
  exists e. split; [|done]. simpl length in He. rewrite !Nat.add_0_r, !Z2Nat.id in He by lia.
  replace (Z.of_nat (Z.to_nat idx + length p)) with valid in He by lia. exact He.
Qed.

(** The first pass, when the pending bytes hold no line. *)
Definition settled (sp sp1 : SerialPort) : Prop :=
  line_inv sp1 /\ pending sp1 = pending sp /\ fd sp1 = fd sp /\ isnormal sp1 = isnormal sp /\
  uiReadLineIdx sp1 = 0 /\ uiReadLineValidSize sp1 = Z.of_nat (length (pending sp)).

Lemma first_pass rl sp :
  line_inv sp ->
  exists e, scan false rl sp = Ok e /\
  match first_line (pending sp) with
  | Some _ => scan_post false rl (fd sp) (isnormal sp) (pending sp) e
  | None => exists sp1, e = ScanBreak sp1 /\ settled sp sp1
  end.
Proof.
  intros Hinv. pose proof (pending_length sp Hinv) as Hp. unfold scan.
  destruct (Z.ltb_spec 0 (uiReadLineValidSize sp)).
  - destruct (scan_pass false rl sp Hinv) as (e & -> & He); [done|]. exists e. split; [done|].
    destruct (first_line (pending sp)) eqn:E; [done|]. unfold scan_post in He. rewrite E in He.
    destruct He as (sp1 & -> & ?). exists sp1. split; [done|]. unfold settled. tauto.
  - assert (pending sp = []) as E.
    { apply nil_length_inv. unfold line_inv in Hinv. lia. }
    rewrite E. exists (ScanBreak sp). split; [done|]. exists sp. split; [done|].
    unfold settled. rewrite E in *. unfold line_inv in *. simpl in *. intuition lia.
Qed.

Lemma readBuffer_data os sp n d data :
  os_ok os -> readBuffer os sp n d = Some data -> (0 < length data)%nat /\ Z.of_nat (length data) <= n.
Proof.
  unfold readBuffer. intros Hok. repeat case_match; try done. intros [= <-]. bool2prop.
  split; [lia|]. by eapply Hok.
Qed.

(** Storing what [readBuffer] received behind the pending bytes. *)
Lemma refill os sp sp1 d data :
  os_ok os -> settled sp sp1 ->
  readBuffer os sp1 (u32 (READ_LINE_BUF_SIZE - uiReadLineValidSize sp1)) d = Some data ->
  exists buf, @blit Empty_set _ (ucReadLineBuf sp1) (uiReadLineValidSize sp1) data = Ok buf /\
    let sp2 := mkSerialPort (fd sp1) (isnormal sp1) buf
      (u32 (uiReadLineValidSize sp1 + Z.of_nat (length data))) (uiReadLineIdx sp1) in
    line_inv sp2 /\ 0 < uiReadLineValidSize sp2 /\ pending sp2 = pending sp ++ data.
Proof.
  intros Hok (Hinv & Hpend & _ & _ & Hi & Hv) Hr.
  pose proof (pending_split sp1 Hinv) as Hs. unfold line_inv in Hinv.
  unfold READ_LINE_BUF_SIZE in Hr. rewrite u32_small in Hr by lia.
  destruct (readBuffer_data _ _ _ _ _ Hok Hr) as [Hd1 Hd2].
  rewrite Hv. rewrite blit_ok by lia. eexists. split; [reflexivity|]. cbv zeta.
  rewrite Hi, u32_small, <- Nat2Z.inj_add, pending_front by lia.
  unfold line_inv. cbn -[take drop app length pending].
  rewrite Hi, Hv, Nat2Z.id in Hs. change (Z.to_nat 0) with 0%nat in *. rewrite drop_0 in *.
  assert (Ht : take (length (pending sp)) (ucReadLineBuf sp1) = pending sp).
  { rewrite Hs, Hpend. apply take_app_length. }
  rewrite Ht, !length_app, length_drop. split; [lia|]. split; [lia|].
  rewrite app_assoc. apply take_app_length'. by rewrite length_app.
Qed.

Definition line_post (os : serial_os) (sp : SerialPort) (d : Z) (r : line_result) : Prop :=
  match line_spec (fun n => readBuffer os sp n d) (pending sp) with
  | (Some l, data, p) => lr_ret r = UART_TRUE /\ lr_line r = l /\ lr_len r = Z.of_nat (length l) /\
      pending (lr_port r) = p
  | (None, data, p) => lr_ret r = UART_FALSE /\ lr_line r = [] /\ pending (lr_port r) = p
  end /\ line_inv (lr_port r) /\ fd (lr_port r) = fd sp /\ isnormal (lr_port r) = isnormal sp.

Lemma read_line_handle_scan os d need rl sp :
  read_line_handle os d (need, rl, sp) =
    (e ← scan need rl sp;
     match e with ScanReturn r => Ok (inr r) | ScanBreak sp => fill os d rl sp end).
Proof. done. Qed.

(** The [readBuffer] after a first pass without a line, and the second pass. *)
Lemma second_pass os sp sp1 d rl :
  os_ok os -> settled sp sp1 ->
  exists r, (x ← fill os d rl sp1;
     match x with inl s => loopM 1 (read_line_handle os d) s | inr r => Ok r end) = Ok r /\
    match readBuffer os sp (READ_LINE_BUF_SIZE - Z.of_nat (length (pending sp))) d with
    | None => r = mkLineResult UART_FALSE rl [] sp1
    | Some data => exists e, scan_post true (Z.of_nat (length data)) (fd sp) (isnormal sp)
        (pending sp ++ data) e /\ e = ScanReturn r
    end.
Proof.
  intros Hok Hset. pose proof Hset as (Hinv1 & Hp1 & Hf1 & Hn1 & Hi1 & Hv1). unfold fill.
  replace (readBuffer os sp _ d) with
    (readBuffer os sp1 (u32 (READ_LINE_BUF_SIZE - uiReadLineValidSize sp1)) d).
  2: { unfold readBuffer, line_inv, READ_LINE_BUF_SIZE in *. rewrite u32_small by lia.
       by rewrite Hf1, Hn1, Hv1. }
  destruct (readBuffer os sp1 _ d) as [data|] eqn:Er; [|by eexists].
  destruct (refill os sp sp1 d data Hok Hset Er) as (buf & Hb & Hinv2 & Hv2 & Hp2).
  rewrite Hb. cbn [mbind result_bind]. rewrite loopM_S, read_line_handle_scan.
  unfold scan. rewrite (proj2 (Z.ltb_lt 0 _) Hv2).
  destruct (scan_pass true (Z.of_nat (length data)) _ Hinv2 Hv2) as (e & -> & He).
  cbn [mbind result_bind]. rewrite Hp2 in He. cbn [fd isnormal] in He.
  rewrite Hf1, Hn1 in He. pose proof He as He'. unfold scan_post in He'.
  destruct (first_line (pending sp ++ data)) as [[l s]|]; destruct He' as (sp' & -> & _); eauto.
Qed.

Lemma readLine_line_post os sp d rl :
  line_inv sp -> os_ok os -> exists r, readLine os sp d rl = Ok r /\ line_post os sp d r.
Proof.
  intros Hinv Hok. unfold readLine. rewrite loopM_S, read_line_handle_scan.
  destruct (first_pass rl sp Hinv) as (e & -> & He). cbn [mbind result_bind].
  unfold line_post, line_spec. destruct (first_line (pending sp)) as [[l s]|] eqn:E.
  { unfold scan_post in He. rewrite E in He. destruct He as (sp' & -> & ?).
    eexists. split; [reflexivity|]. cbn. tauto. }
  destruct He as (sp1 & -> & Hset).
  destruct (second_pass os sp sp1 d rl Hok Hset) as (r & -> & Hr). exists r. split; [done|].
  destruct (readBuffer os sp _ d) as [data|].
  - destruct Hr as (e & He & ->). unfold scan_post in He.
    destruct (first_line (pending sp ++ data)) as [[l s]|]; destruct He as (sp' & He & ?);
      injection He as ->; cbn; tauto.
  - subst r. unfold settled in Hset. cbn. tauto.
Qed.

(** ** Framing *)

Lemma first_line_is_line p l s : first_line p = Some (l, s) -> is_line l.
Proof.
  revert l s. induction p as [|c p IH]; intros l s; simpl; [done|].
  destruct (Z.eqb_spec 0x0A (uchar c)) as [Hc|Hc].
  - intros [= <- <-]. exists []. split; [|done]. simpl. f_equal.
    apply (inj uchar). rewrite <- Hc. done.
  - destruct (first_line p) as [[l' s']|]; [|done]. intros [= <- <-].
    destruct (IH l' s' eq_refl) as (b & -> & Hb). exists (c :: b). split; [done|].
    constructor; [|done]. intros ->. by apply Hc.
Qed.

Lemma line_spec_stream f p :
  let '(l, data, p') := line_spec f p in
  match l with Some l => l ++ p' = p ++ data /\ is_line l | None => p' = p ++ data end.
Proof.
  unfold line_spec. destruct (first_line p) as [[l s]|] eqn:E.
  - rewrite app_nil_r. destruct (first_line_app _ _ _ E) as [-> _].
    split; [done|]. by eapply first_line_is_line.
  - destruct (f _) as [data|]; [|by rewrite app_nil_r].
    destruct (first_line (p ++ data)) as [[l s]|] eqn:E'; [|done].
    destruct (first_line_app _ _ _ E') as [-> _]. split; [done|]. by eapply first_line_is_line.
Qed.

Lemma lines_spec_stream fs p :
  let '(ls, data, p') := lines_spec fs p in
  concat ls ++ p' = p ++ data /\ Forall is_line ls.
Proof.
  revert p. induction fs as [|f fs IH]; intros p; simpl; [by rewrite app_nil_r|].
  pose proof (line_spec_stream f p) as H. destruct (line_spec f p) as [[l data] p1].
  specialize (IH p1). destruct (lines_spec fs p1) as [[ls data'] p2]. destruct IH as [IH Hls].
  destruct l as [l|].
  - destruct H as [H Hl]. split; [|by constructor]. simpl.
    by rewrite <- app_assoc, IH, app_assoc, H, app_assoc.
  - subst p1. split; [|done]. by rewrite IH, app_assoc.
Qed.

(** What the calls receive, for a port opened on a descriptor. *)
Definition receives (sp : SerialPort) (calls : list (serial_os * Z)) : list (Z -> option bytes) :=
  (fun call n => readBuffer (fst call) sp n (snd call)) <$> calls.

Lemma receives_same sp sp' calls :
  fd sp' = fd sp -> isnormal sp' = isnormal sp -> receives sp' calls = receives sp calls.
Proof.
  intros Hf Hn. unfold receives. apply list_fmap_ext. intros _ call _.
  unfold readBuffer. by rewrite Hf, Hn.
Qed.

Lemma readLines_run calls sp :
  line_inv sp -> Forall (fun call => os_ok (fst call)) calls ->
  exists ls sp' data, readLines calls sp = Ok (ls, sp') /\ line_inv sp' /\
    (ls, data, pending sp') = lines_spec (receives sp calls) (pending sp).
Proof.
  intros Hinv Hok.
  revert sp Hinv. induction Hok as [|[os d] calls Hos _ IH]; intros sp Hinv.
  { by exists [], sp, []. }
  destruct (readLine_line_post os sp d 0 Hinv Hos) as (r & Hr & Hp & Hi & Hf & Hn).
  destruct (IH _ Hi) as (ls & sp' & data & H1 & H2 & H3).
  rewrite (receives_same sp) in H3 by done. simpl. fold (receives sp calls).
  rewrite Hr. cbn [mbind result_bind]. rewrite H1. cbn [mbind result_bind fst snd].
  destruct (line_spec _ (pending sp)) as [[[l|] data0] p1];
    [destruct Hp as (-> & <- & _ & Hp)|destruct Hp as (-> & _ & Hp)];
    rewrite <- Hp, <- H3; eexists _, _, _; split; done.
Qed.

(** ** Properties *)

(** C11: [readLine] refines the framing of a byte stream: on every port that keeps
    the buffer invariant it returns (two passes of the label are enough, no
    access leaves the 256 bytes), with the first line of the pending bytes, or
    of those and what one [readBuffer] receives; and it keeps the invariant. *)
Theorem readLine_refines os sp delay_us read_len :
  line_inv sp -> os_ok os ->
  exists r, readLine os sp delay_us read_len = Ok r /\ line_inv (lr_port r) /\
    match line_spec (fun n => readBuffer os sp n delay_us) (pending sp) with
    | (Some l, _, p) => lr_ret r = UART_TRUE /\ lr_line r = l /\
        lr_len r = Z.of_nat (length l) /\ pending (lr_port r) = p
    | (None, _, p) => lr_ret r = UART_FALSE /\ lr_line r = [] /\ pending (lr_port r) = p
    end.
Proof.
  intros Hinv Hok. destruct (readLine_line_post os sp delay_us read_len Hinv Hok) as (r & Hr & Hp).
  exists r. unfold line_post in Hp. tauto.
Qed.

(** A port with some bytes pending, and a system that delivers the rest of the line. *)
Definition demo_port : SerialPort :=
  mkSerialPort 3 UART_TRUE (s2b "AT" ++ [LF] ++ s2b "OK" ++ replicate 251 NUL) 5 3.
Definition demo_os : serial_os :=
  {| os_select := fun _ _ => 1;
     os_read := fun _ n => if 3 <=? n then Some (CR :: LF :: s2b "+") else None |}.

Lemma demo_os_ok : os_ok demo_os.
Proof. intros f n data. simpl. case_match; [|done]. bool2prop. intros [= <-]. simpl. lia. Qed.

Lemma readLine_refines_witness :
  line_inv demo_port /\
  exists r, readLine demo_os demo_port 0 0 = Ok r /\ line_inv (lr_port r) /\
    lr_line r = s2b "OK" ++ [CR; LF] /\ pending (lr_port r) = s2b "+".
Proof.
  assert (H : line_inv demo_port) by (vm_compute; intuition (discriminate || lia)).
  split; [exact H|].
  destruct (readLine_refines demo_os demo_port 0 0 H demo_os_ok) as (r & Hr & Hi & Hp).
  exists r. vm_compute in Hp. intuition.
Defined.

(** C27: over any sequence of [readLine] calls no byte is lost, duplicated or
    reordered: the lines returned, followed by the bytes still pending, are the
    bytes that were pending followed by all those received; and each line
    returned ends with its only line feed. *)
Theorem readLines_stream calls sp :
  line_inv sp -> Forall (fun call => os_ok (fst call)) calls ->
  exists ls sp' data, readLines calls sp = Ok (ls, sp') /\ line_inv sp' /\
    (ls, data, pending sp') = lines_spec (receives sp calls) (pending sp) /\
    concat ls ++ pending sp' = pending sp ++ data /\ Forall is_line ls.
Proof.
  intros Hinv Hok. destruct (readLines_run calls sp Hinv Hok) as (ls & sp' & data & H1 & H2 & H3).
  exists ls, sp', data. pose proof (lines_spec_stream (receives sp calls) (pending sp)) as H.
  rewrite <- H3 in H. tauto.
Qed.

Lemma readLines_stream_witness :
  exists ls sp' data, readLines [(demo_os, 0); (demo_os, 0)] demo_port = Ok (ls, sp') /\
    concat ls ++ pending sp' = s2b "OK" ++ data /\ length ls = 2%nat.
Proof.
  destruct (readLines_stream [(demo_os, 0); (demo_os, 0)] demo_port)
    as (ls & sp' & data & H1 & _ & H3 & H4 & _).
  - vm_compute; intuition (discriminate || lia).
  - repeat constructor; apply demo_os_ok.
  - exists ls, sp', data. split; [exact H1|]. split; [exact H4|].
    assert (E : ls = (lines_spec (receives demo_port [(demo_os, 0); (demo_os, 0)])
      (pending demo_port)).1.1) by (rewrite <- H3; reflexivity).
    rewrite E. vm_compute. reflexivity.
Defined.

(** C40: once 256 bytes without a line feed are pending, the port is stuck: every
    [readLine] asks [read] for zero bytes, returns [UART_FALSE] and leaves the
    same bytes pending, whatever the device sends. *)
Theorem readLine_overlong_line_stuck os sp delay_us read_len :
  line_inv sp -> os_ok os -> length (pending sp) = 256%nat -> first_line (pending sp) = None ->
  exists r, readLine os sp delay_us read_len = Ok r /\ lr_ret r = UART_FALSE /\
    pending (lr_port r) = pending sp /\ line_inv (lr_port r).
Proof.
  intros Hinv Hok Hlen Hline.
  destruct (readLine_line_post os sp delay_us read_len Hinv Hok) as (r & Hr & Hp & Hi & _).
  exists r. unfold line_spec in Hp. rewrite Hline, Hlen in Hp.
  change (READ_LINE_BUF_SIZE - Z.of_nat 256) with 0 in Hp.
  destruct (readBuffer os sp 0 delay_us) as [data|] eqn:E; [|tauto].
  apply readBuffer_data in E; [lia|done].
Qed.

Lemma readLine_overlong_line_stuck_witness :
  exists r, readLine demo_os (mkSerialPort 3 UART_TRUE (replicate 256 (chr 65)) 256 0) 0 0 = Ok r /\
    lr_ret r = UART_FALSE.
Proof.
  destruct (readLine_overlong_line_stuck demo_os
    (mkSerialPort 3 UART_TRUE (replicate 256 (chr 65)) 256 0) 0 0) as (r & H & F & _);
    [vm_compute; intuition (discriminate || lia)|apply demo_os_ok|reflexivity|reflexivity|].
  exists r. split; [exact H|exact F].
Defined.
