(* ===== verification/SerialBytes.v ===== *)
(** * Reading lines byte by byte

    The other [readLine] of src/src/SerialPort.cpp, which the file keeps under
    [#else]: it asks for one byte at a time, gives up after two failures in a row,
    and cuts a line at 256 bytes.  It is the reference the buffered [readLine] of
    SerialLine.v is compared with: on lines of at most 256 bytes the two return the
    same lines. *)
From S2P Require Import Prelude CLib SerialLine.

(** ** Operations *)

Section Bytes.
(** What the system answers to the successive calls of [readBuffer]. *)
Variable os : nat -> serial_os.

(** One round of [while (delay_count < 2)]; the state is [delay_count], the number
    of [readBuffer] calls so far and the port.  [usleep] passes time only. *)
Definition byte_step (st : Z * nat * SerialPort)
    : exec (Z * nat * SerialPort + line_result * nat) :=
  let '(delay_count, n, sp) := st in
  if delay_count <? 2 then
    match readBuffer (os n) sp 1 0 with
    | None => Ok (inl (u32 (delay_count + 1), S n, sp))
    | Some data =>
        read_char ← read data 0;
        buf ← write (ucReadLineBuf sp) (uiReadLineValidSize sp) read_char;
        let valid := u32 (uiReadLineValidSize sp + 1) in
        if (0x0A =? uchar read_char) || (READ_LINE_BUF_SIZE <=? valid) then
          line ← slice buf 0 valid;
          Ok (inr (mkLineResult UART_TRUE valid line
                     (mkSerialPort (fd sp) (isnormal sp) buf 0 (uiReadLineIdx sp)), S n))
        else
          Ok (inl (0, S n, mkSerialPort (fd sp) (isnormal sp) buf valid (uiReadLineIdx sp)))
    end
  else Ok (inr (mkLineResult UART_FALSE 0 [] sp, n)).

(** [readLine(read_buf, delay_us, read_len)] for a non-null [read_buf], from the
    [n]-th call of [readBuffer] on: a byte comes at least every second round. *)
Definition readLine_bytes (sp : SerialPort) (n : nat) : exec (line_result * nat) :=
  loopM (3 * Z.to_nat READ_LINE_BUF_SIZE + 3) byte_step (0, n, sp).

(** [k] calls in a row. *)
Fixpoint readLines_bytes (k : nat) (sp : SerialPort) (n : nat)
    : exec (list bytes * SerialPort * nat) :=
  match k with
  | O => Ok ([], sp, n)
  | S k =>
      '(r, n) ← readLine_bytes sp n;
      '(ls, sp, n) ← readLines_bytes k (lr_port r) n;
      Ok (if lr_ret r =? UART_TRUE then lr_line r :: ls else ls, sp, n)
  end.

(** ** Specification *)

(** The bytes received by the [readBuffer] calls from [n] on, [k] of them. *)
Definition received_byte (sp : SerialPort) (n : nat) : bytes := default [] (readBuffer (os n) sp 1 0).

Definition received_bytes (sp : SerialPort) (n k : nat) : bytes := seq n k ≫= received_byte sp.
End Bytes.

(** What a call returns: a line, or 256 bytes of a longer one. *)
Definition is_frame (l : bytes) : Prop :=
  is_line l /\ (length l <= 256)%nat \/ first_line l = None /\ length l = 256%nat.

(** Nothing but the start of a line is kept. *)
Definition byte_inv (sp : SerialPort) : Prop :=
  length (ucReadLineBuf sp) = 256%nat /\ uiReadLineIdx sp = 0 /\ 0 <= uiReadLineValidSize sp < 256 /\
  first_line (pending sp) = None.

(** The lines of a stream, and what follows the last. *)
Fixpoint split_lines (acc p : bytes) : list bytes * bytes :=
  match p with
  | [] => ([], acc)
  | c :: p =>
      if 0x0A =? uchar c then
        let '(ls, r) := split_lines [] p in ((acc ++ [c]) :: ls, r)
      else split_lines (acc ++ [c]) p
  end.

(** No line of the stream, complete or not, overflows the buffer. *)
Definition short_lines (p : bytes) : Prop :=
  Forall (fun l => (length l <= 256)%nat) (split_lines [] p).1 /\ (length (split_lines [] p).2 < 256)%nat.

(** ** Lemmas *)

Lemma received_bytes_S os sp n k :
  received_bytes os sp n (S k) = received_byte os sp n ++ received_bytes os sp (S n) k.
Proof. done. Qed.

Lemma received_bytes_add os sp n k j :
  received_bytes os sp n (k + j) = received_bytes os sp n k ++ received_bytes os sp (n + k) j.
Proof. unfold received_bytes. by rewrite seq_app, bind_app. Qed.

Lemma received_same os sp sp' n k :
  fd sp' = fd sp -> isnormal sp' = isnormal sp -> received_bytes os sp' n k = received_bytes os sp n k.
Proof. intros Hf Hn. unfold received_bytes, received_byte, readBuffer. by rewrite Hf, Hn. Qed.

Lemma first_line_snoc q c : first_line q = None -> first_line (q ++ [c]) = if 0x0A =? uchar c then Some (q ++ [c], []) else None.
Proof. intros Hq. rewrite first_line_None_app by done. cbn [first_line]. by destruct (0x0A =? uchar c). Qed.

(** What a call must establish, from the bytes [p] of a line already there. *)
Definition byte_post (p data : bytes) (r : line_result) : Prop :=
  byte_inv (lr_port r) /\
  (lr_ret r = UART_TRUE /\ lr_line r = p ++ data /\ lr_len r = Z.of_nat (length (p ++ data)) /\
     is_frame (p ++ data) /\ pending (lr_port r) = [] \/
   lr_ret r = UART_FALSE /\ lr_line r = [] /\ pending (lr_port r) = p ++ data).

Lemma byte_post_app p a data r : byte_post (p ++ a) data r -> byte_post p (a ++ data) r.
Proof. unfold byte_post. by rewrite app_assoc. Qed.

Section Loop.
Variables (os : nat -> serial_os) (f nrm : Z).
Hypothesis Hos : forall n, os_ok (os n).

Let port (buf : bytes) (k : nat) : SerialPort := mkSerialPort f nrm buf (Z.of_nat k) 0.

(** The byte received is stored behind [p]. *)
Lemma byte_step_data dc n buf p c :
  length buf = 256%nat -> take (length p) buf = p -> (length p < 256)%nat -> dc < 2 ->
  readBuffer (os n) (port buf (length p)) 1 0 = Some [c] ->
  let buf' := <[length p := c]> buf in
  take (length (p ++ [c])) buf' = p ++ [c] /\ length buf' = 256%nat /\
  byte_step os (dc, n, port buf (length p)) =
    Ok (if (0x0A =? uchar c) || (256 <=? Z.of_nat (length (p ++ [c])))
        then inr (mkLineResult UART_TRUE (Z.of_nat (length (p ++ [c]))) (p ++ [c]) (port buf' 0), S n)
        else inl (0, S n, port buf' (length (p ++ [c])))).
Proof.
  intros Hl Hp Hlt Hdc Hr. cbv zeta. assert (length (p ++ [c]) = S (length p)) as Hpc by (rewrite length_app; simpl; lia).
  assert (take (S (length p)) (<[length p := c]> buf) = p ++ [c]) as Ht.
  { erewrite take_S_r by (apply list_lookup_insert_eq; lia). rewrite take_insert_ge by lia. by rewrite Hp. }
  rewrite Hpc. split; [done|]. split; [by rewrite length_insert|].
  unfold byte_step. rewrite (proj2 (Z.ltb_lt dc 2)), Hr by done. subst port.
  rewrite (read_lookup [c] 0 c) by done. cbn [mbind result_bind ucReadLineBuf uiReadLineValidSize uiReadLineIdx fd isnormal].
  rewrite write_insert by lia. cbn [mbind result_bind]. unfold READ_LINE_BUF_SIZE.
  rewrite u32_small by lia. replace (Z.of_nat (length p) + 1) with (Z.of_nat (S (length p))) by lia.
  case_match; [|done]. rewrite slice_front by (rewrite length_insert; lia). by rewrite Ht.
Qed.

Lemma received_one n (buf p : bytes) c :
  readBuffer (os n) (port buf (length p)) 1 0 = Some [c] -> received_byte os (port [] 0) n = [c].
Proof.
  intros Hr. unfold received_byte. change (readBuffer (os n) (port [] 0) 1 0 = Some [c]) in Hr. by rewrite Hr.
Qed.

(** The line is complete, or the buffer is full. *)
Lemma line_returned p c buf :
  length buf = 256%nat -> (length p < 256)%nat -> first_line p = None ->
  (0x0A =? uchar c) || (256 <=? Z.of_nat (length (p ++ [c]))) = true ->
  byte_post p [c] (mkLineResult UART_TRUE (Z.of_nat (length (p ++ [c]))) (p ++ [c]) (port buf 0)).
Proof.
  intros Hl Hlt Hline Hc. assert (length (p ++ [c]) = S (length p)) as Hpc by (rewrite length_app; simpl; lia).
  pose proof (first_line_snoc p c Hline) as Hfl.
  unfold byte_post, byte_inv, port. cbn -[pending Z.of_nat app length]. rewrite pending_front.
  split; [split_and!; [done|done|lia|lia|done]|]. left. split_and!; [done..| |done].
  destruct (0x0A =? uchar c); [left|right].
  - split; [by eapply first_line_is_line|lia].
  - cbn [orb] in Hc. bool2prop. split; [done|lia].
Qed.

Lemma byte_loop fuel : forall dc n buf p,
  length buf = 256%nat -> take (length p) buf = p -> (length p < 256)%nat -> first_line p = None -> 0 <= dc <= 2 ->
  3 * (256 - Z.of_nat (length p)) + (2 - dc) + 1 <= Z.of_nat fuel ->
  exists r k, loopM fuel (byte_step os) (dc, n, port buf (length p)) = Ok (r, (n + k)%nat) /\
    fd (lr_port r) = f /\ isnormal (lr_port r) = nrm /\
    byte_post p (received_bytes os (port [] 0) n k) r /\
    (lr_ret r = UART_FALSE ->
     k = Z.to_nat (2 - dc) /\ received_bytes os (port [] 0) n k = [] \/
     (2 <= k)%nat /\ received_bytes os (port [] 0) (n + (k - 2)) 2 = []).
Proof.
  induction fuel as [|fuel IH]; intros dc n buf p Hl Hp Hlt Hline Hdc Hfuel; [lia|]. rewrite loopM_S.
  destruct (Z.ltb_spec dc 2) as [Hdc2|Hdc2].
  2: { unfold byte_step. rewrite (proj2 (Z.ltb_ge dc 2)) by done. cbn [mbind result_bind].
       exists (mkLineResult UART_FALSE 0 [] (port buf (length p))), 0%nat. rewrite Nat.add_0_r.
       unfold byte_post, byte_inv, port, received_bytes. cbn [seq mbind list_bind]. rewrite app_nil_r.
       cbn -[pending Z.of_nat Z.to_nat]. rewrite pending_front, Hp.
       split_and!; try done; try lia.
       - by right.
       - intros _. left. split; [lia|done]. }
  destruct (readBuffer (os n) (port buf (length p)) 1 0) as [data|] eqn:Hr.
  - pose proof (readBuffer_data _ _ _ _ _ (Hos n) Hr) as [Hd1 Hd2].
    destruct data as [|c [|c' data]]; cbn [length] in *; [lia| |lia].
    destruct (byte_step_data dc n buf p c Hl Hp Hlt Hdc2 Hr) as (Ht & Hl' & ->). cbn [mbind result_bind].
    assert (length (p ++ [c]) = S (length p)) as Hpc by (rewrite length_app; simpl; lia).
    destruct ((0x0A =? uchar c) || _) eqn:Hc.
    + exists (mkLineResult UART_TRUE (Z.of_nat (length (p ++ [c]))) (p ++ [c]) (port (<[length p := c]> buf) 0)), 1%nat.
      rewrite received_bytes_S, (received_one n buf p c Hr), Nat.add_1_r. cbn [received_bytes seq mbind list_bind app].
      split_and!; [done..| |done]. apply line_returned; [done|lia|done|done].
    + apply orb_false_iff in Hc as [Hc Hfull]. bool2prop.
      destruct (IH 0 (S n) (<[length p := c]> buf) (p ++ [c])) as (r & k & -> & Hf & Hn & Hpost & Hend);
        [done|done|lia|by rewrite first_line_snoc, (proj2 (Z.eqb_neq _ _)) by done|lia|lia|].
      exists r, (S k). rewrite received_bytes_S, (received_one n buf p c Hr), Nat.add_succ_r.
      apply byte_post_app in Hpost. split_and!; [done..|]. intros Hret. right.
      destruct (Hend Hret) as [[-> Hnone]|[Hk Hnone]].
      * change (Z.to_nat (2 - 0)) with 2%nat in *. split; [lia|]. by rewrite Nat.add_1_r.
      * split; [lia|]. by replace (n + (S k - 2))%nat with (S n + (k - 2))%nat by lia.
  - assert (byte_step os (dc, n, port buf (length p)) = Ok (inl (dc + 1, S n, port buf (length p)))) as ->.
    { unfold byte_step. by rewrite (proj2 (Z.ltb_lt dc 2)), Hr, u32_small by lia. }
    cbn [mbind result_bind].
    destruct (IH (dc + 1) (S n) buf p) as (r & k & -> & Hf & Hn & Hpost & Hend); [done..|lia|lia|].
    exists r, (S k). assert (received_byte os (port [] 0) n = []) as Hb.
    { unfold received_byte. change (readBuffer (os n) (port [] 0) 1 0 = None) in Hr. by rewrite Hr. }
    rewrite received_bytes_S, Hb, Nat.add_succ_r. split_and!; [done..|]. intros Hret.
    destruct (Hend Hret) as [[-> Hnone]|[Hk Hnone]]; [left; split; [lia|done]|right].
    split; [lia|]. by replace (n + (S k - 2))%nat with (S n + (k - 2))%nat by lia.
Qed.
End Loop.

Lemma byte_inv_line_inv sp : byte_inv sp -> line_inv sp.
Proof. unfold byte_inv, line_inv. intros (? & ? & ? & _). lia. Qed.

(** One call: the fuel is enough, and it gives up after two failures in a row only. *)
Lemma readLine_bytes_call os sp n :
  (forall n, os_ok (os n)) -> byte_inv sp ->
  exists r k, readLine_bytes os sp n = Ok (r, (n + k)%nat) /\ fd (lr_port r) = fd sp /\
    isnormal (lr_port r) = isnormal sp /\ byte_post (pending sp) (received_bytes os sp n k) r /\
    (lr_ret r = UART_FALSE -> (2 <= k)%nat /\ received_bytes os sp (n + (k - 2)) 2 = []).
Proof.
  intros Hos (Hl & Hidx & Hv & Hline). destruct sp as [f nrm buf v idx]. cbn [ucReadLineBuf uiReadLineIdx uiReadLineValidSize] in *.
  subst idx. replace v with (Z.of_nat (Z.to_nat v)) in * by lia. generalize dependent (Z.to_nat v). intros m Hv Hline.
  rewrite pending_front in *. assert (length (take m buf) = m) as Hm by (rewrite length_take; lia).
  destruct (byte_loop os f nrm Hos (3 * Z.to_nat READ_LINE_BUF_SIZE + 3) 0 n buf (take m buf))
    as (r & k & Hr & Hf & Hn & Hpost & Hend); rewrite ?Hm; try done; try lia.
  { unfold READ_LINE_BUF_SIZE. lia. }
  rewrite Hm in Hr. exists r, k. split_and!; [exact Hr|done|done|exact Hpost|].
  intros Hret. destruct (Hend Hret) as [[-> Hnone]|H]; [|exact H].
  change (Z.to_nat (2 - 0)) with 2%nat in *. split; [lia|]. rewrite Nat.add_0_r. exact Hnone.
Qed.

Lemma readLines_bytes_run os k : forall sp n,
  (forall n, os_ok (os n)) -> byte_inv sp ->
  exists ls sp' j, readLines_bytes os k sp n = Ok (ls, sp', (n + j)%nat) /\ byte_inv sp' /\
    concat ls ++ pending sp' = pending sp ++ received_bytes os sp n j /\ Forall is_frame ls.
Proof.
  induction k as [|k IH]; intros sp n Hos Hinv.
  { exists [], sp, 0%nat. rewrite Nat.add_0_r. split_and!; [done|done|by rewrite app_nil_r|done]. }
  destruct (readLine_bytes_call os sp n Hos Hinv) as (r & k1 & Hr & Hf & Hn & [Hinv' Hpost] & _).
  destruct (IH (lr_port r) (n + k1)%nat Hos Hinv') as (ls & sp' & j & Hls & Hinv'' & Hcat & Hfr).
  cbn [readLines_bytes]. rewrite Hr. cbn [mbind result_bind]. rewrite Hls. cbn [mbind result_bind].
  rewrite (received_same os sp) in Hcat by done.
  eexists _, sp', (k1 + j)%nat. rewrite Nat.add_assoc, received_bytes_add. split; [reflexivity|]. split; [done|].
  destruct Hpost as [(-> & -> & _ & Hframe & Hp)|(-> & _ & Hp)]; rewrite Hp in Hcat.
  - change (UART_TRUE =? UART_TRUE) with true. cbv iota. cbn [concat]. rewrite <- app_assoc, Hcat.
    split; [cbn [app]; by rewrite !app_assoc|by constructor].
  - change (UART_FALSE =? UART_TRUE) with false. cbv iota. rewrite Hcat, <- app_assoc. done.
Qed.

(** *** Cutting a stream into lines *)

Lemma split_lines_prefix acc q r :
  first_line q = None -> split_lines acc (q ++ r) = split_lines (acc ++ q) r.
Proof.
  revert acc. induction q as [|c q IH]; intros acc; cbn [first_line app split_lines]; [by rewrite app_nil_r|].
  destruct (0x0A =? uchar c); [done|]. destruct (first_line q) as [[]|] eqn:E; [done|]. intros _.
  rewrite IH by done. by rewrite <- app_assoc.
Qed.

Lemma split_lines_line l p :
  is_line l -> split_lines [] (l ++ p) = (l :: (split_lines [] p).1, (split_lines [] p).2).
Proof.
  intros (b & -> & Hb). assert (first_line b = None) as Hnone.
  { induction Hb as [|c b Hc Hb IH]; [done|]. cbn [first_line]. rewrite (proj2 (Z.eqb_neq _ _)), IH; [done|].
    intros E. apply Hc. apply (inj uchar). by rewrite <- E. }
  rewrite <- app_assoc, split_lines_prefix by done. cbn [app split_lines].
  change (0x0A =? uchar LF) with true. cbv iota. by destruct (split_lines [] p).
Qed.

Lemma split_lines_concat ls p :
  Forall is_line ls ->
  split_lines [] (concat ls ++ p) = (ls ++ (split_lines [] p).1, (split_lines [] p).2).
Proof.
  induction 1 as [|l ls Hl _ IH]; cbn [concat]; [cbn [app]; by destruct (split_lines [] p)|].
  rewrite <- app_assoc, split_lines_line, IH by done. done.
Qed.

(** The first line, complete or not, is at least as long as what it starts with. *)
Lemma split_lines_long acc p :
  match (split_lines acc p).1 with
  | [] => (length acc <= length (split_lines acc p).2)%nat
  | l :: _ => (length acc < length l)%nat
  end.
Proof.
  revert acc. induction p as [|c p IH]; intros acc; cbn [split_lines]; [cbn; lia|].
  destruct (0x0A =? uchar c).
  - destruct (split_lines [] p). cbn. rewrite length_app. cbn. lia.
  - specialize (IH (acc ++ [c])). rewrite length_app in IH. cbn [length] in IH.
    destruct (split_lines (acc ++ [c]) p) as [[|l ls] r]; cbn [fst snd] in *; lia.
Qed.

Lemma frames_short ls p :
  Forall is_frame ls -> short_lines (concat ls ++ p) -> Forall is_line ls.
Proof.
  induction 1 as [|l ls Hl _ IH]; [done|]. cbn [concat]. rewrite <- app_assoc. intros Hshort.
  destruct Hl as [[Hl _]|[Hnone Hlen]].
  - constructor; [done|]. apply IH. unfold short_lines in *. rewrite split_lines_line in Hshort by done.
    cbn [fst snd] in Hshort. destruct Hshort as [Hs1 Hs2]. by apply list.Forall_cons in Hs1 as [_ Hs1].
  - exfalso. destruct Hshort as [Hs1 Hs2]. rewrite split_lines_prefix in Hs1, Hs2 by done. cbn [app] in *.
    pose proof (split_lines_long l (concat ls ++ p)) as Hlong.
    destruct (split_lines l _) as [[|l' ls'] r]; cbn [fst snd] in *; [lia|].
    apply list.Forall_cons in Hs1 as [Hs1 _]. lia.
Qed.

(** ** Properties *)

(** C28: the [readLine] kept under [#else], which reads one byte at a time, is the
    same function on lines of at most 256 bytes: whatever the system answers to
    the two, and however many calls are made, both return and, where they have
    received the same bytes, the lines of the one are those of the other and the
    complete lines the other still keeps. *)
Theorem readLine_bytes_same_lines (os : nat -> serial_os) calls k n sp :
  (forall n, os_ok (os n)) -> Forall (fun call => os_ok (fst call)) calls -> byte_inv sp ->
  exists ls1 sp1 data ls2 sp2 j,
    readLines calls sp = Ok (ls1, sp1) /\ readLines_bytes os k sp n = Ok (ls2, sp2, (n + j)%nat) /\
    (ls1, data, pending sp1) = lines_spec (receives sp calls) (pending sp) /\
    (data = received_bytes os sp n j -> short_lines (pending sp ++ data) ->
     ls2 = ls1 ++ (split_lines [] (pending sp1)).1 /\ pending sp2 = (split_lines [] (pending sp1)).2).
Proof.
  intros Hos Hcalls Hinv.
  destruct (readLines_run calls sp (byte_inv_line_inv sp Hinv) Hcalls) as (ls1 & sp1 & data & H1 & _ & Hspec).
  destruct (readLines_bytes_run os k sp n Hos Hinv) as (ls2 & sp2 & j & H2 & Hinv2 & Hcat2 & Hframes).
  exists ls1, sp1, data, ls2, sp2, j. split_and!; [done..|]. intros Hdata Hshort.
  pose proof (lines_spec_stream (receives sp calls) (pending sp)) as Hs. rewrite <- Hspec in Hs.
  destruct Hs as [Hcat1 Hlines]. rewrite <- Hdata in Hcat2.
  assert (Forall is_line ls2) as Hlines2 by (apply (frames_short ls2 (pending sp2)); [done|by rewrite Hcat2]).
  pose proof (split_lines_concat ls1 (pending sp1) Hlines) as E1. rewrite Hcat1 in E1.
  pose proof (split_lines_concat ls2 (pending sp2) Hlines2) as E2. rewrite Hcat2, E1 in E2.
  rewrite <- (app_nil_r (pending sp2)) in E2. rewrite split_lines_prefix in E2 by apply Hinv2.
  cbn [split_lines fst snd app] in E2. rewrite app_nil_r in E2. by injection E2 as <- <-.
Qed.

(** A device that sends [a], a line feed and [b], to both. *)
Definition block_os : serial_os :=
  {| os_select := fun _ _ => 1; os_read := fun _ n => if 3 <=? n then Some (s2b "a" ++ [LF] ++ s2b "b") else None |}.
Definition quiet_os : serial_os := {| os_select := fun _ _ => 0; os_read := fun _ _ => None |}.
Definition byte_os (n : nat) : serial_os :=
  {| os_select := fun _ _ => 1;
     os_read := fun _ m => if 1 <=? m then (fun c => [c]) <$> (s2b "a" ++ [LF] ++ s2b "b") !! n else None |}.
Definition idle_port : SerialPort :=
  mkSerialPort 3 UART_TRUE (replicate 256 NUL) 0 0.

Lemma readLine_bytes_same_lines_witness :
  exists ls1 sp1 ls2 sp2 n, readLines [(block_os, 0); (quiet_os, 0)] idle_port = Ok (ls1, sp1) /\
    readLines_bytes byte_os 2 idle_port 0 = Ok (ls2, sp2, n) /\
    ls2 = ls1 ++ (split_lines [] (pending sp1)).1 /\ length ls1 = 1%nat.
Proof.
  destruct (readLine_bytes_same_lines byte_os [(block_os, 0); (quiet_os, 0)] 2 0 idle_port)
    as (ls1 & sp1 & data & ls2 & sp2 & j & H1 & H2 & Hspec & H).
  - intros n f m d. cbn. case_match; [|done]. bool2prop. destruct (_ !! n); cbn; [|done]. intros [= <-]. cbn. lia.
  - repeat constructor; intros f m d; cbn; [|done]. case_match; [|done]. bool2prop. intros [= <-]. cbn. lia.
  - repeat split; vm_compute; congruence.
  - assert (data = s2b "a" ++ [LF] ++ s2b "b") as ->
      by (transitivity (ls1, data, pending sp1).1.2; [done|rewrite Hspec; vm_compute; reflexivity]).
    assert (j = 5%nat) as ->
      by (pose proof (f_equal (fun r => match r with Ok (_, _, m) => m | _ => 0%nat end) H2) as Hj; vm_compute in Hj; done).
    exists ls1, sp1, ls2, sp2, 5%nat. split; [exact H1|]. split; [exact H2|]. split.
    + apply H; [vm_compute; reflexivity|]. split; [repeat constructor|]; vm_compute; lia.
    + transitivity (length (ls1, s2b "a" ++ [LF] ++ s2b "b", pending sp1).1.1); [done|]. rewrite Hspec. vm_compute. reflexivity.
Defined.
