(* ===== verification/Wheel.v ===== *)
(** * The wheel speed frame of SerialPort.cpp

    The two overloads of [XorCode] and [sendWheelSpd] of src/src/SerialPort.cpp:
    an eleven-byte frame ['S', left speed, right speed, checksum, 'E'] with the
    speeds as 32-bit little-endian integers. *)
From Stdlib Require Import QArith.
From S2P Require Import Prelude CLib SerialLine.
#[local] Open Scope Z_scope.

(** ** The code *)

(** The loop [for (int i = 1; i < len; i++) ans = ans ^ buf[i]] over an [int]
    or [unsigned char] accumulator; [val] is the value of a byte in the type
    of the elements. *)
Definition xor_step (val : ascii -> Z) (buf : bytes) (len : Z) (st : Z * Z)
    : exec (Z * Z + Z) :=
  let (i, ans) := st in
  if i <? len then c ← read buf i; Ok (inl (i + 1, Z.lxor ans (val c)))
  else Ok (inr ans).

(** [unsigned char XorCode(unsigned char *buf, int len)]. *)
Definition XorCode (buf : bytes) (len : Z) : exec Z :=
  c ← read buf 0;
  ans ← loopM (S (Z.to_nat len)) (xor_step uchar buf len) (1, uchar c);
  Ok (Z.land ans 0x7F).

(** [unsigned char XorCode(string buf, int len)]: the accumulator is an [int], the
    elements are [char], and a [std::string] has a NUL at the index of its size. *)
Definition XorCode_string (buf : bytes) (len : Z) : exec Z :=
  c ← read (buf ++ [NUL]) 0;
  ans ← loopM (S (Z.to_nat len)) (xor_step schar (buf ++ [NUL]) len) (1, schar c);
  Ok (u8 (Z.land ans 0x7f)).

(** [(int)x]: truncation toward zero, undefined out of the range of [int].  The
    value of a [float] is a rational number. *)
Definition float_to_int (x : Q) : exec Z :=
  let n := Z.quot (Qnum x) (Zpos (Qden x)) in
  if (- 2 ^ 31 <=? n) && (n <? 2 ^ 31) then Ok n else Undefined Overflow.

(** [buff[1] = v; buff[2] = v >> 8; ...]. *)
Definition int_bytes (v : Z) : bytes :=
  [chr v; chr (Z.shiftr v 8); chr (Z.shiftr v 16); chr (Z.shiftr v 24)].

(** The eleven bytes [sendWheelSpd] hands to [writeBuffer]. *)
Definition wheel_frame (lspeed rspeed : Z) : exec bytes :=
  let body := int_bytes lspeed ++ int_bytes rspeed in
  code ← XorCode body 8;
  Ok (s2b "S" ++ body ++ [chr code] ++ s2b "E").

(** [int32_t sendWheelSpd(float lspd, float rspd)]. *)
Definition sendWheelSpd (os_write : Z -> bytes -> Z) (sp : SerialPort) (lspd rspd : Q) : exec Z :=
  lspeed ← float_to_int lspd;
  rspeed ← float_to_int rspd;
  buff ← wheel_frame lspeed rspeed;
  Ok (writeBuffer os_write sp buff).

(** ** The receiver the frame is meant for *)

Definition xor_all (l : list Z) : Z := foldr Z.lxor 0 l.

(** The checksum of a body: the exclusive or of its bytes, on seven bits. *)
Definition checksum (body : bytes) : Z := Z.land (xor_all (uchar <$> body)) 0x7F.

(** The 32-bit signed integer of four bytes, low byte first. *)
Definition int_of_bytes (b : bytes) : Z :=
  match uchar <$> b with
  | [b0; b1; b2; b3] => i32 (b0 + b1 * 2 ^ 8 + b2 * 2 ^ 16 + b3 * 2 ^ 24)
  | _ => 0
  end.

(** A frame is accepted when its delimiters and its checksum are right. *)
Definition decode_frame (f : bytes) : option (Z * Z) :=
  if bool_decide (length f = 11%nat) && bool_decide (take 1 f = s2b "S")
     && bool_decide (drop 10 f = s2b "E")
     && bool_decide (drop 9 (take 10 f) = [chr (checksum (take 8 (drop 1 f)))])
  then Some (int_of_bytes (take 4 (drop 1 f)), int_of_bytes (take 4 (drop 5 f)))
  else None.

(** ** Lemmas *)

Lemma foldl_lxor l a : foldl Z.lxor a l = Z.lxor a (xor_all l).
Proof.
  revert a. induction l as [|b l IH]; intros a; simpl; [by rewrite Z.lxor_0_r|].
  by rewrite IH, Z.lxor_assoc.
Qed.

Lemma xor_loop (val : ascii -> Z) (buf : bytes) (n : nat) : forall fuel k ans,
  (n <= length buf)%nat -> (k <= n)%nat -> (n - k < fuel)%nat ->
  loopM fuel (xor_step val buf (Z.of_nat n)) (Z.of_nat k, ans) =
  Ok (Z.lxor ans (xor_all (val <$> take (n - k) (drop k buf)))).
Proof.
  intros fuel. induction fuel as [|fuel IH]; intros k ans Hn Hk Hf; [lia|].
  rewrite loopM_S. cbn [xor_step]. destruct (Z.ltb_spec (Z.of_nat k) (Z.of_nat n)).
  - destruct (lookup_lt_is_Some_2 buf k) as [c Hc]; [lia|].
    rewrite (read_lookup _ _ _ Hc). cbn [mbind result_bind].
    replace (Z.of_nat k + 1) with (Z.of_nat (S k)) by lia. rewrite IH by lia.
    rewrite (drop_S _ _ _ Hc). replace (n - k)%nat with (S (n - S k)) by lia.
    cbn [take fmap list_fmap xor_all foldr]. by rewrite Z.lxor_assoc.
  - replace (n - k)%nat with 0%nat by lia. simpl. by rewrite Z.lxor_0_r.
Qed.

(** Both overloads compute the exclusive or of the first [n] bytes. *)
Lemma XorCode_with (val : ascii -> Z) (buf : bytes) (n : nat) :
  (1 <= n <= length buf)%nat ->
  (c ← read buf 0;
   loopM (S (Z.to_nat (Z.of_nat n))) (xor_step val buf (Z.of_nat n)) (1, val c)) =
  @Ok Empty_set _ (xor_all (val <$> take n buf)).
Proof.
  intros Hn. destruct buf as [|c buf]; [simpl in Hn; lia|].
  cbn [read]. change (read (c :: buf) 0) with (@Ok Empty_set _ c). cbn [mbind result_bind].
  change 1 with (Z.of_nat 1). rewrite xor_loop by lia.
  destruct n as [|n]; [lia|]. f_equal. cbn [drop]. rewrite drop_0.
  replace (S n - 1)%nat with n by lia. done.
Qed.

Lemma XorCode_checksum (buf : bytes) (n : nat) :
  (1 <= n <= length buf)%nat -> XorCode buf (Z.of_nat n) = Ok (checksum (take n buf)).
Proof.
  intros Hn. pose proof (XorCode_with uchar buf n Hn) as H. unfold XorCode.
  destruct (read buf 0) as [c|[]|]; [|done]. cbn [mbind result_bind] in *.
  rewrite H. done.
Qed.

Lemma low7_schar c : Z.land (schar c) 0x7F = Z.land (uchar c) 0x7F.
Proof. byte_cases c. Qed.

Lemma land_lxor_distr a b m : Z.land (Z.lxor a b) m = Z.lxor (Z.land a m) (Z.land b m).
Proof.
  apply Z.bits_inj'. intros n Hn. rewrite !Z.land_spec, !Z.lxor_spec, !Z.land_spec.
  by destruct (Z.testbit a n), (Z.testbit b n), (Z.testbit m n).
Qed.

Lemma xor_all_cons a l : xor_all (a :: l) = Z.lxor a (xor_all l).
Proof. done. Qed.

Lemma low7_xor_all (val : ascii -> Z) (l : bytes) :
  (forall c, Z.land (val c) 0x7F = Z.land (uchar c) 0x7F) ->
  Z.land (xor_all (val <$> l)) 0x7F = Z.land (xor_all (uchar <$> l)) 0x7F.
Proof.
  intros H. induction l as [|c l IH]; [done|]. rewrite !fmap_cons, !xor_all_cons.
  by rewrite !land_lxor_distr, H, IH.
Qed.

Lemma checksum_range body : 0 <= checksum body < 128.
Proof.
  unfold checksum. rewrite (land_low_mod _ 7) by done. by apply Z.mod_pos_bound.
Qed.

Lemma int_bytes_roundtrip v : in_i32 v -> int_of_bytes (int_bytes v) = v.
Proof.
  unfold in_i32. intros Hv. unfold int_of_bytes, int_bytes. cbn [fmap list_fmap].
  rewrite !Z.shiftr_div_pow2, !uchar_chr by done. unfold i32. divlia.
Qed.

Lemma wheel_frame_eq l r :
  wheel_frame l r = Ok (s2b "S" ++ (int_bytes l ++ int_bytes r) ++
    [chr (checksum (int_bytes l ++ int_bytes r))] ++ s2b "E").
Proof.
  unfold wheel_frame. change 8 with (Z.of_nat 8). rewrite XorCode_checksum by (simpl; lia). done.
Qed.

Lemma xor_all_app l k : xor_all (l ++ k) = Z.lxor (xor_all l) (xor_all k).
Proof.
  induction l as [|a l IH]; [by rewrite Z.lxor_0_l|].
  by rewrite <- app_comm_cons, !xor_all_cons, IH, Z.lxor_assoc.
Qed.

Lemma decode_frame_body body k :
  length body = 8%nat ->
  decode_frame (s2b "S" ++ body ++ [k] ++ s2b "E") =
    if decide (k = chr (checksum body)) then
      Some (int_of_bytes (take 4 body), int_of_bytes (drop 4 body))
    else None.
Proof.
  destruct body as [|x0 [|x1 [|x2 [|x3 [|x4 [|x5 [|x6 [|x7 [|]]]]]]]]]; try discriminate.
  intros _. unfold decode_frame. cbn [s2b String.list_ascii_of_string app length take drop].
  rewrite (bool_decide_eq_true_2 (11%nat = _)) by done.
  rewrite (bool_decide_eq_true_2 ([_] = s2b "S")) by done.
  rewrite (bool_decide_eq_true_2 ([_] = s2b "E")) by done. cbn [andb].
  case_bool_decide as E; case_decide as E'; try done; simplify_eq.
Qed.

(** The checksums of two bodies that differ at one byte. *)
Lemma checksum_change (p s : bytes) (c d : ascii) :
  checksum (p ++ c :: s) = checksum (p ++ d :: s) <->
  Z.land (uchar c) 0x7F = Z.land (uchar d) 0x7F.
Proof.
  unfold checksum. rewrite !fmap_app, !xor_all_app, !fmap_cons, !xor_all_cons.
  rewrite !land_lxor_distr. set (a := Z.land (xor_all (uchar <$> p)) _).
  set (b := Z.land (xor_all (uchar <$> s)) _).
  split; [|by intros ->]. intros H. apply (f_equal (Z.lxor a)) in H.
  rewrite <- !(Z.lxor_assoc a a), Z.lxor_nilpotent, !Z.lxor_0_l in H.
  apply (f_equal (fun x => Z.lxor x b)) in H.
  by rewrite !Z.lxor_assoc, Z.lxor_nilpotent, !Z.lxor_0_r in H.
Qed.

(** ** Properties *)

(** C31: the frame of two wheel speeds is eleven bytes, accepted by a receiver
    that checks it, and decodes to the same two speeds, over the whole range of
    [int]. *)
Theorem wheel_frame_roundtrip l r :
  in_i32 l -> in_i32 r ->
  exists f, wheel_frame l r = Ok f /\ length f = 11%nat /\ decode_frame f = Some (l, r).
Proof.
  intros Hl Hr. eexists. split; [apply wheel_frame_eq|]. split; [done|].
  unfold decode_frame. rewrite !bool_decide_eq_true_2 by done. cbn [andb].
  f_equal. f_equal; by apply int_bytes_roundtrip.
Qed.

Lemma wheel_frame_roundtrip_witness :
  exists f, wheel_frame (-5) 300 = Ok f /\ length f = 11%nat /\ decode_frame f = Some (-5, 300).
Proof. apply wheel_frame_roundtrip; split; vm_compute; (discriminate || reflexivity). Defined.

(** What the checksum detects.  When one byte [c] of the two speeds arrives
    as [d], the receiver rejects the frame exactly when the low seven bits
    differ: the mask [0x7F] leaves the top bit of every byte unprotected. *)
Theorem wheel_frame_corruption l r (p s : bytes) (c d : ascii) f :
  int_bytes l ++ int_bytes r = p ++ c :: s ->
  f = s2b "S" ++ (p ++ d :: s) ++ [chr (checksum (p ++ c :: s))] ++ s2b "E" ->
  decode_frame f = None <-> Z.land (uchar c) 0x7F <> Z.land (uchar d) 0x7F.
Proof.
  intros Hb ->. assert (Hlen : length (p ++ d :: s) = 8%nat).
  { apply (f_equal length) in Hb. rewrite !length_app in *. simpl in *. lia. }
  rewrite decode_frame_body by done. rewrite <- (checksum_change p s c d).
  pose proof (checksum_range (p ++ c :: s)). pose proof (checksum_range (p ++ d :: s)).
  case_decide as E; split; try done; intros Hne.
  - destruct Hne. apply (f_equal uchar) in E. by rewrite !uchar_chr_small in E by lia.
  - intros E'. by rewrite E' in E.
Qed.

Lemma wheel_frame_corruption_witness :
  decode_frame (s2b "S" ++ int_bytes 77 ++ int_bytes 5 ++ [chr 72] ++ s2b "E") = Some (77, 5) /\
  decode_frame (s2b "S" ++ int_bytes 76 ++ int_bytes 5 ++ [chr 72] ++ s2b "E") = None.
Proof.
  split; [vm_compute; reflexivity|].
  apply (wheel_frame_corruption 77 5 [] [NUL; NUL; NUL; chr 5; NUL; NUL; NUL] (chr 77) (chr 76));
    [reflexivity|vm_compute; reflexivity|vm_compute; discriminate].
Defined.

(** The two overloads of [XorCode], over [unsigned char] and over [char]
    elements, agree on every buffer: both return the seven low bits of the
    exclusive or of its first [len] bytes. *)
Theorem XorCode_overloads (buf : bytes) (len : Z) :
  1 <= len <= Z.of_nat (length buf) ->
  XorCode buf len = Ok (checksum (take (Z.to_nat len) buf)) /\
  XorCode_string buf len = XorCode buf len.
Proof.
  intros Hlen. rewrite <- (Z2Nat.id len) by lia. set (n := Z.to_nat len) in *.
  rewrite Nat2Z.id, XorCode_checksum by lia. split; [done|].
  pose proof (XorCode_with schar (buf ++ [NUL]) n) as H. rewrite length_app, take_app_le in H by lia.
  simpl length in H. unfold XorCode_string.
  destruct (read (buf ++ [NUL]) 0) as [c|[]|]; [|specialize (H ltac:(lia)); discriminate].
  cbn [mbind result_bind] in *. rewrite H by lia. cbn [mbind result_bind].
  rewrite low7_xor_all by apply low7_schar. f_equal. fold (checksum (take n buf)).
  pose proof (checksum_range (take n buf)). unfold u8. apply Z.mod_small. lia.
Qed.

Lemma XorCode_overloads_witness :
  XorCode (s2b "S" ++ [chr 200]) 2 = Ok (checksum (s2b "S" ++ [chr 200])) /\
  XorCode_string (s2b "S" ++ [chr 200]) 2 = XorCode (s2b "S" ++ [chr 200]) 2.
Proof. apply (XorCode_overloads (s2b "S" ++ [chr 200]) 2). vm_compute. split; discriminate. Defined.
