(* ===== verification/AlarmRing.v ===== *)
(** * The motion alarm ring of HikDev.cpp

    The ring [struAlarmMotionDetect] of 32 alarms with its two indices, the SDK
    callback that writes it and the accessors the main loop reads it with
    (src/src/HikDev.cpp), each as one atomic operation; AlarmRace.v interleaves
    them.  The specification is a queue. *)
From S2P Require Import Prelude CLib.

(** ** Data *)

Definition ALARM_MOTION_DETECT_MAX : Z := 32.
Definition MAX_CHANNUM_V30 : Z := 64.
Definition COMM_ALARM_V30 : Z := 0x4000.

(** The device an alarm comes from (HCNetSDK.h). *)
Record NET_DVR_ALARMER := {
  byUserIDValid : Z; bySerialValid : Z; byVersionValid : Z; byDeviceNameValid : Z;
  byMacAddrValid : Z; byLinkPortValid : Z; byDeviceIPValid : Z; bySocketIPValid : Z;
  lUserID : Z; sSerialNumber : bytes; dwDeviceVersion : Z; sDeviceName : bytes;
  byMacAddr : bytes; wLinkPort : Z; sDeviceIP : bytes; sSocketIP : bytes;
  byIpProtocol : Z; byRes1 : bytes; bJSONBroken : Z; wSocketPort : Z; byRes2 : bytes
}.

Record ALARM_MOTION_DETECT := mkAlarm {
  struAlarmDevInfo : NET_DVR_ALARMER;
  byRes : bytes;
  byChannel : Z;
  AlarmTime : Z
}.

(** The static members of [HikDevOperate] that hold the alarms. *)
Record alarm_state := mkRing {
  struAlarmMotionDetect : list ALARM_MOTION_DETECT;
  dwAlarmMotionDetectWr : Z;
  dwAlarmMotionDetectRd : Z
}.

Definition zeros (n : nat) : bytes := replicate n NUL.

Definition zero_alarmer : NET_DVR_ALARMER :=
  {| byUserIDValid := 0; bySerialValid := 0; byVersionValid := 0; byDeviceNameValid := 0;
     byMacAddrValid := 0; byLinkPortValid := 0; byDeviceIPValid := 0; bySocketIPValid := 0;
     lUserID := 0; sSerialNumber := zeros 48; dwDeviceVersion := 0; sDeviceName := zeros 32;
     byMacAddr := zeros 6; wLinkPort := 0; sDeviceIP := zeros 128; sSocketIP := zeros 128;
     byIpProtocol := 0; byRes1 := zeros 2; bJSONBroken := 0; wSocketPort := 0;
     byRes2 := zeros 6 |}.

Definition zero_alarm : ALARM_MOTION_DETECT := mkAlarm zero_alarmer (zeros 7) 0 0.

(** [HikDevOperate::HikDevOperate()]; static storage starts the same way. *)
Definition HikDevOperate_init : alarm_state :=
  mkRing (replicate (Z.to_nat ALARM_MOTION_DETECT_MAX) zero_alarm) 0 0.

(** [struct tm], as far as it is used. *)
Record tm := {
  tm_year : Z; tm_mon : Z; tm_mday : Z; tm_hour : Z; tm_min : Z; tm_sec : Z
}.

(** ** The callback *)

(** The alarm information is the memory at [pAlarmInfo], read through
    [NET_DVR_ALARMINFO_V30]: [dwAlarmType] is its first four bytes, and
    [byChannel] starts after [dwAlarmInputNumber], [byAlarmOutputNumber[96]]
    and [byAlarmRelateChannel[64]]. *)
Definition byChannel_offset : Z := 4 + 4 + 96 + 64.

Definition dwAlarmType (info : bytes) : exec Z :=
  b0 ← read info 0; b1 ← read info 1; b2 ← read info 2; b3 ← read info 3;
  Ok (uchar b0 + uchar b1 * 2 ^ 8 + uchar b2 * 2 ^ 16 + uchar b3 * 2 ^ 24).

(** The [for] loop up to the first channel that is set. *)
Definition channel_step (info : bytes) (i : Z) : exec (Z + option Z) :=
  if i <? MAX_CHANNUM_V30 then
    c ← read info (byChannel_offset + i);
    if nz (uchar c) then Ok (inr (Some i)) else Ok (inl (i + 1))
  else Ok (inr None).

Definition first_channel (info : bytes) : exec (option Z) :=
  loopM (S (Z.to_nat MAX_CHANNUM_V30)) (channel_step info) 0.

(** The three assignments and the increment for channel index [i]. *)
Definition record_alarm (a : NET_DVR_ALARMER) (i now : Z) (st : alarm_state) : exec alarm_state :=
  let wr := dwAlarmMotionDetectWr st in
  e ← read (struAlarmMotionDetect st) wr;
  ring ← write (struAlarmMotionDetect st) wr (mkAlarm a (byRes e) (u8 (i + 1)) now);
  let wr' := u32 (wr + 1) in
  Ok (mkRing ring (if ALARM_MOTION_DETECT_MAX <=? wr' then 0 else wr')
        (dwAlarmMotionDetectRd st)).

(** [HikDevAlarmCallback(lCommand, pAlarmer, pAlarmInfo, dwBufLen, pUser)]; [now]
    is what [time] stores. *)
Definition HikDevAlarmCallback (lCommand : Z) (pAlarmer : NET_DVR_ALARMER) (pAlarmInfo : bytes)
    (now : Z) (st : alarm_state) : exec alarm_state :=
  if lCommand =? COMM_ALARM_V30 then
    t ← dwAlarmType pAlarmInfo;
    if t =? 3 then
      ch ← first_channel pAlarmInfo;
      match ch with
      | Some i => record_alarm pAlarmer i now st
      | None => Ok st
      end
    else Ok st
  else Ok st.

(** The part of the callback before its first access to the ring: the channel of a
    motion alarm. *)
Definition motion_channel (lCommand : Z) (pAlarmInfo : bytes) : exec (option Z) :=
  if lCommand =? COMM_ALARM_V30 then
    t ← dwAlarmType pAlarmInfo;
    if t =? 3 then first_channel pAlarmInfo else Ok None
  else Ok None.

(** ** The accessors *)

Definition HikDevGetAlarmNum (st : alarm_state) : Z :=
  let wr := dwAlarmMotionDetectWr st in
  let rd := dwAlarmMotionDetectRd st in
  if rd <=? wr then u32 (wr - rd) else u32 (ALARM_MOTION_DETECT_MAX - rd + wr).

Definition HikDevSetAlarmIdxOffset (offset : Z) (st : alarm_state) : alarm_state :=
  let rd := u32 (dwAlarmMotionDetectRd st + offset) in
  mkRing (struAlarmMotionDetect st) (dwAlarmMotionDetectWr st)
    (if ALARM_MOTION_DETECT_MAX <=? rd then u32 (rd - ALARM_MOTION_DETECT_MAX) else rd).

(** [uiAlarmIdx += dwAlarmMotionDetectRd; if (uiAlarmIdx >= MAX) uiAlarmIdx -= MAX]. *)
Definition alarm_index (uiAlarmIdx : Z) (st : alarm_state) : Z :=
  let i := u32 (uiAlarmIdx + dwAlarmMotionDetectRd st) in
  if ALARM_MOTION_DETECT_MAX <=? i then u32 (i - ALARM_MOTION_DETECT_MAX) else i.

Definition alarm_at (uiAlarmIdx : Z) (st : alarm_state) : exec ALARM_MOTION_DETECT :=
  read (struAlarmMotionDetect st) (alarm_index uiAlarmIdx st).

(** The six numbers [HikDevGetAlarmDateTime] stores in its references. *)
Record date_time := {
  uiYear : Z; uiMonth : Z; uiDay : Z; uiHour : Z; uiMinute : Z; uiSecond : Z
}.

Definition date_of_tm (t : tm) : date_time :=
  {| uiYear := u32 (u32 (tm_year t) + 1900); uiMonth := u32 (u32 (tm_mon t) + 1);
     uiDay := u32 (tm_mday t); uiHour := u32 (tm_hour t); uiMinute := u32 (tm_min t);
     uiSecond := u32 (tm_sec t) |}.

(** [localtime_r] depends on the time zone of the system. *)
Definition HikDevGetAlarmDateTime (localtime_r : Z -> tm) (uiAlarmIdx : Z) (st : alarm_state)
    : exec date_time :=
  a ← alarm_at uiAlarmIdx st; Ok (date_of_tm (localtime_r (AlarmTime a))).

Definition HikDevGetAlarmIp (uiAlarmIdx : Z) (strAlarmIp : bytes) (st : alarm_state)
    : exec bytes :=
  a ← alarm_at uiAlarmIdx st;
  let dev := struAlarmDevInfo a in
  if nz (byDeviceIPValid dev) then s ← c_string (sDeviceIP dev); Ok (strAlarmIp ++ s)
  else Ok [].

Definition HikDevGetAlarmDevName (uiAlarmIdx : Z) (strAlarmDevName : bytes) (st : alarm_state)
    : exec bytes :=
  a ← alarm_at uiAlarmIdx st;
  let dev := struAlarmDevInfo a in
  if nz (byDeviceNameValid dev) then s ← c_string (sDeviceName dev); Ok (strAlarmDevName ++ s)
  else Ok [].

(** ** Specification: a queue of alarms *)

Definition ring_inv (st : alarm_state) : Prop :=
  length (struAlarmMotionDetect st) = 32%nat /\
  0 <= dwAlarmMotionDetectWr st < 32 /\ 0 <= dwAlarmMotionDetectRd st < 32.

(** The unread alarms, oldest first. *)
Definition unread (st : alarm_state) : list ALARM_MOTION_DETECT :=
  take (Z.to_nat (HikDevGetAlarmNum st))
    (drop (Z.to_nat (dwAlarmMotionDetectRd st))
       (struAlarmMotionDetect st ++ struAlarmMotionDetect st)).

(** What the notification has to be for an alarm to be recorded: a motion alarm. *)
Definition is_motion (lCommand : Z) (info : bytes) : Prop :=
  lCommand = COMM_ALARM_V30 /\ uchar <$> take 4 info = [3; 0; 0; 0].

(** The 64 channel bytes of a notification. *)
Definition channel_bytes (info : bytes) : bytes := take 64 (drop 168 info).

(** The lowest channel that is set. *)
Definition lowest_set (chans : bytes) (i : nat) : Prop :=
  (exists c, chans !! i = Some c /\ uchar c <> 0) /\
  forall j c, (j < i)%nat -> chans !! j = Some c -> uchar c = 0.

(** The operations on the queue: an alarm recorded, or [k] alarms consumed. *)
Inductive ring_op :=
  | Record_ (a : NET_DVR_ALARMER) (i now : Z)
  | Consume (k : Z).

Definition ring_exec (st : alarm_state) (op : ring_op) : exec alarm_state :=
  match op with
  | Record_ a i now => record_alarm a i now st
  | Consume k => Ok (HikDevSetAlarmIdxOffset k st)
  end.

Fixpoint ring_run (st : alarm_state) (ops : list ring_op) : exec alarm_state :=
  match ops with
  | [] => Ok st
  | op :: ops' => st' ← ring_exec st op; ring_run st' ops'
  end.

(** How many alarms were recorded minus how many were consumed. *)
Fixpoint balance (ops : list ring_op) : Z :=
  match ops with
  | [] => 0
  | Record_ _ _ _ :: ops' => 1 + balance ops'
  | Consume k :: ops' => - k + balance ops'
  end.

(** Every [Consume] asks for at most 32 alarms, as the main loop does. *)
Definition op_ok (op : ring_op) : Prop :=
  match op with Record_ _ _ _ => True | Consume k => 0 <= k <= 32 end.

(** ** Lemmas *)

Lemma HikDevGetAlarmNum_mod st :
  ring_inv st ->
  HikDevGetAlarmNum st = (dwAlarmMotionDetectWr st - dwAlarmMotionDetectRd st) mod 32.
Proof.
  intros (_ & ? & ?). unfold HikDevGetAlarmNum, ALARM_MOTION_DETECT_MAX.
  case_match; bool2prop; rewrite u32_small by lia; Z.div_mod_to_equations; lia.
Qed.

Lemma HikDevGetAlarmNum_range st : ring_inv st -> 0 <= HikDevGetAlarmNum st < 32.
Proof. intros H. rewrite HikDevGetAlarmNum_mod by done. by apply Z.mod_pos_bound. Qed.

Lemma alarm_index_mod k st :
  ring_inv st -> 0 <= k <= 32 ->
  alarm_index k st = (dwAlarmMotionDetectRd st + k) mod 32.
Proof.
  intros (_ & ? & ?) Hk. unfold alarm_index, ALARM_MOTION_DETECT_MAX.
  rewrite (u32_small (k + _)) by lia.
  case_match; bool2prop; rewrite ?u32_small by lia; Z.div_mod_to_equations; lia.
Qed.

Lemma unread_length st : ring_inv st -> length (unread st) = Z.to_nat (HikDevGetAlarmNum st).
Proof.
  intros H. pose proof (HikDevGetAlarmNum_range st H). destruct H as (? & ? & ?).
  unfold unread. rewrite length_take, length_drop, length_app. lia.
Qed.

(** Entry [k] of the queue is slot [(rd + k) mod 32]. *)
Lemma unread_lookup st k :
  ring_inv st -> (k < length (unread st))%nat ->
  unread st !! k =
    struAlarmMotionDetect st !! Z.to_nat ((dwAlarmMotionDetectRd st + Z.of_nat k) mod 32).
Proof.
  intros H Hk. rewrite unread_length in Hk by done.
  pose proof (HikDevGetAlarmNum_range st H). destruct H as (Hl & ? & ?).
  unfold unread. rewrite lookup_take_lt, lookup_drop by lia.
  destruct (decide (dwAlarmMotionDetectRd st + Z.of_nat k < 32)).
  - rewrite lookup_app_l by lia. f_equal. rewrite Z.mod_small by lia. lia.
  - rewrite lookup_app_r by lia. f_equal. Z.div_mod_to_equations. lia.
Qed.

Lemma alarm_at_unread st k x :
  ring_inv st -> unread st !! k = Some x -> alarm_at (Z.of_nat k) st = Ok x.
Proof.
  intros H Hx. pose proof (lookup_lt_Some _ _ _ Hx) as Hk. pose proof Hk as Hk'.
  rewrite unread_length in Hk' by done. pose proof (HikDevGetAlarmNum_range st H).
  unfold alarm_at. rewrite alarm_index_mod by (try done; lia).
  rewrite unread_lookup in Hx by done.
  set (m := (_ + _) mod 32) in *. assert (0 <= m) by (apply Z.mod_pos_bound; lia).
  rewrite <- (Z2Nat.id m) by done. by apply read_lookup.
Qed.

Lemma HikDevSetAlarmIdxOffset_rd k st :
  ring_inv st -> 0 <= k <= 32 ->
  HikDevSetAlarmIdxOffset k st = mkRing (struAlarmMotionDetect st) (dwAlarmMotionDetectWr st)
    ((dwAlarmMotionDetectRd st + k) mod 32).
Proof.
  intros H Hk. rewrite <- (alarm_index_mod k st) by done.
  unfold HikDevSetAlarmIdxOffset, alarm_index. by rewrite (Z.add_comm k).
Qed.

Lemma consume_inv k st : ring_inv st -> 0 <= k <= 32 -> ring_inv (HikDevSetAlarmIdxOffset k st).
Proof.
  intros H Hk. rewrite HikDevSetAlarmIdxOffset_rd by done. destruct H as (? & ? & ?).
  unfold ring_inv. simpl. split; [done|]. split; [done|]. apply Z.mod_pos_bound. lia.
Qed.

Lemma unread_ext st l :
  ring_inv st -> length l = Z.to_nat (HikDevGetAlarmNum st) ->
  (forall k, (k < length l)%nat -> l !! k =
    struAlarmMotionDetect st !! Z.to_nat ((dwAlarmMotionDetectRd st + Z.of_nat k) mod 32)) ->
  unread st = l.
Proof.
  intros H Hl Hk. apply list_eq_same_length with (length l); [done| |].
  - rewrite unread_length; [lia|done].
  - intros k x y Hlt Hx Hy. rewrite unread_lookup in Hx; [|done|by rewrite unread_length, <- Hl by done].
    rewrite Hk in Hy by done. congruence.
Qed.

Lemma consume_unread k st :
  ring_inv st -> 0 <= k <= HikDevGetAlarmNum st ->
  unread (HikDevSetAlarmIdxOffset k st) = drop (Z.to_nat k) (unread st).
Proof.
  intros H Hk. pose proof (HikDevGetAlarmNum_range st H).
  assert (ring_inv (HikDevSetAlarmIdxOffset k st)) as H' by (apply consume_inv; [done|lia]).
  apply unread_ext; [done| |].
  - rewrite length_drop, unread_length, !HikDevGetAlarmNum_mod in * by done.
    rewrite HikDevSetAlarmIdxOffset_rd by (try done; lia). cbn [dwAlarmMotionDetectWr dwAlarmMotionDetectRd].
    destruct H as (? & ? & ?). Z.div_mod_to_equations. lia.
  - intros j Hj. rewrite length_drop in Hj. rewrite lookup_drop, unread_lookup by (try done; lia).
    rewrite HikDevSetAlarmIdxOffset_rd by (try done; lia). cbn [struAlarmMotionDetect dwAlarmMotionDetectRd].
    do 2 f_equal. destruct H as (? & ? & ?). Z.div_mod_to_equations. lia.
Qed.

(** What [record_alarm] does to the ring. *)
Lemma record_alarm_eq a i now st :
  ring_inv st -> exists res,
    record_alarm a i now st = Ok (mkRing
      (<[Z.to_nat (dwAlarmMotionDetectWr st) := mkAlarm a res (u8 (i + 1)) now]>
         (struAlarmMotionDetect st))
      ((dwAlarmMotionDetectWr st + 1) mod 32) (dwAlarmMotionDetectRd st)).
Proof.
  intros (Hl & Hw & Hr). set (w := Z.to_nat (dwAlarmMotionDetectWr st)).
  destruct (lookup_lt_is_Some_2 (struAlarmMotionDetect st) w) as [e He]; [lia|].
  exists (byRes e). unfold record_alarm.
  replace (dwAlarmMotionDetectWr st) with (Z.of_nat w) by lia.
  rewrite (read_lookup _ _ _ He). cbn [mbind result_bind]. rewrite write_insert by lia.
  cbn [mbind result_bind]. unfold ALARM_MOTION_DETECT_MAX. rewrite u32_small by lia.
  do 2 f_equal. case_match; bool2prop; Z.div_mod_to_equations; lia.
Qed.

Lemma record_alarm_inv a i now st st' :
  ring_inv st -> record_alarm a i now st = Ok st' -> ring_inv st'.
Proof.
  intros H. destruct (record_alarm_eq a i now st H) as (res & ->). intros [= <-].
  destruct H as (? & ? & ?). unfold ring_inv. simpl. rewrite length_insert.
  split; [done|]. split; [|done]. apply Z.mod_pos_bound. lia.
Qed.

Lemma record_alarm_num a i now st st' :
  ring_inv st -> record_alarm a i now st = Ok st' ->
  HikDevGetAlarmNum st' = (HikDevGetAlarmNum st + 1) mod 32.
Proof.
  intros H Hr. rewrite !HikDevGetAlarmNum_mod by (try done; by eapply record_alarm_inv).
  destruct (record_alarm_eq a i now st H) as (res & E). rewrite E in Hr. injection Hr as <-.
  cbn [dwAlarmMotionDetectWr dwAlarmMotionDetectRd]. destruct H as (? & ? & ?).
  Z.div_mod_to_equations. lia.
Qed.

Lemma record_alarm_unread a i now st st' :
  ring_inv st -> record_alarm a i now st = Ok st' -> HikDevGetAlarmNum st < 31 ->
  exists res, unread st' = unread st ++ [mkAlarm a res (u8 (i + 1)) now].
Proof.
  intros H Hr Hn. pose proof (record_alarm_inv _ _ _ _ _ H Hr) as H'.
  pose proof (record_alarm_num _ _ _ _ _ H Hr) as Hn'. pose proof (HikDevGetAlarmNum_range st H) as Hr0.
  rewrite Z.mod_small in Hn' by lia. pose proof (unread_length st H) as Hul.
  pose proof (HikDevGetAlarmNum_mod st H) as Hm.
  destruct (record_alarm_eq a i now st H) as (res & E). rewrite E in Hr. injection Hr as <-.
  exists res. destruct H as (Hl & Hw & Hrd). apply unread_ext; [done| |].
  - rewrite length_app, Hul, Hn'. simpl length. lia.
  - cbn [struAlarmMotionDetect dwAlarmMotionDetectRd]. intros k Hk.
    rewrite length_app in Hk. simpl length in Hk.
    destruct (decide (k = length (unread st))) as [->|Hne].
    + rewrite lookup_app_r, Nat.sub_diag by lia. rewrite Hul.
      replace (Z.to_nat ((_ + _) mod 32)) with (Z.to_nat (dwAlarmMotionDetectWr st)).
      * by rewrite list_lookup_insert_eq by lia.
      * rewrite Hm in *. f_equal. clear Hul Hk H'. Z.div_mod_to_equations. lia.
    + rewrite lookup_app_l, unread_lookup by (try lia; by split).
      rewrite list_lookup_insert_ne; [done|]. rewrite Hm in *. intros E'.
      apply (f_equal Z.of_nat) in E'. rewrite !Z2Nat.id in E'
        by (try lia; apply Z.mod_pos_bound; lia).
      clear H' Hn'. Z.div_mod_to_equations. lia.
Qed.

(** ** The callback *)

Lemma channel_bytes_lookup info k :
  (k < 64)%nat -> channel_bytes info !! k = info !! (168 + k)%nat.
Proof. intros Hk. unfold channel_bytes. by rewrite lookup_take_lt, lookup_drop by lia. Qed.

Lemma channel_loop info : forall fuel k,
  (232 <= length info)%nat -> (k <= 64)%nat -> (64 - k < fuel)%nat ->
  (forall j c, (j < k)%nat -> channel_bytes info !! j = Some c -> uchar c = 0) ->
  exists o, loopM fuel (channel_step info) (Z.of_nat k) = Ok o /\
    match o with
    | Some i => exists n, i = Z.of_nat n /\ (n < 64)%nat /\ lowest_set (channel_bytes info) n
    | None => Forall (fun c => uchar c = 0) (channel_bytes info)
    end.
Proof.
  induction fuel as [|fuel IH]; intros k Hl Hk Hf Hz; [lia|].
  rewrite loopM_S. unfold channel_step, MAX_CHANNUM_V30. destruct (Z.ltb_spec (Z.of_nat k) 64).
  - destruct (lookup_lt_is_Some_2 info (168 + k)) as [c Hc]; [lia|].
    change (byChannel_offset + Z.of_nat k) with (168 + Z.of_nat k).
    replace (168 + Z.of_nat k) with (Z.of_nat (168 + k)) by lia.
    rewrite (read_lookup _ _ _ Hc). cbn [mbind result_bind]. unfold nz.
    rewrite <- channel_bytes_lookup in Hc by lia.
    destruct (Z.eqb_spec (uchar c) 0) as [H0|H0]; cbn [negb mbind result_bind].
    + replace (Z.of_nat k + 1) with (Z.of_nat (S k)) by lia. apply IH; try lia.
      intros j c' Hj Hc'. destruct (decide (j = k)) as [->|]; [by simplify_eq|].
      apply (Hz j c'); [lia|done].
    + eexists. split; [reflexivity|]. exists k. split; [done|]. split; [lia|].
      split; [eauto|done].
  - eexists. split; [reflexivity|]. replace k with 64%nat in * by lia.
    apply Forall_lookup. intros j c Hc. apply (Hz j c); [|done].
    apply lookup_lt_Some in Hc. unfold channel_bytes in Hc. rewrite length_take in Hc. lia.
Qed.

Lemma first_channel_spec info :
  (232 <= length info)%nat ->
  exists o, first_channel info = Ok o /\
    match o with
    | Some i => exists n, i = Z.of_nat n /\ (n < 64)%nat /\ lowest_set (channel_bytes info) n
    | None => Forall (fun c => uchar c = 0) (channel_bytes info)
    end.
Proof.
  intros Hl. apply (channel_loop info _ 0); [done|lia|unfold MAX_CHANNUM_V30; lia|intros j c Hj; lia].
Qed.

Lemma dwAlarmType_spec info :
  (4 <= length info)%nat -> exists t, dwAlarmType info = Ok t /\
    (t = 3 <-> uchar <$> take 4 info = [3; 0; 0; 0]).
Proof.
  destruct info as [|b0 [|b1 [|b2 [|b3 info]]]]; simpl length; try lia. intros _.
  eexists. split; [reflexivity|]. cbn [take fmap list_fmap].
  pose proof (uchar_range b0). pose proof (uchar_range b1).
  pose proof (uchar_range b2). pose proof (uchar_range b3).
  split; [|by intros [= -> -> -> ->]]. pows. intros E.
  assert (uchar b3 = 0) by lia. assert (uchar b2 = 0) by lia. assert (uchar b1 = 0) by lia.
  repeat f_equal; lia.
Qed.

Lemma HikDevAlarmCallback_channel lCommand a info now st :
  HikDevAlarmCallback lCommand a info now st =
    (ch ← motion_channel lCommand info;
     match ch with Some i => record_alarm a i now st | None => Ok st end).
Proof.
  unfold HikDevAlarmCallback, motion_channel. destruct (lCommand =? COMM_ALARM_V30); [|done].
  destruct (dwAlarmType info) as [t| |]; cbn [mbind result_bind]; [|done..].
  by destruct (t =? 3).
Qed.

(** The channel found: the lowest one set, for a motion alarm. *)
Lemma motion_channel_spec lCommand info :
  (232 <= length info)%nat ->
  exists o, motion_channel lCommand info = Ok o /\
    match o with
    | Some i => is_motion lCommand info /\
        exists n, i = Z.of_nat n /\ (n < 64)%nat /\ lowest_set (channel_bytes info) n
    | None => is_motion lCommand info -> Forall (fun c => uchar c = 0) (channel_bytes info)
    end.
Proof.
  intros Hl. unfold motion_channel, is_motion.
  destruct (Z.eqb_spec lCommand COMM_ALARM_V30); [|by exists None; split; [|intros []]].
  destruct (dwAlarmType_spec info) as (t & -> & Ht); [lia|]. cbn [mbind result_bind].
  destruct (Z.eqb_spec t 3) as [E|E]; [|exists None; tauto].
  destruct (first_channel_spec info Hl) as ([i|] & -> & Ho); eexists; (split; [done|]); tauto.
Qed.

(** A motion alarm is recorded for the lowest channel set, if there is one. *)
Lemma callback_motion lCommand a info now st :
  (232 <= length info)%nat -> is_motion lCommand info ->
  (exists n, (n < 64)%nat /\ lowest_set (channel_bytes info) n /\
     HikDevAlarmCallback lCommand a info now st = record_alarm a (Z.of_nat n) now st) \/
  (Forall (fun c => uchar c = 0) (channel_bytes info) /\
   HikDevAlarmCallback lCommand a info now st = Ok st).
Proof.
  intros Hl Hm. rewrite HikDevAlarmCallback_channel.
  destruct (motion_channel_spec lCommand info Hl) as ([i|] & -> & Ho); [|right; by split; [apply Ho|]].
  left. destruct Ho as (_ & n & -> & Hn & Hlow). by exists n.
Qed.

(** Any other notification is ignored. *)
Lemma callback_other lCommand a info now st :
  (232 <= length info)%nat -> ~ is_motion lCommand info ->
  HikDevAlarmCallback lCommand a info now st = Ok st.
Proof.
  intros Hl Hm. rewrite HikDevAlarmCallback_channel.
  destruct (motion_channel_spec lCommand info Hl) as ([i|] & -> & Ho); [by destruct Ho|done].
Qed.

#[export] Instance is_motion_dec lCommand info : Decision (is_motion lCommand info).
Proof. unfold is_motion. apply _. Defined.

(** ** Properties *)

(** C7: the ring refines a queue of alarms.  Recording an alarm appends it to the
    unread ones, except when 31 are unread already: the write index then meets
    the read index and all 32 alarms are lost.  Reading entry [k] gives the
    [k]-th unread alarm, and advancing the read index by [k] drops the first
    [k].  Every operation succeeds within the array and keeps the invariant. *)
Theorem ring_refines_queue st :
  ring_inv st ->
  (forall a i now, exists st' res, record_alarm a i now st = Ok st' /\ ring_inv st' /\
     unread st' = if (length (unread st) <? 31)%nat
                  then unread st ++ [mkAlarm a res (u8 (i + 1)) now] else []) /\
  (forall k, 0 <= k <= HikDevGetAlarmNum st ->
     ring_inv (HikDevSetAlarmIdxOffset k st) /\
     unread (HikDevSetAlarmIdxOffset k st) = drop (Z.to_nat k) (unread st)) /\
  (forall k x, unread st !! k = Some x -> alarm_at (Z.of_nat k) st = Ok x) /\
  HikDevGetAlarmNum st = Z.of_nat (length (unread st)).
Proof.
  intros H. pose proof (HikDevGetAlarmNum_range st H) as Hr.
  pose proof (unread_length st H) as Hul. split; [|split; [|split]].
  - intros a i now. destruct (record_alarm_eq a i now st H) as (res & E).
    pose proof (record_alarm_inv a i now st _ H E) as H'. eexists.
    destruct (Nat.ltb_spec (length (unread st)) 31).
    + destruct (record_alarm_unread a i now st _ H E) as (res' & ->); [lia|]. eauto.
    + exists []. split; [exact E|]. split; [done|]. apply nil_length_inv.
      rewrite unread_length, (record_alarm_num a i now st _ H E) by done.
      by replace (HikDevGetAlarmNum st) with 31 by lia.
  - intros k Hk. split; [apply consume_inv; [done|lia]|by apply consume_unread].
  - intros k x. by apply alarm_at_unread.
  - lia.
Qed.

Lemma HikDevOperate_init_inv : ring_inv HikDevOperate_init.
Proof. vm_compute. repeat split; discriminate. Qed.

Lemma ring_refines_queue_witness :
  HikDevGetAlarmNum HikDevOperate_init = Z.of_nat (length (unread HikDevOperate_init)).
Proof. apply ring_refines_queue. vm_compute. repeat split; discriminate. Defined.

(** The count over any history: after any sequence of alarms recorded and
    consumed, [HikDevGetAlarmNum] is the number recorded minus the number
    consumed, modulo 32, and no access was out of range.  A backlog of 32
    alarms therefore reads as none. *)
Theorem ring_count ops :
  Forall op_ok ops ->
  exists st, ring_run HikDevOperate_init ops = Ok st /\ ring_inv st /\
    HikDevGetAlarmNum st = balance ops mod 32.
Proof.
  intros Hops. change (balance ops) with (HikDevGetAlarmNum HikDevOperate_init + balance ops).
  generalize HikDevOperate_init_inv. generalize HikDevOperate_init as st.
  induction Hops as [|op ops Hop _ IH]; intros st H.
  { exists st. rewrite Z.add_0_r, Z.mod_small by (by apply HikDevGetAlarmNum_range). done. }
  destruct op as [a i now|k]; cbn [ring_run ring_exec balance].
  - destruct (record_alarm_eq a i now st H) as (res & E). rewrite E. cbn [mbind result_bind].
    destruct (IH _ (record_alarm_inv a i now st _ H E)) as (st' & E' & H' & N').
    exists st'. split; [done|]. split; [done|].
    rewrite N', (record_alarm_num a i now st _ H E), Zplus_mod_idemp_l. f_equal. lia.
  - destruct (IH _ (consume_inv k st H Hop)) as (st' & E' & H' & N').
    exists st'. split; [done|]. split; [done|]. rewrite N'.
    rewrite !HikDevGetAlarmNum_mod by (try done; by apply consume_inv).
    rewrite HikDevSetAlarmIdxOffset_rd by done. cbn [dwAlarmMotionDetectWr dwAlarmMotionDetectRd].
    rewrite !Zplus_mod_idemp_l, Zplus_mod, Zminus_mod_idemp_r, <- Zplus_mod. f_equal. lia.
Qed.

Lemma ring_count_witness :
  exists st, ring_run HikDevOperate_init (replicate 32 (Record_ zero_alarmer 0 7)) = Ok st /\
    HikDevGetAlarmNum st = 0.
Proof.
  destruct (ring_count (replicate 32 (Record_ zero_alarmer 0 7))) as (st & H & _ & N).
  - repeat constructor.
  - exists st. split; [exact H|]. rewrite N. vm_compute. reflexivity.
Defined.

(** C32: what the callback records.  Given a full [NET_DVR_ALARMINFO_V30] in memory
    it returns, and changes the ring only for a motion alarm
    ([COMM_ALARM_V30], [dwAlarmType == 3]) with some channel set: it then
    records one alarm, of the device and of the lowest channel set, counted
    from 1. *)
Theorem HikDevAlarmCallback_spec lCommand a info now st :
  ring_inv st -> (232 <= length info)%nat ->
  (exists n, is_motion lCommand info /\ (n < 64)%nat /\ lowest_set (channel_bytes info) n /\
     HikDevAlarmCallback lCommand a info now st = record_alarm a (Z.of_nat n) now st /\
     u8 (Z.of_nat n + 1) = Z.of_nat n + 1) \/
  (~ (is_motion lCommand info /\ ~ Forall (fun c => uchar c = 0) (channel_bytes info)) /\
   HikDevAlarmCallback lCommand a info now st = Ok st).
Proof.
  intros H Hl. destruct (decide (is_motion lCommand info)) as [Hm|Hm].
  - destruct (callback_motion lCommand a info now st Hl Hm) as [(n & Hn & Hlow & ->)|[Hz ->]].
    + left. exists n. split; [done|]. split; [done|]. split; [done|]. split; [done|].
      unfold u8. apply Z.mod_small. lia.
    + right. split; [tauto|done].
  - right. rewrite callback_other by done. split; [tauto|done].
Qed.

(** A motion notification for channels 3 and 5. *)
Definition demo_info : bytes :=
  [chr 3; NUL; NUL; NUL] ++ zeros 164 ++ [NUL; NUL; chr 1; NUL; chr 1] ++ zeros 59.

Lemma HikDevAlarmCallback_spec_witness :
  exists n, HikDevAlarmCallback COMM_ALARM_V30 zero_alarmer demo_info 7 HikDevOperate_init =
    record_alarm zero_alarmer (Z.of_nat n) 7 HikDevOperate_init /\
    lowest_set (channel_bytes demo_info) n.
Proof.
  destruct (HikDevAlarmCallback_spec COMM_ALARM_V30 zero_alarmer demo_info 7 HikDevOperate_init)
    as [(n & _ & _ & L & E & _)|[N _]].
  - vm_compute. repeat split; discriminate.
  - vm_compute. lia.
  - exists n. split; [exact E|exact L].
  - exfalso. apply N. split; [by split|]. intros F. apply (Forall_lookup_1 _ _ 2 (chr 1)) in F; done.
Defined.
