(* ===== verification/AlarmRace.v ===== *)
(** * The alarm ring under the callback thread and the main loop

    The SDK calls [HikDevAlarmCallback] on its own thread while [main] polls
    the ring, and nothing in src/src/HikDev.cpp orders the two.  Here the two
    threads take small steps, one per statement that touches the ring or its
    indices, in any order (a sequentially consistent interleaving).  What the
    source leaves to the compiler is a parameter: whether [++wr] and the reset
    of [wr] are two stores, and whether [HikDevGetAlarmNum] loads [wr] again
    after its comparison. *)
From S2P Require Import Prelude CLib AlarmRing.

(** ** State *)

Record granularity := { split_wrap : bool; reload : bool }.

(** What an alarm carries: device, channel and time. *)
Abbreviation payload := (NET_DVR_ALARMER * Z * Z)%type.

Definition payload_of (e : ALARM_MOTION_DETECT) : payload :=
  (struAlarmDevInfo e, byChannel e, AlarmTime e).

(** The callback: idle, before each of its stores, before [++wr], before the
    reset of [wr]. *)
Inductive writer :=
  | WIdle
  | WDev (x : payload)
  | WChan (x : payload)
  | WTime (x : payload)
  | WInc (x : payload)
  | WWrap.

(** The main loop: before [HikDevGetAlarmNum], between the comparison (its
    result, and the value of [wr] loaded for it) and the subtraction, handling
    alarm [i] of [n], and after an access out of the array. *)
Inductive reader :=
  | RIdle
  | RCount (b : bool) (w : Z)
  | RRead (n i : Z)
  | RFault.

(** The shared ring, the two program counters, and the history: the alarms
    published, how many were consumed, and the alarms the main loop has seen. *)
Record race := mkRace {
  shared : alarm_state;
  wpc : writer;
  rpc : reader;
  hist : list payload;
  consumed : Z;
  seen : list payload
}.

Definition race_init : race := mkRace HikDevOperate_init WIdle RIdle [] 0 [].

(** ** Steps *)

(** A store to a field of [struAlarmMotionDetect[dwAlarmMotionDetectWr]]. *)
Definition store_entry (f : ALARM_MOTION_DETECT -> ALARM_MOTION_DETECT) (st : alarm_state)
    : alarm_state :=
  mkRing (alter f (Z.to_nat (dwAlarmMotionDetectWr st)) (struAlarmMotionDetect st))
    (dwAlarmMotionDetectWr st) (dwAlarmMotionDetectRd st).

Definition set_wr (w : Z) (st : alarm_state) : alarm_state :=
  mkRing (struAlarmMotionDetect st) w (dwAlarmMotionDetectRd st).

Definition wrap_wr (w : Z) : Z := if ALARM_MOTION_DETECT_MAX <=? w then 0 else w.

(** One step of the callback thread. *)
Definition writer_step (g : granularity) (s : race) : option race :=
  let st := shared s in
  let next st' w h := Some (mkRace st' w (rpc s) h (consumed s) (seen s)) in
  match wpc s with
  | WIdle => None
  | WDev x => next (store_entry (fun e => mkAlarm x.1.1 (byRes e) (byChannel e) (AlarmTime e)) st)
                (WChan x) (hist s)
  | WChan x => next (store_entry (fun e => mkAlarm (struAlarmDevInfo e) (byRes e) x.1.2 (AlarmTime e)) st)
                (WTime x) (hist s)
  | WTime x => next (store_entry (fun e => mkAlarm (struAlarmDevInfo e) (byRes e) (byChannel e) x.2) st)
                (WInc x) (hist s)
  | WInc x =>
      let w := u32 (dwAlarmMotionDetectWr st + 1) in
      if split_wrap g then next (set_wr w st) WWrap (hist s ++ [x])
      else next (set_wr (wrap_wr w) st) WIdle (hist s ++ [x])
  | WWrap => next (set_wr (wrap_wr (dwAlarmMotionDetectWr st)) st) WIdle (hist s)
  end.

(** One step of the main loop. *)
Definition reader_step (g : granularity) (s : race) : option race :=
  let st := shared s in
  let rd := dwAlarmMotionDetectRd st in
  let next r sn := Some (mkRace st (wpc s) r (hist s) (consumed s) sn) in
  match rpc s with
  | RIdle => next (RCount (rd <=? dwAlarmMotionDetectWr st) (dwAlarmMotionDetectWr st)) (seen s)
  | RCount b w =>
      let w' := if reload g then dwAlarmMotionDetectWr st else w in
      next (RRead (if b then u32 (w' - rd) else u32 (ALARM_MOTION_DETECT_MAX - rd + w')) 0) (seen s)
  | RRead n i =>
      if i <? n then
        match alarm_at i st with
        | Ok e => next (RRead n (i + 1)) (seen s ++ [payload_of e])
        | _ => next RFault (seen s)
        end
      else Some (mkRace (HikDevSetAlarmIdxOffset n st) (wpc s) RIdle (hist s)
                   (consumed s + n) (seen s))
  | RFault => None
  end.

(** The SDK notifies alarm [x], the callback moves, or the main loop moves. *)
Inductive label :=
  | Notify (x : payload)
  | Callback
  | MainLoop.

Definition race_step (g : granularity) (l : label) (s : race) : option race :=
  match l with
  | Notify x =>
      match wpc s with
      | WIdle => Some (mkRace (shared s) (WDev x) (rpc s) (hist s) (consumed s) (seen s))
      | _ => None
      end
  | Callback => writer_step g s
  | MainLoop => reader_step g s
  end.

(** The reachable states, when notifications are restricted by [allowed]. *)
Inductive reachable (g : granularity) (allowed : race -> Prop) : race -> Prop :=
  | reach_init : reachable g allowed race_init
  | reach_step s l s' :
      reachable g allowed s -> (forall x, l = Notify x -> allowed s) ->
      race_step g l s = Some s' -> reachable g allowed s'.

(** Light load: a notification comes only while fewer than 31 alarms wait. *)
Definition light (s : race) : Prop := Z.of_nat (length (hist s)) - consumed s < 31.

(** A schedule executed from a state under light load. *)
Fixpoint run (g : granularity) (ls : list label) (s : race) : option race :=
  match ls with
  | [] => Some s
  | l :: ls' =>
      match l with
      | Notify _ => if decide (light s) then s' ← race_step g l s; run g ls' s' else None
      | _ => s' ← race_step g l s; run g ls' s'
      end
  end.

(** An alarm notified and recorded, its callback stopped after [n] steps. *)
Definition notify_for (x : payload) (n : nat) : list label := Notify x :: replicate n Callback.

(** The main loop polls, handles [n] alarms and advances. *)
Definition poll (n : nat) : list label := replicate (n + 3) MainLoop.

(** ** Invariant of the single-store, single-load interleavings *)

Definition one_access : granularity := {| split_wrap := false; reload := false |}.

Definition slot (st : alarm_state) (k : Z) : option payload :=
  payload_of <$> struAlarmMotionDetect st !! Z.to_nat (k mod 32).

(** What the callback has stored in its entry. *)
Definition writer_inv (s : race) : Prop :=
  let e := struAlarmMotionDetect (shared s) !! Z.to_nat (dwAlarmMotionDetectWr (shared s)) in
  let room := Z.of_nat (length (hist s)) - consumed s < 31 in
  match wpc s with
  | WIdle => True
  | WDev x => room
  | WChan x => room /\ struAlarmDevInfo <$> e = Some x.1.1
  | WTime x => room /\ struAlarmDevInfo <$> e = Some x.1.1 /\ byChannel <$> e = Some x.1.2
  | WInc x => room /\ payload_of <$> e = Some x
  | WWrap => False
  end.

(** How far the main loop has got. *)
Definition reader_inv (s : race) : Prop :=
  let p := Z.of_nat (length (hist s)) in
  match rpc s with
  | RIdle => seen s = take (Z.to_nat (consumed s)) (hist s)
  | RCount b w => seen s = take (Z.to_nat (consumed s)) (hist s) /\
      b = (dwAlarmMotionDetectRd (shared s) <=? w) /\
      exists p0, consumed s <= p0 <= p /\ w = p0 mod 32
  | RRead n i => 0 <= i <= n /\ consumed s + n <= p /\
      seen s = take (Z.to_nat (consumed s + i)) (hist s)
  | RFault => False
  end.

Definition race_inv (s : race) : Prop :=
  let p := Z.of_nat (length (hist s)) in
  length (struAlarmMotionDetect (shared s)) = 32%nat /\
  0 <= consumed s <= p /\ p <= consumed s + 31 /\
  dwAlarmMotionDetectWr (shared s) = p mod 32 /\
  dwAlarmMotionDetectRd (shared s) = consumed s mod 32 /\
  (forall k x, consumed s <= Z.of_nat k -> hist s !! k = Some x ->
     slot (shared s) (Z.of_nat k) = Some x) /\
  writer_inv s /\ reader_inv s.

(** ** The invariant is preserved *)

Lemma store_entry_slot f st p k :
  length (struAlarmMotionDetect st) = 32%nat ->
  dwAlarmMotionDetectWr st = p mod 32 -> p - 31 <= k < p ->
  slot (store_entry f st) k = slot st k.
Proof.
  intros Hl Hw Hk. unfold slot, store_entry. cbn [struAlarmMotionDetect].
  rewrite list_lookup_alter_ne; [done|]. rewrite Hw. intros E. apply Z2Nat.inj in E.
  - Z.div_mod_to_equations. lia.
  - apply Z.mod_pos_bound. lia.
  - apply Z.mod_pos_bound. lia.
Qed.

Lemma store_entry_self f st :
  length (struAlarmMotionDetect st) = 32%nat -> 0 <= dwAlarmMotionDetectWr st < 32 ->
  struAlarmMotionDetect (store_entry f st) !! Z.to_nat (dwAlarmMotionDetectWr (store_entry f st)) =
  f <$> struAlarmMotionDetect st !! Z.to_nat (dwAlarmMotionDetectWr st).
Proof. intros Hl Hw. unfold store_entry. cbn. apply list_lookup_alter_eq. Qed.

(** A store of the callback to its own entry, which holds no unread alarm. *)
Lemma race_inv_store f s w :
  race_inv s -> Z.of_nat (length (hist s)) - consumed s < 31 ->
  let s' := mkRace (store_entry f (shared s)) w (rpc s) (hist s) (consumed s) (seen s) in
  writer_inv s' -> race_inv s'.
Proof.
  intros (Hl & Hc & Hp & Hw & Hr & Hs & _ & Hrd) Hroom s' Hwi. unfold race_inv. subst s'. cbn.
  split; [by rewrite length_alter|]. do 4 (split; [done|]). split; [|by split].
  intros k x Hk Hx. rewrite (store_entry_slot _ _ (Z.of_nat (length (hist s)))); [by apply Hs|done..|].
  apply lookup_lt_Some in Hx. lia.
Qed.

(** The reader's knowledge survives a longer history. *)
Lemma reader_inv_grow s st w x :
  race_inv s -> dwAlarmMotionDetectRd st = dwAlarmMotionDetectRd (shared s) ->
  reader_inv (mkRace st w (rpc s) (hist s ++ [x]) (consumed s) (seen s)).
Proof.
  intros (_ & Hc & _ & _ & _ & _ & _ & Hrd) E. unfold reader_inv in *. cbn. rewrite length_app.
  destruct (rpc s) as [|b w'|n i|]; [| | |done].
  - rewrite take_app_le by lia. done.
  - destruct Hrd as (H1 & H2 & p0 & H3 & H4). rewrite take_app_le, E by lia.
    split; [done|]. split; [done|]. exists p0. split; [simpl; lia|done].
  - destruct Hrd as (H1 & H2 & H3). rewrite take_app_le by lia. simpl. split; [done|]. split; [lia|done].
Qed.

Lemma race_inv_publish s x :
  race_inv s -> wpc s = WInc x -> forall s', writer_step one_access s = Some s' -> race_inv s'.
Proof.
  intros Hinv E s'. pose proof Hinv as (Hl & Hc & Hp & Hw & Hr & Hs & Hwi & Hrd).
  unfold writer_inv in Hwi. unfold writer_step. rewrite E in *. cbn [split_wrap one_access].
  intros [= <-]. destruct Hwi as [Hroom Hx]. rewrite Hw in Hx.
  set (p := Z.of_nat (length (hist s))) in *.
  pose proof (Z.mod_pos_bound p 32 ltac:(lia)) as Hpm.
  assert (wrap_wr (u32 (dwAlarmMotionDetectWr (shared s) + 1)) = (p + 1) mod 32) as Hwr.
  { rewrite Hw, u32_small by lia. unfold wrap_wr, ALARM_MOTION_DETECT_MAX.
    case_match; bool2prop; Z.div_mod_to_equations; lia. }
  unfold race_inv. cbn [shared hist consumed set_wr struAlarmMotionDetect dwAlarmMotionDetectWr
    dwAlarmMotionDetectRd]. rewrite Hwr, length_app. simpl length.
  split; [done|]. split; [lia|]. split; [lia|]. split; [f_equal; lia|]. split; [done|].
  split; [|split; [done|by apply reader_inv_grow]].
  intros k y Hk Hy. destruct (decide (k = length (hist s))) as [->|Hne].
  - rewrite lookup_app_r, Nat.sub_diag in Hy by lia. injection Hy as <-. exact Hx.
  - pose proof (lookup_lt_Some _ _ _ Hy) as Hlt. rewrite length_app in Hlt. simpl in Hlt.
    rewrite lookup_app_l in Hy by lia. by apply Hs.
Qed.

Lemma race_inv_writer s s' :
  race_inv s -> writer_step one_access s = Some s' -> race_inv s'.
Proof.
  intros Hinv Hstep. pose proof Hinv as (Hl & Hc & Hp & Hw & Hr & Hs & Hwi & Hrd).
  assert (Hwb : 0 <= dwAlarmMotionDetectWr (shared s) < 32)
    by (rewrite Hw; apply Z.mod_pos_bound; lia).
  destruct (lookup_lt_is_Some_2 (struAlarmMotionDetect (shared s))
    (Z.to_nat (dwAlarmMotionDetectWr (shared s)))) as [e He]; [lia|].
  destruct (wpc s) as [|x|x|x|x|] eqn:E; [| | | |by eapply race_inv_publish|].
  all: unfold writer_inv, writer_step in *; rewrite E in *; try done; injection Hstep as <-.
  all: rewrite ?He in Hwi; cbn in Hwi.
  all: apply race_inv_store; [done|tauto|]; unfold writer_inv; cbn [wpc shared hist consumed];
    rewrite store_entry_self, He by done; cbn; try tauto.
  split; [tauto|]. destruct Hwi as (_ & [= H1] & [= H2]). unfold payload_of. cbn.
  rewrite H1, H2. by destruct x as [[]].
Qed.

(** [HikDevGetAlarmNum] from one load of the write index. *)
Lemma count_snapshot c p0 :
  0 <= c <= p0 -> p0 <= c + 31 ->
  (if c mod 32 <=? p0 mod 32 then u32 (p0 mod 32 - c mod 32)
   else u32 (ALARM_MOTION_DETECT_MAX - c mod 32 + p0 mod 32)) = p0 - c.
Proof.
  intros Hc Hp. pose proof (Z.mod_pos_bound c 32). pose proof (Z.mod_pos_bound p0 32).
  unfold ALARM_MOTION_DETECT_MAX.
  case_match; bool2prop; rewrite u32_small by lia; Z.div_mod_to_equations; lia.
Qed.

(** What the main loop reads for alarm [i] is the alarm published for it. *)
Lemma reader_reads s n i :
  race_inv s -> rpc s = RRead n i -> i < n ->
  exists e, alarm_at i (shared s) = Ok e /\
    hist s !! Z.to_nat (consumed s + i) = Some (payload_of e).
Proof.
  intros (Hl & Hc & Hp & Hw & Hr & Hs & _ & Hrd) E Hi. unfold reader_inv in Hrd. rewrite E in Hrd.
  destruct Hrd as (H1 & H2 & _).
  destruct (lookup_lt_is_Some_2 (hist s) (Z.to_nat (consumed s + i))) as [x Hx]; [lia|].
  pose proof (Hs (Z.to_nat (consumed s + i)) x ltac:(lia) Hx) as Hslot. rewrite Z2Nat.id in Hslot by lia.
  unfold slot in Hslot. apply fmap_Some in Hslot as (e & He & ->). exists e. split; [|done].
  unfold alarm_at. rewrite alarm_index_mod, Hr, Zplus_mod_idemp_l; [| |lia].
  - rewrite <- (Z2Nat.id ((consumed s + i) mod 32)) by (apply Z.mod_pos_bound; lia). by apply read_lookup.
  - split; [done|]. rewrite Hw, Hr. split; apply Z.mod_pos_bound; lia.
Qed.

Lemma race_inv_reader s s' :
  race_inv s -> reader_step one_access s = Some s' -> race_inv s'.
Proof.
  intros Hinv Hstep. pose proof Hinv as (Hl & Hc & Hp & Hw & Hr & Hs & Hwi & Hrd).
  set (p := Z.of_nat (length (hist s))) in *.
  unfold reader_step in Hstep. unfold reader_inv in Hrd.
  assert (Hri : ring_inv (shared s)).
  { split; [done|]. rewrite Hw, Hr. split; apply Z.mod_pos_bound; lia. }
  destruct (rpc s) as [|b w|n i|] eqn:E; cbn [reload one_access] in Hstep; [| | |done].
  - injection Hstep as <-. unfold race_inv, reader_inv, writer_inv in *. cbn.
    do 7 (split; [done|]). split; [done|]. split; [done|]. exists p. split; [lia|done].
  - injection Hstep as <-. destruct Hrd as (H1 & -> & p0 & H3 & ->).
    unfold race_inv, reader_inv, writer_inv in *. cbn. do 7 (split; [done|]).
    rewrite Hr, count_snapshot by lia. rewrite Z.add_0_r. split; [lia|]. split; [lia|done].
  - destruct Hrd as (H1 & H2 & H3). destruct (Z.ltb_spec i n).
    + destruct (reader_reads s n i Hinv E) as (e & Ha & Hx); [done|]. rewrite Ha in Hstep.
      injection Hstep as <-. unfold race_inv, reader_inv, writer_inv in *. cbn.
      do 7 (split; [done|]). split; [lia|]. split; [lia|].
      rewrite H3. replace (Z.to_nat (consumed s + (i + 1))) with (S (Z.to_nat (consumed s + i))) by lia.
      rewrite (take_S_r _ _ _ Hx). done.
    + injection Hstep as <-. replace i with n in * by lia.
      rewrite HikDevSetAlarmIdxOffset_rd by (try done; lia).
      unfold race_inv, reader_inv, writer_inv in *. cbn. fold p.
      split; [done|]. split; [lia|]. split; [lia|]. split; [done|].
      split; [by rewrite Hr, Zplus_mod_idemp_l|]. split; [|split; [|done]].
      * intros k x Hk. apply Hs. lia.
      * destruct (wpc s); intuition lia.
Qed.

Lemma race_inv_init : race_inv race_init.
Proof.
  unfold race_inv, writer_inv, reader_inv. cbn. split; [done|]. split; [lia|].
  split; [lia|]. split; [done|]. split; [done|]. split; [|done].
  intros k x _ Hx. by rewrite lookup_nil in Hx.
Qed.

Lemma race_inv_step l s s' :
  race_inv s -> (forall x, l = Notify x -> light s) -> race_step one_access l s = Some s' -> race_inv s'.
Proof.
  intros Hinv Ha Hstep. destruct l as [x| |]; cbn in Hstep.
  - specialize (Ha x eq_refl). destruct (wpc s) eqn:E; try done. injection Hstep as <-.
    destruct Hinv as (? & ? & ? & ? & ? & ? & _ & ?). unfold race_inv. cbn.
    do 6 (split; [done|]). split; [exact Ha|done].
  - by eapply race_inv_writer.
  - by eapply race_inv_reader.
Qed.

Lemma race_inv_reachable s : reachable one_access light s -> race_inv s.
Proof.
  induction 1 as [|s l s' _ IH Ha Hstep]; [exact race_inv_init|by eapply race_inv_step].
Qed.

Lemma run_reachable g ls s s' :
  run g ls s = Some s' -> reachable g light s -> reachable g light s'.
Proof.
  revert s. induction ls as [|l ls IH]; intros s; simpl; [by intros [= ->]|].
  intros Hrun Hs. destruct l as [x| |]; [case_decide as Hl; [|done]| |];
    (destruct (race_step g _ s) as [s1|] eqn:E; [|done]); apply (IH s1 Hrun);
    eapply reach_step; try exact E; naive_solver.
Qed.

(** The main loop alone, from the point where [n] alarms are left to handle. *)
Lemma drain_reads n : forall s i m,
  race_inv s -> rpc s = RRead m i -> m - i = Z.of_nat n ->
  exists s', run one_access (replicate n MainLoop) s = Some s' /\ race_inv s' /\
    rpc s' = RRead m m /\ hist s' = hist s /\ consumed s' = consumed s.
Proof.
  induction n as [|n IH]; intros s i m Hinv E Hn; [exists s; replace i with m in E by lia; done|].
  assert (exists s1, reader_step one_access s = Some s1 /\ rpc s1 = RRead m (i + 1) /\
    hist s1 = hist s /\ consumed s1 = consumed s) as (s1 & H1 & E1 & Hh & Hc).
  { destruct (reader_step one_access s) as [s1|] eqn:Hs1.
    2: { unfold reader_step in Hs1. rewrite E in Hs1. repeat case_match; done. }
    exists s1. split; [done|]. pose proof (race_inv_reader s s1 Hinv Hs1) as (_ & _ & _ & _ & _ & _ & _ & Hr).
    unfold reader_step in Hs1. rewrite E in Hs1. rewrite (proj2 (Z.ltb_lt i m)) in Hs1 by lia.
    destruct (alarm_at i (shared s)) as [e|[]|]; injection Hs1 as <-; done. }
  destruct (IH s1 (i + 1) m) as (s' & H2 & H3 & H4 & H5 & H6);
    [by eapply race_inv_reader|done|lia|].
  exists s'. cbn [replicate run race_step]. rewrite H1. cbn [mbind option_bind].
  rewrite Hh in H5. rewrite Hc in H6. done.
Qed.

Lemma run_app g ls1 ls2 s : run g (ls1 ++ ls2) s = s1 ← run g ls1 s; run g ls2 s1.
Proof.
  revert s. induction ls1 as [|l ls1 IH]; intros s; [done|]. cbn [app run].
  destruct l; repeat case_match; try done; destruct (race_step _ _ _); simpl; auto.
Qed.

Lemma poll_split n : poll n = [MainLoop; MainLoop] ++ replicate n MainLoop ++ [MainLoop].
Proof.
  unfold poll. rewrite (Nat.add_comm n). cbn [replicate Nat.add app]. do 2 f_equal.
  change [MainLoop] with (replicate 1 MainLoop). by rewrite <- replicate_add, Nat.add_comm.
Qed.

(** The two steps of [HikDevGetAlarmNum]. *)
Lemma count_steps s :
  race_inv s -> rpc s = RIdle ->
  exists s', run one_access [MainLoop; MainLoop] s = Some s' /\ race_inv s' /\
    rpc s' = RRead (Z.of_nat (length (hist s)) - consumed s) 0 /\
    hist s' = hist s /\ consumed s' = consumed s.
Proof.
  intros Hinv E. pose proof Hinv as (_ & Hc & Hp & Hw & Hr & _).
  destruct (reader_step one_access s) as [s1|] eqn:H1.
  2: { unfold reader_step in H1. by rewrite E in H1. }
  pose proof (race_inv_reader s s1 Hinv H1) as Hinv1. pose proof H1 as E1.
  unfold reader_step in E1. rewrite E in E1. injection E1 as E1.
  destruct (reader_step one_access s1) as [s2|] eqn:H2.
  2: { rewrite <- E1 in H2. done. }
  exists s2. cbn [run race_step]. rewrite H1. cbn [mbind option_bind]. rewrite H2.
  split; [done|]. split; [by eapply race_inv_reader|].
  rewrite <- E1 in H2. cbn in H2. injection H2 as <-. cbn. by rewrite Hw, Hr, count_snapshot by lia.
Qed.

(** ** Properties *)

(** When the compiler makes [++wr] and its reset one store and reads [wr] once
    per count, the two threads are safe under light load: in every reachable
    state, whatever the interleaving, the alarms the main loop has seen are a
    prefix of those published, in order, each once and none half-written, and
    no access left the array. *)
Theorem race_exactly_once s :
  reachable one_access light s ->
  seen s = take (length (seen s)) (hist s) /\ rpc s <> RFault /\
  (rpc s = RIdle -> Z.of_nat (length (seen s)) = consumed s).
Proof.
  intros H. apply race_inv_reachable in H as (_ & Hc & _ & _ & _ & _ & _ & Hr).
  unfold reader_inv in Hr.
  assert (forall c, c <= Z.of_nat (length (hist s)) -> seen s = take (Z.to_nat c) (hist s) ->
    length (seen s) = Z.to_nat c) as Hlen.
  { intros c Hle ->. rewrite length_take. lia. }
  destruct (rpc s) as [|b w|n i|]; [| | |done].
  - rewrite (Hlen (consumed s) ltac:(lia) Hr). split; [done|]. split; [done|lia].
  - destruct Hr as (Hr & _). rewrite (Hlen (consumed s) ltac:(lia) Hr). done.
  - destruct Hr as (? & ? & Hr). rewrite (Hlen (consumed s + i) ltac:(lia) Hr). done.
Qed.

Definition demo_payload : payload := (zero_alarmer, 1, 7).

Lemma race_exactly_once_witness :
  exists s, run one_access (notify_for demo_payload 4 ++ poll 1) race_init = Some s /\
    seen s = take (length (seen s)) (hist s) /\ length (hist s) = 1%nat.
Proof.
  destruct (run one_access (notify_for demo_payload 4 ++ poll 1) race_init) as [s|] eqn:E;
    [|vm_compute in E; discriminate].
  exists s. split; [reflexivity|]. split.
  - apply (race_exactly_once s). exact (run_reachable _ _ _ _ E (reach_init _ _)).
  - vm_compute in E. injection E as <-. reflexivity.
Defined.

(** Nothing published is left behind: from any reachable state where the main
    loop is about to poll, one poll ([n + 3] of its steps, [n] the alarms
    waiting) ends with every published alarm seen and consumed. *)
Theorem race_poll_drains s :
  reachable one_access light s -> rpc s = RIdle ->
  exists s', run one_access (poll (length (hist s) - Z.to_nat (consumed s))) s = Some s' /\
    rpc s' = RIdle /\ seen s' = hist s /\ consumed s' = Z.of_nat (length (hist s)).
Proof.
  intros Hreach E. pose proof (race_inv_reachable s Hreach) as Hinv.
  pose proof Hinv as (_ & Hc & _). rewrite poll_split, !run_app.
  destruct (count_steps s Hinv E) as (s2 & -> & Hinv2 & E2 & Hh2 & Hc2). cbn [mbind option_bind].
  destruct (drain_reads (length (hist s) - Z.to_nat (consumed s)) s2 0 _ Hinv2 E2)
    as (s3 & H3 & Hinv3 & E3 & Hh3 & Hc3); [lia|].
  rewrite run_app, H3. cbn. unfold reader_step. rewrite E3, Z.ltb_irrefl.
  eexists. split; [reflexivity|]. cbn. split; [done|].
  destruct Hinv3 as (_ & _ & _ & _ & _ & _ & _ & Hr3). unfold reader_inv in Hr3. rewrite E3 in Hr3.
  destruct Hr3 as (_ & _ & ->). rewrite Hh3, Hh2, Hc3, Hc2.
  split; [rewrite take_ge by lia; done|lia].
Qed.

Lemma race_poll_drains_witness :
  exists s s', run one_access (notify_for demo_payload 4 ++ notify_for demo_payload 4) race_init = Some s /\
    run one_access (poll 2) s = Some s' /\ seen s' = [demo_payload; demo_payload].
Proof.
  destruct (run one_access (notify_for demo_payload 4 ++ notify_for demo_payload 4) race_init)
    as [s|] eqn:E; [|vm_compute in E; discriminate].
  assert (R : reachable one_access light s) by exact (run_reachable _ _ _ _ E (reach_init _ _)).
  vm_compute in E. injection E as E.
  destruct (race_poll_drains s R) as (s' & H1 & _ & H2 & _); [rewrite <- E; reflexivity|].
  exists s, s'. split; [reflexivity|]. rewrite <- E in H1 at 1 2. split; [exact H1|].
  rewrite H2, <- E. vm_compute. reflexivity.
Defined.

(** With [++wr] and its reset as two stores, an alarm storm is not needed for
    wrong results: a schedule under light load reaches a state where the main
    loop has consumed everything ever published and still sets out to handle
    32 alarms, all of them stale. *)
Theorem race_stale_alarms :
  exists s, reachable {| split_wrap := true; reload := false |} light s /\
    rpc s = RRead 32 0 /\ consumed s = Z.of_nat (length (hist s)) /\ consumed s = 32.
Proof.
  set (g := {| split_wrap := true; reload := false |}).
  set (ls := concat (replicate 31 (notify_for demo_payload 5)) ++ poll 31 ++
    notify_for demo_payload 4 ++ poll 1 ++ [MainLoop; MainLoop]).
  destruct (run g ls race_init) as [s|] eqn:E; [|vm_compute in E; discriminate].
  exists s. split; [exact (run_reachable _ _ _ _ E (reach_init _ _))|].
  vm_compute in E. injection E as <-. done.
Qed.

(** C39: when [wr] is also loaded twice by [HikDevGetAlarmNum], the reset can fall
    between the comparison and the subtraction: a schedule under light load
    makes the count wrap to about 2^32, and the main loop reads outside the
    array. *)
Theorem race_out_of_bounds :
  exists s, reachable {| split_wrap := true; reload := true |} light s /\ rpc s = RFault.
Proof.
  set (g := {| split_wrap := true; reload := true |}).
  set (ls := concat (replicate 5 (notify_for demo_payload 5)) ++ poll 5 ++
    concat (replicate 26 (notify_for demo_payload 5)) ++
    notify_for demo_payload 4 ++ [MainLoop; Callback; MainLoop] ++ replicate 60 MainLoop).
  destruct (run g ls race_init) as [s|] eqn:E; [|vm_compute in E; discriminate].
  exists s. split; [exact (run_reachable _ _ _ _ E (reach_init _ _))|].
  vm_compute in E. injection E as <-. done.
Qed.
