(* ===== verification/StdMap.v ===== *)
(** * [std::map<std::string, V>]

    The ordered map of the C++ library the program keeps its tables in: entries
    sorted by key, [operator[]] inserting a default value where the key is
    absent, iteration in key order.  Keys compare as [std::string] does, by
    unsigned bytes and then length. *)
From stdpp Require Import sorting sets.
From S2P Require Import Prelude CLib.

(** ** Definitions *)

Fixpoint str_lt (a b : bytes) : bool :=
  match a, b with
  | _, [] => false
  | [], _ :: _ => true
  | x :: a', y :: b' =>
      if uchar x <? uchar y then true
      else if uchar y <? uchar x then false else str_lt a' b'
  end.

Abbreviation smap V := (list (bytes * V)).

Section StdMap.
Context {V : Type}.

Fixpoint find (k : bytes) (m : smap V) : option V :=
  match m with
  | [] => None
  | (k', v) :: m' => if decide (k = k') then Some v else find k m'
  end.

Definition count (k : bytes) (m : smap V) : Z :=
  match find k m with Some _ => 1 | None => 0 end.

(** [m[k] = v]. *)
Fixpoint assign (k : bytes) (v : V) (m : smap V) : smap V :=
  match m with
  | [] => [(k, v)]
  | (k', v') :: m' =>
      if decide (k = k') then (k, v) :: m'
      else if str_lt k k' then (k, v) :: (k', v') :: m'
      else (k', v') :: assign k v m'
  end.

(** [m[k]] as a value: the default [d] is inserted when [k] is absent. *)
Definition index (k : bytes) (d : V) (m : smap V) : V * smap V :=
  match find k m with
  | Some v => (v, m)
  | None => (d, assign k d m)
  end.

Fixpoint erase (k : bytes) (m : smap V) : smap V :=
  match m with
  | [] => []
  | (k', v) :: m' => if decide (k = k') then m' else (k', v) :: erase k m'
  end.

(** The keys are strictly increasing. *)
Definition wf (m : smap V) : Prop := StronglySorted (fun a b => str_lt a b = true) m.*1.
End StdMap.

(** ** Lemmas *)

Lemma str_lt_irrefl a : str_lt a a = false.
Proof. induction a as [|x a IH]; simpl; [done|]. by rewrite Z.ltb_irrefl. Qed.

Lemma str_lt_trans a b c : str_lt a b = true -> str_lt b c = true -> str_lt a c = true.
Proof.
  revert b c. induction a as [|x a IH]; intros [|y b] [|z c]; simpl; try done.
  repeat case_match; bool2prop; try done; try lia. eauto.
Qed.

Lemma str_lt_total a b : a <> b -> str_lt a b = false -> str_lt b a = true.
Proof.
  revert b. induction a as [|x a IH]; intros [|y b]; simpl; try done.
  repeat case_match; bool2prop; try done; try lia. intros Hne. apply IH. intros ->. apply Hne.
  f_equal. apply (inj uchar). lia.
Qed.

Section Laws.
Context {V : Type}.
Implicit Types (m : smap V) (k : bytes).

Lemma find_None_lt k m :
  Forall (fun k' => str_lt k k' = true) m.*1 -> find k m = None.
Proof.
  induction m as [|[k' v] m IH]; simpl; [done|]. intros [Hk Hm]%Forall_cons_iff.
  case_decide as E; [|auto]. subst k'. by rewrite str_lt_irrefl in Hk.
Qed.

Lemma find_assign_eq k v m : find k (assign k v m) = Some v.
Proof.
  induction m as [|[k' v'] m IH]; simpl; [by rewrite decide_True|].
  case_decide; [simpl; by rewrite decide_True|].
  destruct (str_lt k k'); simpl; [by rewrite decide_True|]. by rewrite decide_False.
Qed.

Lemma find_assign_ne k k' v m : k <> k' -> find k (assign k' v m) = find k m.
Proof.
  intros Hne. induction m as [|[k1 v1] m IH]; simpl; [by rewrite decide_False|].
  case_decide as E; [subst; simpl; by rewrite !decide_False|].
  destruct (str_lt k' k1); simpl; [by rewrite (decide_False (P := k = k'))|].
  case_decide; [done|]. apply IH.
Qed.

Lemma assign_keys k v m x : x ∈ (assign k v m).*1 <-> x = k \/ x ∈ m.*1.
Proof.
  induction m as [|[k' v'] m IH]; simpl; rewrite ?elem_of_cons, ?elem_of_nil; [tauto|].
  case_decide as E; [subst k'; simpl; rewrite elem_of_cons; tauto|].
  destruct (str_lt k k'); simpl; rewrite !elem_of_cons; tauto.
Qed.

Lemma wf_assign k v m : wf m -> wf (assign k v m).
Proof.
  unfold wf. induction m as [|[k' v'] m IH]; simpl; intros Hm; [repeat constructor|].
  inversion_clear Hm as [|?? Hs Hf]. case_decide as E; [subst; by constructor|].
  destruct (str_lt k k') eqn:Hlt; simpl.
  - constructor; [by constructor|]. constructor; [done|].
    revert Hf. apply List.Forall_impl. intros k1. by apply str_lt_trans.
  - constructor; [by apply IH|]. apply list.Forall_forall. intros x Hx.
    apply assign_keys in Hx as [->|Hx]; [by apply str_lt_total|].
    rewrite list.Forall_forall in Hf. by apply Hf.
Qed.

Lemma wf_nil : wf (@nil (bytes * V)).
Proof. constructor. Qed.

Lemma find_erase_eq k m : wf m -> find k (erase k m) = None.
Proof.
  unfold wf. induction m as [|[k' v'] m IH]; simpl; intros Hm; [done|].
  inversion_clear Hm as [|?? Hs Hf]. case_decide as E.
  - subst k'. by apply find_None_lt.
  - simpl. rewrite decide_False by done. by apply IH.
Qed.

Lemma find_erase_ne k k' m : k <> k' -> find k (erase k' m) = find k m.
Proof.
  intros Hne. induction m as [|[k1 v1] m IH]; simpl; [done|].
  case_decide as E; [subst k1; by rewrite decide_False|]. simpl. case_decide; [done|]. apply IH.
Qed.

Lemma wf_erase k m : wf m -> wf (erase k m).
Proof.
  unfold wf. induction m as [|[k' v'] m IH]; simpl; intros Hm; [done|].
  inversion_clear Hm as [|?? Hs Hf]. case_decide; [done|]. simpl. constructor; [by apply IH|].
  apply list.Forall_forall. intros x Hx. rewrite list.Forall_forall in Hf. apply Hf.
  clear -Hx. induction m as [|[k1 v1] m IH]; simpl in *; [done|]. case_decide; set_solver.
Qed.

Lemma index_present k d m v : find k m = Some v -> index k d m = (v, m).
Proof. unfold index. by intros ->. Qed.

Lemma find_lookup k v m : wf m -> find k m = Some v <-> (k, v) ∈ m.
Proof.
  unfold wf. induction m as [|[k' v'] m IH]; simpl; intros Hm; [set_solver|].
  inversion_clear Hm as [|?? Hs Hf]. case_decide as E.
  - subst k'. split; [intros [= ->]; set_solver|]. intros [[= ->]|Hin]%elem_of_cons; [done|].
    rewrite list.Forall_forall in Hf. assert (k ∈ m.*1) as Hk by (apply list_elem_of_fmap; by exists (k, v)).
    apply Hf in Hk. by rewrite str_lt_irrefl in Hk.
  - rewrite IH by done. rewrite elem_of_cons. split; [auto|]. by intros [[= -> ->]|].
Qed.
End Laws.

#[export] Hint Resolve wf_assign wf_erase wf_nil : mdalarm.
