(* ===== verification/MySql.v ===== *)
(** * The MySQL client library, as DataBase.cpp uses it

    The library is not part of the repository (only its header is): its
    functions are the operations of the class [MySqlApi] over a world [W] that
    holds the server and the client's cursors, and [MySqlLaws] states what its
    manual documents about result sets.  [TestServer] is an instance, a server
    with one table, that satisfies the laws. *)
From S2P Require Import Prelude CLib.

(** ** Interface *)

(** A row: a value for each column, [None] where it is SQL [NULL]. *)
Abbreviation row := (list (option bytes)).

Class MySqlApi (W : Type) := {
  MYSQL : Type;
  MYSQL_RES : Type;
  mysql_init : W -> option MYSQL * W;
  mysql_options_connect_timeout : MYSQL -> Z -> W -> Z * W;
  mysql_real_connect : MYSQL -> bytes -> bytes -> bytes -> bytes -> Z -> W -> option MYSQL * W;
  mysql_real_query : MYSQL -> bytes -> W -> Z * W;
  mysql_store_result : MYSQL -> W -> option MYSQL_RES * W;
  mysql_fetch_field : MYSQL_RES -> W -> option bytes * W;
  mysql_field_tell : MYSQL_RES -> W -> Z;
  mysql_fetch_row : MYSQL_RES -> W -> option row * W
}.

(** A result set: its column names, how many of them were fetched, and the rows
    not fetched yet. *)
Record cursor := { columns : list bytes; field_pos : nat; rows_left : list row }.

Class MySqlLaws (W : Type) `{MySqlApi W} := {
  cursor_of : MYSQL_RES -> W -> cursor;
  fetch_field_some res w name :
    columns (cursor_of res w) !! field_pos (cursor_of res w) = Some name ->
    exists w', mysql_fetch_field res w = (Some name, w') /\
      cursor_of res w' = {| columns := columns (cursor_of res w);
                            field_pos := S (field_pos (cursor_of res w));
                            rows_left := rows_left (cursor_of res w) |};
  fetch_field_none res w :
    columns (cursor_of res w) !! field_pos (cursor_of res w) = None ->
    exists w', mysql_fetch_field res w = (None, w') /\
      columns (cursor_of res w') = columns (cursor_of res w) /\
      rows_left (cursor_of res w') = rows_left (cursor_of res w);
  field_tell res w : mysql_field_tell res w = Z.of_nat (field_pos (cursor_of res w));
  fetch_row_some res w r rs :
    rows_left (cursor_of res w) = r :: rs ->
    exists w', mysql_fetch_row res w = (Some r, w') /\
      columns (cursor_of res w') = columns (cursor_of res w) /\
      rows_left (cursor_of res w') = rs;
  fetch_row_none res w :
    rows_left (cursor_of res w) = [] -> exists w', mysql_fetch_row res w = (None, w')
}.

(** ** An instance *)

(** A server with one table, and the result set of its last query. *)
Record server := {
  table_name : bytes; table_columns : list bytes; table_rows : list row;
  result_set : option cursor
}.

Definition set_result (c : option cursor) (s : server) : server :=
  {| table_name := table_name s; table_columns := table_columns s;
     table_rows := table_rows s; result_set := c |}.

Definition server_cursor (s : server) : cursor :=
  default {| columns := []; field_pos := 0; rows_left := [] |} (result_set s).

Definition server_query (q : bytes) (s : server) : Z * server :=
  if decide (q = s2b "set names utf8" ++ [NUL]) then (0, s)
  else if decide (q = s2b "select * from " ++ table_name s) then
    (0, set_result (Some {| columns := table_columns s; field_pos := 0;
                            rows_left := table_rows s |}) s)
  else (1, s).

Definition server_fetch_field (s : server) : option bytes * server :=
  let c := server_cursor s in
  match columns c !! field_pos c with
  | Some name =>
      (Some name, set_result (Some {| columns := columns c; field_pos := S (field_pos c);
                                      rows_left := rows_left c |}) s)
  | None => (None, s)
  end.

Definition server_fetch_row (s : server) : option row * server :=
  let c := server_cursor s in
  match rows_left c with
  | r :: rs => (Some r, set_result (Some {| columns := columns c; field_pos := field_pos c;
                                            rows_left := rs |}) s)
  | [] => (None, s)
  end.

#[export] Instance TestServer : MySqlApi server := {|
  MYSQL := unit;
  MYSQL_RES := unit;
  mysql_init s := (Some tt, s);
  mysql_options_connect_timeout _ _ s := (0, s);
  mysql_real_connect _ _ _ _ _ _ s := (Some tt, s);
  mysql_real_query _ q s := server_query q s;
  mysql_store_result _ s := (match result_set s with Some _ => Some tt | None => None end, s);
  mysql_fetch_field _ s := server_fetch_field s;
  mysql_field_tell _ s := Z.of_nat (field_pos (server_cursor s));
  mysql_fetch_row _ s := server_fetch_row s
|}.

#[export] Program Instance TestServer_laws : MySqlLaws server := {|
  cursor_of _ s := server_cursor s
|}.
Solve All Obligations with
  intros; simpl in *; unfold server_fetch_field, server_fetch_row;
  try match goal with H : _ = _ |- _ => rewrite H end; eauto.
