(* ===== verification/DataBase.v ===== *)
(** * The camera table of DataBase.cpp

    The static tables of [DataBaseOperate], the query that fills them and the
    getters the service reads them with (src/src/DataBase.cpp), over the MySQL
    interface of MySql.v.  The specification is a directory: the cameras of the
    rows that have all six columns, in row order. *)
From S2P Require Import Prelude CLib StdMap MySql.

(** ** Data *)

Definition CameraIp : bytes := s2b "ip".
Definition CameraPort : bytes := s2b "login_port".
Definition CameraName : bytes := s2b "name".
Definition UserName : bytes := s2b "username".
Definition Passwd : bytes := s2b "password".
Definition PhonNums : bytes := s2b "phonenums".

(** The static members of [DataBaseOperate]. *)
Record database := {
  CameraInfoName : smap Z;
  CameraInfoFromDB : list (smap bytes);
  IpWarnToPhoneFromDB : smap (list bytes)
}.

(** [DataBaseOperate::DataBaseOperate()]: the tables start empty. *)
Definition DataBaseOperate_init : database :=
  {| CameraInfoName := []; CameraInfoFromDB := []; IpWarnToPhoneFromDB := [] |}.

Definition set_names (m : smap Z) (st : database) : database :=
  {| CameraInfoName := m; CameraInfoFromDB := CameraInfoFromDB st;
     IpWarnToPhoneFromDB := IpWarnToPhoneFromDB st |}.

Definition set_infos (l : list (smap bytes)) (st : database) : database :=
  {| CameraInfoName := CameraInfoName st; CameraInfoFromDB := l;
     IpWarnToPhoneFromDB := IpWarnToPhoneFromDB st |}.

Definition set_warn (m : smap (list bytes)) (st : database) : database :=
  {| CameraInfoName := CameraInfoName st; CameraInfoFromDB := CameraInfoFromDB st;
     IpWarnToPhoneFromDB := m |}.

(** ** Text operations *)

(** The loop of [StrToUint]: whether it ran to the end, and [uint]. *)
Fixpoint StrToUint_loop (str : bytes) (uint : Z) : bool * Z :=
  match str with
  | [] => (true, uint)
  | c :: str' =>
      if (schar c <? 48) || (57 <? schar c) then (false, uint)
      else StrToUint_loop str' (u32 (u32 (uint * 10 + u32 (schar c)) - 48))
  end.

Definition StrToUint (str : bytes) : bool * Z := StrToUint_loop str 0.

(** The loop of [ExtractPhoneNumber], [PhoneNum] being the number under way. *)
Fixpoint ExtractPhoneNumber_loop (strPhoneNum PhoneNum : bytes) (vectPhoneNum : list bytes)
    : list bytes :=
  match strPhoneNum with
  | [] => vectPhoneNum ++ [PhoneNum]
  | c :: s' =>
      if negb (schar c =? 44) then ExtractPhoneNumber_loop s' (PhoneNum ++ [c]) vectPhoneNum
      else ExtractPhoneNumber_loop s' [] (vectPhoneNum ++ [PhoneNum])
  end.

Definition ExtractPhoneNumber (strPhoneNum : bytes) (vectPhoneNum : list bytes) : list bytes :=
  ExtractPhoneNumber_loop strPhoneNum [] vectPhoneNum.

(** ** The getters *)

Definition GetCameraNum (st : database) : Z := Z.of_nat (length (CameraInfoFromDB st)).

(** [CameraInfoFromDB[idx][key]]: an absent key is inserted. *)
Definition info_index (idx : Z) (key : bytes) (st : database) : exec (bytes * database) :=
  info ← read (CameraInfoFromDB st) idx;
  let '(v, info') := index key [] info in
  l ← write (CameraInfoFromDB st) idx info';
  Ok (v, set_infos l st).

(** Each getter returns its result, the out parameter (as passed when it is not
    assigned) and the tables. *)
Definition GetCameraIp (idx : Z) (strIp : bytes) (st : database) : exec (bool * bytes * database) :=
  if GetCameraNum st <=? idx then Ok (false, strIp, st)
  else
    '(v, st) ← info_index idx CameraIp st;
    if (length v =? 0)%nat then Ok (false, v, st) else Ok (true, v, st).

Definition GetCameraPort (idx port : Z) (st : database) : exec (bool * Z * database) :=
  if GetCameraNum st <=? idx then Ok (false, port, st)
  else
    '(v, st) ← info_index idx CameraPort st;
    let '(ok, uint) := StrToUint v in Ok (ok, uint, st).

Definition GetCameraUserName (idx : Z) (strName : bytes) (st : database)
    : exec (bool * bytes * database) :=
  if GetCameraNum st <=? idx then Ok (false, strName, st)
  else '(v, st) ← info_index idx UserName st; Ok (true, v, st).

Definition GetCameraPasswd (idx : Z) (strPasswd : bytes) (st : database)
    : exec (bool * bytes * database) :=
  if GetCameraNum st <=? idx then Ok (false, strPasswd, st)
  else '(v, st) ← info_index idx Passwd st; Ok (true, v, st).

(** One round of the loop of [GetCameraName]; [i] is a [uint32_t]. *)
Definition name_step (strIp strName : bytes) (s : Z * database)
    : exec (Z * database + bool * bytes * database) :=
  let '(i, st) := s in
  if i <? GetCameraNum st then
    '(ip, st) ← info_index i CameraIp st;
    if decide (ip = strIp) then
      '(name, st) ← info_index i CameraName st;
      Ok (inr (true, name, st))
    else Ok (inl (u32 (i + 1), st))
  else Ok (inr (false, strName, st)).

Definition GetCameraName (strIp strName : bytes) (st : database)
    : exec (bool * bytes * database) :=
  loopM (S (length (CameraInfoFromDB st))) (name_step strIp strName) (0, st).

Definition GetCameraWarnPhone (strIp : bytes) (vecPhone : list bytes) (st : database)
    : bool * list bytes * database :=
  if count strIp (IpWarnToPhoneFromDB st) =? 0 then (false, vecPhone, st)
  else
    let '(v, m) := index strIp [] (IpWarnToPhoneFromDB st) in
    (true, v, set_warn m st).

(** ** Loading the table *)

Definition MISSING : Z := 0xFFFFFFFF.

(** What the [for] over [CameraInfoName] makes of a row. *)
Inductive row_outcome :=
  | ColumnMissing
  | RowSkipped
  | RowRead (CameraInfo : smap bytes).

Fixpoint row_info (Row : row) (names : smap Z) (CameraInfo : smap bytes) : exec row_outcome :=
  match names with
  | [] => Ok (RowRead CameraInfo)
  | (key, idx) :: names' =>
      if idx =? MISSING then Ok ColumnMissing
      else
        v ← read Row idx;
        match v with
        | None => Ok RowSkipped
        | Some v => row_info Row names' (assign key (cstr v) CameraInfo)
        end
  end.

(** The last loop: the phone numbers of every entry move to
    [IpWarnToPhoneFromDB]. *)
Fixpoint extract_phones (infos : list (smap bytes)) (warn : smap (list bytes))
    : list (smap bytes) * smap (list bytes) :=
  match infos with
  | [] => ([], warn)
  | info :: infos' =>
      let '(phones, info) := index PhonNums [] info in
      let vectPhone := ExtractPhoneNumber phones [] in
      let '(ip, info) := index CameraIp [] info in
      let warn := assign ip vectPhone warn in
      let '(rest, warn) := extract_phones infos' warn in
      (erase PhonNums info :: rest, warn)
  end.

Section Load.
Context {W : Type} `{MySqlApi W}.

(** [while ((ptrFields = mysql_fetch_field(ptrTables)))]. *)
Definition field_step (ptrTables : MYSQL_RES) (s : W * smap Z)
    : exec (W * smap Z + W * smap Z) :=
  let '(w, names) := s in
  match mysql_fetch_field ptrTables w with
  | (Some key, w) =>
      if 0 <? count (cstr key) names then
        Ok (inl (w, assign (cstr key) (u32 (mysql_field_tell ptrTables w - 1)) names))
      else Ok (inl (w, names))
  | (None, w) => Ok (inr (w, names))
  end.

(** [while ((Row = mysql_fetch_row(ptrTables)))]: false is the early return. *)
Definition row_step (ptrTables : MYSQL_RES) (s : W * database)
    : exec (W * database + bool * W * database) :=
  let '(w, st) := s in
  match mysql_fetch_row ptrTables w with
  | (Some Row, w) =>
      r ← row_info Row (CameraInfoName st) [];
      match r with
      | ColumnMissing => Ok (inr (false, w, st))
      | RowSkipped => Ok (inl (w, st))
      | RowRead CameraInfo => Ok (inl (w, set_infos (CameraInfoFromDB st ++ [CameraInfo]) st))
      end
  | (None, w) => Ok (inr (true, w, st))
  end.

(** [char QueryCmd[64] = ...; strcat(QueryCmd, ptrTable);] *)
Definition QueryCmd (ptrTable : bytes) : exec bytes :=
  q ← blit (s2b "select * from " ++ replicate 50 NUL) 14 (cstr ptrTable ++ [NUL]);
  Ok (cstr q).

(** [fuel] bounds each of the two [while] loops. *)
Definition GetCameraInfoFromDB (fuel : nat) (ptrConnect : option MYSQL) (ptrTable : option bytes)
    (w : W) (st : database) : exec (bool * W * database) :=
  match ptrConnect, ptrTable with
  | Some conn, Some table =>
      q ← QueryCmd table;
      let '(r, w) := mysql_real_query conn (s2b "set names utf8" ++ [NUL]) w in
      if nz r then Ok (false, w, st)
      else
        let '(r, w) := mysql_real_query conn q w in
        if nz r then Ok (false, w, st)
        else
          match mysql_store_result conn w with
          | (None, w) => Ok (false, w, st)
          | (Some tables, w) =>
              '(w, names) ← loopM fuel (field_step tables) (w, CameraInfoName st);
              '(ok, w, st) ← loopM fuel (row_step tables) (w, set_names names st);
              if negb ok then Ok (false, w, st)
              else
                let '(infos, warn) :=
                  extract_phones (CameraInfoFromDB st) (IpWarnToPhoneFromDB st) in
                Ok (true, w, set_warn warn (set_infos infos st))
          end
  | _, _ => Ok (false, w, st)
  end.

Definition missing_names (m : smap Z) : smap Z :=
  assign PhonNums MISSING (assign Passwd MISSING (assign UserName MISSING
    (assign CameraName MISSING (assign CameraPort MISSING (assign CameraIp MISSING m))))).

Definition ConnectDataBase (fuel : nat) (ptrIp : option bytes) (port : Z)
    (ptrUserName ptrPassword ptrDBName ptrTableName : option bytes) (w : W) (st : database)
    : exec (bool * W * database) :=
  match ptrIp, ptrUserName, ptrPassword, ptrDBName, ptrTableName with
  | Some ip, Some user, Some pass, Some db, Some _ =>
      let st := set_names (missing_names (CameraInfoName st)) st in
      match mysql_init w with
      | (None, w) => Ok (false, w, st)
      | (Some mysql, w) =>
          let '(r, w) := mysql_options_connect_timeout mysql 7 w in
          if nz r then Ok (false, w, st)
          else
            match mysql_real_connect mysql ip user pass db port w with
            | (None, w) => Ok (false, w, st)
            | (Some conn, w) => GetCameraInfoFromDB fuel (Some conn) ptrTableName w st
            end
      end
  | _, _, _, _, _ => Ok (false, w, st)
  end.
End Load.

(** ** Specification *)

(** A camera of the table, and its phones as the program keeps them. *)
Record camera := {
  c_ip : bytes; c_port : bytes; c_name : bytes; c_username : bytes; c_password : bytes;
  c_phonenums : bytes
}.

Definition c_phones (c : camera) : list bytes := ExtractPhoneNumber (c_phonenums c) [].

(** The camera of a row: the values of its six columns, none of them [NULL]. *)
Definition col (cols : list bytes) (k : bytes) : option nat :=
  fst <$> list_find (fun c => cstr c = k) cols.

Definition value_of (cols : list bytes) (r : row) (k : bytes) : option bytes :=
  i ← col cols k; v ← r !! i; cstr <$> v.

Definition row_camera (cols : list bytes) (r : row) : option camera :=
  ip ← value_of cols r CameraIp; port ← value_of cols r CameraPort;
  name ← value_of cols r CameraName; pass ← value_of cols r Passwd;
  phones ← value_of cols r PhonNums; user ← value_of cols r UserName;
  Some {| c_ip := ip; c_port := port; c_name := name; c_username := user;
          c_password := pass; c_phonenums := phones |}.

(** The entry of [CameraInfoFromDB] for a camera, once its phones are moved. *)
Definition entry_of (c : camera) : smap bytes :=
  [(CameraIp, c_ip c); (CameraPort, c_port c); (CameraName, c_name c);
   (Passwd, c_password c); (UserName, c_username c)].

Definition full_entry (c : camera) : smap bytes :=
  [(CameraIp, c_ip c); (CameraPort, c_port c); (CameraName, c_name c);
   (Passwd, c_password c); (PhonNums, c_phonenums c); (UserName, c_username c)].

(** A camera that was loaded before has no phone text any more. *)
Definition wipe (c : camera) : camera :=
  {| c_ip := c_ip c; c_port := c_port c; c_name := c_name c; c_username := c_username c;
     c_password := c_password c; c_phonenums := [] |}.

Definition with_ip (ip : bytes) (l : list camera) : list camera :=
  filter (fun c => c_ip c = ip) l.

(** The state holds the cameras [cams], with their phones as [phones] says. *)
Definition holds (st : database) (cams : list camera) (phones : bytes -> option (list bytes)) : Prop :=
  CameraInfoFromDB st = entry_of <$> cams /\
  forall ip, find ip (IpWarnToPhoneFromDB st) = phones ip.

Definition phones_of (cams : list camera) (ip : bytes) : option (list bytes) :=
  c_phones <$> list.last (with_ip ip cams).

Definition keys : list bytes := [CameraIp; CameraPort; CameraName; Passwd; PhonNums; UserName].

(** ** Text lemmas *)

Lemma StrToUint_loop_spec s u :
  StrToUint_loop s u = (forallb is_digit s,
    match digit_prefix s with
    | [] => u
    | p => u32 (foldl (fun v c => v * 10 + (uchar c - 48)) u p)
    end).
Proof.
  revert u. induction s as [|c s IH]; intros u; [done|].
  assert (is_digit c = negb ((schar c <? 48) || (57 <? schar c))) as Hd.
  { unfold is_digit. by rewrite negb_orb, !Z.ltb_antisym, !negb_involutive. }
  cbn [StrToUint_loop forallb digit_prefix]. rewrite Hd.
  destruct ((schar c <? 48) || (57 <? schar c)) eqn:E; cbn [negb andb]; [done|].
  rewrite IH. f_equal. bool2prop.
  assert (uchar c = schar c) as Hc.
  { unfold schar in *. pose proof (uchar_range c). case_match; bool2prop; lia. }
  assert (u32 (u32 (u * 10 + u32 (schar c)) - 48) = u32 (u * 10 + (uchar c - 48))) as E.
  { rewrite Hc. unfold u32. rewrite (Z.mod_small (schar c)) by (pows; lia).
    rewrite Zminus_mod_idemp_l. f_equal. lia. }
  rewrite E. destruct (digit_prefix s) as [|d p]; [done|]. unfold u32.
  clear IH E H H0 Hc.
  change (foldl ?f u (c :: d :: p)) with (foldl f (u * 10 + (uchar c - 48)) (d :: p)).
  generalize (d :: p) (u * 10 + (uchar c - 48)). clear.
  intros l. induction l as [|x l IH] using rev_ind; intros z; [simpl; by rewrite Zmod_mod|].
  rewrite !foldl_app. simpl. rewrite Z.add_mod, Z.mul_mod, IH by done.
  rewrite <- Z.mul_mod, <- Z.add_mod by done. done.
Qed.

Lemma ExtractPhoneNumber_loop_join s cur acc :
  44 ∉ (schar <$> cur) ->
  exists l, ExtractPhoneNumber_loop s cur acc = acc ++ l /\ join l = cur ++ s /\ l <> [] /\
    Forall (fun p => 44 ∉ (schar <$> p)) l.
Proof.
  revert cur acc. induction s as [|c s IH]; intros cur acc Hcur; cbn [ExtractPhoneNumber_loop].
  - exists [cur]. simpl. rewrite app_nil_r. auto.
  - destruct (Z.eqb_spec (schar c) 44) as [E|E]; cbn [negb].
    + destruct (IH [] (acc ++ [cur])) as (l & -> & Hj & Hne & Hl).
      { apply not_elem_of_nil. }
      exists (cur :: l). rewrite <- app_assoc. split; [done|].
      assert (c = chr 44) as -> by (apply (inj uchar); rewrite uchar_chr_small by lia;
        unfold schar in E; pose proof (uchar_range c); case_match; lia).
      destruct l as [|q l]; [done|]. split; [|auto].
      change (join (cur :: q :: l)) with (cur ++ s2b "," ++ join (q :: l)). by rewrite Hj.
    + destruct (IH (cur ++ [c]) acc) as (l & -> & Hj & Hne & Hl).
      { rewrite fmap_app, elem_of_app. simpl. rewrite elem_of_cons, elem_of_nil.
        intros [?|[?|[]]]; congruence. }
      exists l. rewrite Hj, <- app_assoc. auto.
Qed.

Lemma ExtractPhoneNumber_loop_piece p s cur acc :
  44 ∉ (schar <$> p) ->
  ExtractPhoneNumber_loop (p ++ s) cur acc = ExtractPhoneNumber_loop s (cur ++ p) acc.
Proof.
  revert cur. induction p as [|c p IH]; intros cur Hp; [by rewrite app_nil_r|].
  rewrite fmap_cons, elem_of_cons in Hp. apply Decidable.not_or in Hp as [Hc Hp].
  cbn [ExtractPhoneNumber_loop app]. destruct (Z.eqb_spec (schar c) 44); [lia|]. cbn [negb].
  rewrite IH by done. by rewrite <- app_assoc.
Qed.

Lemma ExtractPhoneNumber_loop_of_join l acc :
  l <> [] -> Forall (fun p => 44 ∉ (schar <$> p)) l ->
  ExtractPhoneNumber_loop (join l) [] acc = acc ++ l.
Proof.
  revert acc. induction l as [|p l IH]; intros acc Hne Hl; [done|].
  apply Forall_cons_iff in Hl as [Hp Hl]. destruct l as [|q l].
  - cbn [join]. rewrite <- (app_nil_r p) at 1. by rewrite ExtractPhoneNumber_loop_piece.
  - change (join (p :: q :: l)) with (p ++ s2b "," ++ join (q :: l)).
    rewrite ExtractPhoneNumber_loop_piece by done.
    change (ExtractPhoneNumber_loop (join (q :: l)) [] (acc ++ [p]) = acc ++ p :: q :: l).
    rewrite IH by done. by rewrite <- app_assoc.
Qed.

(** ** Loading lemmas *)

(** [CameraInfoName] with the index [f] gives each key. *)
Definition name_table (f : bytes -> Z) : smap Z := (fun k => (k, f k)) <$> keys.

Lemma count_name_table f k : (0 <? count k (name_table f)) = bool_decide (k ∈ keys).
Proof.
  unfold count, name_table. generalize keys. intros ks.
  induction ks as [|k' ks IH]; [done|]. rewrite fmap_cons. cbn [find].
  destruct (decide (k = k')) as [->|E].
  - symmetry. apply bool_decide_eq_true_2. apply elem_of_cons. by left.
  - rewrite IH. apply bool_decide_ext. rewrite elem_of_cons. tauto.
Qed.

Lemma assign_name_table f k v :
  k ∈ keys -> assign k v (name_table f) = name_table (fun k' => if decide (k' = k) then v else f k').
Proof.
  unfold keys. intros H. repeat (apply elem_of_cons in H as [->|H]; [reflexivity|]).
  by apply not_elem_of_nil in H.
Qed.

Lemma missing_names_table f : missing_names (name_table f) = name_table (fun _ => MISSING).
Proof. reflexivity. Qed.

Lemma missing_names_nil : missing_names [] = name_table (fun _ => MISSING).
Proof. reflexivity. Qed.

Lemma col_cons c cols k :
  col (c :: cols) k = if decide (cstr c = k) then Some 0%nat else S <$> col cols k.
Proof.
  unfold col. simpl. case_decide; [done|]. by destruct (list_find _ cols) as [[]|].
Qed.

Lemma col_None cols k : k ∉ (cstr <$> cols) -> col cols k = None.
Proof.
  induction cols as [|c cols IH]; intros Hk; [done|]. rewrite fmap_cons, elem_of_cons in Hk.
  apply Decidable.not_or in Hk as [Hc Hk]. rewrite col_cons, decide_False by congruence.
  by rewrite IH.
Qed.

Lemma col_Some cols k : k ∈ (cstr <$> cols) -> exists i, col cols k = Some i /\ (i < length cols)%nat.
Proof.
  induction cols as [|c cols IH]; intros Hk; [by apply not_elem_of_nil in Hk|].
  rewrite col_cons. case_decide as E; [exists 0%nat; simpl; split; [done|lia]|].
  apply elem_of_cons in Hk as [->|Hk]; [done|]. destruct (IH Hk) as (i & -> & ?).
  exists (S i). simpl. split; [done|lia].
Qed.

(** The index a key has after the columns [cols], at position [pos], are read. *)
Definition index_after (cols : list bytes) (pos : nat) (old : Z) (k : bytes) : Z :=
  match col cols k with Some i => Z.of_nat (pos + i) | None => old end.

Section LoadLemmas.
Context {W : Type} `{!MySqlApi W} `{!MySqlLaws W}.

Lemma field_step_eq res w names :
  field_step res (w, names) =
    match mysql_fetch_field res w with
    | (Some key, w) =>
        if 0 <? count (cstr key) names then
          Ok (inl (w, assign (cstr key) (u32 (mysql_field_tell res w - 1)) names))
        else Ok (inl (w, names))
    | (None, w) => Ok (inr (w, names))
    end.
Proof. done. Qed.

Lemma row_step_eq res w st :
  row_step res (w, st) =
    match mysql_fetch_row res w with
    | (Some Row, w) =>
        r ← row_info Row (CameraInfoName st) [];
        match r with
        | ColumnMissing => Ok (inr (false, w, st))
        | RowSkipped => Ok (inl (w, st))
        | RowRead CameraInfo => Ok (inl (w, set_infos (CameraInfoFromDB st ++ [CameraInfo]) st))
        end
    | (None, w) => Ok (inr (true, w, st))
    end.
Proof. done. Qed.

Lemma field_loop res : forall cols w f fuel pos,
  field_pos (cursor_of res w) = pos -> drop pos (columns (cursor_of res w)) = cols ->
  NoDup (cstr <$> cols) -> Z.of_nat (pos + length cols) < 2 ^ 32 -> (length cols < fuel)%nat ->
  exists w' g, loopM fuel (field_step res) (w, name_table f) = Ok (w', name_table g) /\
    rows_left (cursor_of res w') = rows_left (cursor_of res w) /\
    forall k, k ∈ keys -> g k = index_after cols pos (f k) k.
Proof.
  induction cols as [|c cols IH]; intros w f fuel pos Hpos Hcols Hnd Hlen Hfuel.
  - destruct fuel; [simpl in *; lia|]. rewrite loopM_S, field_step_eq.
    destruct (fetch_field_none res w) as (w' & E & Hc & Hr).
    { rewrite Hpos. rewrite <- (Nat.add_0_r pos), <- lookup_drop. by rewrite Hcols. }
    rewrite E. exists w', f. auto.
  - destruct fuel as [|fuel]; [simpl in *; lia|]. rewrite loopM_S, field_step_eq.
    destruct (fetch_field_some res w c) as (w' & E & Hw').
    { rewrite Hpos. eapply drop_cons_lookup. done. }
    rewrite E, count_name_table, field_tell, Hw'. cbn [field_pos columns rows_left].
    rewrite fmap_cons in Hnd. apply list.NoDup_cons in Hnd as [Hc Hnd]. simpl length in *.
    set (f' := fun k' => if decide (k' = cstr c) then Z.of_nat pos else f k').
    edestruct (IH w' (if bool_decide (cstr c ∈ keys) then f' else f) fuel (S pos))
      as (w2 & g & Hloop & Hrows & Hg).
    { by rewrite Hw', Hpos. } { rewrite Hw'. simpl. by eapply drop_cons_tail. }
    { done. } { lia. } { lia. }
    exists w2, g. split; [|split].
    + rewrite <- Hloop. destruct (bool_decide_reflect (cstr c ∈ keys)) as [Hk|Hk]; [|done].
      rewrite assign_name_table by done. simpl. do 4 f_equal. unfold f'.
      rewrite Hpos. by rewrite u32_small by lia; replace (Z.of_nat (S pos) - 1) with (Z.of_nat pos) by lia.
    + by rewrite Hrows, Hw'.
    + intros k Hk. rewrite Hg by done. unfold index_after. rewrite col_cons.
      destruct (decide (cstr c = k)) as [<-|Hne].
      * rewrite col_None by done. rewrite bool_decide_eq_true_2 by done. unfold f'.
        rewrite decide_True by done. f_equal. lia.
      * destruct (col cols k); simpl; [f_equal; lia|]. case_bool_decide; [|done].
        unfold f'. by rewrite decide_False by congruence.
Qed.
End LoadLemmas.

(** A row's values through the indices of the columns. *)
Lemma row_info_step r k idx names info :
  idx <> MISSING ->
  row_info r ((k, idx) :: names) info =
    (v ← read r idx;
     match v with
     | None => Ok RowSkipped
     | Some v => row_info r names (assign k (cstr v) info)
     end).
Proof. intros H. cbn [row_info]. by rewrite (proj2 (Z.eqb_neq _ _)). Qed.

Definition all_columns (cols : list bytes) : Prop :=
  NoDup (cstr <$> cols) /\ Forall (fun k => k ∈ (cstr <$> cols)) keys /\
  Z.of_nat (length cols) < MISSING.

(** Reading a row by the index of a column. *)
Lemma read_column cols r k old :
  all_columns cols -> length r = length cols -> k ∈ keys ->
  index_after cols 0 old k <> MISSING /\
  exists v, @read Empty_set _ r (index_after cols 0 old k) = Ok v /\ value_of cols r k = cstr <$> v.
Proof.
  intros (Hnd & Hall & Hlen) Hr Hk. unfold index_after, value_of.
  rewrite list.Forall_forall in Hall. destruct (col_Some _ _ (Hall _ Hk)) as (i & -> & Hi).
  simpl. split; [unfold MISSING in *; lia|].
  destruct (lookup_lt_is_Some_2 r i) as [v Hv]; [lia|]. exists v.
  rewrite Hv. split; [by apply read_lookup|done].
Qed.

(** Read column [k] in both the code and the specification; a [NULL] ends it. *)
Ltac column H k :=
  let n := fresh in let v := fresh "v" in let e := fresh in let e' := fresh in
  destruct (H k) as [n (v & e & e')];
  [repeat (apply elem_of_cons; first [left; reflexivity | right])|];
  rewrite row_info_step by exact n; rewrite e, e'; cbn [mbind result_bind];
  destruct v; cbn [fmap option_fmap option_map mbind option_bind]; [|reflexivity].

Lemma row_info_camera cols r g :
  all_columns cols -> length r = length cols ->
  (forall k, k ∈ keys -> exists old, g k = index_after cols 0 old k) ->
  row_info r (name_table g) [] =
    Ok (match row_camera cols r with
        | Some c => RowRead (full_entry c)
        | None => RowSkipped
        end).
Proof.
  intros Hcols Hr Hg. unfold name_table, row_camera.
  assert (forall k, k ∈ keys -> g k <> MISSING /\
    exists v, @read Empty_set _ r (g k) = Ok v /\ value_of cols r k = cstr <$> v) as Hread.
  { intros k Hk. destruct (Hg k Hk) as [old ->]. by apply read_column. }
  unfold keys in *. cbn [fmap list_fmap].
  column Hread CameraIp. column Hread CameraPort. column Hread CameraName.
  column Hread Passwd. column Hread PhonNums. column Hread UserName.
  reflexivity.
Qed.

Section RowLoop.
Context {W : Type} `{!MySqlApi W} `{!MySqlLaws W}.

Lemma row_loop res cols g : forall rows w st fuel,
  rows_left (cursor_of res w) = rows ->
  all_columns cols -> Forall (fun r => length r = length cols) rows ->
  (forall k, k ∈ keys -> exists old, g k = index_after cols 0 old k) ->
  CameraInfoName st = name_table g -> (length rows < fuel)%nat ->
  exists w', loopM fuel (row_step res) (w, st) =
    Ok (true, w', set_infos (CameraInfoFromDB st ++ (full_entry <$> omap (row_camera cols) rows)) st).
Proof.
  induction rows as [|r rows IH]; intros w st fuel Hrows Hcols Hlen Hg Hst Hfuel;
    (destruct fuel as [|fuel]; [simpl in *; lia|]); rewrite loopM_S, row_step_eq.
  - destruct (fetch_row_none res w Hrows) as [w' ->]. exists w'. simpl. rewrite app_nil_r.
    by destruct st.
  - destruct (fetch_row_some res w r rows Hrows) as (w' & -> & _ & Hrows').
    apply Forall_cons_iff in Hlen as [Hr Hlen]. simpl in Hfuel.
    rewrite Hst, (row_info_camera cols) by done. cbn [mbind result_bind]. cbn [omap list_omap].
    destruct (row_camera cols r) as [c|]; cbn [mbind result_bind].
    + edestruct (IH w' (set_infos (CameraInfoFromDB st ++ [full_entry c]) st)) as [w2 ->];
        [done..|lia|]. exists w2. simpl. by rewrite <- app_assoc.
    + edestruct (IH w' st) as [w2 ->]; [done..|lia|]. by exists w2.
Qed.
End RowLoop.

(** The last loop, over entries of earlier loads and new ones. *)
Definition add_phones (m : smap (list bytes)) (c : camera) : smap (list bytes) :=
  assign (c_ip c) (c_phones c) m.

Lemma extract_phones_new new warn :
  extract_phones (full_entry <$> new) warn = (entry_of <$> new, foldl add_phones warn new).
Proof.
  revert warn. induction new as [|c new IH]; intros warn; [done|].
  rewrite !fmap_cons. cbn [extract_phones foldl].
  change (index PhonNums [] (full_entry c)) with (c_phonenums c, full_entry c). cbv beta iota.
  change (index CameraIp [] (full_entry c)) with (c_ip c, full_entry c). cbv beta iota.
  rewrite IH. reflexivity.
Qed.

Lemma extract_phones_spec old new warn :
  extract_phones ((entry_of <$> old) ++ (full_entry <$> new)) warn =
    (entry_of <$> old ++ new, foldl add_phones warn ((wipe <$> old) ++ new)).
Proof.
  revert warn. induction old as [|c old IH]; intros warn; [by apply extract_phones_new|].
  cbn [app]. rewrite !fmap_cons. cbn [app extract_phones foldl].
  change (index PhonNums [] (entry_of c)) with (@nil ascii, full_entry (wipe c)). cbv beta iota.
  change (index CameraIp [] (full_entry (wipe c))) with (c_ip c, full_entry (wipe c)).
  cbv beta iota. rewrite IH. reflexivity.
Qed.

Lemma find_add_phones ip l m :
  find ip (foldl add_phones m l) =
    match phones_of l ip with Some p => Some p | None => find ip m end.
Proof.
  unfold phones_of, with_ip. induction l as [|c l IH] using rev_ind; [done|].
  rewrite foldl_app, list.filter_app. cbn [foldl]. unfold add_phones at 1.
  destruct (decide (c_ip c = ip)) as [<-|Hne].
  - rewrite filter_cons_True, filter_nil, last_snoc by done. cbn. by rewrite find_assign_eq.
  - rewrite filter_cons_False, filter_nil, app_nil_r by done.
    by rewrite find_assign_ne by congruence.
Qed.

Lemma QueryCmd_fits table :
  (length (cstr table) <= 49)%nat -> QueryCmd table = Ok (s2b "select * from " ++ cstr table).
Proof.
  intros H. unfold QueryCmd. change 14 with (Z.of_nat 14).
  rewrite blit_ok by (rewrite !length_app; simpl; lia). cbn [mbind result_bind]. f_equal.
  change (take 14 _) with (s2b "select * from "). rewrite <- app_assoc.
  rewrite (app_assoc (s2b "select * from ")).
  assert (forall a b, Forall (fun c => uchar c <> 0) a -> cstr (a ++ NUL :: b) = a) as Hnul.
  { intros a b. induction 1 as [|x a Hx _ IH]; [done|]. cbn [app cstr].
    rewrite (proj2 (Z.eqb_neq _ _)) by done. by rewrite IH. }
  apply Hnul. apply Forall_app. split; [|apply cstr_Forall].
  repeat constructor; by vm_compute.
Qed.

Lemma QueryCmd_overflow table :
  (50 <= length (cstr table))%nat -> QueryCmd table = Undefined OutOfBounds.
Proof.
  intros H. unfold QueryCmd, blit.
  replace (_ <? _) with false at 1 by done. cbn [orb].
  rewrite (proj2 (Z.ltb_lt _ _)); [done|]. rewrite !length_app. simpl. lia.
Qed.

(** With a column missing no row is ever read to the end. *)
Lemma row_info_missing r names info :
  Forall (fun e => e.2 = MISSING \/ 0 <= e.2 < Z.of_nat (length r)) names ->
  Exists (fun e => e.2 = MISSING) names ->
  row_info r names info = Ok ColumnMissing \/ row_info r names info = Ok RowSkipped.
Proof.
  revert info. induction names as [|[k i] names IH]; intros info Hall Hex; [by inversion Hex|].
  apply Forall_cons_iff in Hall as [Hi Hall]. cbn [row_info].
  destruct (Z.eqb_spec i MISSING) as [->|Hne]; [by left|].
  apply Exists_cons in Hex as [?|Hex]; [done|].
  destruct Hi as [?|Hi]; [done|]. simpl in Hi.
  destruct (lookup_lt_is_Some_2 r (Z.to_nat i)) as [v Hv]; [lia|].
  apply (read_lookup (E := Empty_set)) in Hv. rewrite Z2Nat.id in Hv by lia. rewrite Hv.
  cbn [mbind result_bind]. destruct v; [by apply IH|by right].
Qed.

Section MissingLoop.
Context {W : Type} `{!MySqlApi W} `{!MySqlLaws W}.

Lemma row_loop_missing res names n : forall rows w st fuel,
  rows_left (cursor_of res w) = rows -> Forall (fun r => length r = n) rows ->
  Forall (fun e => e.2 = MISSING \/ 0 <= e.2 < Z.of_nat n) names ->
  Exists (fun e => e.2 = MISSING) names ->
  CameraInfoName st = names -> (length rows < fuel)%nat ->
  exists ok w', loopM fuel (row_step res) (w, st) = Ok (ok, w', st) /\ (rows = [] -> ok = true).
Proof.
  induction rows as [|r rows IH]; intros w st fuel Hrows Hlen Hall Hex Hst Hfuel;
    (destruct fuel as [|fuel]; [simpl in *; lia|]); rewrite loopM_S, row_step_eq.
  - destruct (fetch_row_none res w Hrows) as [w' ->]. by exists true, w'.
  - destruct (fetch_row_some res w r rows Hrows) as (w' & -> & _ & Hrows').
    apply Forall_cons_iff in Hlen as [<- Hlen]. simpl in Hfuel. rewrite Hst.
    destruct (row_info_missing r names [] Hall Hex) as [-> | ->]; cbn [mbind result_bind].
    + by exists false, w'.
    + edestruct (IH w' st) as (ok & w2 & -> & _); [done..|lia|]. by exists ok, w2.
Qed.
End MissingLoop.

(** [CameraInfoFromDB[idx][key]] of a key the entry has. *)
Lemma info_index_present idx key st info v :
  CameraInfoFromDB st !! idx = Some info -> find key info = Some v ->
  info_index (Z.of_nat idx) key st = Ok (v, st).
Proof.
  intros Hi Hv. unfold info_index. rewrite (read_lookup _ _ _ Hi). cbn [mbind result_bind].
  rewrite (index_present _ _ _ _ Hv).
  rewrite write_insert by (by eapply lookup_lt_Some). cbn [mbind result_bind].
  rewrite list_insert_id by done. by destruct st.
Qed.

Lemma holds_lookup st cams phones i c :
  holds st cams phones -> cams !! i = Some c -> CameraInfoFromDB st !! i = Some (entry_of c).
Proof. intros [-> _] H. by rewrite list_lookup_fmap, H. Qed.

Lemma holds_num st cams phones : holds st cams phones -> GetCameraNum st = Z.of_nat (length cams).
Proof. intros [H _]. unfold GetCameraNum. by rewrite H, length_fmap. Qed.

Lemma name_loop ip nm st cams phones : forall rest pre fuel,
  holds st cams phones -> cams = pre ++ rest -> Z.of_nat (length cams) < 2 ^ 32 ->
  (length rest < fuel)%nat ->
  loopM fuel (name_step ip nm) (Z.of_nat (length pre), st) =
    Ok (match with_ip ip rest with c :: _ => (true, c_name c) | [] => (false, nm) end, st).
Proof.
  induction rest as [|c rest IH]; intros pre fuel Hh Hc Hlen Hfuel;
    (destruct fuel as [|fuel]; [simpl in *; lia|]); rewrite loopM_S; cbn [name_step];
    rewrite (holds_num _ _ _ Hh), Hc, length_app; simpl length in *.
  - zdec. done.
  - zdec. assert (cams !! length pre = Some c) as Hi by (by rewrite Hc, list_lookup_middle).
    apply (holds_lookup _ _ _ _ _ Hh) in Hi.
    rewrite (info_index_present _ _ _ _ (c_ip c) Hi) by reflexivity. cbn [mbind result_bind].
    unfold with_ip. destruct (decide (c_ip c = ip)) as [E|E].
    + rewrite filter_cons_True by done.
      rewrite (info_index_present _ _ _ _ (c_name c) Hi) by reflexivity. done.
    + rewrite filter_cons_False by done. cbn [mbind result_bind].
      rewrite Hc, length_app in Hlen. simpl in Hlen.
      rewrite u32_small by lia.
      replace (Z.of_nat (length pre) + 1) with (Z.of_nat (length (pre ++ [c])))
        by (rewrite length_app; simpl; lia).
      apply IH; [done|by rewrite Hc, <- app_assoc|rewrite Hc, length_app; simpl; lia|lia].
Qed.

Lemma StrToUint_digits s : fst (StrToUint s) = forallb is_digit s.
Proof. unfold StrToUint. by rewrite StrToUint_loop_spec. Qed.

(** The getters by index. *)
Lemma camera_getters st cams phones i c s p :
  holds st cams phones -> cams !! i = Some c ->
  GetCameraIp (Z.of_nat i) s st = Ok (negb (length (c_ip c) =? 0)%nat, c_ip c, st) /\
  GetCameraPort (Z.of_nat i) p st = Ok (StrToUint (c_port c), st) /\
  GetCameraUserName (Z.of_nat i) s st = Ok (true, c_username c, st) /\
  GetCameraPasswd (Z.of_nat i) s st = Ok (true, c_password c, st).
Proof.
  intros Hh Hc. pose proof (holds_lookup _ _ _ _ _ Hh Hc) as Hi.
  assert ((GetCameraNum st <=? Z.of_nat i) = false) as Hlt.
  { rewrite (holds_num _ _ _ Hh). apply lookup_lt_Some in Hc. apply Z.leb_gt. lia. }
  unfold GetCameraIp, GetCameraPort, GetCameraUserName, GetCameraPasswd. rewrite Hlt.
  rewrite (info_index_present _ _ _ _ (c_ip c) Hi) by reflexivity.
  rewrite (info_index_present _ _ _ _ (c_port c) Hi) by reflexivity.
  rewrite (info_index_present _ _ _ _ (c_username c) Hi) by reflexivity.
  rewrite (info_index_present _ _ _ _ (c_password c) Hi) by reflexivity.
  cbn [mbind result_bind]. split; [by destruct (c_ip c)|]. split; [|done].
  by destruct (StrToUint (c_port c)).
Qed.

(** The two getters by ip. *)
Lemma GetCameraName_holds st cams phones ip s :
  holds st cams phones -> Z.of_nat (length cams) < 2 ^ 32 ->
  GetCameraName ip s st =
    Ok (match with_ip ip cams with c :: _ => (true, c_name c) | [] => (false, s) end, st).
Proof.
  intros Hh Hlen. unfold GetCameraName. apply (name_loop ip s st cams phones cams []); [done..|].
  destruct Hh as [-> _]. rewrite length_fmap. lia.
Qed.

Lemma GetCameraWarnPhone_holds st cams phones ip v :
  holds st cams phones ->
  GetCameraWarnPhone ip v st =
    (match phones ip with Some p => (true, p) | None => (false, v) end, st).
Proof.
  intros Hh. unfold GetCameraWarnPhone, count. destruct Hh as [_ <-].
  destruct (find ip (IpWarnToPhoneFromDB st)) as [p|] eqn:E; [|done].
  change (1 =? 0) with false. cbn iota. rewrite (index_present _ _ _ _ E).
  by destruct st.
Qed.

(** ** A whole load *)

Section WholeLoad.
Context {W : Type} `{!MySqlApi W} `{!MySqlLaws W}.

(** The two queries succeed and leave the result set [cols], [rows]. *)
Definition query_gives (conn : MYSQL) (table : bytes) (w : W) (res : MYSQL_RES) (w' : W)
    (cols : list bytes) (rows : list row) : Prop :=
  exists w1 w2,
    mysql_real_query conn (s2b "set names utf8" ++ [NUL]) w = (0, w1) /\
    mysql_real_query conn (s2b "select * from " ++ cstr table) w1 = (0, w2) /\
    mysql_store_result conn w2 = (Some res, w') /\
    cursor_of res w' = {| columns := cols; field_pos := 0; rows_left := rows |} /\
    Forall (fun r => length r = length cols) rows.

Lemma load_table conn table w res w' cols rows st f old fuel :
  query_gives conn table w res w' cols rows -> all_columns cols ->
  (length (cstr table) <= 49)%nat ->
  CameraInfoName st = name_table f -> CameraInfoFromDB st = entry_of <$> old ->
  (length cols < fuel)%nat -> (length rows < fuel)%nat ->
  exists w'' st', GetCameraInfoFromDB fuel (Some conn) (Some table) w st = Ok (true, w'', st') /\
    let new := omap (row_camera cols) rows in
    holds st' (old ++ new) (fun ip =>
      match phones_of ((wipe <$> old) ++ new) ip with
      | Some p => Some p
      | None => find ip (IpWarnToPhoneFromDB st)
      end).
Proof.
  intros (w1 & w2 & Hq1 & Hq2 & Hs & Hcur & Hlen) Hcols Ht Hf Hold Hfc Hfr.
  unfold GetCameraInfoFromDB. rewrite QueryCmd_fits by done. cbn [mbind result_bind].
  rewrite Hq1. change (nz 0) with false. cbn iota beta. rewrite Hq2, Hs.
  change (nz 0) with false. cbn iota beta. rewrite Hf.
  destruct (field_loop res cols w' f fuel 0) as (w3 & g & -> & Hrows & Hg);
    [by rewrite Hcur|by rewrite Hcur|by destruct Hcols| |done|].
  { destruct Hcols as (_ & _ & ?). unfold MISSING in *. simpl. lia. }
  cbn [mbind result_bind].
  destruct (row_loop res cols g rows w3 (set_names (name_table g) st) fuel) as (w4 & ->);
    [by rewrite Hrows, Hcur|done..|eauto|done|done|].
  cbn [mbind result_bind negb CameraInfoFromDB set_infos IpWarnToPhoneFromDB set_names].
  rewrite Hold, extract_phones_spec. eexists _, _. split; [done|]. split; [done|].
  intros ip. cbn. apply find_add_phones.
Qed.
End WholeLoad.

(** ** Properties *)

(** [StrToUint] answers whether the text is all digits (the empty text is),
    and leaves in [uint] the value of the digits read so far, modulo 2^32. *)
Theorem StrToUint_spec s :
  StrToUint s = (forallb is_digit s, u32 (dec_value (digit_prefix s))).
Proof.
  unfold StrToUint. rewrite StrToUint_loop_spec. f_equal. by destruct (digit_prefix s).
Qed.

(** Printing a 32-bit number with [%u] and reading it back with [StrToUint]
    gives the number. *)
Theorem StrToUint_fmt_u n : in_u32 n -> StrToUint (fmt_u n) = (true, n).
Proof.
  intros Hn. assert (forallb is_digit (fmt_u n) = true) as Hd.
  { apply forallb_forall. apply List.Forall_forall. apply digits10_is_digit.
    unfold in_u32 in Hn. lia. }
  unfold StrToUint. rewrite StrToUint_loop_spec, Hd, digit_prefix_all by done. f_equal.
  unfold in_u32 in Hn. transitivity (u32 (dec_value (fmt_u n))); [by destruct (fmt_u n)|].
  rewrite fmt_u_value by lia. apply u32_small. lia.
Qed.

Lemma StrToUint_fmt_u_witness :
  in_u32 3306 /\ StrToUint (fmt_u 3306) = (true, 3306).
Proof. split; [vm_compute; split; congruence | apply (StrToUint_fmt_u 3306); vm_compute; split; congruence]. Defined.

(** [ExtractPhoneNumber] appends to its output the pieces of the text
    between commas: comma-free texts whose join is the text, and a list of
    comma-free texts is what it gets back from their join. *)
Theorem ExtractPhoneNumber_split s acc :
  (exists l, ExtractPhoneNumber s acc = acc ++ l /\ join l = s /\ l <> [] /\
     Forall (fun p => 44 ∉ (schar <$> p)) l) /\
  forall l, l <> [] -> Forall (fun p => 44 ∉ (schar <$> p)) l ->
    ExtractPhoneNumber (join l) acc = acc ++ l.
Proof.
  split; [|intros l Hne Hl; by apply ExtractPhoneNumber_loop_of_join].
  apply ExtractPhoneNumber_loop_join. apply not_elem_of_nil.
Qed.

Lemma ExtractPhoneNumber_split_witness :
  ExtractPhoneNumber (join [s2b "13800000000"; s2b "13900000000"]) [] =
    [s2b "13800000000"; s2b "13900000000"].
Proof.
  apply (proj2 (ExtractPhoneNumber_split [] [])); [done|].
  repeat constructor; by apply (bool_decide_unpack _).
Defined.

Section Theorems.
Context {W : Type} `{!MySqlApi W} `{!MySqlLaws W}.

(** C8: loading a table that has the six columns succeeds, and the state holds
    the cameras loaded before followed by those of the complete rows, in row
    order; a camera's warning phones are those of the last row with its ip, and
    the phones of cameras of an earlier load are lost. *)
Theorem load_builds_directory conn table w res w' cols rows st f old fuel :
  query_gives conn table w res w' cols rows -> all_columns cols ->
  (length (cstr table) <= 49)%nat ->
  CameraInfoName st = name_table f -> CameraInfoFromDB st = entry_of <$> old ->
  (length cols < fuel)%nat -> (length rows < fuel)%nat ->
  exists w'' st', GetCameraInfoFromDB fuel (Some conn) (Some table) w st = Ok (true, w'', st') /\
    let new := omap (row_camera cols) rows in
    holds st' (old ++ new) (fun ip =>
      match phones_of ((wipe <$> old) ++ new) ip with
      | Some p => Some p
      | None => find ip (IpWarnToPhoneFromDB st)
      end).
Proof. apply load_table. Qed.

(** When a column is missing no camera is added, and the load reports it
    only if there is a row: an empty table loads successfully. *)
Theorem load_missing_column conn table w res w' cols rows st old fuel k :
  query_gives conn table w res w' cols rows -> NoDup (cstr <$> cols) ->
  k ∈ keys -> k ∉ (cstr <$> cols) -> Z.of_nat (length cols) < MISSING ->
  (length (cstr table) <= 49)%nat ->
  CameraInfoName st = name_table (fun _ => MISSING) -> CameraInfoFromDB st = entry_of <$> old ->
  (length cols < fuel)%nat -> (length rows < fuel)%nat ->
  exists ok w'' st', GetCameraInfoFromDB fuel (Some conn) (Some table) w st = Ok (ok, w'', st') /\
    CameraInfoFromDB st' = entry_of <$> old /\ (rows = [] -> ok = true).
Proof.
  intros (w1 & w2 & Hq1 & Hq2 & Hs & Hcur & Hlen) Hnd Hk Hmiss Hmax Ht Hf Hold Hfc Hfr.
  unfold GetCameraInfoFromDB. rewrite QueryCmd_fits by done. cbn [mbind result_bind].
  rewrite Hq1. change (nz 0) with false. cbn iota beta. rewrite Hq2, Hs.
  change (nz 0) with false. cbn iota beta. rewrite Hf.
  destruct (field_loop res cols w' (fun _ => MISSING) fuel 0) as (w3 & g & -> & Hrows & Hg);
    [by rewrite Hcur|by rewrite Hcur|done|unfold MISSING in *; lia|done|].
  cbn [mbind result_bind].
  destruct (row_loop_missing res (name_table g) (length cols) rows w3 (set_names (name_table g) st) fuel)
    as (ok & w4 & -> & Hok); [by rewrite Hrows, Hcur|done| | |done|done|].
  { apply Forall_fmap, list.Forall_forall. intros k' Hk'. simpl. rewrite (Hg k' Hk').
    unfold index_after. destruct (decide (k' ∈ (cstr <$> cols))) as [Hin|Hin].
    - destruct (col_Some _ _ Hin) as (i & -> & ?). right. lia.
    - rewrite col_None by done. by left. }
  { apply Exists_fmap, list.Exists_exists. exists k. split; [done|]. simpl.
    rewrite (Hg k Hk). unfold index_after. by rewrite col_None. }
  cbn [mbind result_bind]. destruct ok; cbn [negb].
  - cbn [CameraInfoFromDB set_infos IpWarnToPhoneFromDB set_names]. rewrite Hold.
    pose proof (extract_phones_spec old [] (IpWarnToPhoneFromDB st)) as E.
    rewrite !app_nil_r in E. rewrite E. eauto 10.
  - exists false, w4. eexists. split; [done|]. split; [done|]. intros ->. by specialize (Hok eq_refl).
Qed.

(** A table name of 50 characters or more overflows [QueryCmd]. *)
Theorem load_long_table_name conn table fuel (w : W) st :
  (50 <= length (cstr table))%nat ->
  GetCameraInfoFromDB fuel (Some conn) (Some table) w st = Undefined OutOfBounds.
Proof. intros H. unfold GetCameraInfoFromDB. by rewrite QueryCmd_overflow. Qed.
End Theorems.

(** C33: on a loaded state the getters read the directory and change nothing:
    by index, the camera's fields (an empty ip or an invalid port is refused);
    by ip, the name of the first camera with it and the phones of the last. *)
Theorem getters_read_directory st cams phones :
  holds st cams phones -> Z.of_nat (length cams) < 2 ^ 32 ->
  GetCameraNum st = Z.of_nat (length cams) /\
  (forall i c s p, cams !! i = Some c ->
    GetCameraIp (Z.of_nat i) s st = Ok (negb (length (c_ip c) =? 0)%nat, c_ip c, st) /\
    GetCameraPort (Z.of_nat i) p st = Ok (StrToUint (c_port c), st) /\
    GetCameraUserName (Z.of_nat i) s st = Ok (true, c_username c, st) /\
    GetCameraPasswd (Z.of_nat i) s st = Ok (true, c_password c, st)) /\
  (forall ip s, GetCameraName ip s st =
    Ok (match with_ip ip cams with c :: _ => (true, c_name c) | [] => (false, s) end, st)) /\
  (forall ip v, GetCameraWarnPhone ip v st =
    (match phones ip with Some p => (true, p) | None => (false, v) end, st)).
Proof.
  intros Hh Hlen. pose proof (holds_num _ _ _ Hh) as Hn. split; [done|]. split; [|split].
  - intros i c s p Hc. by apply camera_getters with cams phones.
  - intros ip s. by apply GetCameraName_holds with phones.
  - intros ip v. by apply GetCameraWarnPhone_holds with cams.
Qed.

(** ** Witnesses *)

Definition sample_columns : list bytes :=
  [s2b "id"; PhonNums; CameraIp; CameraName; CameraPort; Passwd; UserName].

Definition sample_rows : list row :=
  [Some <$> [s2b "1"; s2b "13800000000,13900000000"; s2b "10.0.0.2"; s2b "gate"; s2b "8000";
             s2b "pw"; s2b "admin"];
   [Some (s2b "2"); None; Some (s2b "10.0.0.3"); Some (s2b "yard"); Some (s2b "8000");
    Some (s2b "pw"); Some (s2b "admin")];
   Some <$> [s2b "3"; s2b "13700000000"; s2b "10.0.0.2"; s2b "door"; s2b "8001"; s2b "pw";
             s2b "root"]].

Definition sample_server (cols : list bytes) (rows : list row) : server :=
  {| table_name := s2b "cameras"; table_columns := cols; table_rows := rows; result_set := None |}.

Definition sample_opened (cols : list bytes) (rows : list row) : server :=
  set_result (Some {| columns := cols; field_pos := 0; rows_left := rows |}) (sample_server cols rows).

(** A camera of an earlier load. *)
Definition sample_old : camera :=
  {| c_ip := s2b "10.0.0.9"; c_port := s2b "8000"; c_name := s2b "hall"; c_username := s2b "admin";
     c_password := s2b "pw"; c_phonenums := s2b "13600000000" |}.

Definition sample_state : database :=
  {| CameraInfoName := name_table (fun _ => MISSING); CameraInfoFromDB := [entry_of sample_old];
     IpWarnToPhoneFromDB := [(c_ip sample_old, c_phones sample_old)] |}.

Lemma load_builds_directory_witness :
  exists w'' st',
    @GetCameraInfoFromDB server TestServer 10 (Some tt) (Some (s2b "cameras"))
      (sample_server sample_columns sample_rows) sample_state = Ok (true, w'', st') /\
    GetCameraNum st' = 3 /\
    find (s2b "10.0.0.2") (IpWarnToPhoneFromDB st') = Some [s2b "13700000000"] /\
    find (s2b "10.0.0.9") (IpWarnToPhoneFromDB st') = Some [[]].
Proof.
  destruct (@load_builds_directory server TestServer _ tt (s2b "cameras")
    (sample_server sample_columns sample_rows) tt (sample_opened sample_columns sample_rows)
    sample_columns sample_rows sample_state (fun _ => MISSING) [sample_old] 10)
    as (w'' & st' & E & Hh).
  - exists (sample_server sample_columns sample_rows), (sample_opened sample_columns sample_rows).
    split; [reflexivity|]. split; [vm_compute; reflexivity|]. split; [reflexivity|].
    split; [reflexivity|]. repeat constructor.
  - split; [by apply (bool_decide_unpack _)|]. split; [|vm_compute; reflexivity].
    repeat constructor; by apply (bool_decide_unpack _).
  - vm_compute. lia.
  - reflexivity.
  - reflexivity.
  - vm_compute. lia.
  - vm_compute. lia.
  - exists w'', st'. split; [exact E|]. split; [rewrite (holds_num _ _ _ Hh); vm_compute; reflexivity|].
    destruct Hh as [_ Hp]. split; (rewrite Hp; vm_compute; reflexivity).
Defined.

Lemma load_missing_column_witness :
  exists w'' st',
    @GetCameraInfoFromDB server TestServer 10 (Some tt) (Some (s2b "cameras"))
      (sample_server [CameraIp; CameraName] []) sample_state = Ok (true, w'', st') /\
    GetCameraNum st' = 1.
Proof.
  destruct (@load_missing_column server TestServer _ tt (s2b "cameras")
    (sample_server [CameraIp; CameraName] []) tt (sample_opened [CameraIp; CameraName] [])
    [CameraIp; CameraName] [] sample_state [sample_old] 10 PhonNums)
    as (ok & w'' & st' & E & Hi & Hok).
  - exists (sample_server [CameraIp; CameraName] []), (sample_opened [CameraIp; CameraName] []).
    split; [reflexivity|]. split; [vm_compute; reflexivity|]. split; [reflexivity|].
    split; [reflexivity|]. constructor.
  - by apply (bool_decide_unpack _).
  - by apply (bool_decide_unpack _).
  - by apply (bool_decide_unpack _).
  - vm_compute. reflexivity.
  - vm_compute. lia.
  - reflexivity.
  - reflexivity.
  - simpl. lia.
  - simpl. lia.
  - specialize (Hok eq_refl) as ->. exists w'', st'. split; [exact E|].
    unfold GetCameraNum. rewrite Hi. reflexivity.
Defined.

Lemma load_long_table_name_witness :
  @GetCameraInfoFromDB server TestServer 10 (Some tt)
    (Some (s2b "motion_detection_cameras_of_the_northern_building_2"))
    (sample_server sample_columns sample_rows) sample_state = Undefined OutOfBounds.
Proof. apply (@load_long_table_name server TestServer tt). vm_compute. lia. Defined.

Lemma getters_read_directory_witness :
  GetCameraName (s2b "10.0.0.9") [] sample_state = Ok (true, s2b "hall", sample_state) /\
  GetCameraWarnPhone (s2b "10.0.0.1") [] sample_state = (false, [], sample_state).
Proof.
  destruct (getters_read_directory sample_state [sample_old]
    (fun ip => if decide (ip = c_ip sample_old) then Some (c_phones sample_old) else None))
    as (_ & _ & Hname & Hphone).
  - split; [reflexivity|]. intros ip. change (find ip [(c_ip sample_old, c_phones sample_old)] =
      if decide (ip = c_ip sample_old) then Some (c_phones sample_old) else None). reflexivity.
  - vm_compute. reflexivity.
  - split; [apply (Hname (s2b "10.0.0.9") [])|apply (Hphone (s2b "10.0.0.1") [])].
Defined.
