(* ===== verification/DataTyped.v ===== *)
(** * The types of the camera tables

    What the static tables of [DataBaseOperate] (src/src/DataBase.cpp, modelled in
    DataBase.v) hold at any time, whatever the server answers and in whatever
    order the operations are called: sorted maps over the six column names, C
    strings as values, and lists of phone numbers without commas.  The relation
    [db_step] is one call of any operation. *)
From stdpp Require Import relations.
From S2P Require Import Prelude CLib StdMap MySql DataBase.

(** ** Definitions *)

Definition c_text (s : bytes) : Prop := Forall (fun c => uchar c <> 0) s.

(** A map in key order whose entries have the type [P]. *)
Definition typed_map {V} (P : bytes -> V -> Prop) (m : smap V) : Prop :=
  wf m /\ Forall (fun e => P (fst e) (snd e)) m.

Definition name_typed (k : bytes) (idx : Z) : Prop := k ∈ keys /\ in_u32 idx.
Definition info_typed (k v : bytes) : Prop := k ∈ keys /\ c_text v.
Definition phone_typed (p : bytes) : Prop := (44 ∉ (schar <$> p)) /\ c_text p.
Definition warn_typed (ip : bytes) (phones : list bytes) : Prop :=
  c_text ip /\ phones <> [] /\ Forall phone_typed phones.

Record db_typed (st : database) : Prop := {
  names_typed : typed_map name_typed (CameraInfoName st);
  infos_typed : Forall (typed_map info_typed) (CameraInfoFromDB st);
  phones_typed : typed_map warn_typed (IpWarnToPhoneFromDB st)
}.

(** A call of one of the operations that returns. *)
Inductive db_step {W} `{!MySqlApi W} : W * database -> W * database -> Prop :=
  | step_connect fuel ip port user pass db table w st ok w' st' :
      ConnectDataBase fuel ip port user pass db table w st = Ok (ok, w', st') -> db_step (w, st) (w', st')
  | step_load fuel conn table w st ok w' st' :
      GetCameraInfoFromDB fuel conn table w st = Ok (ok, w', st') -> db_step (w, st) (w', st')
  | step_ip idx v w st ok v' st' : GetCameraIp idx v st = Ok (ok, v', st') -> db_step (w, st) (w, st')
  | step_port idx p w st ok p' st' : GetCameraPort idx p st = Ok (ok, p', st') -> db_step (w, st) (w, st')
  | step_user idx v w st ok v' st' : GetCameraUserName idx v st = Ok (ok, v', st') -> db_step (w, st) (w, st')
  | step_passwd idx v w st ok v' st' : GetCameraPasswd idx v st = Ok (ok, v', st') -> db_step (w, st) (w, st')
  | step_name ip v w st ok v' st' : GetCameraName ip v st = Ok (ok, v', st') -> db_step (w, st) (w, st')
  | step_phone ip v w st ok v' st' : GetCameraWarnPhone ip v st = (ok, v', st') -> db_step (w, st) (w, st').

(** ** Lemmas *)

(** *** Typed maps *)

Section TypedMap.
Context {V : Type} (P : bytes -> V -> Prop).

Lemma typed_nil : typed_map P [].
Proof. split; constructor. Qed.

Lemma typed_assign k v m : P k v -> typed_map P m -> typed_map P (assign k v m).
Proof.
  intros Hk [Hw Hf]. split; [by apply wf_assign|]. clear Hw.
  induction Hf as [|[k' v'] m Hv Hf IH]; cbn [assign]; [by repeat constructor|].
  case_decide; [by constructor|]. destruct (str_lt k k'); by repeat constructor.
Qed.

Lemma typed_erase k m : typed_map P m -> typed_map P (erase k m).
Proof.
  intros [Hw Hf]. split; [by apply wf_erase|]. clear Hw.
  induction Hf as [|[k' v'] m Hv Hf IH]; cbn [erase]; [done|]. case_decide; [done|by constructor].
Qed.

Lemma typed_find k v m : typed_map P m -> find k m = Some v -> P k v.
Proof.
  intros [_ Hf]. induction Hf as [|[k' v'] m Hv Hf IH]; cbn [find]; [done|].
  case_decide; [subst k'; by intros [= ->]|done].
Qed.

Lemma typed_index k d m v m' : P k d -> typed_map P m -> index k d m = (v, m') -> P k v /\ typed_map P m'.
Proof.
  intros Hk Hm. unfold index. destruct (find k m) as [x|] eqn:E; intros [= <- <-].
  - split; [by eapply typed_find|done].
  - split; [done|by apply typed_assign].
Qed.

Lemma typed_count k m : typed_map P m -> (0 <? count k m) = true -> exists v, P k v.
Proof.
  unfold count. destruct (find k m) as [v|] eqn:E; [|done]. intros Hm _. exists v. by eapply typed_find.
Qed.
End TypedMap.

Lemma c_text_cstr s : c_text (cstr s).
Proof. apply cstr_Forall. Qed.

Lemma c_text_nil : c_text [].
Proof. constructor. Qed.

Lemma key_in k : In k keys -> k ∈ keys.
Proof. apply list_elem_of_In. Qed.

#[local] Hint Resolve typed_nil typed_assign typed_erase c_text_cstr c_text_nil : core.
#[local] Hint Extern 1 (_ ∈ keys) => (apply key_in; cbn; tauto) : core.

(** *** Operations *)

Lemma init_typed : db_typed DataBaseOperate_init.
Proof. split; [apply typed_nil|constructor|apply typed_nil]. Qed.

Lemma info_index_typed idx k st v st' :
  k ∈ keys -> db_typed st -> info_index idx k st = Ok (v, st') -> db_typed st' /\ c_text v.
Proof.
  intros Hk [Hn Hi Hw]. unfold info_index. intros (info & Hr & H)%bind_Ok.
  assert (typed_map info_typed info) as Hinfo.
  { unfold read in Hr. destruct (idx <? 0); [done|].
    destruct (CameraInfoFromDB st !! Z.to_nat idx) as [x|] eqn:E; [|done]. injection Hr as <-.
    by eapply Forall_lookup_1 in E. }
  destruct (index k [] info) as [x info'] eqn:E. apply (typed_index info_typed) in E as [[_ Hv] Hinfo']; [|done|done].
  apply bind_Ok in H as (l & Hl & H). injection H as <- <-. split; [|done]. split; cbn; try done.
  unfold write in Hl. destruct (_ || _); [done|]. injection Hl as <-. by apply Forall_insert.
Qed.

Lemma GetCameraIp_typed idx v st ok v' st' :
  db_typed st -> GetCameraIp idx v st = Ok (ok, v', st') -> db_typed st'.
Proof.
  intros Ht. unfold GetCameraIp. destruct (_ <=? _); [by intros [= _ _ <-]|].
  intros ([x st1] & E & H)%bind_Ok. apply info_index_typed in E as [? _]; [|auto|done].
  case_match; by injection H as _ _ <-.
Qed.

Lemma GetCameraPort_typed idx p st ok p' st' :
  db_typed st -> GetCameraPort idx p st = Ok (ok, p', st') -> db_typed st'.
Proof.
  intros Ht. unfold GetCameraPort. destruct (_ <=? _); [by intros [= _ _ <-]|].
  intros ([x st1] & E & H)%bind_Ok. apply info_index_typed in E as [? _]; [|auto|done].
  destruct (StrToUint x). by injection H as _ _ <-.
Qed.

Lemma GetCameraUserName_typed idx v st ok v' st' :
  db_typed st -> GetCameraUserName idx v st = Ok (ok, v', st') -> db_typed st'.
Proof.
  intros Ht. unfold GetCameraUserName. destruct (_ <=? _); [by intros [= _ _ <-]|].
  intros ([x st1] & E & H)%bind_Ok. apply info_index_typed in E as [? _]; [|auto|done]. by injection H as _ _ <-.
Qed.

Lemma GetCameraPasswd_typed idx v st ok v' st' :
  db_typed st -> GetCameraPasswd idx v st = Ok (ok, v', st') -> db_typed st'.
Proof.
  intros Ht. unfold GetCameraPasswd. destruct (_ <=? _); [by intros [= _ _ <-]|].
  intros ([x st1] & E & H)%bind_Ok. apply info_index_typed in E as [? _]; [|auto|done]. by injection H as _ _ <-.
Qed.

Lemma GetCameraName_typed ip v st ok v' st' :
  db_typed st -> GetCameraName ip v st = Ok (ok, v', st') -> db_typed st'.
Proof.
  intros Ht. unfold GetCameraName. intros E.
  apply (loopM_inv (fun s : Z * database => db_typed (snd s)) (fun r : bool * bytes * database => db_typed (snd r)))
    in E; [done| | |done].
  - intros [i s] s' Hs. cbn [name_step]. destruct (i <? _); [|done]. intros ([x s1] & E1 & H1)%bind_Ok.
    apply info_index_typed in E1 as [? _]; [|auto|done]. case_decide; [|by injection H1 as <-].
    by apply bind_Ok in H1 as ([? ?] & _ & ?).
  - intros [i s] r Hs. cbn [name_step]. destruct (i <? _); [|by intros [= <-]]. intros ([x s1] & E1 & H1)%bind_Ok.
    apply info_index_typed in E1 as [? _]; [|auto|done]. case_decide; [|done].
    apply bind_Ok in H1 as ([n s2] & E2 & H3). apply info_index_typed in E2 as [? _]; [|auto|done].
    by injection H3 as <-.
Qed.

Lemma GetCameraWarnPhone_typed ip v st ok v' st' :
  db_typed st -> GetCameraWarnPhone ip v st = (ok, v', st') -> db_typed st'.
Proof.
  intros Ht. unfold GetCameraWarnPhone, count, index.
  destruct (find ip (IpWarnToPhoneFromDB st)) as [x|] eqn:E; [|by intros [= _ _ <-]].
  intros [= _ _ <-]. destruct Ht. by split.
Qed.

(** *** Loading *)

Lemma row_info_typed Row names : forall info r,
  Forall (fun e => name_typed (fst e) (snd e)) names -> typed_map info_typed info ->
  row_info Row names info = Ok (RowRead r) -> typed_map info_typed r.
Proof.
  induction names as [|[k idx] names IH]; intros info r Hn Hi; cbn [row_info]; [by intros [= <-]|].
  apply Forall_cons_iff in Hn as [[Hk _] Hn]. destruct (idx =? MISSING); [done|].
  intros ([v|] & _ & H)%bind_Ok; [|done]. eapply IH; [done| |done]. apply typed_assign; [|done]. by split.
Qed.

Lemma ExtractPhoneNumber_typed s :
  c_text s -> ExtractPhoneNumber s [] <> [] /\ Forall phone_typed (ExtractPhoneNumber s []).
Proof.
  intros Hs. destruct (ExtractPhoneNumber_loop_join s [] []) as (l & El & Hj & Hne & Hc); [by apply not_elem_of_nil|].
  unfold ExtractPhoneNumber. rewrite El. cbn [app] in *. split; [done|]. rewrite <- Hj in Hs. clear -Hs Hc.
  induction Hc as [|p l Hp Hc IH]; [constructor|]. destruct l as [|q l].
  - repeat constructor; done.
  - change (join (p :: q :: l)) with (p ++ s2b "," ++ join (q :: l)) in Hs. unfold c_text in Hs.
    apply Forall_app in Hs as [Hs1 Hs]. apply Forall_app in Hs as [_ Hs]. constructor; [done|by apply IH].
Qed.

Lemma extract_phones_typed infos : forall warn,
  Forall (typed_map info_typed) infos -> typed_map warn_typed warn ->
  Forall (typed_map info_typed) (fst (extract_phones infos warn)) /\
  typed_map warn_typed (snd (extract_phones infos warn)).
Proof.
  induction infos as [|info infos IH]; intros warn Hi Hw; [done|]. apply Forall_cons_iff in Hi as [Hinfo Hi].
  cbn [extract_phones]. destruct (index PhonNums [] info) as [ph info1] eqn:E1.
  apply (typed_index info_typed) in E1 as [[_ Hph] H1]; [|by split; auto|done].
  destruct (index CameraIp [] info1) as [ip info2] eqn:E2.
  apply (typed_index info_typed) in E2 as [[_ Hip] H2]; [|by split; auto|done].
  destruct (IH (assign ip (ExtractPhoneNumber ph []) warn) Hi) as [IH1 IH2].
  { apply typed_assign; [|done]. split; [done|]. by apply ExtractPhoneNumber_typed. }
  destruct (extract_phones infos _) as [rest warn']. cbn in *. split; [|done]. constructor; [|done].
  by apply typed_erase.
Qed.

Section Load.
Context {W : Type} `{!MySqlApi W}.

Lemma load_names_typed fuel tables (w w' : W) names names' :
  typed_map name_typed names -> loopM fuel (field_step tables) (w, names) = Ok (w', names') ->
  typed_map name_typed names'.
Proof.
  intros Hn E. change (typed_map name_typed (snd (w', names'))). revert E.
  apply (loopM_inv (fun s : W * smap Z => typed_map name_typed (snd s))
    (fun s : W * smap Z => typed_map name_typed (snd s))); [| |done].
  - intros [w1 m] s' Hm. cbn [field_step]. destruct (mysql_fetch_field tables w1) as [[key|] w2]; [|done].
    destruct (0 <? count (cstr key) m) eqn:Ec; intros [= <-]; [|done]. cbn in *.
    destruct (typed_count _ _ _ Hm Ec) as [v [Hk _]]. apply typed_assign; [|done]. split; [done|apply u32_range].
  - intros [w1 m] r Hm. cbn [field_step]. destruct (mysql_fetch_field tables w1) as [[key|] w2].
    + by destruct (0 <? count (cstr key) m).
    + by intros [= <-].
Qed.

Lemma load_rows_typed fuel tables (w w' : W) st ok st' :
  db_typed st -> loopM fuel (row_step tables) (w, st) = Ok (ok, w', st') -> db_typed st'.
Proof.
  intros Ht E. change (db_typed (snd (ok, w', st'))). revert E.
  apply (loopM_inv (fun s : W * database => db_typed (snd s))
    (fun r : bool * W * database => db_typed (snd r))); [| |done].
  - intros [w1 s] s' Hs. cbn [row_step]. destruct (mysql_fetch_row tables w1) as [[Row|] w2]; [|done].
    intros ([| |info] & Hr & H)%bind_Ok; [done|by injection H as <-|]. injection H as <-. cbn in *.
    destruct Hs as [[Hw Hn] Hi Hp]. split; cbn; [by split| |done]. apply Forall_app. split; [done|].
    constructor; [|constructor]. by eapply row_info_typed; [|apply typed_nil|].
  - intros [w1 s] r Hs. cbn [row_step]. destruct (mysql_fetch_row tables w1) as [[Row|] w2]; [|by intros [= <-]].
    intros ([| |info] & Hr & H)%bind_Ok; [by injection H as <-|done..].
Qed.

Lemma GetCameraInfoFromDB_typed fuel conn table (w w' : W) st ok st' :
  db_typed st -> GetCameraInfoFromDB fuel conn table w st = Ok (ok, w', st') -> db_typed st'.
Proof.
  intros Ht. unfold GetCameraInfoFromDB.
  destruct conn as [conn|], table as [table|]; [|by intros [= _ _ <-]..].
  intros (q & _ & H)%bind_Ok.
  destruct (mysql_real_query conn _ w) as [r1 w1]. destruct (nz r1); [by injection H as _ _ <-|].
  destruct (mysql_real_query conn q w1) as [r2 w2]. destruct (nz r2); [by injection H as _ _ <-|].
  destruct (mysql_store_result conn w2) as [[tables|] w3]; [|by injection H as _ _ <-].
  apply bind_Ok in H as ([w4 names] & Hf & H). apply load_names_typed in Hf; [|by destruct Ht].
  apply bind_Ok in H as ([[ok5 w5] st5] & Hr & H).
  apply load_rows_typed in Hr; [|destruct Ht; by split].
  destruct (negb ok5); [by injection H as _ _ <-|].
  destruct Hr as [Hn Hi Hp]. destruct (extract_phones_typed _ _ Hi Hp) as [Hi' Hp'].
  destruct (extract_phones _ _) as [infos warn]. injection H as _ _ <-. by split.
Qed.

Lemma missing_names_typed m : typed_map name_typed m -> typed_map name_typed (missing_names m).
Proof.
  intros Hm. unfold missing_names. repeat (apply typed_assign; [split; [auto|split; vm_compute; congruence]|]). done.
Qed.

Lemma ConnectDataBase_typed fuel ip port user pass db table (w w' : W) st ok st' :
  db_typed st -> ConnectDataBase fuel ip port user pass db table w st = Ok (ok, w', st') -> db_typed st'.
Proof.
  intros Ht. unfold ConnectDataBase.
  destruct ip as [ip|], user as [user|], pass as [pass|], db as [db|], table as [table|];
    try by intros [= _ _ <-].
  set (st0 := set_names _ st). assert (db_typed st0) as Ht0.
  { destruct Ht. split; cbn; [by apply missing_names_typed|done..]. }
  destruct (mysql_init w) as [[mysql|] w1]; [|by intros [= _ _ <-]].
  destruct (mysql_options_connect_timeout mysql 7 w1) as [r w2]. destruct (nz r); [by intros [= _ _ <-]|].
  destruct (mysql_real_connect _ _ _ _ _ _ w2) as [[conn|] w3]; [|by intros [= _ _ <-]].
  by apply GetCameraInfoFromDB_typed.
Qed.
End Load.

Lemma db_step_typed {W} `{!MySqlApi W} (s s' : W * database) : db_step s s' -> db_typed (snd s) -> db_typed (snd s').
Proof.
  destruct 1; cbn [snd]; intros Ht;
    eauto using ConnectDataBase_typed, GetCameraInfoFromDB_typed, GetCameraIp_typed, GetCameraPort_typed,
      GetCameraUserName_typed, GetCameraPasswd_typed, GetCameraName_typed, GetCameraWarnPhone_typed.
Qed.

(** ** Properties *)

(** C9: the tables keep their types.  From the empty tables of the program's
    start, after any sequence of loads and getters, successful or not, against
    any server: the maps are in key order, [CameraInfoName] and the entries of
    [CameraInfoFromDB] have no key but the six column names, indices are 32-bit,
    texts hold no NUL, and every address in [IpWarnToPhoneFromDB] has at least
    one number and none with a comma. *)
Theorem database_typed {W} `{!MySqlApi W} (w w' : W) st :
  rtc db_step (w, DataBaseOperate_init) (w', st) -> db_typed st.
Proof.
  intros H. change (db_typed (snd (w', st))).
  assert (db_typed (snd (w, DataBaseOperate_init))) as H0 by apply init_typed. revert H0.
  induction H as [|s1 s2 s3 H1 _ IH]; [done|]. intros H0. by eapply IH, db_step_typed.
Qed.

(** A connection that loads the sample table, and a look-up. *)
Lemma database_typed_witness :
  exists w' st, @rtc (server * database) db_step (sample_server sample_columns sample_rows, DataBaseOperate_init) (w', st) /\
    length (CameraInfoFromDB st) = 2%nat /\ db_typed st.
Proof.
  assert (exists w' st, @ConnectDataBase server _ 10 (Some (s2b "127.0.0.1")) 3306 (Some (s2b "root")) (Some [])
    (Some (s2b "alarm")) (Some (s2b "cameras")) (sample_server sample_columns sample_rows) DataBaseOperate_init =
    Ok (true, w', st) /\ length (CameraInfoFromDB st) = 2%nat /\
    GetCameraName (s2b "10.0.0.2") [] st = Ok (true, s2b "gate", st)) as (w' & st & Hc & Hl & Hn)
    by (eexists _, _; split; [vm_compute; reflexivity|split; vm_compute; reflexivity]).
  exists w', st.
  assert (@rtc (server * database) db_step (sample_server sample_columns sample_rows, DataBaseOperate_init) (w', st)) as Hr.
  { eapply rtc_l; [eapply step_connect; exact Hc|]. eapply rtc_l; [eapply step_name; exact Hn|]. apply rtc_refl. }
  split; [exact Hr|]. split; [exact Hl|]. exact (database_typed _ _ _ Hr).
Defined.
