(* ===== verification/CsvError.v ===== *)
(** * The errors of csv.h

    The exception types of [io::error] (src/src/csv.h): a constructor per type,
    the members its base classes [with_file_name], [with_file_line],
    [with_errno], [with_column_name] and [with_column_content] give it, their
    setters and the message each one formats. *)
From S2P Require Import Prelude CLib.

(** ** Definitions *)

Inductive csv_error_type :=
  | can_not_open_file
  | line_length_limit_exceeded
  | extra_column_in_header
  | missing_column_in_header
  | duplicated_column_in_header
  | header_missing
  | too_few_columns
  | too_many_columns
  | escaped_string_not_closed
  | integer_must_be_positive
  | no_digit
  | integer_overflow
  | integer_underflow
  | invalid_single_character.

#[export] Instance csv_error_type_eq_dec : EqDecision csv_error_type.
Proof. solve_decision. Defined.

(** The base classes of each type. *)
Definition with_file_name (t : csv_error_type) : bool := true.

Definition with_file_line (t : csv_error_type) : bool :=
  match t with
  | line_length_limit_exceeded | too_few_columns | too_many_columns
  | escaped_string_not_closed | integer_must_be_positive | no_digit | integer_overflow
  | integer_underflow | invalid_single_character => true
  | _ => false
  end.

Definition with_errno (t : csv_error_type) : bool :=
  match t with can_not_open_file => true | _ => false end.

Definition with_column_name (t : csv_error_type) : bool :=
  match t with
  | extra_column_in_header | missing_column_in_header | duplicated_column_in_header
  | integer_must_be_positive | no_digit | integer_overflow | integer_underflow
  | invalid_single_character => true
  | _ => false
  end.

Definition with_column_content (t : csv_error_type) : bool :=
  match t with
  | integer_must_be_positive | no_digit | integer_overflow | integer_underflow
  | invalid_single_character => true
  | _ => false
  end.

(** An exception object; a member the type does not have keeps its default.
    The character arrays are given by the C strings they hold. *)
Record csv_error := {
  error_type : csv_error_type;
  file_name : bytes;
  file_line : Z;
  errno_value : Z;
  column_name : bytes;
  column_content : bytes
}.

Definition max_file_name_length : Z := 255.
Definition max_column_name_length : Z := 63.
Definition max_column_content_length : Z := 63.

(** The default constructors. *)
Definition make_error (t : csv_error_type) : csv_error :=
  {| error_type := t; file_name := []; file_line := -1; errno_value := 0;
     column_name := []; column_content := [] |}.

(** [strncpy] into an array whose last character is then set to NUL, from a
    pointer that may be null. *)
Definition copy_name (limit : Z) (s : option bytes) : bytes :=
  match s with
  | Some s => take (Z.to_nat limit) (cstr s)
  | None => []
  end.

Definition set_file_name (s : option bytes) (e : csv_error) : csv_error :=
  {| error_type := error_type e; file_name := copy_name max_file_name_length s;
     file_line := file_line e; errno_value := errno_value e;
     column_name := column_name e; column_content := column_content e |}.

Definition set_file_line (line : Z) (e : csv_error) : csv_error :=
  {| error_type := error_type e; file_name := file_name e;
     file_line := line; errno_value := errno_value e;
     column_name := column_name e; column_content := column_content e |}.

Definition set_errno (n : Z) (e : csv_error) : csv_error :=
  {| error_type := error_type e; file_name := file_name e;
     file_line := file_line e; errno_value := n;
     column_name := column_name e; column_content := column_content e |}.

Definition set_column_name (s : option bytes) (e : csv_error) : csv_error :=
  {| error_type := error_type e; file_name := file_name e;
     file_line := file_line e; errno_value := errno_value e;
     column_name := copy_name max_column_name_length s; column_content := column_content e |}.

Definition set_column_content (s : option bytes) (e : csv_error) : csv_error :=
  {| error_type := error_type e; file_name := file_name e;
     file_line := file_line e; errno_value := errno_value e;
     column_name := column_name e; column_content := copy_name max_column_content_length s |}.

Definition q (s : bytes) : bytes := DQ :: s ++ [DQ].

(** The text each type formats, before it is cut to the message buffer. *)
Definition error_text (strerror : Z -> bytes) (e : csv_error) : bytes :=
  let column_error msg :=
    s2b "The integer " ++ q (column_content e) ++ s2b msg ++ s2b " in column " ++
    q (column_name e) ++ s2b " in file " ++ q (file_name e) ++ s2b " in line " ++
    q (fmt_d (file_line e)) ++ s2b "." in
  match error_type e with
  | can_not_open_file =>
      if nz (errno_value e) then
        s2b "Can not open file " ++ q (file_name e) ++ s2b " because " ++
        q (cstr (strerror (errno_value e))) ++ s2b "."
      else s2b "Can not open file " ++ q (file_name e) ++ s2b "."
  | line_length_limit_exceeded =>
      s2b "Line number " ++ fmt_d (file_line e) ++ s2b " in file " ++ q (file_name e) ++
      s2b " exceeds the maximum length of 2^24-1."
  | extra_column_in_header =>
      s2b "Extra column " ++ q (column_name e) ++ s2b " in header of file " ++ q (file_name e) ++
      s2b "."
  | missing_column_in_header =>
      s2b "Missing column " ++ q (column_name e) ++ s2b " in header of file " ++
      q (file_name e) ++ s2b "."
  | duplicated_column_in_header =>
      s2b "Duplicated column " ++ q (column_name e) ++ s2b " in header of file " ++
      q (file_name e) ++ s2b "."
  | header_missing => s2b "Header missing in file " ++ q (file_name e) ++ s2b "."
  | too_few_columns =>
      s2b "Too few columns in line " ++ fmt_d (file_line e) ++ s2b " in file " ++
      q (file_name e) ++ s2b "."
  | too_many_columns =>
      s2b "Too many columns in line " ++ fmt_d (file_line e) ++ s2b " in file " ++
      q (file_name e) ++ s2b "."
  | escaped_string_not_closed =>
      s2b "Escaped string was not closed in line " ++ fmt_d (file_line e) ++ s2b " in file " ++
      q (file_name e) ++ s2b "."
  | integer_must_be_positive => column_error " must be positive or 0"%string
  | no_digit => column_error " contains an invalid digit"%string
  | integer_overflow => column_error " overflows"%string
  | integer_underflow => column_error " underflows"%string
  | invalid_single_character =>
      s2b "The content " ++ q (column_content e) ++ s2b " of column " ++ q (column_name e) ++
      s2b " in file " ++ q (file_name e) ++ s2b " in line " ++ q (fmt_d (file_line e)) ++
      s2b " is not a single character."
  end.

(** [what()]: [format_error_message] into [error_message_buffer[512]]. *)
Definition what (strerror : Z -> bytes) (e : csv_error) : bytes :=
  fst (snprintf 512 (error_text strerror e)).

(** The members fit their arrays; every error the program raises is built by
    [make_error] and the setters. *)
Definition error_wf (e : csv_error) : Prop :=
  (length (file_name e) <= 255)%nat /\ in_i32 (file_line e) /\
  (length (column_name e) <= 63)%nat /\ (length (column_content e) <= 63)%nat.

(** ** Lemmas *)

Lemma copy_name_length limit s : 0 <= limit -> (length (copy_name limit s) <= Z.to_nat limit)%nat.
Proof. intros ?. destruct s; simpl; [rewrite length_take|]; lia. Qed.

Lemma make_error_wf t : error_wf (make_error t).
Proof. unfold error_wf, in_i32. simpl. lia. Qed.

Lemma set_file_name_wf s e : error_wf e -> error_wf (set_file_name s e).
Proof. intros (?&?&?&?). split; [by apply (copy_name_length 255)|done]. Qed.

Lemma set_file_line_wf n e : in_i32 n -> error_wf e -> error_wf (set_file_line n e).
Proof. intros ? (?&?&?&?). done. Qed.

Lemma set_column_name_wf s e : error_wf e -> error_wf (set_column_name s e).
Proof. intros (?&?&?&?). do 2 (split; [done|]). split; [by apply (copy_name_length 63)|done]. Qed.

Lemma set_column_content_wf s e : error_wf e -> error_wf (set_column_content s e).
Proof. intros (?&?&?&?). do 3 (split; [done|]). by apply (copy_name_length 63). Qed.

#[export] Hint Resolve make_error_wf set_file_name_wf set_file_line_wf set_column_name_wf
  set_column_content_wf : mdalarm.

Lemma fmt_d_length n : in_i32 n -> (length (fmt_d n) <= 11)%nat.
Proof.
  unfold in_i32. intros Hn. pows. unfold fmt_d. case_match; bool2prop.
  - rewrite length_app. pose proof (fmt_u_length (- n)) as Hu. unfold in_u32, fmt_u in Hu.
    pows. simpl. lia.
  - pose proof (fmt_u_length n) as Hu. unfold in_u32, fmt_u in Hu. pows. lia.
Qed.

(** ** Properties *)

(** No message but the one with the system's own error text is ever cut:
    with the members at their largest it fits the buffer of 512. *)
Theorem error_message_fits strerror e :
  error_wf e -> error_type e <> can_not_open_file \/ errno_value e = 0 ->
  what strerror e = error_text strerror e /\ (length (what strerror e) < 512)%nat.
Proof.
  intros (Hf & Hl & Hn & Hc) Ht.
  assert (length (error_text strerror e) <= 511)%nat as Hlen.
  { pose proof (fmt_d_length _ Hl). unfold error_text, q.
    destruct (error_type e); [destruct Ht as [?| ->]; [done|]; change (nz 0) with false; cbn iota|..];
      rewrite ?length_app; cbn [length s2b String.list_ascii_of_string]; rewrite ?length_app;
      cbn [length]; lia. }
  unfold what. rewrite snprintf_fits by lia. simpl. split; [done|lia].
Qed.

Lemma error_message_fits_witness :
  let e := set_file_line 7 (make_error too_few_columns) in
  what (fun _ => []) e = error_text (fun _ => []) e /\ (length (what (fun _ => []) e) < 512)%nat.
Proof.
  apply error_message_fits; [|by left].
  apply set_file_line_wf; [vm_compute; split; congruence | apply make_error_wf].
Defined.
