(* ===== verification/CsvReader.v ===== *)
(** * The line reader of csv.h

    The byte sources behind their interface [ByteSourceBase], the interface of
    the reader thread and [LineReader] (src/src/csv.h): the buffer of three
    blocks, its refill, the search of the line end and the NUL written over it.
    The specification cuts the bytes of the source into lines.  CsvAsync.v
    shows that the two threads implement the reader used here. *)
From S2P Require Import Prelude CLib CsvError.

(** ** Byte sources *)

(** [ByteSourceBase]: [read(buffer, size)] gives the bytes it stores. *)
Class ByteSourceBase (S : Type) := source_read : S -> Z -> bytes * S.

(** The same class, of which a [read] may throw an [X], leaving the source as it
    is then: what [LineReader] and the reader thread are written for. *)
Class ThrowingSource (X S : Type) := try_read : S -> Z -> (bytes * S) + (X * S).

#[export] Instance never_throws {X S} `{!ByteSourceBase S} : ThrowingSource X S :=
  fun s n => inl (source_read s n).

(** The bytes still to come. *)
Class Content (S : Type) := content : S -> bytes.

(** What a caller of [LineReader] relies on: a read is short only at the end. *)
Class SourceLaws (S : Type) `{ByteSourceBase S} := {
  #[global] source_content :: Content S;
  source_read_content s n :
    0 <= n ->
    (source_read s n).1 = take (Z.to_nat n) (content s) /\
    content (source_read s n).2 = drop (Z.to_nat n) (content s)
}.

(** A [FILE] or an [std::istream] opened on the bytes that remain: [fread] and
    [istream::read] with [gcount]. *)
Record OwningStdIOByteSource := { file : bytes }.
#[export] Instance stdio_read : ByteSourceBase OwningStdIOByteSource := fun s n =>
  (take (Z.to_nat n) (file s), {| file := drop (Z.to_nat n) (file s) |}).

Record NonOwningIStreamByteSource := { istream : bytes }.
#[export] Instance istream_read : ByteSourceBase NonOwningIStreamByteSource := fun s n =>
  (take (Z.to_nat n) (istream s), {| istream := drop (Z.to_nat n) (istream s) |}).

(** A string in memory, from [str] on. *)
Record NonOwningStringByteSource := { str : bytes; remaining_byte_count : Z }.
#[export] Instance string_read : ByteSourceBase NonOwningStringByteSource := fun s n =>
  let to_copy := if remaining_byte_count s <? n then remaining_byte_count s else n in
  (take (Z.to_nat to_copy) (str s),
   {| str := drop (Z.to_nat to_copy) (str s);
      remaining_byte_count := remaining_byte_count s - to_copy |}).

(** ** The reader thread, as its user sees it *)

(** Code that throws the exceptions of csv.h, among others. *)
Class CsvThrows (X : Type) := csv_throw : csv_error -> X.
#[export] Instance csv_throws : CsvThrows csv_error := fun e => e.

Section Reader.
Context {X S : Type} `{!ThrowingSource X S} `{!CsvThrows X}.

(** [worker_done]: the thread has left its loop, after a read of no bytes. *)
Record AsynchronousReader := mkReader {
  byte_source : option S;
  dest : Z;
  desired_byte_count : Z;
  worker_done : bool
}.

Definition reader_unset : AsynchronousReader := mkReader None 0 (-1) false.

Definition reader_init (s : S) : AsynchronousReader := mkReader (Some s) 0 (-1) false.

Definition is_valid (r : AsynchronousReader) : bool :=
  match byte_source r with Some _ => true | None => false end.

Definition start_read (arg_buffer arg_desired_byte_count : Z) (r : AsynchronousReader)
    : AsynchronousReader :=
  mkReader (byte_source r) arg_buffer arg_desired_byte_count (worker_done r).

Definition finish_read (r : AsynchronousReader) (mem : bytes)
    : result X (Z * bytes * AsynchronousReader) :=
  match byte_source r with
  | None => Undefined Blocked
  | Some s =>
      if worker_done r then Undefined Blocked
      else
        match try_read s (desired_byte_count r) with
        | inl (data, s') =>
            mem ← blit mem (dest r) data;
            Ok (Z.of_nat (length data), mem,
                mkReader (Some s') (dest r) (-1) (length data =? 0)%nat)
        | inr (e, _) => Throw e
        end
  end.

(** ** LineReader *)

Record LineReader := mkLineReader {
  buffer : bytes;
  reader : AsynchronousReader;
  data_begin : Z;
  data_end : Z;
  lr_file_name : bytes;
  lr_file_line : Z
}.

(** [block_len]; the repository has [block_len_csv]. *)
Variable block_len : Z.

(** [init], on a fresh buffer of arbitrary bytes [junk]. *)
Definition LineReader_init (file_name : option bytes) (src : S) (junk : bytes)
    : result X LineReader :=
  '(data, src') ← match try_read src (2 * block_len) with
                  | inl x => Ok x
                  | inr (e, _) => Throw e
                  end;
  buf ← blit junk 0 data;
  let data_end := Z.of_nat (length data) in
  bom ← (if 3 <=? data_end then
           c0 ← read buf 0; c1 ← read buf 1; c2 ← read buf 2;
           Ok ((uchar c0 =? 0xEF) && (uchar c1 =? 0xBB) && (uchar c2 =? 0xBF))
         else Ok false);
  let data_begin := if bom : bool then 3 else 0 in
  let r := if data_end =? 2 * block_len
           then start_read (2 * block_len) block_len (reader_init src') else reader_unset in
  Ok (mkLineReader buf r data_begin data_end (copy_name max_file_name_length file_name) 0).

Definition set_lr_file_name (file_name : option bytes) (st : LineReader) : LineReader :=
  mkLineReader (buffer st) (reader st) (data_begin st) (data_end st)
    (copy_name max_file_name_length file_name) (lr_file_line st).

Definition set_lr_file_line (line : Z) (st : LineReader) : LineReader :=
  mkLineReader (buffer st) (reader st) (data_begin st) (data_end st) (lr_file_name st) line.

(** [memcpy] within the buffer. *)
Definition memcpy_within {E} (buf : bytes) (dst src n : Z) : result E bytes :=
  data ← slice buf src n; blit buf dst data.

(** [if (data_begin >= block_len) ...]. *)
Definition refill (st : LineReader) : result X LineReader :=
  if block_len <=? data_begin st then
    buf ← memcpy_within (buffer st) 0 block_len block_len;
    let b := data_begin st - block_len in
    let e := data_end st - block_len in
    if is_valid (reader st) then
      '(n, buf, r) ← finish_read (reader st) buf;
      buf ← memcpy_within buf block_len (2 * block_len) block_len;
      Ok (mkLineReader buf (start_read (2 * block_len) block_len r) b (e + n)
            (lr_file_name st) (lr_file_line st))
    else Ok (mkLineReader buf (reader st) b e (lr_file_name st) (lr_file_line st))
  else Ok st.

Definition scan_line_step {E} (buf : bytes) (data_end line_end : Z) : result E (Z + Z) :=
  c ← read buf line_end;
  if negb (bool_decide (c = LF)) && negb (line_end =? data_end) then Ok (inl (line_end + 1))
  else Ok (inr line_end).

Definition scan_line {E} (st : LineReader) : result E Z :=
  loopM (Datatypes.S (length (buffer st))) (scan_line_step (buffer st) (data_end st)) (data_begin st).

(** The error an over-long line throws. *)
Definition line_too_long (st : LineReader) : csv_error :=
  set_file_line (i32 (lr_file_line st))
    (set_file_name (Some (lr_file_name st)) (make_error line_length_limit_exceeded)).

(** Cutting the line out: the NULs over its end, and the new [data_begin]. *)
Definition cut_line {E} (line_end : Z) (st : LineReader) : result E LineReader :=
  c ← read (buffer st) line_end;
  let e := if bool_decide (c = LF) && negb (line_end =? data_end st)
           then data_end st else data_end st + 1 in
  buf ← write (buffer st) line_end NUL;
  buf ← (if negb (line_end =? data_begin st) then
           c ← read buf (line_end - 1);
           if bool_decide (c = CR) then write buf (line_end - 1) NUL else Ok buf
         else Ok buf);
  Ok (mkLineReader buf (reader st) (line_end + 1) e (lr_file_name st) (lr_file_line st)).

(** [next_line]: the offset in the buffer of the line, or a null pointer. *)
Definition next_line (st : LineReader) : result X (option Z * LineReader) :=
  if data_begin st =? data_end st then Ok (None, st)
  else
    let st := set_lr_file_line (u32 (lr_file_line st + 1)) st in
    if negb (data_begin st <? data_end st) then Undefined AssertFailed
    else if negb (data_end st <=? block_len * 2) then Undefined AssertFailed
    else
      st ← refill st;
      line_end ← scan_line st;
      if block_len <? line_end - data_begin st + 1 then Throw (csv_throw (line_too_long st))
      else
        st' ← cut_line line_end st;
        Ok (Some (data_begin st), st').
End Reader.
Arguments AsynchronousReader : clear implicits.
Arguments LineReader : clear implicits.

Definition block_len_csv : Z := Z.shiftl 1 20.

(** ** Specification *)

(** The bytes up to the first newline, and those after it. *)
Fixpoint break_line (p : bytes) : bytes * bytes :=
  match p with
  | [] => ([], [])
  | c :: p' =>
      if decide (c = LF) then ([], p')
      else let '(line, rest) := break_line p' in (c :: line, rest)
  end.

(** A carriage return at the end of the line is dropped. *)
Definition strip_cr (line : bytes) : bytes :=
  match list.last line with
  | Some c => if decide (c = CR) then take (length line - 1) line else line
  | None => line
  end.

Definition strip_bom (p : bytes) : bytes :=
  match p with
  | c0 :: c1 :: c2 :: p' =>
      if (uchar c0 =? 0xEF) && (uchar c1 =? 0xBB) && (uchar c2 =? 0xBF) then p' else p
  | _ => p
  end.

(** The C string [s] lies in the memory at [ptr]. *)
Definition text_at (mem : bytes) (ptr : Z) (s : bytes) : Prop :=
  exists pre post, mem = pre ++ s ++ NUL :: post /\ ptr = Z.of_nat (length pre).

Section Spec.
Context {S : Type} `{!Content S}.

Definition unread_source (st : LineReader S) : bytes :=
  match byte_source (reader st) with Some s => content s | None => [] end.

(** The bytes not delivered yet. *)
Definition pending (st : LineReader S) : bytes :=
  take (Z.to_nat (data_end st - data_begin st)) (drop (Z.to_nat (data_begin st)) (buffer st)) ++
  unread_source st.

Definition lr_wf (block_len : Z) (st : LineReader S) : Prop :=
  Z.of_nat (length (buffer st)) = 3 * block_len /\
  0 <= data_begin st <= data_end st /\ data_end st <= 2 * block_len /\
  (unread_source st <> [] -> data_end st = 2 * block_len /\ data_begin st < data_end st) /\
  (is_valid (reader st) = true ->
     dest (reader st) = 2 * block_len /\ desired_byte_count (reader st) = block_len) /\
  (worker_done (reader st) = true -> data_end st <= block_len \/ data_begin st = data_end st).
End Spec.

(** Reading to the end of the source: the C string of every line. *)
Fixpoint read_lines {S} `{ByteSourceBase S} (block_len : Z) (fuel : nat) (st : LineReader S)
    : result csv_error (list bytes) :=
  match fuel with
  | O => Undefined OutOfFuel
  | Datatypes.S fuel' =>
      '(line, st) ← next_line block_len st;
      match line with
      | None => Ok []
      | Some ptr =>
          rest ← read_lines block_len fuel' st;
          Ok (cstr (drop (Z.to_nat ptr) (buffer st)) :: rest)
      end
  end.

(** The same by cutting the bytes; [n] lines were read before. *)
Fixpoint cut_lines (block_len : Z) (name : bytes) (fuel : nat) (n : Z) (p : bytes)
    : result csv_error (list bytes) :=
  match fuel, p with
  | _, [] => Ok []
  | O, _ => Undefined OutOfFuel
  | Datatypes.S fuel', _ =>
      let '(line, rest) := break_line p in
      if block_len <? Z.of_nat (length line) + 1 then
        Throw (set_file_line (i32 (u32 (n + 1)))
                 (set_file_name (Some name) (make_error line_length_limit_exceeded)))
      else
        ls ← cut_lines block_len name fuel' (u32 (n + 1)) rest;
        Ok (cstr (strip_cr line) :: ls)
  end.

(** ** Lemmas *)

Lemma break_line_spec p line rest :
  break_line p = (line, rest) ->
  (LF ∉ line) /\ (p = line ++ LF :: rest \/ (p = line /\ rest = [])).
Proof.
  revert line rest. induction p as [|c p IH]; intros line rest; cbn [break_line].
  { intros [= <- <-]. split; [apply not_elem_of_nil|by right]. }
  case_decide as E.
  { intros [= <- <-]. subst. split; [apply not_elem_of_nil|by left]. }
  destruct (break_line p) as [line' rest']. intros [= <- <-].
  destruct (IH line' rest' eq_refl) as [Hn [-> |[-> ->]]].
  - split; [by intros [<-|?]%elem_of_cons|]. by left.
  - split; [by intros [<-|?]%elem_of_cons|]. by right.
Qed.

Lemma break_line_app line rest : LF ∉ line -> break_line (line ++ LF :: rest) = (line, rest).
Proof.
  induction line as [|c line IH]; intros Hn; cbn [app break_line]; [by rewrite decide_True|].
  apply not_elem_of_cons in Hn as [Hc Hn]. rewrite decide_False by done. by rewrite IH.
Qed.

Lemma break_line_none line : LF ∉ line -> break_line line = (line, []).
Proof.
  induction line as [|c line IH]; intros Hn; cbn [break_line]; [done|].
  apply not_elem_of_cons in Hn as [Hc Hn]. rewrite decide_False by done. by rewrite IH.
Qed.

Lemma scan_line_step_eq {E} buf data_end i :
  @scan_line_step E buf data_end i =
    (c ← read buf i;
     if negb (bool_decide (c = LF)) && negb (i =? data_end) then Ok (inl (i + 1))
     else Ok (inr i)).
Proof. done. Qed.

(** The search stops at the newline or at [data_end]. *)
Lemma scan_loop {E} line a x post data_end fuel :
  LF ∉ line -> Z.of_nat (length a + length line) <= data_end ->
  x = LF \/ Z.of_nat (length a + length line) = data_end -> (length line < fuel)%nat ->
  loopM fuel (@scan_line_step E (a ++ line ++ x :: post) data_end) (Z.of_nat (length a)) =
    Ok (Z.of_nat (length a + length line)).
Proof.
  revert a fuel. induction line as [|c line IH]; intros a fuel Hn Hle Hx Hfuel;
    (destruct fuel as [|fuel]; [simpl in *; lia|]); rewrite loopM_S, scan_line_step_eq;
    cbn [app]; rewrite read_middle by done; cbn [mbind result_bind]; simpl length in *.
  - rewrite Nat.add_0_r in *.
    destruct Hx as [-> | <-]; [by rewrite bool_decide_eq_true_2|].
    rewrite Z.eqb_refl. by rewrite andb_false_r.
  - apply not_elem_of_cons in Hn as [Hc Hn]. rewrite bool_decide_eq_false_2 by done.
    rewrite (proj2 (Z.eqb_neq _ _)) by lia. cbn [negb andb].
    replace (a ++ c :: line ++ x :: post) with ((a ++ [c]) ++ line ++ x :: post)
      by (by rewrite <- app_assoc).
    replace (Z.of_nat (length a) + 1) with (Z.of_nat (length (a ++ [c])))
      by (rewrite length_app; simpl; lia).
    cbn [mbind result_bind]. rewrite IH; rewrite ?length_app; simpl; [f_equal; lia|done|lia| |lia].
    destruct Hx; [by left|right; lia].
Qed.

Lemma strip_cr_snoc line c : strip_cr (line ++ [c]) = if decide (c = CR) then line else line ++ [c].
Proof.
  unfold strip_cr. rewrite last_snoc. case_decide; [|done].
  rewrite length_app. simpl. by rewrite Nat.add_sub, take_app_length.
Qed.

(** A window within the first part. *)
Lemma take_drop_app {A} n k (l l' : list A) :
  (k + n <= length l)%nat -> take n (drop k (l ++ l')) = take n (drop k l).
Proof.
  intros Hl. rewrite drop_app_le by lia. apply take_app_le. rewrite length_drop. lia.
Qed.

Lemma split_three {A} (l : list A) n :
  length l = (3 * n)%nat ->
  exists a b c, l = a ++ b ++ c /\ length a = n /\ length b = n /\ length c = n.
Proof.
  intros Hl. exists (take n l), (take n (drop n l)), (drop (n + n) l).
  rewrite <- drop_drop, take_drop, take_drop, !length_take, !length_drop. split; [done|lia].
Qed.

Section LineLemmas.
Context {X S : Type} `{!ThrowingSource X S} `{!CsvThrows X} `{!Content S}.

(** Cutting at the line end leaves the line, without its carriage return, as a
    C string, and what follows untouched. *)
Lemma cut_line_text {E} (st : LineReader S) a line x post :
  buffer st = a ++ line ++ x :: post -> data_begin st = Z.of_nat (length a) ->
  exists mid, @cut_line S E (Z.of_nat (length a + length line)) st =
    Ok (mkLineReader (a ++ strip_cr line ++ NUL :: mid ++ post) (reader st)
          (Z.of_nat (length a + length line) + 1)
          (if bool_decide (x = LF) && negb (Z.of_nat (length a + length line) =? data_end st)
           then data_end st else data_end st + 1)
          (lr_file_name st) (lr_file_line st)) /\
    (length (strip_cr line) + length mid)%nat = length line.
Proof.
  intros Hbuf Hb. unfold cut_line. rewrite Hbuf, app_assoc.
  rewrite read_middle by (by rewrite length_app). cbn [mbind result_bind].
  rewrite write_middle by (by rewrite length_app). cbn [mbind result_bind]. rewrite Hb.
  destruct line as [|c line _] using rev_ind.
  - cbn [length]. rewrite Nat.add_0_r, Z.eqb_refl, app_nil_r. cbn [negb mbind result_bind].
    exists []. done.
  - rewrite !length_app. cbn [length].
    rewrite (proj2 (Z.eqb_neq _ (Z.of_nat (length a)))) by lia. cbn [negb].
    rewrite (app_assoc a), <- (app_assoc (a ++ line)). cbn [app].
    rewrite read_middle by (rewrite length_app; lia). cbn [mbind result_bind].
    rewrite strip_cr_snoc. case_decide as Hc.
    + rewrite (bool_decide_eq_true_2 (c = CR)) by done.
      rewrite write_middle by (rewrite length_app; lia). cbn [mbind result_bind].
      exists [NUL]. rewrite <- !app_assoc. simpl. split; [done|lia].
    + rewrite (bool_decide_eq_false_2 (c = CR)) by done. cbn [mbind result_bind].
      exists []. rewrite <- !app_assoc. rewrite length_app. simpl. split; [done|lia].
Qed.

Variable block_len : Z.
Hypothesis block_len_pos : 0 < block_len.

Lemma memcpy_first {E} (b0 b1 b2 : bytes) n :
  Z.of_nat (length b0) = n -> Z.of_nat (length b1) = n ->
  @memcpy_within E (b0 ++ b1 ++ b2) 0 n n = Ok (b1 ++ b1 ++ b2).
Proof.
  intros H0 H1. unfold memcpy_within. rewrite slice_middle by lia. cbn [mbind result_bind].
  apply (blit_middle [] b0 b1 (b1 ++ b2)); simpl; lia.
Qed.

Lemma memcpy_second {E} (b0 b1 b2 : bytes) n m :
  Z.of_nat (length b0) = n -> Z.of_nat (length b1) = n -> Z.of_nat (length b2) = n -> m = 2 * n ->
  @memcpy_within E (b0 ++ b1 ++ b2) n m n = Ok (b0 ++ b2 ++ b2).
Proof.
  intros H0 H1 H2 ->. unfold memcpy_within.
  pose proof (slice_middle (E := E) (b0 ++ b1) b2 [] (2 * n) n) as Hs.
  rewrite app_nil_r, <- app_assoc in Hs. rewrite Hs by (rewrite ?length_app; lia).
  cbn [mbind result_bind]. apply (blit_middle b0 b1 b2 b2); lia.
Qed.

(** A read that gives the next [n] bytes. *)
Definition reads (s : S) (n : Z) : Prop :=
  exists s', try_read s n = inl (take (Z.to_nat n) (content s), s') /\
    content s' = drop (Z.to_nat n) (content s).

(** The refill, if there is one, can read. *)
Definition can_refill (st : LineReader S) : Prop :=
  forall s, block_len <= data_begin st -> byte_source (reader st) = Some s -> reads s block_len.

Lemma finish_read_ok r s (b0 b1 b2 : bytes) :
  byte_source r = Some s -> worker_done r = false -> desired_byte_count r = block_len ->
  dest r = 2 * block_len ->
  Z.of_nat (length b0) = block_len -> Z.of_nat (length b1) = block_len ->
  Z.of_nat (length b2) = block_len -> reads s block_len ->
  exists s' b2', finish_read r (b0 ++ b1 ++ b2) =
      Ok (Z.of_nat (length (take (Z.to_nat block_len) (content s))), b0 ++ b1 ++ b2',
          mkReader (Some s') (2 * block_len) (-1) (length (take (Z.to_nat block_len) (content s)) =? 0)%nat) /\
    content s' = drop (Z.to_nat block_len) (content s) /\
    b2' = take (Z.to_nat block_len) (content s) ++
          drop (length (take (Z.to_nat block_len) (content s))) b2.
Proof.
  intros Hs Hw Hd Hp H0 H1 H2 (s' & Hr & Hc). unfold finish_read. rewrite Hs, Hw, Hd, Hp, Hr.
  set (d := take (Z.to_nat block_len) (content s)).
  assert (length d <= length b2)%nat by (unfold d; rewrite length_take; lia).
  pose proof (blit_middle (E := X) (b0 ++ b1) (take (length d) b2) d (drop (length d) b2) (2 * block_len)) as Hb.
  rewrite take_drop, <- app_assoc in Hb.
  rewrite Hb by (rewrite ?length_app, ?length_take; lia). cbn [mbind result_bind].
  eexists s', _. split; [by rewrite <- app_assoc|]. done.
Qed.

(** Refilling delivers nothing and loses nothing; it never waits in vain. *)
Lemma refill_spec (st : LineReader S) :
  lr_wf block_len st -> data_begin st < data_end st -> can_refill st ->
  exists st', refill block_len st = Ok st' /\ lr_wf block_len st' /\
    pending st' = pending st /\ data_begin st' < block_len /\ data_begin st' < data_end st' /\
    lr_file_name st' = lr_file_name st /\ lr_file_line st' = lr_file_line st.
Proof.
  intros (Hlen & Hb & He & Hsrc & Hr & Hw) Hlt Hread. unfold refill.
  destruct (Z.leb_spec block_len (data_begin st)) as [Hge|Hsmall].
  2: { exists st. unfold lr_wf. tauto. }
  destruct (split_three (buffer st) (Z.to_nat block_len) ltac:(lia)) as (b0 & b1 & b2 & Hbuf & H0 & H1 & H2).
  assert (take (Z.to_nat (data_end st - data_begin st)) (drop (Z.to_nat (data_begin st)) (buffer st)) =
    take (Z.to_nat (data_end st - data_begin st)) (drop (Z.to_nat (data_begin st - block_len)) b1)) as Hwin.
  { rewrite Hbuf, drop_app_ge by lia.
    replace (Z.to_nat (data_begin st) - length b0)%nat with (Z.to_nat (data_begin st - block_len)) by lia.
    apply take_drop_app. lia. }
  rewrite Hbuf, memcpy_first by lia. cbn [mbind result_bind].
  unfold is_valid in *. unfold pending, unread_source, lr_wf in *.
  destruct (byte_source (reader st)) as [s|] eqn:Es; cbn [mbind result_bind].
  - destruct (Hr eq_refl) as [Hd Hn].
    destruct (worker_done (reader st)) eqn:Ewd; [specialize (Hw eq_refl); lia|].
    edestruct (finish_read_ok (reader st) s b1 b1 b2) as (s' & b2' & -> & Hc & Hb2');
      [done..|lia|lia|lia|by apply Hread|].
    set (d := take (Z.to_nat block_len) (content s)) in *.
    assert (length d <= Z.to_nat block_len)%nat by (unfold d; rewrite length_take; lia).
    assert (length b2' = Z.to_nat block_len) by (rewrite Hb2', length_app, length_drop; lia).
    cbn [mbind result_bind]. rewrite memcpy_second by lia. cbn [mbind result_bind].
    eexists. split; [done|]. cbn.
    assert (content s = [] \/ data_end st = 2 * block_len) as Hfull.
    { destruct (content s); [by left|right]. by apply Hsrc. }
    assert (length d = 0%nat -> content s = []) as Hd0.
    { unfold d. destruct (content s); [done|]. rewrite length_take. simpl. lia. }
    split; [|split; [|repeat split; try done; lia]].
    + rewrite !length_app. repeat split; try done; try lia.
      * destruct Hfull as [Hnil|Hfull]; [by rewrite Hc, Hnil, drop_nil in *|].
        rewrite Hc in *. assert (length d = Z.to_nat block_len); [|lia].
        unfold d. rewrite length_take.
        destruct (Nat.le_gt_cases (length (content s)) (Z.to_nat block_len)); [|lia].
        by rewrite drop_ge in *.
      * rewrite Nat.eqb_eq. intros Hz. rewrite Hz. lia.
    + rewrite Hwin, Hc. destruct Hfull as [Hnil|Hfull].
      * unfold d. rewrite Hnil, take_nil, drop_nil, !app_nil_r. cbn [length].
        rewrite take_drop_app by lia. f_equal. lia.
      * rewrite Hb2', Hfull. rewrite drop_app_le by lia.
        rewrite (take_ge (drop _ b1)) by (rewrite length_drop; lia).
        rewrite <- (take_drop (Z.to_nat block_len) (content s)) at 2. fold d.
        rewrite !(app_assoc (drop _ b1)). f_equal. rewrite <- !app_assoc.
        rewrite (app_assoc _ d). apply take_app_length'.
        rewrite length_app, length_drop. lia.
  - eexists. split; [done|]. unfold unread_source, is_valid. cbn. rewrite Es, !app_nil_r.
    split; [|split; [|repeat split; try done; lia]].
    + rewrite !length_app. repeat split; try done; lia.
    + rewrite Hwin, take_drop_app by lia. f_equal. lia.
Qed.

Lemma window_split (st : LineReader S) :
  lr_wf block_len st ->
  exists a w x post, buffer st = a ++ w ++ x :: post /\
    Z.of_nat (length a) = data_begin st /\ Z.of_nat (length a + length w) = data_end st /\
    pending st = w ++ unread_source st.
Proof.
  intros (Hlen & Hb & He & _). unfold pending.
  set (b := Z.to_nat (data_begin st)). set (n := Z.to_nat (data_end st - data_begin st)).
  destruct (drop n (drop b (buffer st))) as [|x post] eqn:E.
  { apply (f_equal length) in E. rewrite !length_drop in E. simpl in E. lia. }
  exists (take b (buffer st)), (take n (drop b (buffer st))), x, post.
  rewrite <- E, take_drop, take_drop, !length_take, !length_drop. repeat split; lia.
Qed.

Lemma pending_cut a line' mid w post x r b e n f :
  b = Z.of_nat (length a + length line') + 1 + Z.of_nat (length mid) -> e = b + Z.of_nat (length w) ->
  pending (mkLineReader (a ++ line' ++ x :: mid ++ w ++ post) r b e n f) =
    w ++ unread_source (mkLineReader [] r b e n f).
Proof.
  intros -> ->. unfold pending, unread_source. cbn. f_equal.
  replace (a ++ line' ++ x :: mid ++ w ++ post) with ((a ++ line' ++ x :: mid) ++ w ++ post)
    by (by rewrite <- !app_assoc).
  rewrite drop_app_length' by (rewrite !length_app; simpl; lia).
  apply take_app_length'. lia.
Qed.

Lemma break_line_length_app w s :
  LF ∉ w -> (length w <= length (break_line (w ++ s)).1)%nat.
Proof.
  induction w as [|c w IH]; intros Hn; [simpl; lia|]. apply not_elem_of_cons in Hn as [Hc Hn].
  cbn [app break_line]. rewrite decide_False by done. specialize (IH Hn).
  destruct (break_line (w ++ s)). simpl in *. lia.
Qed.

(** What one call to [next_line] does to the pending bytes. *)
Definition next_line_post (st : LineReader S) (r : result X (option Z * LineReader S)) : Prop :=
  let '(line, rest) := break_line (pending st) in
  if block_len <? Z.of_nat (length line) + 1 then
    r = Throw (csv_throw (line_too_long (set_lr_file_line (u32 (lr_file_line st + 1)) st)))
  else exists st' ptr, r = Ok (Some ptr, st') /\ lr_wf block_len st' /\ pending st' = rest /\
    text_at (buffer st') ptr (strip_cr line) /\ 0 <= ptr /\
    ptr + Z.of_nat (length (strip_cr line)) < data_begin st' /\
    lr_file_name st' = lr_file_name st /\ lr_file_line st' = u32 (lr_file_line st + 1).

Lemma strip_cr_length line : (length (strip_cr line) <= length line)%nat.
Proof. unfold strip_cr. repeat case_match; rewrite ?length_take; lia. Qed.

Lemma next_line_reads (st : LineReader S) :
  lr_wf block_len st -> pending st <> [] -> can_refill st -> next_line_post st (next_line block_len st).
Proof.
  intros Hwf Hp Hread. assert (data_begin st < data_end st) as Hlt.
  { destruct Hwf as (Hlen & Hb & He & Hsrc & _). unfold pending in Hp.
    destruct (unread_source st) eqn:E; [|by apply Hsrc].
    destruct (decide (data_begin st = data_end st)) as [Heq|]; [|lia].
    rewrite Heq, Z.sub_diag in Hp. done. }
  unfold next_line. rewrite (proj2 (Z.eqb_neq _ _)) by lia.
  rewrite (proj2 (Z.ltb_lt _ _)) by done.
  rewrite (proj2 (Z.leb_le _ _)) by (destruct Hwf as (_&_&?&_); cbn; lia). cbn [negb].
  set (st0 := set_lr_file_line (u32 (lr_file_line st + 1)) st).
  destruct (refill_spec st0) as (st1 & -> & Hwf1 & Hpend & Hb1 & Hlt1 & Hname & Hline);
    [done|done|done|]. cbn [mbind result_bind].
  assert (pending st1 = pending st) as Hpend1 by done. unfold next_line_post.
  rewrite <- Hpend1. clear Hp. 
  destruct (window_split st1 Hwf1) as (a & w & x & post & Hbuf & Ha & He & Hw).
  destruct Hwf1 as (Hlen & Hb & He2 & Hsrc & Hr & Hdone).
  unfold scan_line. rewrite Hw. destruct (break_line w) as [line restw] eqn:Eb.
  destruct (break_line_spec _ _ _ Eb) as [Hn [-> | [-> ->]]].
  - (* the newline is in the window *)
    rewrite <- app_assoc. cbn [app]. rewrite break_line_app by done.
    rewrite <- app_assoc in Hbuf. cbn [app] in Hbuf. rewrite length_app in He. simpl in He.
    rewrite Hbuf, <- Ha, scan_loop by (try done; try (by left); rewrite ?length_app; simpl; lia).
    cbn [mbind result_bind]. rewrite Ha.
    replace (Z.of_nat (length a + length line) - data_begin st1 + 1)
      with (Z.of_nat (length line) + 1) by lia.
    case_match; [unfold line_too_long; by rewrite Hname, Hline|]. bool2prop.
    destruct (cut_line_text (E := X) st1 a line LF (restw ++ x :: post)) as (mid & -> & Hmid); [done..|].
    rewrite bool_decide_eq_true_2 by done. rewrite (proj2 (Z.eqb_neq _ _)) by lia.
    cbn [andb negb mbind result_bind].
    eexists _, _. split; [done|]. rewrite pending_cut by lia.
    split; [|split; [done|split; [eexists a, _; split; [done|lia]|]]].
    + repeat split; cbn; try done; try lia; [|by apply Hsrc|by destruct Hsrc; [|lia]|by apply Hr|by apply Hr|].
      * rewrite !length_app. simpl. rewrite !length_app. apply (f_equal length) in Hbuf.
        rewrite !length_app in Hbuf. simpl in Hbuf. rewrite length_app in Hbuf. lia.
      * intros Hd. left. destruct (Hdone Hd); lia.
    + cbn. pose proof (strip_cr_length line). repeat split; try done; lia.
  - (* the window has no newline *)
    rewrite Hbuf, <- Ha, scan_loop by (try done; try (by right); rewrite ?length_app; simpl; lia).
    cbn [mbind result_bind]. rewrite Ha.
    replace (Z.of_nat (length a + length line) - data_begin st1 + 1)
      with (Z.of_nat (length line) + 1) by lia.
    destruct (decide (unread_source st1 = [])) as [Hnil|Hfull].
    2: { pose proof (break_line_length_app line (unread_source st1) Hn) as Hl.
         destruct (break_line (line ++ unread_source st1)) as [line' rest]. simpl in Hl.
         destruct (Hsrc Hfull). rewrite !(proj2 (Z.ltb_lt _ _)) by lia.
         unfold line_too_long. by rewrite Hname, Hline. }
    rewrite Hnil, app_nil_r, break_line_none by done.
    case_match; [unfold line_too_long; by rewrite Hname, Hline|]. bool2prop.
    destruct (cut_line_text (E := X) st1 a line x post) as (mid & -> & Hmid); [done..|].
    rewrite <- He, Z.eqb_refl, andb_false_r. cbn [mbind result_bind].
    eexists _, _. split; [done|]. rewrite (pending_cut a (strip_cr line) mid [] post) by (simpl; lia).
    split; [|split; [done|split; [eexists a, _; split; [done|lia]|]]].
    + repeat split; cbn; try done; try lia; [|by apply Hr|by apply Hr].
      rewrite !length_app. simpl. rewrite !length_app. apply (f_equal length) in Hbuf.
      rewrite !length_app in Hbuf. simpl in Hbuf. lia.
    + cbn. pose proof (strip_cr_length line). repeat split; try done; lia.
Qed.

Lemma next_line_nothing (st : LineReader S) :
  lr_wf block_len st -> pending st = [] -> next_line block_len st = Ok (None, st).
Proof.
  intros (Hlen & Hb & He & _) Hp. unfold pending in Hp. apply app_eq_nil in Hp as [Hp _].
  apply (f_equal length) in Hp. rewrite length_take, length_drop in Hp. simpl in Hp.
  unfold next_line. rewrite (proj2 (Z.eqb_eq _ _)); [done|lia].
Qed.

Lemma cstr_app_nul s post : cstr (s ++ NUL :: post) = cstr s.
Proof. induction s as [|c s IH]; [done|]. cbn [app cstr]. by rewrite IH. Qed.

Lemma text_at_cstr mem ptr s : text_at mem ptr s -> cstr (drop (Z.to_nat ptr) mem) = cstr s.
Proof.
  intros (pre & post & -> & ->). rewrite Nat2Z.id, drop_app_length. apply cstr_app_nul.
Qed.

Lemma break_line_rest p line rest :
  break_line p = (line, rest) -> p <> [] -> (length rest < length p)%nat.
Proof.
  intros E Hp. destruct (break_line_spec _ _ _ E) as [_ [-> |[-> ->]]].
  - rewrite length_app. simpl. lia.
  - destruct line; simpl; [done|lia].
Qed.

(** What the constructor leaves: everything but a byte-order mark is pending. *)
Lemma LineReader_init_reads name (src : S) junk :
  1 < block_len -> Z.of_nat (length junk) = 3 * block_len -> reads src (2 * block_len) ->
  exists st, LineReader_init block_len name src junk = Ok st /\ lr_wf block_len st /\
    pending st = strip_bom (content src) /\ lr_file_line st = 0 /\
    lr_file_name st = copy_name max_file_name_length name.
Proof.
  intros Hbl Hjunk (src' & Hr & Hc). unfold LineReader_init. rewrite Hr. clear Hr. cbn [mbind result_bind].
  set (n := Z.to_nat (2 * block_len)) in *. remember (take n (content src)) as d eqn:Hr.
  assert (content src = d ++ content src') as Hcont by (rewrite Hr, Hc; by rewrite take_drop).
  assert (length d <= n)%nat as Hd by (rewrite Hr, length_take; lia).
  assert (content src' <> [] -> length d = n) as Hfull.
  { rewrite Hc, Hr. intros Hne. rewrite length_take.
    destruct (Nat.le_gt_cases (length (content src)) n); [by rewrite drop_ge in Hne|lia]. }
  rewrite (blit_ok junk 0) by lia. change (take 0 junk) with (@nil ascii).
  rewrite app_nil_l, Nat.add_0_l. cbn [mbind result_bind].
  set (r := if Z.of_nat (length d) =? 2 * block_len then _ else _).
  assert (forall b nm k, 0 <= b <= 3 -> b <= Z.of_nat (length d) ->
    let st := mkLineReader (d ++ drop (length d) junk) r b (Z.of_nat (length d)) nm k in
    lr_wf block_len st /\ pending st = drop (Z.to_nat b) (content src)) as Hst.
  { intros b nm k Hb Hbe. cbn zeta. unfold lr_wf, pending, unread_source, r. cbn.
    rewrite take_drop_app by lia. rewrite take_ge by (rewrite length_drop; lia).
    rewrite Hcont, drop_app_le by lia. rewrite length_app, length_drop.
    destruct (Z.eqb_spec (Z.of_nat (length d)) (2 * block_len)) as [E|E]; cbn.
    - repeat split; try done; lia.
    - assert (content src' = []) as ->.
      { destruct (decide (content src' = [])) as [|Hne]; [done|]. specialize (Hfull Hne). lia. }
      repeat split; try done; lia. }
  destruct (Z.leb_spec 3 (Z.of_nat (length d))) as [H3|H3].
  - destruct d as [|c0 [|c1 [|c2 d']]]; try (simpl in H3; lia).
    set (buf := (c0 :: c1 :: c2 :: d') ++ _).
    change (@read X _ buf 0) with (@Ok X _ c0).
    change (@read X _ buf 1) with (@Ok X _ c1).
    change (@read X _ buf 2) with (@Ok X _ c2).
    cbn [mbind result_bind].
    rewrite Hcont. cbn [app strip_bom].
    destruct ((uchar c0 =? 239) && (uchar c1 =? 187) && (uchar c2 =? 191)) eqn:E;
      cbn [mbind result_bind]; eexists; (split; [done|]).
    + destruct (Hst 3 (copy_name max_file_name_length name) 0 ltac:(lia) H3) as [? Hp].
      rewrite Hcont in Hp. done.
    + destruct (Hst 0 (copy_name max_file_name_length name) 0 ltac:(lia) ltac:(lia)) as [? Hp].
      rewrite Hcont in Hp. done.
  - cbn [mbind result_bind]. eexists; split; [done|].
    destruct (Hst 0 (copy_name max_file_name_length name) 0 ltac:(lia) ltac:(lia)) as [? Hp].
    split; [done|]. split; [|done]. rewrite Hp. change (Z.to_nat 0) with 0%nat. rewrite drop_0.
    assert (content src' = []) as Hnil.
    { destruct (decide (content src' = [])) as [|Hne]; [done|]. specialize (Hfull Hne). lia. }
    rewrite Hcont, Hnil, app_nil_r. destruct d as [|? [|? [|? ?]]]; try done. simpl in H3. lia.
Qed.
End LineLemmas.

(** *** Sources that never throw *)

Section Plain.
Context {S : Type} `{!ByteSourceBase S} `{!SourceLaws S}.
Variable block_len : Z.
Hypothesis block_len_pos : 0 < block_len.

Lemma source_reads {X} (s : S) n : 0 <= n -> reads (X := X) s n.
Proof.
  intros Hn. destruct (source_read_content s n Hn) as [Hr Hc]. unfold reads, try_read, never_throws.
  destruct (source_read s n) as [d s']. cbn in *. subst d. by exists s'.
Qed.

Lemma source_refills {X} (st : LineReader S) : can_refill (X := X) block_len st.
Proof. intros s _ _. apply source_reads. lia. Qed.

Lemma next_line_pending (st : LineReader S) :
  lr_wf block_len st -> pending st <> [] ->
  next_line_post (X := csv_error) block_len st (next_line block_len st).
Proof. intros Hwf Hp. apply next_line_reads; [done..|apply source_refills]. Qed.

Lemma next_line_end (st : LineReader S) :
  lr_wf block_len st -> pending st = [] -> next_line (X := csv_error) block_len st = Ok (None, st).
Proof. intros. by apply next_line_nothing. Qed.

Lemma LineReader_init_spec name (src : S) junk :
  1 < block_len -> Z.of_nat (length junk) = 3 * block_len ->
  exists st, LineReader_init (X := csv_error) block_len name src junk = Ok st /\ lr_wf block_len st /\
    pending st = strip_bom (content src) /\ lr_file_line st = 0 /\
    lr_file_name st = copy_name max_file_name_length name.
Proof. intros Hbl Hjunk. apply LineReader_init_reads; [done..|apply source_reads; lia]. Qed.

Lemma read_lines_cut fuel (st : LineReader S) :
  lr_wf block_len st -> (length (pending st) < fuel)%nat ->
  read_lines block_len fuel st =
    cut_lines block_len (lr_file_name st) fuel (lr_file_line st) (pending st).
Proof.
  revert st. induction fuel as [|fuel IH]; intros st Hwf Hfuel; [lia|].
  cbn [read_lines cut_lines]. destruct (pending st) as [|c p] eqn:Ep.
  { by rewrite next_line_end. }
  pose proof (next_line_pending st Hwf) as Hpost. unfold next_line_post in Hpost.
  rewrite Ep in Hpost. specialize (Hpost ltac:(done)).
  destruct (break_line (c :: p)) as [line rest] eqn:Eb. case_match.
  { rewrite Hpost. done. }
  destruct Hpost as (st' & ptr & -> & Hwf' & Hp' & Ht & Hptr & _ & Hname & Hline).
  pose proof (break_line_rest _ _ _ Eb ltac:(done)) as Hl.
  cbn [mbind result_bind]. rewrite IH by (rewrite ?Hp'; first [done|lia]).
  rewrite Hp', Hname, Hline. by rewrite (text_at_cstr _ _ _ Ht).
Qed.

End Plain.

#[export] Program Instance stdio_laws : SourceLaws OwningStdIOByteSource := {| source_content := file |}.
Solve All Obligations with done.

#[export] Program Instance istream_laws : SourceLaws NonOwningIStreamByteSource :=
  {| source_content := istream |}.
Solve All Obligations with done.

#[export] Program Instance string_laws : SourceLaws NonOwningStringByteSource :=
  {| source_content s := take (Z.to_nat (remaining_byte_count s)) (str s) |}.
Next Obligation.
  intros s n Hn. unfold content, source_read, string_read. cbn.
  destruct (Z.ltb_spec (remaining_byte_count s) n).
  - rewrite Z.sub_diag. simpl. split; [by rewrite take_take, Nat.min_r by lia|].
    symmetry. apply drop_ge. rewrite length_take. lia.
  - split; [by rewrite take_take, Nat.min_l by lia|].
    rewrite skipn_firstn_comm. f_equal. lia.
Qed.

(** ** Properties *)

(** C12: reading a source to its end delivers its lines: a byte-order mark is
    dropped, bytes are cut at newlines, a carriage return before one and a
    missing last newline are accepted, and the first line of [block_len]
    characters or more throws, with its number.  The three-block buffer, its
    junk and the refills are invisible, no access leaves the buffer, no
    assertion fails and the reader thread is never waited for in vain. *)
Theorem LineReader_reads_lines {S} `{!ByteSourceBase S} `{!SourceLaws S} block_len name (src : S) junk fuel :
  1 < block_len -> Z.of_nat (length junk) = 3 * block_len -> (length (content src) < fuel)%nat ->
  (st ← LineReader_init block_len name src junk; read_lines block_len fuel st) =
    cut_lines block_len (copy_name max_file_name_length name) fuel 0 (strip_bom (content src)).
Proof.
  intros Hbl Hjunk Hfuel.
  destruct (LineReader_init_spec block_len name src junk) as (st & -> & Hwf & Hp & Hl & Hn); [done..|].
  cbn [mbind result_bind]. rewrite read_lines_cut, Hp, Hl, Hn; [done|lia|done|].
  rewrite Hp. enough (length (strip_bom (content src)) <= length (content src))%nat by lia.
  unfold strip_bom. repeat case_match; simpl; lia.
Qed.

(** A file of three lines read through blocks of eight bytes, and one whose
    second line is too long for them. *)
Lemma LineReader_reads_lines_witness :
  let text := map chr [0xEF; 0xBB; 0xBF] ++ s2b "a,b" ++ [CR; LF] ++ s2b "1234567" ++ [LF; LF] ++
    s2b "end" in
  let long := s2b "a,b" ++ [LF] ++ s2b "12345678" ++ [LF] in
  (st ← LineReader_init 8 None {| file := text |} (replicate 24 NUL); read_lines 8 100 st) =
    Ok [s2b "a,b"; s2b "1234567"; []; s2b "end"] /\
  (st ← LineReader_init 8 None {| file := long |} (replicate 24 NUL); read_lines 8 100 st) =
    Throw (set_file_line 2 (make_error line_length_limit_exceeded)).
Proof.
  split.
  - etransitivity; [apply LineReader_reads_lines; [lia|reflexivity|vm_compute; lia]|].
    vm_compute. reflexivity.
  - etransitivity; [apply LineReader_reads_lines; [lia|reflexivity|vm_compute; lia]|].
    vm_compute. reflexivity.
Defined.
