(* ===== verification/CsvAsync.v ===== *)
(** * The reader thread of csv.h

    [AsynchronousReader] (src/src/csv.h) as two threads that share the members
    under a mutex: the worker with its two waits, and the user's call of
    [start_read] followed by [finish_read].  Each critical section is one step; a
    thread in [wait] sleeps until it is notified, or wakes spuriously.  The
    theorem is that the pair of calls does what [finish_read] of CsvReader.v
    does in one step. *)
From S2P Require Import Prelude CLib CsvError CsvReader.

(** ** The threads *)

Section Threads.
Context {S : Type} `{!ByteSourceBase S}.

(** The worker: about to test the predicate of its wait, asleep, or returned. *)
Inductive worker_pc := W_check | W_sleep | W_exit.

(** The user: before [start_read], about to test the predicate of [finish_read]'s
    wait, asleep in it, or returned from it. *)
Inductive user_pc := U_start | U_check | U_sleep | U_return (n : Z).

Record threads := mkThreads {
  user : user_pc;
  worker : worker_pc;
  t_source : S;
  t_data : bytes;               (** what the last [read] stored *)
  t_desired : Z;
  t_count : Z;                  (** [read_byte_count] *)
  t_termination : bool
}.

(** [notify_one] on each of the conditions: one thread waits on each. *)
Definition notify_worker (w : worker_pc) : worker_pc :=
  match w with W_sleep => W_check | _ => w end.

Definition notify_user (u : user_pc) : user_pc :=
  match u with U_sleep => U_check | _ => u end.

(** One round of the worker's loop. *)
Definition worker_step (t : threads) : threads :=
  if t_termination t then
    mkThreads (user t) W_exit (t_source t) (t_data t) (t_desired t) (t_count t) true
  else if negb (t_desired t =? -1) then
    let '(data, s') := source_read (t_source t) (t_desired t) in
    let n := Z.of_nat (length data) in
    mkThreads (notify_user (user t)) (if n =? 0 then W_exit else W_check) s' data (-1) n false
  else mkThreads (user t) W_sleep (t_source t) (t_data t) (t_desired t) (t_count t) false.

(** [start_read(buffer, n)]. *)
Definition start_step (n : Z) (t : threads) : threads :=
  mkThreads U_check (notify_worker (worker t)) (t_source t) (t_data t) n (-1) (t_termination t).

(** The wait of [finish_read] and its result. *)
Definition finish_step (t : threads) : threads :=
  mkThreads (if t_count t =? -1 then U_sleep else U_return (t_count t))
    (worker t) (t_source t) (t_data t) (t_desired t) (t_count t) (t_termination t).

(** [n] is the byte count the user asks for. *)
Inductive thread_step (n : Z) (t : threads) : threads -> Prop :=
  | step_worker : worker t = W_check -> thread_step n t (worker_step t)
  | step_start : user t = U_start -> thread_step n t (start_step n t)
  | step_finish : user t = U_check -> thread_step n t (finish_step t).

Inductive spurious_step (t : threads) : threads -> Prop :=
  | wake_worker : worker t = W_sleep ->
      spurious_step t (mkThreads (user t) W_check (t_source t) (t_data t) (t_desired t)
                         (t_count t) (t_termination t))
  | wake_user : user t = U_sleep ->
      spurious_step t (mkThreads U_check (worker t) (t_source t) (t_data t) (t_desired t)
                         (t_count t) (t_termination t)).

Inductive reachable (n : Z) (t0 : threads) : threads -> Prop :=
  | reach_refl : reachable n t0 t0
  | reach_step t t' : reachable n t0 t -> thread_step n t t' \/ spurious_step t t' ->
      reachable n t0 t'.

(** Between two requests: nothing asked for, the worker alive or not. *)
Definition quiet (w : worker_pc) (s : S) (data : bytes) (c : Z) : threads :=
  mkThreads U_start w s data (-1) c false.

(** ** Specification *)

(** How far a pair of calls is from its return. *)
Definition steps_left (t : threads) : nat :=
  match user t with U_start => 7 | U_check => 2 | U_sleep => 1 | U_return _ => 0 end +
  match worker t with W_check => 1 | _ => 0 end +
  (if t_desired t =? -1 then 0 else 3).

Definition served (n : Z) (s : S) (t : threads) : Prop :=
  t_source t = (source_read s n).2 /\ t_data t = (source_read s n).1 /\ t_desired t = -1 /\
  t_count t = Z.of_nat (length (source_read s n).1) /\
  (t_count t = 0 -> worker t = W_exit) /\ (t_count t <> 0 -> worker t <> W_exit).

Definition thread_inv (n : Z) (s : S) (t : threads) : Prop :=
  t_termination t = false /\
  match user t with
  | U_start => t_source t = s /\ t_desired t = -1 /\ worker t <> W_exit
  | U_return k => served n s t /\ k = t_count t
  | U_check => served n s t \/
      (t_source t = s /\ t_desired t = n /\ t_count t = -1 /\ worker t = W_check)
  | U_sleep => t_source t = s /\ t_desired t = n /\ t_count t = -1 /\ worker t = W_check
  end.

(** ** Lemmas *)

Lemma served_sleep n s t u :
  served n s t -> worker t = W_check ->
  served n s (mkThreads u W_sleep (t_source t) (t_data t) (t_desired t) (t_count t) false).
Proof.
  intros (Hs & Hd & Hde & Hc & Hx & Ha) Hw. unfold served. cbn. split_and!; try done.
  intros H0. specialize (Hx H0). congruence.
Qed.

Lemma served_pc n s t u w :
  served n s t -> (worker t = W_exit <-> w = W_exit) ->
  served n s (mkThreads u w (t_source t) (t_data t) (t_desired t) (t_count t) (t_termination t)).
Proof.
  intros (Hs & Hd & Hde & Hc & Hx & Ha) Hw. unfold served. cbn. split_and!; try done; tauto.
Qed.

(** Serving a request. *)
Lemma worker_serves n s t :
  0 <= n -> t_termination t = false -> t_source t = s -> t_desired t = n ->
  served n s (worker_step t) /\ user (worker_step t) = notify_user (user t) /\
  t_termination (worker_step t) = false.
Proof.
  intros Hn Ht <- <-. unfold worker_step, served. rewrite Ht, (proj2 (Z.eqb_neq _ _)) by lia.
  cbn [negb]. destruct (source_read _ _) as [d s']. cbn. split_and!; try done.
  - intros ->. done.
  - intros H0. by rewrite (proj2 (Z.eqb_neq _ _)).
Qed.

Lemma worker_idles t :
  t_termination t = false -> t_desired t = -1 ->
  worker_step t = mkThreads (user t) W_sleep (t_source t) (t_data t) (-1) (t_count t) false.
Proof. intros Ht Hd. unfold worker_step. by rewrite Ht, Hd. Qed.

Lemma worker_inv_step n s t :
  0 <= n -> thread_inv n s t -> worker t = W_check -> thread_inv n s (worker_step t).
Proof.
  intros Hn [Ht Hi] Hw. destruct (decide (t_desired t = -1)) as [Hd|Hd].
  - rewrite worker_idles by done. unfold thread_inv. cbn. split; [done|].
    destruct (user t).
    + destruct Hi as (?&_&_). done.
    + destruct Hi as [Hi|(_&Hd'&_)]; [|lia]. left. rewrite <- Hd. by apply served_sleep.
    + destruct Hi as (_&Hd'&_). lia.
    + destruct Hi as [Hi ->]. split; [|done]. rewrite <- Hd. by apply served_sleep.
  - assert (t_source t = s /\ t_desired t = n /\ (user t = U_check \/ user t = U_sleep)) as (Hs & Hd' & Hu).
    { destruct (user t).
      - by destruct Hi as (_&?&_).
      - destruct Hi as [(_&_&?&_)|(?&?&_)]; [done|auto].
      - destruct Hi as (?&?&_). auto.
      - by destruct Hi as [(_&_&?&_) _]. }
    destruct (worker_serves n s t Hn Ht Hs Hd') as (Hserved & Hus & Htm).
    split; [done|]. rewrite Hus. destruct Hu as [-> | ->]; by left.
Qed.

Lemma thread_inv_step n s t t' :
  0 <= n -> thread_inv n s t -> thread_step n t t' \/ spurious_step t t' -> thread_inv n s t'.
Proof.
  intros Hn Hinv [[Hw|Hu|Hu] | [Hw|Hu]]; [by apply worker_inv_step|..];
    destruct Hinv as [Ht Hi]; unfold thread_inv; cbn; (split; [done|]); try rewrite Hu in Hi.
  - right. destruct Hi as (?&?&?). by destruct (worker t).
  - destruct (Z.eqb_spec (t_count t) (-1)) as [E|E].
    + destruct Hi as [(_&_&_&Hc&_)|?]; [lia|done].
    + destruct Hi as [?|(_&_&?&_)]; [|done]. split; [|done]. by apply served_pc.
  - destruct (user t).
    + destruct Hi as (?&?&?). done.
    + destruct Hi as [Hi|(?&?&?&?)]; [left; apply served_pc; [done|by rewrite Hw]|by right].
    + destruct Hi as (?&?&?&?). done.
    + destruct Hi as [Hi ->]. split; [|done]. apply served_pc; [done|by rewrite Hw].
  - by right.
Qed.

Lemma thread_inv_reachable n s t0 t :
  0 <= n -> thread_inv n s t0 -> reachable n t0 t -> thread_inv n s t.
Proof. intros Hn H0. induction 1; [done|]. by eapply thread_inv_step. Qed.

Lemma thread_progress n s t :
  0 <= n -> thread_inv n s t -> (forall k, user t <> U_return k) -> exists t', thread_step n t t'.
Proof.
  intros Hn [Ht Hi] Hr. destruct (user t) eqn:Eu.
  - eexists. by apply step_start.
  - eexists. by apply step_finish.
  - eexists. apply step_worker. by destruct Hi as (_&_&_&?).
  - by destruct (Hr n0).
Qed.

Lemma thread_decreases n s t t' :
  0 <= n -> thread_inv n s t -> thread_step n t t' -> (steps_left t' < steps_left t)%nat.
Proof.
  intros Hn [Ht Hi] [Hw|Hu|Hu]; unfold steps_left.
  - unfold worker_step. rewrite Ht, Hw. destruct (Z.eqb_spec (t_desired t) (-1)) as [E|E]; cbn;
      [rewrite ?E, ?Z.eqb_refl; lia|].
    destruct (source_read _ _) as [d ?]. cbn. rewrite Z.eqb_refl. destruct (user t), (Z.of_nat (length d) =? 0); cbn; lia.
  - rewrite Hu. rewrite Hu in Hi. destruct Hi as (_ & -> & _). cbn. rewrite Z.eqb_refl.
    destruct (worker t), (n =? -1); cbn; lia.
  - rewrite Hu. cbn. destruct (t_count t =? -1); lia.
Qed.
End Threads.
Arguments threads : clear implicits.

(** ** Properties *)

(** While the worker is alive, [start_read] and [finish_read] return with
    the bytes a direct read of the source gives, whatever the interleaving and
    the spurious wake-ups: every state short of the return can move, every move
    but a spurious wake-up comes closer to it, and on return the worker is
    alive again, unless the read gave no bytes.  Once the worker has left, the
    user never returns: this is the reader of LineReader. *)
Theorem async_read_correct {S} `{!ByteSourceBase S} n (s : S) data c w :
  0 <= n ->
  (w <> W_exit -> forall t, reachable n (quiet w s data c) t ->
     (forall k, user t = U_return k ->
        k = Z.of_nat (length (source_read s n).1) /\ t_data t = (source_read s n).1 /\
        t = mkThreads (U_return k) (worker t) (source_read s n).2 (t_data t) (-1) k false /\
        (worker t = W_exit <-> k = 0)) /\
     ((forall k, user t <> U_return k) -> exists t', thread_step n t t') /\
     (forall t', thread_step n t t' -> (steps_left t' < steps_left t)%nat)) /\
  (w = W_exit -> forall t, reachable n (quiet w s data c) t -> forall k, user t <> U_return k).
Proof.
  intros Hn. split.
  - intros Hw t Hreach.
    assert (thread_inv n s t) as Hinv by (eapply thread_inv_reachable; [done| |done]; done).
    split; [|split; [by eapply thread_progress|intros t'; by eapply thread_decreases]].
    intros k Hk. destruct Hinv as [Ht Hi]. rewrite Hk in Hi.
    destruct Hi as [(Hs & Hd & Hde & Hc & Hx & Ha) ->]. split; [done|]. split; [done|].
    split; [destruct t; cbn in *; congruence|]. split; [|by apply Hx].
    intros He. destruct (decide (t_count t = 0)) as [|Hne]; [done|]. by specialize (Ha Hne).
  - intros -> t Hreach.
    assert (worker t = W_exit /\ match user t with
      | U_start => True | U_check | U_sleep => t_count t = -1 | U_return _ => False end) as [_ Hu].
    { induction Hreach as [|t t' _ [Hw Hu] Hs]; [done|].
      destruct Hs as [[|E|E]|[|E]]; try congruence; cbn; rewrite ?Hw; rewrite E in Hu;
        rewrite ?Hu; done. }
    intros k Hk. by rewrite Hk in Hu.
Qed.

(** Asking a source of three bytes for two: the user returns with the two. *)
Lemma async_read_correct_witness :
  let s := {| file := s2b "abc" |} in
  let t := mkThreads (U_return 2) W_check {| file := s2b "c" |} (s2b "ab") (-1) 2 false in
  reachable 2 (quiet W_sleep s [] 0) t /\ t_data t = (source_read s 2).1 /\
  forall t', reachable 2 (quiet W_exit s [] 0) t' -> user t' <> U_return 2.
Proof.
  intros s t.
  assert (reachable 2 (quiet W_sleep s [] 0) t) as Hr.
  { apply (reach_step _ _ (mkThreads U_check W_check {| file := s2b "c" |} (s2b "ab") (-1) 2 false));
      [|left; exact (step_finish 2 (mkThreads U_check _ _ _ _ _ _) eq_refl)].
    apply (reach_step _ _ (mkThreads U_check W_check s [] 2 (-1) false));
      [|left; exact (step_worker 2 (mkThreads _ W_check _ _ _ _ _) eq_refl)].
    apply (reach_step _ _ (quiet W_sleep s [] 0)); [apply reach_refl|left; exact (step_start 2 (quiet W_sleep s [] 0) eq_refl)]. }
  split; [exact Hr|]. split.
  - destruct (proj1 (async_read_correct 2 s [] 0 W_sleep ltac:(lia)) ltac:(done) t Hr) as [H _].
    destruct (H 2 eq_refl) as (_ & Hd & _). exact Hd.
  - intros t' Hr'. exact (proj2 (async_read_correct 2 s [] 0 W_exit ltac:(lia)) eq_refl t' Hr' 2).
Defined.
