(* ===== verification/CsvThread.v ===== *)
(** * The whole life of the reader thread of csv.h

    [AsynchronousReader] (src/src/csv.h) from [init] to its destructor: a user
    that makes any number of requests, may leave the last one unfinished, and
    destroys the reader; a worker whose [read] may throw; the exception kept in
    [read_error].  [SynchronousReader] is the reference the threads are compared
    with.  A critical section is one step, as in CsvAsync.v, whose states of the
    worker are used here. *)
From S2P Require Import Prelude CsvReader CsvAsync.

(** ** Definitions *)

Section Threads.
Context {E S : Type} `{!ThrowingSource E S}.

(** The user's calls, and what [finish_read] gives: the count and the buffer, or
    the exception. *)
Inductive call := StartRead (n : Z) | FinishRead.
Abbreviation outcome := (result E (Z * bytes)).

(** The user: running its calls, asleep in [finish_read], and in the destructor
    about to notify, in [join], or done. *)
Inductive life := L_run | L_sleep | L_notify | L_join | L_done.

Record reader := mkReader {
  r_user : life;
  r_calls : list call;
  r_log : list outcome;
  r_worker : worker_pc;
  byte_source : S;
  r_buffer : bytes;
  desired_byte_count : Z;
  read_byte_count : Z;
  read_error : option E;
  termination_requested : bool
}.

(** After [init]; [read_byte_count] is not initialised. *)
Definition reader_start (calls : list call) (s : S) (count : Z) : reader :=
  mkReader L_run calls [] W_check s [] (-1) count None false.

Definition wake_user (u : life) : life := match u with L_sleep => L_run | _ => u end.

(** One round of the worker, from the test of its wait to the next wait or its
    return; [None] when it is not running. *)
Definition worker_round (r : reader) : option reader :=
  match r_worker r with
  | W_check =>
      Some (
        if termination_requested r then
          mkReader (r_user r) (r_calls r) (r_log r) W_exit (byte_source r) (r_buffer r)
            (desired_byte_count r) (read_byte_count r) (read_error r) true
        else if negb (desired_byte_count r =? -1) then
          match try_read (byte_source r) (desired_byte_count r) with
          | inl (data, s) =>
              let n := Z.of_nat (length data) in
              mkReader (wake_user (r_user r)) (r_calls r) (r_log r)
                (if n =? 0 then W_exit else W_check) s data (-1) n (read_error r) false
          | inr (e, s) =>
              mkReader (wake_user (r_user r)) (r_calls r) (r_log r) W_exit s (r_buffer r)
                (desired_byte_count r) (read_byte_count r) (Some e) false
          end
        else
          mkReader (r_user r) (r_calls r) (r_log r) W_sleep (byte_source r) (r_buffer r)
            (desired_byte_count r) (read_byte_count r) (read_error r) false)
  | _ => None
  end.

Definition start_read (n : Z) (calls : list call) (r : reader) : reader :=
  mkReader L_run calls (r_log r) (notify_worker (r_worker r)) (byte_source r) (r_buffer r)
    n (-1) (read_error r) (termination_requested r).

(** The wait of [finish_read] and what follows it. *)
Definition finish_read (calls : list call) (r : reader) : reader :=
  match read_error r with
  | Some e =>
      mkReader L_run calls (r_log r ++ [Throw e]) (r_worker r) (byte_source r) (r_buffer r)
        (desired_byte_count r) (read_byte_count r) (Some e) (termination_requested r)
  | None =>
      if negb (read_byte_count r =? -1) then
        mkReader L_run calls (r_log r ++ [Ok (read_byte_count r, r_buffer r)]) (r_worker r) (byte_source r)
          (r_buffer r) (desired_byte_count r) (read_byte_count r) None (termination_requested r)
      else
        mkReader L_sleep (r_calls r) (r_log r) (r_worker r) (byte_source r)
          (r_buffer r) (desired_byte_count r) (read_byte_count r) None (termination_requested r)
  end.

(** The destructor: the flag under the lock, the notification, the join. *)
Definition set_life (u : life) (w : worker_pc) (t : bool) (r : reader) : reader :=
  mkReader u (r_calls r) (r_log r) w (byte_source r) (r_buffer r)
    (desired_byte_count r) (read_byte_count r) (read_error r) t.

Definition user_round (r : reader) : option reader :=
  match r_user r with
  | L_run =>
      match r_calls r with
      | StartRead n :: calls => Some (start_read n calls r)
      | FinishRead :: calls => Some (finish_read calls r)
      | [] => Some (set_life L_notify (r_worker r) true r)
      end
  | L_notify => Some (set_life L_join (notify_worker (r_worker r)) (termination_requested r) r)
  | L_join =>
      match r_worker r with
      | W_exit => Some (set_life L_done W_exit (termination_requested r) r)
      | _ => None
      end
  | L_sleep | L_done => None
  end.

Inductive reader_step (r : reader) : reader -> Prop :=
  | step_worker r' : worker_round r = Some r' -> reader_step r r'
  | step_user r' : user_round r = Some r' -> reader_step r r'.

(** A wait may end without a notification. *)
Inductive wake_step (r : reader) : reader -> Prop :=
  | wake_worker_step : r_worker r = W_sleep ->
      wake_step r (set_life (r_user r) W_check (termination_requested r) r)
  | wake_user_step : r_user r = L_sleep ->
      wake_step r (set_life L_run (r_worker r) (termination_requested r) r).

Inductive reader_reachable (r0 : reader) : reader -> Prop :=
  | reader_refl : reader_reachable r0 r0
  | reader_next r r' : reader_reachable r0 r -> reader_step r r' \/ wake_step r r' -> reader_reachable r0 r'.

(** A session: a pair of calls per request, and perhaps one more [start_read]. *)
Fixpoint session (ns : list Z) (pending : option Z) : list call :=
  match ns with
  | n :: ns => StartRead n :: FinishRead :: session ns pending
  | [] => match pending with Some n => [StartRead n] | None => [] end
  end.

(** ** Specification *)

(** [SynchronousReader]: [start_read] keeps the count, [finish_read] reads. *)
Fixpoint sync_session (s : S) (ns : list Z) : list outcome :=
  match ns with
  | [] => []
  | n :: ns =>
      match try_read s n with
      | inl (data, s) => Ok (Z.of_nat (length data), data) :: sync_session s ns
      | inr (e, s) => Throw e :: sync_session s ns
      end
  end.

(** What the threads do: an exception is thrown again by every later
    [finish_read]; a request after a read of no bytes is never answered. *)
Fixpoint session_outcomes (s : S) (ns : list Z) : option (list outcome) :=
  match ns with
  | [] => Some []
  | n :: ns =>
      match try_read s n with
      | inr (e, _) => Some (Throw e :: map (fun _ => Throw e) ns)
      | inl ([], _) => match ns with [] => Some [Ok (0, [])] | _ => None end
      | inl (data, s) =>
          os ← session_outcomes s ns; Some (Ok (Z.of_nat (length data), data) :: os)
      end
  end.

(** An outcome after which requests can go on. *)
Definition got_bytes (o : outcome) : bool := match o with Ok (n, _) => negb (n =? 0) | _ => false end.
End Threads.
Arguments reader : clear implicits.
Arguments call : clear implicits.

(** ** Lemmas *)

Section Invariant.
Context {E S : Type} `{!ThrowingSource E S}.
Variables (pending : option Z) (os : list (result E (Z * bytes))).

Definition finishes (calls : list call) : list call :=
  List.filter (fun c => match c with FinishRead => true | _ => false end) calls.

(** Where a session is: [log] holds the outcomes so far, [os'] those to come. *)
Inductive phase : reader E S -> Prop :=
  | P_idle w s b c ns log os' :
      w <> W_exit -> session_outcomes s ns = Some os' -> os = log ++ os' -> Forall (Z.le 0) ns ->
      phase (mkReader L_run (session ns pending) log w s b (-1) c None false)
  | P_asked u s b n ns log os' :
      u = L_run \/ u = L_sleep -> session_outcomes s (n :: ns) = Some os' -> os = log ++ os' ->
      Forall (Z.le 0) (n :: ns) ->
      phase (mkReader u (FinishRead :: session ns pending) log W_check s b n (-1) None false)
  | P_served w s b ns log os' :
      w <> W_exit -> b <> [] -> session_outcomes s ns = Some os' ->
      os = log ++ Ok (Z.of_nat (length b), b) :: os' -> Forall (Z.le 0) ns ->
      phase (mkReader L_run (FinishRead :: session ns pending) log w s b (-1) (Z.of_nat (length b)) None false)
  | P_end s log :
      os = log ++ [Ok (0, [])] ->
      phase (mkReader L_run (FinishRead :: session [] pending) log W_exit s [] (-1) 0 None false)
  | P_failed e calls s b d c log :
      os = log ++ map (fun _ => Throw e) (finishes calls) ->
      phase (mkReader L_run calls log W_exit s b d c (Some e) false)
  | P_last calls w s b d c err :
      finishes calls = [] ->
      phase (mkReader L_run calls os w s b d c err false)
  | P_notify w s b d c err : phase (mkReader L_notify [] os w s b d c err true)
  | P_join w s b d c err : w <> W_sleep -> phase (mkReader L_join [] os w s b d c err true)
  | P_done s b d c err : phase (mkReader L_done [] os W_exit s b d c err true).

Lemma phase_worker r r' : phase r -> worker_round r = Some r' -> phase r'.
Proof.
  intros [w s b c ns log os' Hw Hos Hl Hns|u s b n ns log os' Hu Hos Hl Hns|w s b ns log os' Hw Hb Hos Hl Hns
    |s log Hl|e calls s b d c log Hl|calls w s b d c err Hc|w s b d c err|w s b d c err Hw|s b d c err];
    unfold worker_round; cbn [r_worker]; try done.
  - destruct w; [|done..]. cbn. intros [= <-]. by eapply P_idle.
  - cbn [termination_requested desired_byte_count byte_source]. pose proof (Forall_inv Hns).
    rewrite (proj2 (Z.eqb_neq n (-1))) by lia. cbn [negb r_user r_calls r_log r_buffer read_byte_count read_error].
    assert (wake_user u = L_run) as -> by (by destruct Hu as [-> | ->]).
    cbn [session_outcomes] in Hos. destruct (try_read s n) as [[data s']|[e s']]; intros [= <-].
    + destruct data as [|x data].
      * destruct ns; [|done]. injection Hos as <-. by apply P_end.
      * destruct (session_outcomes s' ns) as [os''|] eqn:Ho; [|done]. injection Hos as <-.
        eapply P_served; [|done..|by inversion Hns]. by destruct (Z.eqb_spec (Z.of_nat (length (x :: data))) 0).
    + injection Hos as <-. apply P_failed. rewrite Hl. f_equal. cbn. f_equal. clear.
      induction ns as [|m ns IH]; [by destruct pending|]. cbn. by rewrite IH.
  - destruct w; [|done..]. cbn. intros [= <-]. by eapply P_served.
  - destruct w; [|done..]. cbn. case_match; [|intros [= <-]; by apply P_last].
    destruct (try_read s d) as [[data s']|[e s']]; intros [= <-]; by apply P_last.
  - destruct w; [|done..]. intros [= <-]. apply P_notify.
  - destruct w; [|done..]. intros [= <-]. by apply P_join.
Qed.

Lemma session_cons n ns : session (n :: ns) pending = StartRead n :: FinishRead :: session ns pending.
Proof. done. Qed.

Lemma notify_running w : w <> W_exit -> notify_worker w = W_check.
Proof. by destruct w. Qed.

Lemma phase_user r r' : phase r -> user_round r = Some r' -> phase r'.
Proof.
  intros [w s b c ns log os' Hw Hos Hl Hns|u s b n ns log os' Hu Hos Hl Hns|w s b ns log os' Hw Hb Hos Hl Hns
    |s log Hl|e calls s b d c log Hl|calls w s b d c err Hc|w s b d c err|w s b d c err Hw|s b d c err];
    unfold user_round; cbn [r_user r_calls].
  - destruct ns as [|n ns].
    + assert (log = os) as -> by (injection Hos as <-; by rewrite Hl, app_nil_r).
      cbn [session]. destruct pending as [n|]; intros [= <-]; [by apply P_last|apply P_notify].
    + rewrite session_cons. intros [= <-]. unfold start_read. cbn -[session_outcomes].
      rewrite notify_running by done. eapply P_asked; [by left|done..].
  - destruct Hu as [-> | ->]; [|done]. intros [= <-]. eapply P_asked; [by right|done..].
  - intros [= <-]. unfold finish_read. cbn. rewrite (proj2 (Z.eqb_neq _ _)) by lia.
    eapply P_idle; [done|done|by rewrite Hl, <- app_assoc|done].
  - intros [= <-]. cbn. rewrite <- Hl. apply P_last. by destruct pending.
  - destruct calls as [|[n|] calls]; intros [= <-].
    + cbn in Hl. rewrite app_nil_r in Hl. subst log. apply P_notify.
    + by apply P_failed.
    + apply P_failed. by rewrite Hl, <- app_assoc.
  - destruct calls as [|[n|] calls]; [| |done]; intros [= <-]; [apply P_notify|by apply P_last].
  - intros [= <-]. apply P_join. by destruct w.
  - destruct w; [done..|]. intros [= <-]. apply P_done.
  - done.
Qed.

Lemma phase_wake r r' : phase r -> wake_step r r' -> phase r'.
Proof.
  intros Hp [Hw|Hu]; destruct Hp; cbn in *; subst; try done; unfold set_life; cbn.
  - by eapply P_idle.
  - by eapply P_served.
  - by apply P_last.
  - apply P_notify.
  - eapply P_asked; [by left|done..].
Qed.

Lemma phase_reachable r0 r : phase r0 -> reader_reachable r0 r -> phase r.
Proof.
  intros H0. induction 1 as [|r r' _ IH [[? Hs|? Hs]|Hs]]; [done|..].
  - by eapply phase_worker.
  - by eapply phase_user.
  - by eapply phase_wake.
Qed.

Lemma phase_done r : phase r -> r_user r = L_done -> r_log r = os /\ r_worker r = W_exit.
Proof. intros []; cbn; try done. by intros ->; destruct H. Qed.

(** Short of the end of the destructor, one of the threads can run. *)
Lemma phase_progress r : phase r -> r_user r <> L_done -> exists r', reader_step r r'.
Proof.
  intros Hp Hd.
  assert (r_worker r = W_check \/ is_Some (user_round r)) as [Hw|[r' Hu]].
  { destruct Hp as [| |  | | |calls w s b d c err Hc| |w s b d c err Hw|]; cbn in *; unfold user_round; cbn.
    - right. by destruct (session ns pending) as [|[]].
    - by left.
    - by right.
    - by right.
    - right. by destruct calls as [|[]].
    - right. by destruct calls as [|[]].
    - by right.
    - destruct w; [by left|done|by right].
    - done. }
  - eexists. apply step_worker. unfold worker_round. by rewrite Hw.
  - exists r'. by apply step_user.
Qed.
End Invariant.

(** A bound on the steps left: every step but a spurious wake-up lowers it. *)
Definition reader_steps {E S} (r : reader E S) : nat :=
  4 * length (r_calls r) +
  match r_user r with L_run => 10 | L_sleep => 9 | L_notify => 6 | L_join => 3 | L_done => 0 end +
  match r_worker r with
  | W_check => if desired_byte_count r =? -1 then 1 else 3
  | W_sleep => if desired_byte_count r =? -1 then 0 else 2
  | W_exit => 0
  end.

Lemma reader_steps_decrease {E S} `{!ThrowingSource E S} (r r' : reader E S) :
  reader_step r r' -> (reader_steps r' < reader_steps r)%nat.
Proof.
  destruct r as [u cs l w s b d c err t]. intros [r1 H|r1 H]; revert H.
  - unfold worker_round, reader_steps. cbn. destruct w; [|done..].
    destruct t; [intros [= <-]; cbn; destruct (d =? -1); lia|].
    destruct (d =? -1) eqn:Hd; cbn [negb]; [intros [= <-]; cbn; rewrite Hd; lia|].
    destruct (try_read s d) as [[data s']|[e s']]; intros [= <-]; cbn; [|destruct u; cbn; lia].
    change (-1 =? -1) with true. destruct (_ =? 0), u; cbn; lia.
  - unfold user_round, reader_steps. cbn. destruct u; try done.
    + destruct cs as [|[n|] cs]; intros [= <-]; cbn; [lia|destruct w, (d =? -1), (n =? -1); cbn; lia|].
      unfold finish_read. cbn. destruct err; [cbn; lia|]. destruct (c =? -1); cbn; lia.
    + intros [= <-]. cbn. destruct w, (d =? -1); cbn; lia.
    + destruct w; [done..|]. intros [= <-]. cbn. lia.
Qed.

Lemma removelast_more {A} (x : A) l : l <> [] -> removelast (x :: l) = x :: removelast l.
Proof. by destruct l. Qed.

(** Up to the first exception and the first empty read, the threads answer as the
    synchronous reader does. *)
Lemma session_outcomes_sync {E S} `{!ThrowingSource E S} (s : S) ns :
  Forall (fun o => got_bytes o = true) (removelast (sync_session s ns)) ->
  session_outcomes s ns = Some (sync_session s ns).
Proof.
  revert s. induction ns as [|n ns IH]; intros s; [done|]. cbn [sync_session session_outcomes].
  destruct (try_read s n) as [[data s']|[e s']].
  - destruct ns as [|m ns]; [by destruct data|].
    intros H. assert (sync_session s' (m :: ns) <> []) as Hne by (cbn; repeat case_match; done).
    rewrite removelast_more in H by done. apply Forall_cons_iff in H as [Hb H]. destruct data; [done|].
    by rewrite (IH s' H).
  - destruct ns as [|m ns]; [done|]. intros H.
    assert (sync_session s' (m :: ns) <> []) as Hne by (cbn; repeat case_match; done).
    rewrite removelast_more in H by done. by apply Forall_cons_iff in H as [Hb H].
Qed.

Lemma phase_start {E S} `{!ThrowingSource E S} pending (s : S) ns c os :
  session_outcomes s ns = Some os -> Forall (Z.le 0) ns ->
  phase pending os (reader_start (session ns pending) s c).
Proof. intros Hos Hns. by eapply P_idle. Qed.

(** *** A scheduled run *)

(** Run the worker at [true], the user at [false]. *)
Fixpoint run_schedule {E S} `{!ThrowingSource E S} (sched : list bool) (r : reader E S) : option (reader E S) :=
  match sched with
  | [] => Some r
  | b :: sched =>
      r' ← (if b : bool then worker_round r else user_round r);
      run_schedule sched r'
  end.

Lemma run_schedule_reachable {E S} `{!ThrowingSource E S} sched (r0 r r' : reader E S) :
  reader_reachable r0 r -> run_schedule sched r = Some r' -> reader_reachable r0 r'.
Proof.
  revert r. induction sched as [|b sched IH]; intros r Hr; cbn; [by intros [= <-]|].
  destruct b; [destruct (worker_round r) as [r1|] eqn:E1|destruct (user_round r) as [r1|] eqn:E1]; [|done| |done];
    cbn; apply IH; (eapply reader_next; [done|left]); [by apply step_worker|by apply step_user].
Qed.

(** A source that gives its chunks one by one; a [None] throws. *)
#[local] Instance chunks : ThrowingSource ascii (list (option bytes)) := fun s n =>
  match s with
  | [] => inl ([], [])
  | Some d :: s => inl (take (Z.to_nat n) d, s)
  | None :: s => inr ("!"%char, s)
  end.

(** ** Properties *)

(** C15: a session of requests of which none follows a read of no bytes (the worker
    leaves at the end of the source, and a [finish_read] after that would wait for
    ever; [session_outcomes] has no value there) and whose last [start_read] may
    be left without its [finish_read] always comes to the end of the destructor,
    whatever the interleaving: as long as the destructor has not returned some
    thread can move (no notification is lost), every move but a spurious wake-up
    comes closer to the end, and at the end the thread is joined and each
    [finish_read] gave what the source does: the bytes, or the exception, which
    every later call throws again. *)
Theorem reader_session {E S} `{!ThrowingSource E S} (s : S) ns pending c os r :
  session_outcomes s ns = Some os -> Forall (Z.le 0) ns ->
  reader_reachable (reader_start (session ns pending) s c) r ->
  (r_user r = L_done -> r_log r = os /\ r_worker r = W_exit) /\
  (r_user r <> L_done -> exists r', reader_step r r') /\
  (forall r', reader_step r r' -> (reader_steps r' < reader_steps r)%nat).
Proof.
  intros Hos Hns Hr.
  assert (phase pending os r) as Hp by (eapply phase_reachable; [by apply phase_start|done]).
  split; [by apply (phase_done pending)|]. split; [by apply (phase_progress pending os)|].
  apply reader_steps_decrease.
Qed.

(** Three requests of which the second throws, and one left pending. *)
Lemma reader_session_witness :
  let s := [Some (s2b "ab"); None; Some (s2b "cd")] in
  let os := [Ok (2, s2b "ab"); Throw "!"%char; Throw "!"%char] in
  session_outcomes s [4; 4; 4] = Some os /\
  exists r, reader_reachable (reader_start (session [4; 4; 4] (Some 4)) s 7) r /\
    r_user r = L_done /\ r_log r = os /\ r_worker r = W_exit.
Proof.
  intros s os. split; [reflexivity|].
  pose (r := mkReader L_done [] os W_exit [Some (s2b "cd")] (s2b "ab") 4 (-1) (Some "!"%char) true).
  assert (reader_reachable (reader_start (session [4; 4; 4] (Some 4)) s 7) r) as Hr.
  { apply (run_schedule_reachable [true; false; false; true; false; false; false; true; false; false;
      false; false; false; false; false] _ _ _ (reader_refl _)). vm_compute. reflexivity. }
  exists r. split; [exact Hr|]. split; [reflexivity|].
  apply (reader_session s [4; 4; 4] (Some 4) 7 os r); [reflexivity| |exact Hr|reflexivity].
  repeat (apply List.Forall_cons; [lia|]); apply List.Forall_nil.
Defined.

(** C16: the threads are equivalent to [SynchronousReader]: when no request
    follows an exception or an empty read, every complete run of the asynchronous reader answers the same sequence of calls
    with the same counts, bytes and exceptions. *)
Theorem async_equals_sync {E S} `{!ThrowingSource E S} (s : S) ns pending c r :
  Forall (fun o => got_bytes o = true) (removelast (sync_session s ns)) -> Forall (Z.le 0) ns ->
  reader_reachable (reader_start (session ns pending) s c) r ->
  r_user r = L_done -> r_log r = sync_session s ns.
Proof.
  intros Hb Hns Hr Hd. apply session_outcomes_sync in Hb.
  eapply (phase_done pending); [|done]. eapply phase_reachable; [by apply phase_start|done].
Qed.

Lemma async_equals_sync_witness :
  let s := [Some (s2b "ab"); Some (s2b "c")] in
  exists r, reader_reachable (reader_start (session [4; 4; 4] None) s 0) r /\
    r_user r = L_done /\ r_log r = sync_session s [4; 4; 4] /\
    sync_session s [4; 4; 4] = [Ok (2, s2b "ab"); Ok (1, s2b "c"); Ok (0, [])].
Proof.
  intros s.
  pose (r := mkReader L_done [] (sync_session s [4; 4; 4]) W_exit ([] : list (option bytes)) [] (-1) 0 (None (A:=ascii)) true).
  assert (reader_reachable (reader_start (session [4; 4; 4] None) s 0) r) as Hr.
  { apply (run_schedule_reachable [false; true; false; false; false; true; false; false; false; true;
      false; false; false; false] _ _ _ (reader_refl _)). vm_compute. reflexivity. }
  exists r. split; [exact Hr|]. split; [reflexivity|]. split; [|reflexivity].
  refine (async_equals_sync s [4; 4; 4] None 0 r _ _ Hr eq_refl);
    repeat first [apply List.Forall_cons; [first [reflexivity|lia]|]|apply List.Forall_nil].
Defined.
