(* ===== verification/CsvFailing.v ===== *)
(** * Line readers over sources that fail

    A byte source of csv.h may throw from [read], for instance an [std::istream]
    whose exceptions are enabled; the reader thread keeps the exception and
    [finish_read] throws it to the caller of [next_line].  Which lines come before
    it, and the calls of [LineReader] as a session of the threads of
    CsvThread.v. *)
From S2P Require Import Prelude CLib CsvError CsvAsync CsvThread CsvReader.

(** ** Definitions *)

(** A source that gives the bytes of [content] and throws at the first read that
    asks for more. *)
Class FailingSource (X S : Type) `{!ThrowingSource X S} := {
  #[global] failing_content :: Content S;
  failure : S -> X;
  failing_read s n :
    0 <= n ->
    exists s', if n <=? Z.of_nat (length (content s))
      then try_read s n = inl (take (Z.to_nat n) (content s), s') /\
           content s' = drop (Z.to_nat n) (content s) /\ failure s' = failure s
      else try_read s n = inr (failure s, s')
}.

(** [NonOwningIStreamByteSource] on a stream with [exceptions(failbit)]: [read] of
    more than the stream has sets the bit and throws [std::ios_base::failure]. *)
Inductive stream_exception :=
  | OfCsv (e : csv_error)
  | IosFailure.

#[export] Instance stream_throws : CsvThrows stream_exception := OfCsv.

Record StrictIStreamByteSource := { strict : bytes }.

#[export] Instance strict_read : ThrowingSource stream_exception StrictIStreamByteSource := fun s n =>
  let s' := {| strict := drop (Z.to_nat n) (strict s) |} in
  if n <=? Z.of_nat (length (strict s)) then inl (take (Z.to_nat n) (strict s), s') else inr (IosFailure, s').

#[export] Program Instance strict_fails : FailingSource stream_exception StrictIStreamByteSource :=
  {| failing_content := strict; failure _ := IosFailure |}.
Next Obligation.
  intros s n Hn. exists {| strict := drop (Z.to_nat n) (strict s) |}. unfold try_read, strict_read, content.
  by destruct (n <=? Z.of_nat (length (strict s))).
Qed.

(** Reading on: the lines, and how it ended. *)
Section Until.
Context {X S : Type} `{!ThrowingSource X S} `{!CsvThrows X}.

Fixpoint read_lines_until (block_len : Z) (fuel : nat) (st : LineReader S) : list bytes * result X unit :=
  match fuel with
  | O => ([], Undefined OutOfFuel)
  | Datatypes.S fuel' =>
      match next_line block_len st with
      | Ok (None, _) => ([], Ok tt)
      | Ok (Some ptr, st) =>
          let '(ls, r) := read_lines_until block_len fuel' st in
          (cstr (drop (Z.to_nat ptr) (buffer st)) :: ls, r)
      | Throw e => ([], Throw e)
      | Undefined f => ([], Undefined f)
      end
  end.

(** The constructor and the lines. *)
Definition read_source (block_len : Z) (name : option bytes) (src : S) (junk : bytes) (fuel : nat)
    : list bytes * result X unit :=
  match LineReader_init block_len name src junk with
  | Ok st => read_lines_until block_len fuel st
  | Throw e => ([], Throw e)
  | Undefined f => ([], Undefined f)
  end.
End Until.

(** ** Specification *)

(** The lines of [p] that start before [limit], the first starting at [off]; then
    the exception [e]. *)
Fixpoint cut_until {X} `{!CsvThrows X} (block_len : Z) (name : bytes) (e : X) (limit : Z) (fuel : nat)
    (n off : Z) (p : bytes) : list bytes * result X unit :=
  match fuel with
  | O => ([], Undefined OutOfFuel)
  | S fuel' =>
      if limit <=? off then ([], Throw e)
      else
        let '(line, rest) := break_line p in
        if block_len <? Z.of_nat (length line) + 1 then
          ([], Throw (csv_throw (set_file_line (i32 (u32 (n + 1)))
                 (set_file_name (Some name) (make_error line_length_limit_exceeded)))))
        else
          let '(ls, r) := cut_until block_len name e limit fuel' (u32 (n + 1))
                            (off + Z.of_nat (length line) + 1) rest in
          (cstr (strip_cr line) :: ls, r)
  end.

(** ** Lemmas *)

Section Lemmas.
Context {X S : Type} `{!ThrowingSource X S} `{!CsvThrows X} `{!FailingSource X S}.
Variable block_len : Z.
Hypothesis block_len_pos : 0 < block_len.

(** What the parts of [next_line] do to the reader. *)
Lemma next_line_inv (st st' : LineReader S) ptr :
  next_line block_len st = Ok (Some ptr, st') ->
  exists st1 e, refill block_len (set_lr_file_line (u32 (lr_file_line st + 1)) st) = Ok st1 /\
    reader st' = reader st1 /\ data_end st' = (if e : bool then data_end st1 else data_end st1 + 1).
Proof.
  unfold next_line. destruct (data_begin st =? data_end st); [done|]. destruct (negb _); [done|].
  destruct (negb _); [done|]. destruct (refill _ _) as [st1|x|f]; cbn [mbind result_bind]; [|done..].
  destruct (scan_line st1) as [le|x|f]; cbn [mbind result_bind]; [|done..].
  destruct (_ <? _); [done|]. unfold cut_line.
  destruct (read (buffer st1) le) as [c|x|f]; cbn [mbind result_bind]; [|done..].
  destruct (write (buffer st1) le NUL) as [buf|x|f]; cbn [mbind result_bind]; [|done..].
  set (m := if negb (le =? data_begin st1) then _ else _). destruct m as [buf'|x|f]; cbn [mbind result_bind]; [|done..].
  intros [= <- <-]. exists st1, (bool_decide (c = LF) && negb (le =? data_end st1)). cbn. by destruct (_ && _).
Qed.

(** A state in the middle of a failing source: two full blocks in the buffer. *)
Definition failing_at (st : LineReader S) (s : S) : Prop :=
  lr_wf block_len st /\ data_begin st < data_end st /\ data_end st = 2 * block_len /\
  byte_source (reader st) = Some s /\ worker_done (reader st) = false.

Lemma failing_pending (st : LineReader S) (s : S) :
  lr_wf block_len st -> data_end st = 2 * block_len -> byte_source (reader st) = Some s ->
  Z.of_nat (length (pending st)) = 2 * block_len - data_begin st + Z.of_nat (length (content s)).
Proof.
  intros (Hl & Hb & _) He Hs. unfold pending, unread_source. rewrite Hs.
  rewrite length_app, length_take, length_drop. lia.
Qed.

(** The bytes for the refill are not there. *)
Lemma refill_fails (st : LineReader S) (s : S) :
  failing_at st s -> block_len <= data_begin st -> Z.of_nat (length (content s)) < block_len ->
  refill block_len st = Throw (failure s).
Proof.
  intros ((Hl & Hb & He & Hsrc & Hr & Hw) & Hlt & Hend & Hs & Hd) Hge Hshort. unfold refill.
  rewrite (proj2 (Z.leb_le _ _)) by done.
  destruct (split_three (buffer st) (Z.to_nat block_len) ltac:(lia)) as (b0 & b1 & b2 & Hbuf & H0 & H1 & H2).
  rewrite Hbuf, memcpy_first by lia. cbn [mbind result_bind]. unfold is_valid in *. rewrite Hs in *.
  destruct (Hr eq_refl) as [_ Hn]. unfold finish_read. rewrite Hs, Hd, Hn.
  destruct (failing_read s block_len ltac:(lia)) as (s' & E). rewrite (proj2 (Z.leb_gt _ _)) in E by done.
  by rewrite E.
Qed.

(** They are. *)
Lemma refill_reader (st : LineReader S) (s : S) st1 :
  failing_at st s -> block_len <= data_begin st -> block_len <= Z.of_nat (length (content s)) ->
  refill block_len st = Ok st1 ->
  exists s1, byte_source (reader st1) = Some s1 /\ worker_done (reader st1) = false /\
    data_end st1 = 2 * block_len /\ failure s1 = failure s /\
    Z.of_nat (length (content s1)) = Z.of_nat (length (content s)) - block_len.
Proof.
  intros ((Hl & Hb & He & Hsrc & Hr & Hw) & Hlt & Hend & Hs & Hd) Hge Hlong. unfold refill.
  rewrite (proj2 (Z.leb_le _ _)) by done.
  destruct (memcpy_within _ _ _ _) as [buf|x|f]; cbn [mbind result_bind]; [|done..]. unfold is_valid in *.
  rewrite Hs in *. destruct (Hr eq_refl) as [_ Hn]. unfold finish_read. rewrite Hs, Hd, Hn.
  destruct (failing_read s block_len ltac:(lia)) as (s' & E). rewrite (proj2 (Z.leb_le _ _)) in E by done.
  destruct E as (-> & Hc & Hf). destruct (blit _ _ _) as [m|x|f]; cbn [mbind result_bind]; [|done..].
  destruct (memcpy_within _ _ _ _) as [m'|x|f]; cbn [mbind result_bind]; [|done..]. intros [= <-]. cbn.
  exists s'. split; [done|]. rewrite Hc, length_drop, length_take. split; [apply Nat.eqb_neq; lia|].
  split; [lia|]. split; [done|lia].
Qed.

Lemma failing_can_refill (st : LineReader S) (s : S) :
  byte_source (reader st) = Some s -> (block_len <= data_begin st -> block_len <= Z.of_nat (length (content s))) ->
  can_refill (X := X) block_len st.
Proof.
  intros Hs H s' Hge E. rewrite Hs in E. injection E as <-. specialize (H Hge).
  destruct (failing_read s block_len ltac:(lia)) as (s' & E). rewrite (proj2 (Z.leb_le _ _)) in E by done.
  exists s'. tauto.
Qed.

(** A line of a failing source. *)
Lemma failing_next (st st' : LineReader S) (s : S) ptr line rest :
  failing_at st s -> (block_len <= data_begin st -> block_len <= Z.of_nat (length (content s))) ->
  next_line block_len st = Ok (Some ptr, st') -> break_line (pending st) = (line, rest) ->
  Z.of_nat (length line) + 1 <= block_len -> lr_wf block_len st' -> pending st' = rest ->
  exists s', failing_at st' s' /\ failure s' = failure s /\
    Z.of_nat (length (content s')) / block_len * block_len - data_begin st' =
    Z.of_nat (length (content s)) / block_len * block_len - data_begin st - (Z.of_nat (length line) + 1).
Proof.
  intros Hat Hc E Eb Hline Hwf' Hp'. destruct (next_line_inv _ _ _ E) as (st1 & e & Hrefill & Hr & He').
  pose proof Hat as (Hwf & Hlt & Hend & Hs & Hd).
  pose proof (failing_pending st s Hwf Hend Hs) as Hlen.
  assert (Z.of_nat (length rest) = Z.of_nat (length (pending st)) - (Z.of_nat (length line) + 1)) as Hrest.
  { destruct (break_line_spec _ _ _ Eb) as [_ [-> |[Hp ->]]]; [rewrite length_app; simpl; lia|].
    rewrite Hp in Hlen. destruct (decide (block_len <= data_begin st)) as [Hge|]; [specialize (Hc Hge)|]; lia. }
  assert (exists s', byte_source (reader st1) = Some s' /\ worker_done (reader st1) = false /\
    data_end st1 = 2 * block_len /\ failure s' = failure s /\
    (if block_len <=? data_begin st then Z.of_nat (length (content s')) = Z.of_nat (length (content s)) - block_len
     else s' = s)) as (s' & Hs' & Hd' & Hend1 & Hf & Hc').
  { destruct (Z.leb_spec block_len (data_begin st)) as [Hge|Hsmall].
    - eapply (refill_reader (set_lr_file_line _ st)); [exact Hat|exact Hge|by apply Hc|exact Hrefill].
    - unfold refill in Hrefill. cbn in Hrefill. rewrite (proj2 (Z.leb_gt _ _)) in Hrefill by done.
      injection Hrefill as <-. by exists s. }
  assert (data_end st' = 2 * block_len) as Hend' by (destruct Hwf' as (_ & _ & ? & _), e; lia).
  pose proof (failing_pending st' s' Hwf' Hend') as Hlen'. rewrite Hr in Hlen'. specialize (Hlen' Hs').
  rewrite Hp', Hrest, Hlen in Hlen'. pose proof Hwf as (_ & Hb & _).
  exists s'. destruct (Z.leb_spec block_len (data_begin st)) as [Hge|Hsmall].
  - split; [split; [done|]; rewrite Hr; repeat split; try done; lia|]. split; [done|].
    rewrite Hc'. replace (Z.of_nat (length (content s)) - block_len) with
      (Z.of_nat (length (content s)) + (-1) * block_len) by lia. rewrite Z.div_add by lia. nia.
  - subst s'. split; [split; [done|]; rewrite Hr; repeat split; try done; lia|]. split; [done|]. lia.
Qed.

Lemma read_until_cut fuel : forall (st : LineReader S) (s : S) limit off,
  failing_at st s -> (length (pending st) < fuel)%nat ->
  limit - off = block_len + Z.of_nat (length (content s)) / block_len * block_len - data_begin st ->
  read_lines_until block_len fuel st =
    cut_until block_len (lr_file_name st) (failure s) limit fuel (lr_file_line st) off (pending st).
Proof.
  induction fuel as [|fuel IH]; intros st s limit off Hat Hfuel Hlim; [lia|].
  pose proof Hat as (Hwf & Hlt & Hend & Hs & Hd). pose proof (failing_pending st s Hwf Hend Hs) as Hlen.
  cbn [read_lines_until cut_until]. destruct (Z.leb_spec limit off) as [Hle|Hgt].
  - assert (block_len <= data_begin st /\ Z.of_nat (length (content s)) < block_len) as [Hge Hshort].
    { pose proof (Zle_0_nat (length (content s))). destruct (Z.lt_ge_cases (Z.of_nat (length (content s))) block_len).
      - rewrite Z.div_small in Hlim by lia. lia.
      - assert (1 <= Z.of_nat (length (content s)) / block_len) by (apply Z.div_le_lower_bound; lia). nia. }
    unfold next_line. rewrite (proj2 (Z.eqb_neq _ _)), (proj2 (Z.ltb_lt _ _)), (proj2 (Z.leb_le _ _)) by (cbn; lia).
    cbn [negb]. by rewrite (refill_fails (set_lr_file_line _ st) s).
  - assert (block_len <= data_begin st -> block_len <= Z.of_nat (length (content s))) as Hc.
    { intros Hge. destruct (Z.le_gt_cases block_len (Z.of_nat (length (content s)))); [done|].
      rewrite Z.div_small in Hlim by lia. lia. }
    pose proof (next_line_reads block_len block_len_pos st Hwf) as Hpost. unfold next_line_post in Hpost.
    specialize (Hpost ltac:(intros Hnil; rewrite Hnil in Hlen; simpl in Hlen; lia) (failing_can_refill st s Hs Hc)).
    destruct (break_line (pending st)) as [line rest] eqn:Eb. case_match; [by rewrite Hpost|]. bool2prop.
    destruct Hpost as (st' & ptr & E & Hwf' & Hp' & Ht & _ & _ & Hname & Hnum). rewrite E.
    destruct (failing_next st st' s ptr line rest) as (s' & Hat' & Hf & Hoff); [done..|lia|done|done|].
    rewrite (IH st' s' limit (off + Z.of_nat (length line) + 1)); [|done| |lia].
    + rewrite Hname, Hnum, Hp', Hf. destruct (cut_until _ _ _ _ _ _ _ _). by rewrite (text_at_cstr _ _ _ Ht).
    + pose proof (break_line_rest _ _ _ Eb) as Hl. rewrite Hp'.
      enough (length rest < length (pending st))%nat by lia. apply Hl. intros Hnil. rewrite Hnil in Hlen. simpl in Hlen. lia.
Qed.

(** The constructor of a line reader. *)
Lemma LineReader_init_inv name (src : S) junk (st : LineReader S) :
  LineReader_init block_len name src junk = Ok st ->
  exists data src', try_read src (2 * block_len) = inl (data, src') /\
    data_end st = Z.of_nat (length data) /\
    reader st = if Z.of_nat (length data) =? 2 * block_len
                then start_read (2 * block_len) block_len (reader_init src') else reader_unset.
Proof.
  unfold LineReader_init. destruct (try_read src (2 * block_len)) as [[data src']|[e src']]; cbn [mbind result_bind]; [|done].
  destruct (blit _ _ _) as [buf|x|f]; cbn [mbind result_bind]; [|done..].
  set (bom := if _ <=? _ then _ else _). destruct bom as [b|x|f]; cbn [mbind result_bind]; [|done..].
  intros [= <-]. by exists data, src'.
Qed.

Lemma strip_bom_length p : (length p <= length (strip_bom p) + 3)%nat /\ (length (strip_bom p) <= length p)%nat.
Proof. unfold strip_bom. repeat case_match; simpl; lia. Qed.

Lemma LineReader_init_fails name (src : S) junk :
  Z.of_nat (length (content src)) < 2 * block_len ->
  LineReader_init block_len name src junk = Throw (failure src).
Proof.
  intros Hl. unfold LineReader_init. destruct (failing_read src (2 * block_len) ltac:(lia)) as (s' & E).
  rewrite (proj2 (Z.leb_gt _ _)) in E by done. by rewrite E.
Qed.

Lemma LineReader_init_failing name (src : S) junk :
  1 < block_len -> Z.of_nat (length junk) = 3 * block_len ->
  2 * block_len <= Z.of_nat (length (content src)) ->
  exists st s, LineReader_init block_len name src junk = Ok st /\ failing_at st s /\ failure s = failure src /\
    pending st = strip_bom (content src) /\ lr_file_line st = 0 /\
    lr_file_name st = copy_name max_file_name_length name /\
    Z.of_nat (length (content s)) = Z.of_nat (length (content src)) - 2 * block_len.
Proof.
  intros Hbl Hjunk Hl. destruct (failing_read src (2 * block_len) ltac:(lia)) as (s & E).
  rewrite (proj2 (Z.leb_le _ _)) in E by done. destruct E as (E & Hc & Hf).
  destruct (LineReader_init_reads block_len name src junk Hbl Hjunk) as (st & Ei & Hwf & Hp & Hn & Hname);
    [by exists s|].
  destruct (LineReader_init_inv _ _ _ _ Ei) as (data & s' & E' & Hend & Hr). rewrite E in E'. injection E' as <- <-.
  rewrite length_take in Hend, Hr. rewrite (proj2 (Z.eqb_eq _ _)) in Hr by lia.
  assert (data_end st = 2 * block_len) as Hend' by lia.
  pose proof (failing_pending st s Hwf Hend' ltac:(by rewrite Hr)) as Hlen.
  pose proof (strip_bom_length (content src)) as Hbom. rewrite Hp, Hc, length_drop in Hlen.
  exists st, s. split; [done|]. split; [split; [done|]; rewrite Hr; repeat split; try done; lia|].
  repeat (split; [done|]). rewrite Hc, length_drop. lia.
Qed.
End Lemmas.

(** *** The calls of a line reader as a session of the threads *)

Section Calls.
Context {X S : Type} `{!ThrowingSource X S}.

(** [k] times [finish_read] and the next [start_read]; the bytes are those in the
    memory at the destination. *)
Fixpoint line_reader_calls (dst n : Z) (k : nat) (r : AsynchronousReader S) (mem : bytes)
    : list (result X (Z * bytes)) :=
  match k with
  | O => []
  | Datatypes.S k' =>
      match finish_read r mem with
      | Ok (count, mem', r') =>
          Ok (count, take (Z.to_nat count) (drop (Z.to_nat dst) mem')) ::
            line_reader_calls dst n k' (start_read dst n r') mem'
      | Throw e => [Throw e]
      | Undefined f => [Undefined f]
      end
  end.

(** The caller of [next_line] is left by the first exception. *)
Fixpoint until_throw (os : list (result X (Z * bytes))) : list (result X (Z * bytes)) :=
  match os with
  | Ok x :: os' => Ok x :: until_throw os'
  | o :: _ => [o]
  | [] => []
  end.

(** [read(buffer, size)] stores at most [size] bytes. *)
Definition fits_requests : Prop :=
  forall s n data s', 0 <= n -> try_read s n = inl (data, s') -> Z.of_nat (length data) <= n.

Lemma line_reader_calls_session dst n : forall k (s : S) mem os,
  fits_requests -> 0 <= n -> 0 <= dst -> dst + n <= Z.of_nat (length mem) ->
  session_outcomes s (replicate k n) = Some os ->
  line_reader_calls dst n k (start_read dst n (reader_init s)) mem = until_throw os.
Proof.
  induction k as [|k IH]; intros s mem os Hfits Hn Hd Hm; [by intros [= <-]|].
  cbn [replicate session_outcomes line_reader_calls]. unfold finish_read. cbn.
  destruct (try_read s n) as [[data s']|[e s']] eqn:E; [|by intros [= <-]].
  pose proof (Hfits s n data s' Hn E) as Hlen.
  assert (exists pre old post, mem = pre ++ old ++ post /\ Z.of_nat (length pre) = dst /\
    length old = length data) as (pre & old & post & -> & Hpre & Hold).
  { exists (take (Z.to_nat dst) mem), (take (length data) (drop (Z.to_nat dst) mem)),
      (drop (length data) (drop (Z.to_nat dst) mem)).
    rewrite take_drop, take_drop, !length_take, length_drop. split; [done|lia]. }
  rewrite (blit_middle pre old data post) by lia. cbn [mbind result_bind].
  rewrite drop_app_length' by lia. rewrite Nat2Z.id, take_app_length.
  destruct data as [|x data].
  - destruct k; [intros [= <-]; done|]. cbn [replicate]. done.
  - destruct (session_outcomes s' (replicate k n)) as [os'|] eqn:Eo; cbn [mbind option_bind]; [|done].
    intros [= <-]. cbn [until_throw]. f_equal.
    apply (IH s'); [done..| |done]. rewrite !length_app in *. lia.
Qed.
End Calls.

(** ** Properties *)

(** C17: a line reader over a source that gives the bytes [c] and then throws: the
    lines that start before the last whole block of [c] come first, as they would
    from a source that goes on, and then [next_line] (or the constructor, when [c]
    has not two blocks) throws the source's exception; a line that is too long
    before that throws as usual.  The bytes of the last whole block and those
    after it are read but no line that starts in them is delivered. *)
Theorem read_source_fails {X S} `{!ThrowingSource X S} `{!CsvThrows X} `{!FailingSource X S}
    block_len name (src : S) junk fuel :
  1 < block_len -> Z.of_nat (length junk) = 3 * block_len -> (length (content src) < fuel)%nat ->
  let size p := Z.of_nat (length p) in
  let c := content src in
  read_source block_len name src junk fuel =
    cut_until block_len (copy_name max_file_name_length name) (failure src)
      ((size c / block_len - 1) * block_len) fuel 0 (size c - size (strip_bom c)) (strip_bom c).
Proof.
  intros Hbl Hjunk Hfuel size c. fold c in Hfuel. unfold read_source. pose proof (strip_bom_length c) as Hbom.
  destruct (Z.lt_ge_cases (size c) (2 * block_len)) as [Hs|Hs].
  - rewrite (LineReader_init_fails block_len name src junk) by done. destruct fuel; [lia|]. cbn [cut_until].
    assert (size c / block_len < 2) by (apply Z.div_lt_upper_bound; lia).
    rewrite (proj2 (Z.leb_le _ _)); [done|]. subst size. cbn beta. nia.
  - destruct (LineReader_init_failing block_len ltac:(lia) name src junk Hbl Hjunk Hs)
      as (st & s & -> & Hat & Hf & Hp & Hnum & Hname & Hc).
    pose proof Hat as (Hwf & _ & Hend & Hbs & _). pose proof (failing_pending block_len ltac:(lia) st s Hwf Hend Hbs) as Hlen.
    rewrite (read_until_cut block_len ltac:(lia) fuel st s ((size c / block_len - 1) * block_len)
      (size c - size (strip_bom c))); [by rewrite Hp, Hnum, Hname, Hf|done|rewrite Hp; fold c; lia|].
    rewrite Hp in Hlen. fold c in Hlen, Hc. rewrite Hc in *.
    replace (Z.of_nat (length c) - 2 * block_len) with (Z.of_nat (length c) + (-2) * block_len) by lia.
    rewrite Z.div_add by lia. subst size. cbn beta. lia.
Qed.

(** 30 bytes in blocks of eight: three whole blocks, so the lines that start in the
    first 16 bytes. *)
Lemma read_source_fails_witness :
  let text := s2b "a,b" ++ [LF] ++ s2b "1,2" ++ [CR; LF] ++ s2b "33,44" ++ [LF] ++ s2b "5,6" ++ [LF] ++
    s2b "7,8" ++ [LF] ++ s2b "9,10" in
  read_source 8 None {| strict := text |} (replicate 24 NUL) 100 =
    ([s2b "a,b"; s2b "1,2"; s2b "33,44"; s2b "5,6"], Throw IosFailure) /\
  read_source 8 None {| strict := take 15 text |} (replicate 24 NUL) 100 = ([], Throw IosFailure).
Proof.
  split.
  - etransitivity; [apply read_source_fails; [lia|reflexivity|vm_compute; lia]|]. vm_compute. reflexivity.
  - etransitivity; [apply read_source_fails; [lia|reflexivity|vm_compute; lia]|]. vm_compute. reflexivity.
Defined.

(** C18: the calls of a line reader, over the threads.  For a session of [k] requests
    of the same size, every complete run of the two threads, whatever its
    interleaving, answers [finish_read] with the counts, bytes and exceptions that
    [LineReader] is modelled with, up to the first exception, which leaves
    [next_line]. *)
Theorem line_reader_over_threads {X S} `{!ThrowingSource X S} dst n k (s : S) mem os pending c (r : CsvThread.reader X S) :
  fits_requests (X := X) (S := S) -> 0 <= n -> 0 <= dst -> dst + n <= Z.of_nat (length mem) ->
  session_outcomes s (replicate k n) = Some os ->
  reader_reachable (reader_start (session (replicate k n) pending) s c) r -> r_user r = L_done ->
  until_throw (r_log r) = line_reader_calls dst n k (start_read dst n (reader_init s)) mem.
Proof.
  intros Hfits Hn Hd Hm Hos Hr Hdone. rewrite (line_reader_calls_session dst n k s mem os) by done. f_equal.
  eapply (phase_done pending); [|done]. eapply phase_reachable; [|exact Hr].
  apply phase_start; [done|]. by apply Forall_replicate.
Qed.

Lemma strict_fits : fits_requests (X := stream_exception) (S := StrictIStreamByteSource).
Proof.
  intros s n data s' Hn. unfold try_read, strict_read. case_match; intros [= <- <-]. rewrite length_take. lia.
Qed.

(** Two reads of two bytes, and a third that throws. *)
Lemma line_reader_over_threads_witness :
  let s := {| strict := s2b "abcde" |} in
  let answers := [Ok (2, s2b "ab"); Ok (2, s2b "cd"); Throw IosFailure] in
  exists r, reader_reachable (reader_start (session [2; 2; 2] None) s 0) r /\ r_user r = L_done /\
    until_throw (r_log r) = answers /\
    line_reader_calls 4 2 3 (start_read 4 2 (reader_init s)) (replicate 6 NUL) = answers.
Proof.
  intros s answers.
  pose (r := CsvThread.mkReader L_done [] answers W_exit {| strict := [] |} (s2b "cd") 2 (-1) (Some IosFailure) true).
  assert (reader_reachable (reader_start (session [2; 2; 2] None) s 0) r) as Hr.
  { apply (run_schedule_reachable [false; true; false; false; true; false; false; true; false; false; false; false]
      _ _ _ (reader_refl _)). vm_compute. reflexivity. }
  exists r. split; [exact Hr|]. split; [reflexivity|]. split; [reflexivity|].
  etransitivity; [symmetry; apply (line_reader_over_threads 4 2 3 s (replicate 6 NUL) answers None 0 r)|reflexivity].
  - exact strict_fits.
  - lia.
  - lia.
  - vm_compute. discriminate.
  - reflexivity.
  - exact Hr.
  - reflexivity.
Defined.
