(* ===== verification/CsvLine.v ===== *)
(** * Lines, columns and their policies in csv.h

    A line is a C string inside the buffer of the reader and is parsed in place:
    the functions take the memory and pointers as offsets, and give back the
    memory they leave.  The policies are classes, as they are template
    parameters in src/src/csv.h, with the laws the parsers rely on. *)
From S2P Require Import Prelude CLib CsvError CsvReader.

(** ** Policies *)

Class TrimPolicy :=
  trim : bytes -> Z -> Z -> result csv_error (bytes * Z * Z).
Class QuotePolicy := {
  find_next_column_end : bytes -> Z -> result csv_error Z;
  unescape : bytes -> Z -> Z -> result csv_error (bytes * Z * Z)
}.
Class CommentPolicy :=
  is_comment : bytes -> Z -> result csv_error bool.
Class OverflowPolicy := {
  on_overflow : Z -> Z -> result csv_error Z;      (** the maximum of the type, and [x] *)
  on_underflow : Z -> Z -> result csv_error Z      (** the minimum of the type, and [x] *)
}.

(** *** [trim_chars] *)

Fixpoint is_trim_char (c : ascii) (trim_char_list : list ascii) : bool :=
  match trim_char_list with
  | [] => false
  | t :: other => bool_decide (c = t) || is_trim_char c other
  end.

Section Trim.
Variable trim_char_list : list ascii.

Definition trim_left_step (mem : bytes) (str_end i : Z) : result csv_error (Z + Z) :=
  if negb (i =? str_end) then
    c ← read mem i;
    if is_trim_char c trim_char_list then Ok (inl (i + 1)) else Ok (inr i)
  else Ok (inr i).

Definition trim_right_step (mem : bytes) (str_begin i : Z) : result csv_error (Z + Z) :=
  if negb (str_begin =? i) then
    c ← read mem (i - 1);
    if is_trim_char c trim_char_list then Ok (inl (i - 1)) else Ok (inr i)
  else Ok (inr i).

Definition trim_chars_trim (mem : bytes) (str_begin str_end : Z)
    : result csv_error (bytes * Z * Z) :=
  b ← loopM (S (length mem)) (trim_left_step mem str_end) str_begin;
  e ← loopM (S (length mem)) (trim_right_step mem b) str_end;
  mem ← write mem e NUL;
  Ok (mem, b, e).

#[export] Instance trim_chars : TrimPolicy := trim_chars_trim.
End Trim.

(** *** Comments *)

#[export] Instance no_comment : CommentPolicy := fun _ _ => Ok false.

Definition single_line_comment_is_comment (comment_start_char_list : list ascii) (mem : bytes) (line : Z)
    : result csv_error bool :=
  c ← read mem line; Ok (is_trim_char c comment_start_char_list).

Definition empty_step (mem : bytes) (line : Z) : result csv_error (Z + bool) :=
  c ← read mem line;
  if bool_decide (c = chr 32) || bool_decide (c = chr 9) then
    c' ← read mem (line + 1);
    if uchar c' =? 0 then Ok (inr true) else Ok (inl (line + 1))
  else Ok (inr false).

Definition empty_line_comment_is_comment (mem : bytes) (line : Z) : result csv_error bool :=
  c ← read mem line;
  if uchar c =? 0 then Ok true else loopM (S (length mem)) (empty_step mem) line.

Definition single_and_empty_line_comment_is_comment (chars : list ascii) (mem : bytes) (line : Z)
    : result csv_error bool :=
  b ← single_line_comment_is_comment chars mem line;
  if b : bool then Ok true else empty_line_comment_is_comment mem line.

(** *** [no_quote_escape] *)

Section NoQuote.
Variable sep : ascii.

Definition no_quote_step (mem : bytes) (i : Z) : result csv_error (Z + Z) :=
  c ← read mem i;
  if negb (bool_decide (c = sep)) && negb (uchar c =? 0) then Ok (inl (i + 1)) else Ok (inr i).

#[export] Instance no_quote_escape : QuotePolicy := {|
  find_next_column_end mem col_begin := loopM (S (length mem)) (no_quote_step mem) col_begin;
  unescape mem b e := Ok (mem, b, e)
|}.
End NoQuote.

(** *** [double_quote_escape] *)

Section DoubleQuote.
Variables sep quote : ascii.

(** The inner [while]: up to the next quote. *)
Definition quoted_step (mem : bytes) (i : Z) : result csv_error (Z + Z) :=
  c ← read mem i;
  if negb (bool_decide (c = quote)) then
    if uchar c =? 0 then Throw (make_error escaped_string_not_closed) else Ok (inl (i + 1))
  else Ok (inr i).

(** The [do ... while]: a quoted part and those doubled onto it. *)
Definition quotes_step (mem : bytes) (i : Z) : result csv_error (Z + Z) :=
  i ← loopM (S (length mem)) (quoted_step mem) (i + 1);
  c ← read mem (i + 1);
  if bool_decide (c = quote) then Ok (inl (i + 1)) else Ok (inr (i + 1)).

Definition double_quote_step (mem : bytes) (i : Z) : result csv_error (Z + Z) :=
  c ← read mem i;
  if negb (bool_decide (c = sep)) && negb (uchar c =? 0) then
    if negb (bool_decide (c = quote)) then Ok (inl (i + 1))
    else j ← loopM (S (length mem)) (quotes_step mem) i; Ok (inl j)
  else Ok (inr i).

(** The copying loop of [unescape]: [in], [out] and the memory. *)
Definition unescape_step (col_end : Z) (s : Z * Z * bytes)
    : result csv_error (Z * Z * bytes + Z * bytes) :=
  let '(i, out, mem) := s in
  if negb (i =? col_end) then
    c ← read mem i;
    skip ← (if bool_decide (c = quote) && negb (i + 1 =? col_end) then
              c' ← read mem (i + 1); Ok (bool_decide (c' = quote))
            else Ok false);
    let i := if skip : bool then i + 1 else i in
    c ← read mem i;
    mem ← write mem out c;
    Ok (inl (i + 1, out + 1, mem))
  else Ok (inr (out, mem)).

Definition double_quote_unescape (mem : bytes) (col_begin col_end : Z)
    : result csv_error (bytes * Z * Z) :=
  if 2 <=? col_end - col_begin then
    c ← read mem col_begin;
    c' ← (if bool_decide (c = quote) then read mem (col_end - 1) else Ok NUL);
    if bool_decide (c = quote) && bool_decide (c' = quote) then
      let b := col_begin + 1 in
      let e := col_end - 1 in
      '(out, mem) ← loopM (S (length mem)) (unescape_step e) (b, b, mem);
      mem ← write mem out NUL;
      Ok (mem, b, out)
    else Ok (mem, col_begin, col_end)
  else Ok (mem, col_begin, col_end).

#[export] Instance double_quote_escape : QuotePolicy := {|
  find_next_column_end mem col_begin := loopM (S (length mem)) (double_quote_step mem) col_begin;
  unescape := double_quote_unescape
|}.
End DoubleQuote.

(** *** Overflow *)

#[export] Instance throw_on_overflow : OverflowPolicy := {|
  on_overflow _ _ := Throw (make_error integer_overflow);
  on_underflow _ _ := Throw (make_error integer_underflow)
|}.

Definition ignore_overflow : OverflowPolicy := {|
  on_overflow _ x := Ok x;
  on_underflow _ x := Ok x
|}.

Definition set_to_max_on_overflow : OverflowPolicy := {|
  on_overflow max _ := Ok max;
  on_underflow min _ := Ok min
|}.

(** ** Parsing a line *)

Definition ignore_no_column : Z := 0.
Definition ignore_extra_column : Z := 1.
Definition ignore_missing_column : Z := 2.

Section Parse.
Context `{!TrimPolicy} `{!QuotePolicy}.

(** The column at [line], and the pointer to the next one. *)
Definition chop_next_column (mem : bytes) (line : Z)
    : result csv_error (bytes * Z * Z * option Z) :=
  e ← find_next_column_end mem line;
  c ← read mem e;
  if uchar c =? 0 then Ok (mem, line, e, None)
  else mem ← write mem e NUL; Ok (mem, line, e, Some (e + 1)).

Fixpoint parse_line (mem : bytes) (line : option Z) (sorted_col : list (option Z)) (col_order : list Z)
    : result csv_error (bytes * list (option Z)) :=
  match col_order with
  | [] =>
      match line with
      | None => Ok (mem, sorted_col)
      | Some _ => Throw (make_error too_many_columns)
      end
  | i :: order =>
      match line with
      | None => Throw (make_error too_few_columns)
      | Some line =>
          '(mem, b, e, line) ← chop_next_column mem line;
          if negb (i =? -1) then
            '(mem, b, e) ← trim mem b e;
            '(mem, b, e) ← unescape mem b e;
            sorted_col ← write sorted_col i (Some b);
            parse_line mem line sorted_col order
          else parse_line mem line sorted_col order
      end
  end.

(** The [for] over the column names: [None] when [col_begin] is set to 0. *)
Fixpoint match_column (name : bytes) (col_name : list bytes) (i : Z) (found : list bool)
    (col_order : list Z) : result csv_error (option (list bool * list Z)) :=
  match col_name with
  | [] => Ok None
  | n :: col_name' =>
      if decide (name = n) then
        f ← read found i;
        if f : bool then
          Throw (set_column_name (Some name) (make_error duplicated_column_in_header))
        else
          found ← write found i true;
          Ok (Some (found, col_order ++ [i]))
      else match_column name col_name' (i + 1) found col_order
  end.

Definition header_step (col_name : list bytes) (ignore_policy : Z)
    (s : bytes * option Z * list bool * list Z)
    : result csv_error (bytes * option Z * list bool * list Z + bytes * list bool * list Z) :=
  let '(mem, line, found, col_order) := s in
  match line with
  | None => Ok (inr (mem, found, col_order))
  | Some line =>
      '(mem, b, e, line) ← chop_next_column mem line;
      '(mem, b, e) ← trim mem b e;
      '(mem, b, e) ← unescape mem b e;
      let name := cstr (drop (Z.to_nat b) mem) in
      m ← match_column name col_name 0 found col_order;
      match m with
      | Some (found, col_order) => Ok (inl (mem, line, found, col_order))
      | None =>
          if nz (Z.land ignore_policy ignore_extra_column) then
            Ok (inl (mem, line, found, col_order ++ [-1]))
          else Throw (set_column_name (Some name) (make_error extra_column_in_header))
      end
  end.

Fixpoint check_found (col_name : list bytes) (found : list bool) : result csv_error unit :=
  match col_name, found with
  | n :: col_name', f :: found' =>
      if negb f then Throw (set_column_name (Some n) (make_error missing_column_in_header))
      else check_found col_name' found'
  | _, _ => Ok tt
  end.

(** [col_name] has [column_count] entries; the order of the columns results. *)
Definition parse_header_line (mem : bytes) (line : option Z) (col_name : list bytes) (ignore_policy : Z)
    : result csv_error (bytes * list Z) :=
  '(mem, found, col_order) ← loopM (S (S (length mem))) (header_step col_name ignore_policy)
     (mem, line, replicate (length col_name) false, []);
  if negb (nz (Z.land ignore_policy ignore_missing_column)) then
    _ ← check_found col_name found; Ok (mem, col_order)
  else Ok (mem, col_order).
End Parse.

(** ** Specification *)

Abbreviation nonul s := (Forall (fun c => uchar c <> 0) s).

(** [r] leaves [text] as a C string somewhere in the [n + 1] bytes after [pre]. *)
Definition placed (pre : bytes) (n : nat) (post text : bytes)
    (r : result csv_error (bytes * Z * Z)) : Prop :=
  exists x y, r = Ok (pre ++ x ++ text ++ NUL :: y ++ post, Z.of_nat (length pre + length x),
                      Z.of_nat (length pre + length x + length text)) /\
    (length x + length text + length y)%nat = n.

Class TrimLaws `(!TrimPolicy) := {
  trimmed : bytes -> bytes;
  trim_ok pre raw c post :
    placed pre (length raw) post (trimmed raw)
      (trim (pre ++ raw ++ c :: post) (Z.of_nat (length pre)) (Z.of_nat (length pre + length raw)));
  trimmed_nonul raw : nonul raw -> nonul (trimmed raw)
}.

Class QuoteLaws `(!QuotePolicy) := {
  raw_cell : bytes -> option bytes;          (** the first column of a text, unless it is not closed *)
  unescaped : bytes -> bytes;
  raw_cell_prefix t raw : raw_cell t = Some raw -> exists rest, t = raw ++ rest;
  find_ok pre t post :
    nonul t ->
    find_next_column_end (pre ++ t ++ NUL :: post) (Z.of_nat (length pre)) =
      match raw_cell t with
      | Some raw => Ok (Z.of_nat (length pre + length raw))
      | None => Throw (make_error escaped_string_not_closed)
      end;
  unescape_ok pre raw post :
    placed pre (length raw) post (unescaped raw)
      (unescape (pre ++ raw ++ NUL :: post) (Z.of_nat (length pre)) (Z.of_nat (length pre + length raw)));
  unescaped_nonul raw : nonul raw -> nonul (unescaped raw)
}.

(** The text after the first column: [None] when it was the last. *)
Definition after_cell (t raw : bytes) : option bytes :=
  match drop (length raw) t with [] => None | _ :: rest => Some rest end.

Section TextParse.
Context `{!TrimPolicy} `{!TrimLaws _} `{!QuotePolicy} `{!QuoteLaws _}.

(** What [parse_line] does, on texts. *)
Fixpoint parse_text (t : option bytes) (cols : list (option bytes)) (col_order : list Z)
    : result csv_error (list (option bytes)) :=
  match col_order with
  | [] => match t with None => Ok cols | Some _ => Throw (make_error too_many_columns) end
  | i :: order =>
      match t with
      | None => Throw (make_error too_few_columns)
      | Some t =>
          match raw_cell t with
          | None => Throw (make_error escaped_string_not_closed)
          | Some raw =>
              if negb (i =? -1) then
                cols ← write cols i (Some (unescaped (trimmed raw)));
                parse_text (after_cell t raw) cols order
              else parse_text (after_cell t raw) cols order
          end
      end
  end.

(** What the loop of [parse_header_line] does, on texts. *)
Fixpoint header_text (fuel : nat) (t : option bytes) (col_name : list bytes) (ignore_policy : Z)
    (found : list bool) (col_order : list Z) : result csv_error (list bool * list Z) :=
  match fuel, t with
  | _, None => Ok (found, col_order)
  | O, _ => Undefined OutOfFuel
  | S fuel', Some t =>
      match raw_cell t with
      | None => Throw (make_error escaped_string_not_closed)
      | Some raw =>
          let name := unescaped (trimmed raw) in
          m ← match_column name col_name 0 found col_order;
          match m with
          | Some (found, col_order) =>
              header_text fuel' (after_cell t raw) col_name ignore_policy found col_order
          | None =>
              if nz (Z.land ignore_policy ignore_extra_column) then
                header_text fuel' (after_cell t raw) col_name ignore_policy found (col_order ++ [-1])
              else Throw (set_column_name (Some name) (make_error extra_column_in_header))
          end
      end
  end.
End TextParse.

(** The text a column pointer points to. *)
Definition points (mem : bytes) (ptr : option Z) (s : option bytes) : Prop :=
  match ptr, s with
  | None, None => True
  | Some p, Some s => text_at mem p s /\ nonul s
  | _, _ => False
  end.

Definition trim_front (chars : list ascii) : bytes -> bytes :=
  fix go s := match s with
              | [] => []
              | c :: s' => if is_trim_char c chars then go s' else s
              end.

Definition trim_text (chars : list ascii) (s : bytes) : bytes :=
  reverse (trim_front chars (reverse (trim_front chars s))).

(** The text before the first [sep]. *)
Fixpoint before_sep (sep : ascii) (t : bytes) : bytes :=
  match t with
  | [] => []
  | c :: t' => if decide (c = sep) then [] else c :: before_sep sep t'
  end.

(** ** The laws of [trim_chars] and [no_quote_escape] *)

Lemma trim_front_split chars s :
  exists x, s = x ++ trim_front chars s /\ Forall (fun c => is_trim_char c chars = true) x /\
    match trim_front chars s with [] => True | c :: _ => is_trim_char c chars = false end.
Proof.
  induction s as [|c s (x & Hs & Hx & Hh)]; [by exists []|]. cbn [trim_front].
  destruct (is_trim_char c chars) eqn:E.
  - exists (c :: x). split; [|auto]. cbn [app]. f_equal. exact Hs.
  - exists []. split; [done|]. split; [constructor|done].
Qed.

Lemma trim_text_split chars s :
  exists x y, s = x ++ trim_text chars s ++ y /\
    Forall (fun c => is_trim_char c chars = true) x /\
    Forall (fun c => is_trim_char c chars = true) y /\
    (trim_text chars s = [] \/
     exists t z, trim_text chars s ++ y = t :: z /\ is_trim_char t chars = false) /\
    (trim_text chars s = [] \/
     exists z t, trim_text chars s = z ++ [t] /\ is_trim_char t chars = false).
Proof.
  destruct (trim_front_split chars s) as (x & Hs & Hx & Hh).
  destruct (trim_front_split chars (reverse (trim_front chars s))) as (y & Hr & Hy & Hl).
  exists x, (reverse y). unfold trim_text.
  set (f := trim_front chars (reverse (trim_front chars s))) in *.
  apply (f_equal reverse) in Hr. rewrite reverse_involutive, reverse_app in Hr.
  split; [by rewrite <- Hr|]. split; [done|]. split; [by apply Forall_reverse|].
  destruct f as [|t z]; [by split; left|]. split.
  - right. rewrite <- Hr. destruct (trim_front chars s) as [|c s'] eqn:E; [|eauto].
    apply (f_equal length) in Hr. rewrite length_app, length_reverse in Hr. simpl in Hr. lia.
  - right. exists (reverse z), t. by rewrite reverse_cons.
Qed.

Lemma trim_left_eq chars mem e i :
  trim_left_step chars mem e i =
    if negb (i =? e) then
      c ← read mem i; if is_trim_char c chars then Ok (inl (i + 1)) else Ok (inr i)
    else Ok (inr i).
Proof. done. Qed.

Lemma trim_right_eq chars mem b i :
  trim_right_step chars mem b i =
    if negb (b =? i) then
      c ← read mem (i - 1); if is_trim_char c chars then Ok (inl (i - 1)) else Ok (inr i)
    else Ok (inr i).
Proof. done. Qed.

Lemma trim_left_loop chars x pre s post fuel e :
  Forall (fun c => is_trim_char c chars = true) x ->
  s = [] \/ (exists t z, s = t :: z /\ is_trim_char t chars = false) ->
  e = Z.of_nat (length pre + length x + length s) -> (length x < fuel)%nat ->
  loopM fuel (trim_left_step chars (pre ++ x ++ s ++ post) e) (Z.of_nat (length pre)) =
    Ok (Z.of_nat (length pre + length x)).
Proof.
  intros Hx Hs -> . revert pre fuel. induction Hx as [|c x Hc Hx IH]; intros pre fuel Hfuel;
    (destruct fuel as [|fuel]; [simpl in *; lia|]); rewrite loopM_S.
  - cbn [length app]. rewrite !Nat.add_0_r. rewrite trim_left_eq.
    destruct Hs as [->|(t & z & -> & Ht)].
    + cbn [length]. by rewrite Nat.add_0_r, Z.eqb_refl.
    + rewrite (proj2 (Z.eqb_neq _ _)) by (simpl; lia). cbn [negb app].
      rewrite read_middle by done. cbn [mbind result_bind]. by rewrite Ht.
  - rewrite trim_left_eq. rewrite (proj2 (Z.eqb_neq _ _)) by (simpl; lia). cbn [negb app].
    rewrite read_middle by done. cbn [mbind result_bind]. rewrite Hc. cbn [mbind result_bind].
    specialize (IH (pre ++ [c]) fuel). rewrite <- app_assoc in IH. cbn [app] in IH.
    rewrite length_app in IH. cbn [length] in *.
    replace (Z.of_nat (length pre) + 1) with (Z.of_nat (length pre + 1)) by lia.
    replace (length pre + S (length x))%nat with (length pre + 1 + length x)%nat by lia.
    apply IH. lia.
Qed.

Lemma trim_right_loop chars y pre s post fuel :
  Forall (fun c => is_trim_char c chars = true) y ->
  s = [] \/ (exists z t, s = z ++ [t] /\ is_trim_char t chars = false) -> (length y < fuel)%nat ->
  loopM fuel (trim_right_step chars (pre ++ s ++ y ++ post) (Z.of_nat (length pre)))
    (Z.of_nat (length pre + length s + length y)) = Ok (Z.of_nat (length pre + length s)).
Proof.
  intros Hy Hs. revert post fuel. induction y as [|c y IH] using rev_ind; intros post fuel Hfuel;
    (destruct fuel as [|fuel]; [simpl in *; lia|]); rewrite loopM_S.
  - cbn [length app]. rewrite !Nat.add_0_r. rewrite trim_right_eq.
    destruct Hs as [->|(z & t & -> & Ht)].
    + cbn [length]. by rewrite Nat.add_0_r, Z.eqb_refl.
    + rewrite length_app. cbn [length]. rewrite (proj2 (Z.eqb_neq _ _)) by lia. cbn [negb].
      rewrite <- app_assoc, app_assoc. cbn [app].
      rewrite read_middle by (rewrite length_app; lia). cbn [mbind result_bind]. by rewrite Ht.
  - rewrite trim_right_eq. apply Forall_app in Hy as [Hy Hc].
    apply Forall_cons_iff in Hc as [Hc _]. rewrite length_app in *. cbn [length] in *.
    rewrite (proj2 (Z.eqb_neq _ _)) by lia. cbn [negb].
    replace (pre ++ s ++ (y ++ [c]) ++ post) with ((pre ++ s ++ y) ++ c :: post)
      by (by rewrite <- !app_assoc).
    rewrite read_middle by (rewrite !length_app; lia). cbn [mbind result_bind]. rewrite Hc.
    cbn [mbind result_bind]. rewrite <- !app_assoc.
    replace (Z.of_nat (length pre + length s + (length y + 1)) - 1)
      with (Z.of_nat (length pre + length s + length y)) by lia.
    apply IH; [done|lia].
Qed.

(** Writing the NUL after the trimmed text [m]. *)
Lemma trim_write pre x m y c post :
  placed pre (length x + length m + length y) post m
    (mem ← write (pre ++ x ++ m ++ y ++ c :: post) (Z.of_nat (length pre + length x + length m)) NUL;
     Ok (mem, Z.of_nat (length pre + length x), Z.of_nat (length pre + length x + length m))).
Proof.
  destruct y as [|d y]; cbn [app].
  - replace (pre ++ x ++ m ++ c :: post) with ((pre ++ x ++ m) ++ c :: post) by (by rewrite <- !app_assoc).
    rewrite write_middle by (rewrite !length_app; lia). cbn [mbind result_bind].
    exists x, []. rewrite <- !app_assoc. split; [done|simpl; lia].
  - replace (pre ++ x ++ m ++ d :: y ++ c :: post) with ((pre ++ x ++ m) ++ d :: y ++ c :: post)
      by (by rewrite <- !app_assoc).
    rewrite write_middle by (rewrite !length_app; lia). cbn [mbind result_bind].
    exists x, (y ++ [c]). rewrite <- !app_assoc. split; [done|]. rewrite length_app. simpl. lia.
Qed.

Lemma trim_text_nonul chars s : nonul s -> nonul (trim_text chars s).
Proof.
  intros Hs. destruct (trim_text_split chars s) as (x & y & E & _). rewrite E in Hs.
  apply Forall_app in Hs as [_ Hs]. by apply Forall_app in Hs as [Hs _].
Qed.

Lemma trim_chars_trim_ok chars pre raw c post :
  placed pre (length raw) post (trim_text chars raw)
    (trim_chars_trim chars (pre ++ raw ++ c :: post) (Z.of_nat (length pre))
       (Z.of_nat (length pre + length raw))).
Proof.
  destruct (trim_text_split chars raw) as (x & y & Hraw & Hx & Hy & Hfront & Hback).
  set (m := trim_text chars raw) in *. clearbody m. subst raw. unfold trim_chars_trim.
  rewrite !length_app, <- !app_assoc.
  set (fuel := S _).
  assert (length x + length m + length y < fuel)%nat as Hfuel.
  { unfold fuel. rewrite ?length_app. simpl. lia. }
  clearbody fuel. destruct Hfront as [->|Hfront].
  - cbn [app length] in *.
    assert (Forall (fun c => is_trim_char c chars = true) (x ++ y)) as Hxy by (by apply Forall_app).
    pose proof (fun e He => trim_left_loop chars (x ++ y) pre [] (c :: post) fuel e Hxy (or_introl eq_refl) He
      ltac:(rewrite length_app; lia)) as Hleft.
    pose proof (trim_right_loop chars [] (pre ++ x ++ y) [] (c :: post) fuel (List.Forall_nil _)
      (or_introl eq_refl) ltac:(simpl; lia)) as Hright.
    pose proof (trim_write pre (x ++ y) [] [] c post) as Hw.
    rewrite !length_app in *. cbn [length app] in *. rewrite !Nat.add_0_r, <- !app_assoc in *.
    cbn [Nat.add]. rewrite Hleft by lia. cbn [mbind result_bind].
    rewrite Hright. cbn [mbind result_bind]. rewrite !Nat.add_assoc in *. exact Hw.
  - rewrite (app_assoc m), (trim_left_loop chars x pre (m ++ y) (c :: post) _ _)
      by (rewrite ?length_app; first [done|by right|lia]).
    cbn [mbind result_bind]. rewrite <- (app_assoc m).
    pose proof (trim_right_loop chars y (pre ++ x) m (c :: post) fuel Hy Hback ltac:(lia)) as Hright.
    rewrite length_app, <- !app_assoc in Hright.
    replace (length pre + (length x + (length m + length y)))%nat
      with (length pre + length x + length m + length y)%nat by lia.
    rewrite Hright. cbn [mbind result_bind].
    replace (length x + (length m + length y))%nat with (length x + length m + length y)%nat by lia.
    apply trim_write.
Qed.

#[export] Instance trim_chars_laws chars : TrimLaws (trim_chars chars) := {|
  trimmed := trim_text chars;
  trim_ok := trim_chars_trim_ok chars;
  trimmed_nonul := trim_text_nonul chars
|}.

Lemma before_sep_prefix sep t : exists rest, t = before_sep sep t ++ rest.
Proof.
  induction t as [|c t [rest IH]]; [by exists []|]. cbn [before_sep].
  case_decide; [by exists (c :: t)|]. exists rest. cbn [app]. by f_equal.
Qed.

Lemma no_quote_eq sep mem i :
  no_quote_step sep mem i =
    (c ← read mem i;
     if negb (bool_decide (c = sep)) && negb (uchar c =? 0) then Ok (inl (i + 1)) else Ok (inr i)).
Proof. done. Qed.

Lemma no_quote_loop sep t pre post fuel :
  nonul t -> (length t < fuel)%nat ->
  loopM fuel (no_quote_step sep (pre ++ t ++ NUL :: post)) (Z.of_nat (length pre)) =
    Ok (Z.of_nat (length pre + length (before_sep sep t))).
Proof.
  intros Ht. revert pre fuel. induction Ht as [|c t Hc Ht IH]; intros pre fuel Hfuel;
    (destruct fuel as [|fuel]; [simpl in *; lia|]); rewrite loopM_S, no_quote_eq; cbn [app];
    rewrite read_middle by done; cbn [mbind result_bind before_sep].
  - change (uchar NUL =? 0) with true. cbn [negb]. rewrite andb_false_r.
    simpl. by rewrite Nat.add_0_r.
  - rewrite (proj2 (Z.eqb_neq _ 0)) by done. cbn [negb]. rewrite andb_true_r.
    case_decide as E; [rewrite bool_decide_eq_true_2 by done; simpl; by rewrite Nat.add_0_r|].
    rewrite bool_decide_eq_false_2 by done. cbn [negb mbind result_bind].
    specialize (IH (pre ++ [c]) fuel). rewrite <- app_assoc in IH. cbn [app] in IH.
    rewrite length_app in IH. cbn [length] in *.
    replace (Z.of_nat (length pre) + 1) with (Z.of_nat (length pre + 1)) by lia.
    rewrite IH by lia. f_equal. lia.
Qed.

Lemma no_quote_find_ok sep pre t post :
  nonul t ->
  @find_next_column_end (no_quote_escape sep) (pre ++ t ++ NUL :: post) (Z.of_nat (length pre)) =
    Ok (Z.of_nat (length pre + length (before_sep sep t))).
Proof. intros Ht. apply no_quote_loop; [done|]. rewrite !length_app. simpl. lia. Qed.

Lemma no_quote_unescape_ok sep pre raw post :
  placed pre (length raw) post raw
    (@unescape (no_quote_escape sep) (pre ++ raw ++ NUL :: post) (Z.of_nat (length pre))
       (Z.of_nat (length pre + length raw))).
Proof. exists [], []. cbn. rewrite !Nat.add_0_r. split; [done|lia]. Qed.

#[export] Instance no_quote_laws sep : QuoteLaws (no_quote_escape sep) := {|
  raw_cell t := Some (before_sep sep t);
  unescaped raw := raw;
  raw_cell_prefix t raw E := eq_rect _ (fun o => exists rest, t = o ++ rest) (before_sep_prefix sep t) _
    (f_equal (default []) E);
  find_ok := no_quote_find_ok sep;
  unescape_ok := no_quote_unescape_ok sep;
  unescaped_nonul raw H := H
|}.

(** ** Parsing refines the texts *)

Lemma text_at_app mem x ptr s : text_at mem ptr s -> text_at (mem ++ x) ptr s.
Proof.
  intros (pre & post & -> & ->). exists pre, (post ++ x).
  by rewrite <- app_assoc, <- app_assoc.
Qed.

Lemma points_app mem x ptr s : points mem ptr s -> points (mem ++ x) ptr s.
Proof. destruct ptr, s; simpl; try done. intros [? ?]. split; [by apply text_at_app|done]. Qed.

Lemma points_all_app mem x ptrs cols :
  Forall2 (points mem) ptrs cols -> Forall2 (points (mem ++ x)) ptrs cols.
Proof. apply List.Forall2_impl. intros. by apply points_app. Qed.

(** A memory whose part after [pre] is the rest [t] of the line. *)
Definition rest_at (pre : bytes) (t : option bytes) (post : bytes) : bytes :=
  pre ++ match t with Some t => t ++ NUL :: post | None => post end.

Definition rest_ptr (pre : bytes) (t : option bytes) : option Z :=
  match t with Some _ => Some (Z.of_nat (length pre)) | None => None end.

Definition rest_size (t : option bytes) : nat :=
  match t with Some t => S (length t) | None => 0 end.

Lemma Forall2_write {A B} (P : A -> B -> Prop) l k i x y :
  Forall2 P l k -> P x y ->
  match @write csv_error _ k i y with
  | Ok k' => exists l', @write csv_error _ l i x = Ok l' /\ Forall2 P l' k'
  | Throw e => False
  | Undefined f => @write csv_error _ l i x = Undefined f
  end.
Proof.
  intros H Hxy. unfold write. rewrite (List.Forall2_length H). destruct (_ || _); [done|].
  eexists. split; [done|]. by apply Forall2_insert.
Qed.

Section ParseText.
Context `{!TrimPolicy} `{!TrimLaws _} `{!QuotePolicy} `{!QuoteLaws _}.

Lemma raw_cell_nonul t raw : nonul t -> raw_cell t = Some raw -> nonul raw.
Proof.
  intros Ht E. destruct (raw_cell_prefix _ _ E) as [rest ->]. by apply Forall_app in Ht as [? _].
Qed.

Lemma after_cell_app raw rest :
  after_cell (raw ++ rest) raw = match rest with [] => None | _ :: r => Some r end.
Proof. unfold after_cell. by rewrite drop_app_length. Qed.

(** A column is cut off in place. *)
Lemma chop_ok pre t post :
  nonul t ->
  chop_next_column (pre ++ t ++ NUL :: post) (Z.of_nat (length pre)) =
    match raw_cell t with
    | None => Throw (make_error escaped_string_not_closed)
    | Some raw => Ok (rest_at (pre ++ raw ++ [NUL]) (after_cell t raw) post, Z.of_nat (length pre),
                      Z.of_nat (length pre + length raw),
                      rest_ptr (pre ++ raw ++ [NUL]) (after_cell t raw))
    end.
Proof.
  intros Ht. unfold chop_next_column. rewrite find_ok by done.
  destruct (raw_cell t) as [raw|] eqn:E; [|done]. cbn [mbind result_bind].
  destruct (raw_cell_prefix _ _ E) as [rest ->]. rewrite after_cell_app.
  replace (pre ++ (raw ++ rest) ++ NUL :: post) with ((pre ++ raw) ++ rest ++ NUL :: post)
    by (by rewrite <- !app_assoc).
  unfold rest_at, rest_ptr. rewrite !length_app. cbn [length].
  destruct rest as [|c rest]; cbn [app].
  - rewrite read_middle by (by rewrite length_app). cbn [mbind result_bind].
    change (uchar NUL =? 0) with true. cbn iota. by rewrite <- !app_assoc.
  - rewrite read_middle by (by rewrite length_app). cbn [mbind result_bind].
    apply Forall_app in Ht as [_ Ht]. apply Forall_cons_iff in Ht as [Hc _].
    rewrite (proj2 (Z.eqb_neq _ 0)) by done.
    rewrite write_middle by (by rewrite length_app). cbn [mbind result_bind].
    rewrite <- !app_assoc. cbn [app]. repeat f_equal. lia.
Qed.

(** Trimming and unescaping the column that was cut off. *)
Lemma cell_ok pre raw rest :
  exists x y,
    ('(mem, b, e) ← trim (pre ++ raw ++ NUL :: rest) (Z.of_nat (length pre))
                      (Z.of_nat (length pre + length raw));
     unescape mem b e) =
      Ok (pre ++ x ++ unescaped (trimmed raw) ++ NUL :: y ++ rest, Z.of_nat (length pre + length x),
          Z.of_nat (length pre + length x + length (unescaped (trimmed raw)))) /\
    (length x + length (unescaped (trimmed raw)) + length y)%nat = length raw.
Proof.
  destruct (trim_ok pre raw NUL rest) as (x & y & -> & Hxy). cbn [mbind result_bind].
  destruct (unescape_ok (pre ++ x) (trimmed raw) (y ++ rest)) as (x' & y' & Hu & Hxy').
  rewrite <- !app_assoc, !length_app in Hu. rewrite Hu.
  exists (x ++ x'), (y' ++ y). rewrite !length_app, <- !app_assoc. split; [|lia].
  f_equal; f_equal; [f_equal|]; lia.
Qed.

Lemma rest_at_app a b t post : rest_at (a ++ b) t post = a ++ rest_at b t post.
Proof. unfold rest_at. by rewrite <- app_assoc. Qed.

Lemma after_cell_nonul t raw : nonul t -> from_option (fun t => nonul t) True (after_cell t raw).
Proof.
  intros Ht. unfold after_cell. destruct (drop (length raw) t) as [|c r] eqn:E; [done|]. simpl.
  apply (Forall_drop _ (length raw)) in Ht. rewrite E in Ht. by apply Forall_cons_iff in Ht as [_ ?].
Qed.

Lemma after_cell_size t raw :
  raw_cell t = Some raw -> (S (length raw) + rest_size (after_cell t raw))%nat = S (length t).
Proof.
  intros E. destruct (raw_cell_prefix _ _ E) as [rest ->]. rewrite after_cell_app, length_app.
  destruct rest; simpl; lia.
Qed.

(** [parse_line] does to the memory and the pointers what [parse_text] does to
    the texts, and touches only the line. *)
Definition parsed (pre : bytes) (n : nat) (post : bytes) (r : result csv_error (list (option bytes)))
    (r' : result csv_error (bytes * list (option Z))) : Prop :=
  match r with
  | Ok cols => exists m ptrs, r' = Ok (pre ++ m ++ post, ptrs) /\ length m = n /\
                 Forall2 (points (pre ++ m ++ post)) ptrs cols
  | Throw e => r' = Throw e
  | Undefined f => r' = Undefined f
  end.

Lemma parsed_shift pre x n post r r' k :
  parsed (pre ++ x) n post r r' -> k = (length x + n)%nat -> parsed pre k post r r'.
Proof.
  unfold parsed. destruct r; try done. intros (m & ptrs & -> & Hm & Hp) ->.
  exists (x ++ m), ptrs. rewrite <- !app_assoc in *. split; [done|]. split; [|done].
  rewrite length_app. lia.
Qed.

Lemma parse_line_parsed order : forall pre t post ptrs cols,
  from_option (fun t => nonul t) True t ->
  Forall2 (points pre) ptrs cols ->
  parsed pre (rest_size t) post (parse_text t cols order)
    (parse_line (rest_at pre t post) (rest_ptr pre t) ptrs order).
Proof.
  induction order as [|i order IH]; intros pre t post ptrs cols Ht Hp; cbn [parse_text parse_line].
  { destruct t as [t|]; cbn; [done|]. exists [], ptrs. split; [done|]. split; [done|].
    by apply points_all_app. }
  destruct t as [t|]; cbn [rest_ptr rest_at]; [|done]. unfold rest_at at 1. simpl in Ht.
  rewrite chop_ok by done. destruct (raw_cell t) as [raw|] eqn:E; [|done]. cbn [mbind result_bind].
  pose proof (after_cell_size _ _ E) as Hsize. pose proof (after_cell_nonul t raw Ht) as Hrest.
  set (t' := after_cell t raw) in *. cbn [rest_size]. rewrite <- Hsize.
  destruct (negb (i =? -1)).
  - rewrite rest_at_app. rewrite rest_at_app. change (rest_at [NUL] t' post) with (NUL :: rest_at [] t' post).
    destruct (cell_ok pre raw (rest_at [] t' post)) as (x & y & Hcell & Hxy).
    destruct (trim _ _ _) as [[[mem b] e]| |] eqn:Etrim; cbn [mbind result_bind] in Hcell |- *;
      [|done..].
    rewrite Hcell. cbn [mbind result_bind].
    set (u := unescaped (trimmed raw)) in *. set (pre' := pre ++ x ++ u ++ NUL :: y).
    assert (Forall2 (points pre') ptrs cols) as Hp' by (by apply points_all_app).
    assert (points pre' (Some (Z.of_nat (length pre + length x))) (Some u)) as Hu.
    { split; [|by apply unescaped_nonul, trimmed_nonul, (raw_cell_nonul t)].
      exists (pre ++ x), y. unfold pre'. by rewrite <- app_assoc, length_app. }
    pose proof (Forall2_write _ _ _ i _ _ Hp' Hu) as Hw.
    destruct (write cols i (Some u)) as [cols'| |] eqn:Ec; cbn [mbind result_bind];
      [|done|by rewrite Hw].
    destruct Hw as (ptrs' & -> & Hp''). cbn [mbind result_bind].
    replace (pre ++ x ++ u ++ NUL :: y ++ rest_at [] t' post) with (rest_at pre' t' post)
      by (unfold pre', rest_at; by rewrite <- !app_assoc).
    replace (rest_ptr (pre ++ raw ++ [NUL]) t') with (rest_ptr pre' t').
    2: { unfold rest_ptr, pre'. destruct t'; [|done]. rewrite !length_app. simpl. do 2 f_equal. lia. }
    eapply parsed_shift; [by apply IH|]. rewrite !length_app. simpl. lia.
  - eapply (parsed_shift pre (raw ++ [NUL])); [apply IH; [done|]|].
    + by apply points_all_app.
    + rewrite length_app. simpl. lia.
Qed.

(** The header loop in the same way; the memory left is never looked at again
    before [pre]. *)
Definition header_parsed (pre : bytes) (n : nat) (post : bytes)
    (r : result csv_error (list bool * list Z)) (r' : result csv_error (bytes * list bool * list Z)) : Prop :=
  match r with
  | Ok (found, order) => exists m, r' = Ok (pre ++ m ++ post, found, order) /\ length m = n
  | Throw e => r' = Throw e
  | Undefined f => r' = Undefined f
  end.

Lemma header_shift pre x n post r r' k :
  header_parsed (pre ++ x) n post r r' -> k = (length x + n)%nat -> header_parsed pre k post r r'.
Proof.
  unfold header_parsed. destruct r as [[found order]| |]; try done. intros (m & -> & Hm) ->.
  exists (x ++ m). rewrite <- !app_assoc. split; [done|]. rewrite length_app. lia.
Qed.

Lemma header_step_eq col_name ignore mem line found order :
  header_step col_name ignore (mem, line, found, order) =
    match line with
    | None => Ok (inr (mem, found, order))
    | Some line =>
        '(mem, b, e, line) ← chop_next_column mem line;
        '(mem, b, e) ← trim mem b e;
        '(mem, b, e) ← unescape mem b e;
        let name := cstr (drop (Z.to_nat b) mem) in
        m ← match_column name col_name 0 found order;
        match m with
        | Some (found, col_order) => Ok (inl (mem, line, found, col_order))
        | None =>
            if nz (Z.land ignore ignore_extra_column) then
              Ok (inl (mem, line, found, order ++ [-1]))
            else Throw (set_column_name (Some name) (make_error extra_column_in_header))
        end
    end.
Proof. done. Qed.

Lemma cstr_nonul s : nonul s -> cstr s = s.
Proof. apply cstr_no_nul. Qed.

Lemma header_loop col_name ignore fuel : forall pre t post found order,
  from_option (fun t => nonul t) True t -> (rest_size t < fuel)%nat ->
  header_parsed pre (rest_size t) post (header_text fuel t col_name ignore found order)
    (loopM fuel (header_step col_name ignore) (rest_at pre t post, rest_ptr pre t, found, order)).
Proof.
  induction fuel as [|fuel IH]; intros pre t post found order Ht Hfuel; [lia|].
  rewrite loopM_S, header_step_eq. destruct t as [t|]; cbn [rest_ptr header_text];
    [|by exists []]. unfold rest_at at 1. simpl in Ht. rewrite chop_ok by done.
  destruct (raw_cell t) as [raw|] eqn:E; [|done]. cbn [mbind result_bind].
  pose proof (after_cell_size _ _ E) as Hsize. pose proof (after_cell_nonul t raw Ht) as Hrest.
  set (t' := after_cell t raw) in *. cbn [rest_size] in *. rewrite <- Hsize in *.
  rewrite !rest_at_app. change (rest_at [NUL] t' post) with (NUL :: rest_at [] t' post).
  destruct (cell_ok pre raw (rest_at [] t' post)) as (x & y & Hcell & Hxy).
  destruct (trim _ _ _) as [[[mem b] e]| |]; cbn [mbind result_bind] in Hcell |- *; [|done..].
  rewrite Hcell. cbn [mbind result_bind].
  set (u := unescaped (trimmed raw)) in *. set (pre' := pre ++ x ++ u ++ NUL :: y).
  assert (cstr (drop (Z.to_nat (Z.of_nat (length pre + length x)))
            (pre ++ x ++ u ++ NUL :: y ++ rest_at [] t' post)) = u) as ->.
  { rewrite (text_at_cstr _ _ u); [by apply cstr_nonul, unescaped_nonul, trimmed_nonul, (raw_cell_nonul t)|].
    exists (pre ++ x), (y ++ rest_at [] t' post). by rewrite <- app_assoc, length_app. }
  destruct (match_column u col_name 0 found order) as [m| |]; cbn [mbind result_bind]; [|done..].
  replace (pre ++ x ++ u ++ NUL :: y ++ rest_at [] t' post) with (rest_at pre' t' post)
    by (unfold pre', rest_at; by rewrite <- !app_assoc).
  replace (rest_ptr (pre ++ raw ++ [NUL]) t') with (rest_ptr pre' t').
  2: { unfold rest_ptr, pre'. destruct t'; [|done]. rewrite !length_app. simpl. do 2 f_equal. lia. }
  destruct m as [[found' order']|]; [|destruct (nz _); [|done]]; cbn [mbind result_bind];
    (eapply header_shift; [apply IH; [done|lia]|rewrite !length_app; simpl; lia]).
Qed.

Lemma parse_header_line_parsed pre t post col_name ignore :
  nonul t ->
  match header_text (S (S (length (pre ++ t ++ NUL :: post)))) (Some t) col_name ignore
          (replicate (length col_name) false) [] with
  | Ok (found, order) =>
      exists m, length m = S (length t) /\
        parse_header_line (pre ++ t ++ NUL :: post) (Some (Z.of_nat (length pre))) col_name ignore =
          (if negb (nz (Z.land ignore ignore_missing_column)) then
             _ ← check_found col_name found; Ok (pre ++ m ++ post, order)
           else Ok (pre ++ m ++ post, order))
  | Throw e =>
      parse_header_line (pre ++ t ++ NUL :: post) (Some (Z.of_nat (length pre))) col_name ignore = Throw e
  | Undefined f =>
      parse_header_line (pre ++ t ++ NUL :: post) (Some (Z.of_nat (length pre))) col_name ignore = Undefined f
  end.
Proof.
  intros Ht. unfold parse_header_line.
  pose proof (header_loop col_name ignore (S (S (length (pre ++ t ++ NUL :: post)))) pre (Some t) post
    (replicate (length col_name) false) [] Ht) as Hl.
  specialize (Hl ltac:(rewrite !length_app; simpl; lia)). unfold header_parsed in Hl.
  change (rest_at pre (Some t) post) with (pre ++ t ++ NUL :: post) in Hl.
  change (rest_ptr pre (Some t)) with (Some (Z.of_nat (length pre))) in Hl.
  destruct (header_text _ _ _ _ _ _) as [[found order]| |].
  - destruct Hl as (m & -> & Hm). exists m. split; [done|]. done.
  - by rewrite Hl.
  - by rewrite Hl.
Qed.
End ParseText.

(** ** Properties *)

(** C13: parsing a line in place, whatever the trim and quote policies: every
    column pointer that results is a C string in the line's memory that holds
    the column's trimmed and unescaped text, the errors are those of cutting
    the text, and no byte outside the line and its NUL changes. *)
Theorem parse_line_refines_text `{!TrimPolicy} `{!TrimLaws _} `{!QuotePolicy} `{!QuoteLaws _}
    pre t post ptrs cols order :
  nonul t -> Forall2 (points pre) ptrs cols ->
  match parse_text (Some t) cols order with
  | Ok cols' => exists m ptrs',
      parse_line (pre ++ t ++ NUL :: post) (Some (Z.of_nat (length pre))) ptrs order =
        Ok (pre ++ m ++ post, ptrs') /\
      length m = S (length t) /\ Forall2 (points (pre ++ m ++ post)) ptrs' cols'
  | Throw e =>
      parse_line (pre ++ t ++ NUL :: post) (Some (Z.of_nat (length pre))) ptrs order = Throw e
  | Undefined f =>
      parse_line (pre ++ t ++ NUL :: post) (Some (Z.of_nat (length pre))) ptrs order = Undefined f
  end.
Proof. intros Ht Hp. apply (parse_line_parsed order pre (Some t) post ptrs cols Ht Hp). Qed.

Lemma parse_line_refines_text_witness :
  let t := s2b " ab,, c d " in
  exists m ptrs',
    @parse_line (trim_chars [chr 32; chr 9]) (no_quote_escape (chr 44)) (s2b "xy" ++ t ++ [NUL; LF]) (Some 2)
      [None; None] [1; -1; 0] = Ok (s2b "xy" ++ m ++ [LF], ptrs') /\
    Forall2 (points (s2b "xy" ++ m ++ [LF])) ptrs' [Some (s2b "c d"); Some (s2b "ab")].
Proof.
  pose proof (@parse_line_refines_text (trim_chars [chr 32; chr 9]) _ (no_quote_escape (chr 44)) _
    (s2b "xy") (s2b " ab,, c d ") [LF] [None; None] [None; None] [1; -1; 0]
    ltac:(repeat constructor; by vm_compute) ltac:(repeat constructor)) as H.
  replace (parse_text _ _ _) with (@Ok csv_error _ [Some (s2b "c d"); Some (s2b "ab")]) in H
    by (vm_compute; reflexivity).
  destruct H as (m & ptrs' & E & _ & Hp). exists m, ptrs'. split; [exact E|exact Hp].
Defined.
