(* ===== verification/CsvQuote.v ===== *)
(** * Quoted cells of csv.h

    The policy [double_quote_escape] (src/src/csv.h, modelled in CsvLine.v): its
    three nested loops find the end of a column exactly where a scan that
    toggles at every quote does, and its in-place [unescape] undoes the doubling
    of quotes.  This discharges the interface [QuoteLaws], so that every theorem
    on lines holds for quoted columns too, and gives the round trip with a writer
    that quotes. *)
From S2P Require Import Prelude CLib CsvError CsvLine.

(** ** Specification *)

Section Quote.
Variables sep quote : ascii.
Hypothesis quote_sep : quote <> sep.
Hypothesis quote_nonul : uchar quote <> 0.

(** The first column of a text: a separator counts outside of quotes only;
    [None] when the text ends inside. *)
Fixpoint quoted_cell (inside : bool) (t : bytes) : option bytes :=
  match t with
  | [] => if inside then None else Some []
  | c :: t =>
      if negb inside && bool_decide (c = sep) then Some []
      else cons c <$> quoted_cell (if bool_decide (c = quote) then negb inside else inside) t
  end.

(** A doubled quote for a quote. *)
Fixpoint undouble (t : bytes) : bytes :=
  match t with
  | c :: (d :: t') as u => if bool_decide (c = quote) && bool_decide (d = quote) then quote :: undouble t'
                           else c :: undouble u
  | [c] => [c]
  | [] => []
  end.

Definition unquoted (raw : bytes) : bytes :=
  match raw with
  | c :: m =>
      match reverse m with
      | d :: r => if bool_decide (c = quote) && bool_decide (d = quote) then undouble (reverse r) else raw
      | [] => raw
      end
  | [] => raw
  end.

(** The writer: a cell between quotes, its quotes doubled. *)
Fixpoint double (t : bytes) : bytes :=
  match t with
  | c :: t => if bool_decide (c = quote) then quote :: quote :: double t else c :: double t
  | [] => []
  end.

Definition quote_cell (c : bytes) : bytes := quote :: double c ++ [quote].

(** ** Lemmas *)

(** *** Finding the end of a column *)

Lemma quoted_cell_prefix t : forall inside raw,
  quoted_cell inside t = Some raw -> exists rest, t = raw ++ rest.
Proof.
  induction t as [|c t IH]; intros inside raw; cbn [quoted_cell].
  { destruct inside; [done|]. intros [= <-]. by exists []. }
  case_match; [intros [= <-]; by exists (c :: t)|].
  destruct (quoted_cell _ t) as [r|] eqn:E; [|done]. intros [= <-].
  destruct (IH _ _ E) as [rest ->]. by exists rest.
Qed.

Lemma quoted_step_eq mem i :
  quoted_step quote mem i =
    (c ← read mem i;
     if negb (bool_decide (c = quote)) then
       if uchar c =? 0 then Throw (make_error escaped_string_not_closed) else Ok (inl (i + 1))
     else Ok (inr i)).
Proof. done. Qed.

(** The inner loop stops at the first quote. *)
Lemma quoted_loop t post : forall pre fuel,
  nonul t -> (length t < fuel)%nat ->
  let r := loopM fuel (quoted_step quote (pre ++ t ++ NUL :: post)) (Z.of_nat (length pre)) in
  (quoted_cell true t = None /\ r = Throw (make_error escaped_string_not_closed)) \/
  (exists a b, t = a ++ quote :: b /\ r = Ok (Z.of_nat (length pre + length a)) /\
     quoted_cell true t = (fun x => a ++ quote :: x) <$> quoted_cell false b).
Proof.
  induction t as [|c t IH]; intros pre fuel Ht Hf; (destruct fuel as [|fuel]; [simpl in Hf; lia|]);
    cbn zeta; rewrite loopM_S, quoted_step_eq; cbn [app]; rewrite read_middle by done; cbn [mbind result_bind].
  - left. rewrite bool_decide_eq_false_2 by (intros E; by rewrite <- E in quote_nonul). cbn.
    done.
  - apply Forall_cons_iff in Ht as [Hc Ht]. cbn [quoted_cell negb andb].
    case_bool_decide as E; [subst c|].
    + right. exists [], t. cbn [negb app length]. rewrite Nat.add_0_r. done.
    + cbn [negb]. rewrite (proj2 (Z.eqb_neq _ _)) by done. cbn [mbind result_bind].
      replace (Z.of_nat (length pre) + 1) with (Z.of_nat (length (pre ++ [c]))) by (rewrite length_app; simpl; lia).
      replace (pre ++ c :: t ++ NUL :: post) with ((pre ++ [c]) ++ t ++ NUL :: post) by (by rewrite <- app_assoc).
      destruct (IH (pre ++ [c]) fuel Ht) as [(Hn & Hr)|(a & b & -> & Hr & Hq)]; [simpl in Hf; lia|left|right].
      * by rewrite Hn.
      * exists (c :: a), b. split; [done|]. rewrite Hr, Hq. split.
        -- do 2 f_equal. rewrite length_app. simpl. lia.
        -- by destruct (quoted_cell false b).
Qed.

(** The [do ... while]: from an opening quote past the closing one that no other
    quote follows. *)
Lemma quotes_step_eq mem i :
  quotes_step quote mem i =
    (i ← loopM (S (length mem)) (quoted_step quote mem) (i + 1);
     c ← read mem (i + 1);
     if bool_decide (c = quote) then Ok (inl (i + 1)) else Ok (inr (i + 1))).
Proof. done. Qed.

Lemma quotes_loop n : forall t pre post fuel,
  (length t <= n)%nat -> nonul t -> (length t < fuel)%nat ->
  let r := loopM fuel (quotes_step quote (pre ++ (quote :: t) ++ NUL :: post)) (Z.of_nat (length pre)) in
  (quoted_cell true t = None /\ r = Throw (make_error escaped_string_not_closed)) \/
  (exists a b, t = a ++ b /\ a <> [] /\ r = Ok (Z.of_nat (length pre + 1 + length a)) /\
     quoted_cell true t = app a <$> quoted_cell false b).
Proof.
  induction n as [|n IH]; intros t pre post fuel Hn Ht Hf; (destruct fuel as [|fuel]; [lia|]);
    cbn zeta; rewrite loopM_S, quotes_step_eq.
  all: replace (pre ++ (quote :: t) ++ NUL :: post) with ((pre ++ [quote]) ++ t ++ NUL :: post)
      by (by rewrite <- app_assoc).
  all: replace (Z.of_nat (length pre) + 1) with (Z.of_nat (length (pre ++ [quote]))) by (rewrite length_app; simpl; lia).
  all: destruct (quoted_loop t post (pre ++ [quote]) (S (length ((pre ++ [quote]) ++ t ++ NUL :: post))) Ht)
    as [(Hq & Hr)|(a & b & -> & Hr & Hq)]; [rewrite !length_app; simpl; lia| |]; rewrite Hr; cbn [mbind result_bind].
  - by left.
  - rewrite length_app in Hn. simpl in Hn. lia.
  - by left.
  - apply Forall_app in Ht as [Ha Hb]. apply Forall_cons_iff in Hb as [_ Hb].
    rewrite length_app in Hn, Hf. simpl in Hn, Hf.
    replace (Z.of_nat (length (pre ++ [quote]) + length a) + 1)
      with (Z.of_nat (length (pre ++ quote :: a ++ [quote]))) by (rewrite !length_app; simpl; rewrite length_app; simpl; lia).
    replace ((pre ++ [quote]) ++ (a ++ quote :: b) ++ NUL :: post)
      with ((pre ++ quote :: a ++ [quote]) ++ b ++ NUL :: post) by (by rewrite <- !app_assoc; cbn; rewrite <- !app_assoc).
    destruct b as [|c b]; cbn [app]; rewrite read_middle by done; cbn [mbind result_bind].
    + rewrite bool_decide_eq_false_2 by (intros E; by rewrite <- E in quote_nonul).
      right. exists (a ++ [quote]), []. rewrite Hq. split_and!; [by rewrite <- app_assoc|by destruct a| |cbn; by rewrite app_nil_r].
      cbn [mbind result_bind]. do 2 f_equal. rewrite !length_app. simpl. rewrite ?length_app. simpl. lia.
    + case_bool_decide as E; [subst c|].
      * destruct (IH b (pre ++ quote :: a ++ [quote]) post fuel) as [(Hq' & Hr')|(a' & b' & -> & Hne & Hr' & Hq')];
          [simpl in Hn; lia|by inversion Hb|simpl in Hf; lia|left|right].
        -- split; [|exact Hr']. rewrite Hq. cbn [quoted_cell negb andb].
           rewrite bool_decide_eq_false_2, bool_decide_eq_true_2 by done. cbn [negb]. by rewrite Hq'.
        -- exists (a ++ quote :: quote :: a'), b'. split; [by rewrite <- app_assoc|]. split; [by destruct a|].
           split; [etransitivity; [exact Hr'|]; do 2 f_equal; rewrite !length_app; simpl; rewrite !length_app; simpl; lia|].
           rewrite Hq. cbn [quoted_cell negb andb].
           rewrite bool_decide_eq_false_2, bool_decide_eq_true_2 by done. cbn [negb]. rewrite Hq'.
           destruct (quoted_cell false b'); [|done]. cbn. by rewrite <- app_assoc.
      * right. exists (a ++ [quote]), (c :: b). rewrite Hq. split_and!; [by rewrite <- app_assoc|by destruct a| |].
        -- cbn [mbind result_bind]. do 2 f_equal. rewrite !length_app. simpl. rewrite ?length_app. simpl. lia.
        -- destruct (quoted_cell false (c :: b)); [|done]. cbn. by rewrite <- app_assoc.
Qed.

Lemma double_quote_step_eq mem i :
  double_quote_step sep quote mem i =
    (c ← read mem i;
     if negb (bool_decide (c = sep)) && negb (uchar c =? 0) then
       if negb (bool_decide (c = quote)) then Ok (inl (i + 1))
       else j ← loopM (S (length mem)) (quotes_step quote mem) i; Ok (inl j)
     else Ok (inr i)).
Proof. done. Qed.

Lemma double_quote_loop n : forall t pre post fuel,
  (length t <= n)%nat -> nonul t -> (length t < fuel)%nat ->
  loopM fuel (double_quote_step sep quote (pre ++ t ++ NUL :: post)) (Z.of_nat (length pre)) =
    match quoted_cell false t with
    | Some raw => Ok (Z.of_nat (length pre + length raw))
    | None => Throw (make_error escaped_string_not_closed)
    end.
Proof.
  induction n as [|n IH]; intros t pre post fuel Hn Ht Hf; (destruct fuel as [|fuel]; [lia|]);
    rewrite loopM_S, double_quote_step_eq; (destruct t as [|c t]; [|try (simpl in Hn; lia)]); cbn [app];
    rewrite read_middle by done; cbn [mbind result_bind quoted_cell].
  1,2: change (uchar NUL =? 0) with true; rewrite andb_false_r; simpl; by rewrite Nat.add_0_r.
  apply Forall_cons_iff in Ht as [Hc Ht]. rewrite (proj2 (Z.eqb_neq _ 0)) by done. cbn [negb]. rewrite andb_true_r.
  case_bool_decide as Es; cbn [negb andb]; [simpl; by rewrite Nat.add_0_r|].
  case_bool_decide as Eq; cbn [negb].
  - subst c. destruct (quotes_loop (length t) t pre post (S (length (pre ++ quote :: t ++ NUL :: post))))
      as [(Hq & Hr)|(a & b & -> & Hne & Hr & Hq)];
      [done|done|rewrite !length_app; simpl; rewrite length_app; lia| |]; cbn [app] in Hr; rewrite Hr;
      cbn [mbind result_bind]; rewrite Hq; [done|].
    apply Forall_app in Ht as [_ Hb]. simpl in Hn, Hf. rewrite length_app in Hn, Hf.
    assert (0 < length a)%nat by (destruct a; [done|simpl; lia]).
    replace (length pre + 1 + length a)%nat with (length (pre ++ quote :: a)) by (rewrite length_app; simpl; lia).
    replace (pre ++ quote :: (a ++ b) ++ NUL :: post) with ((pre ++ quote :: a) ++ b ++ NUL :: post)
      by (rewrite <- !app_assoc; cbn; rewrite <- ?app_assoc; done).
    rewrite IH by (done || lia). destruct (quoted_cell false b) as [raw|]; [|done]. cbn.
    f_equal. rewrite !length_app. simpl. rewrite ?length_app. lia.
  - cbn [mbind result_bind].
    replace (Z.of_nat (length pre) + 1) with (Z.of_nat (length (pre ++ [c]))) by (rewrite length_app; simpl; lia).
    replace (pre ++ c :: t ++ NUL :: post) with ((pre ++ [c]) ++ t ++ NUL :: post) by (by rewrite <- app_assoc).
    rewrite IH by (first [done|simpl in *; lia]). destruct (quoted_cell false t) as [raw|]; [|done]. cbn.
    f_equal. rewrite length_app. simpl. lia.
Qed.

Lemma double_quote_find_ok pre t post :
  nonul t ->
  @find_next_column_end (double_quote_escape sep quote) (pre ++ t ++ NUL :: post) (Z.of_nat (length pre)) =
    match quoted_cell false t with
    | Some raw => Ok (Z.of_nat (length pre + length raw))
    | None => Throw (make_error escaped_string_not_closed)
    end.
Proof. intros Ht. apply (double_quote_loop (length t)); [done|done|]. rewrite !length_app. simpl. lia. Qed.

(** *** Copying a quoted cell onto itself *)

Lemma unescape_step_eq e i out mem :
  unescape_step quote e (i, out, mem) =
    if negb (i =? e) then
      c ← read mem i;
      skip ← (if bool_decide (c = quote) && negb (i + 1 =? e) then
                c' ← read mem (i + 1); Ok (bool_decide (c' = quote))
              else Ok false);
      let i := if skip : bool then i + 1 else i in
      c ← read mem i;
      mem ← write mem out c;
      Ok (inl (i + 1, out + 1, mem))
    else Ok (inr (out, mem)).
Proof. done. Qed.

Lemma undouble_length m : (length (undouble m) <= length m)%nat.
Proof.
  remember (length m) as n eqn:Hn. assert (length m <= n)%nat as Hm by lia. clear Hn. revert m Hm.
  induction n as [|n IH]; intros [|c [|d m]] Hm; simpl in *; try lia.
  case_match; simpl; [pose proof (IH m)|pose proof (IH (d :: m))]; simpl in *; lia.
Qed.

(** The memory between [in] and [out] is the gap [g]; a step moves one character
    over it, and drops another one when it is a doubled quote. *)
Lemma gap_write (pre g m : bytes) c :
  exists g', @write csv_error _ (pre ++ g ++ c :: m) (Z.of_nat (length pre)) c = Ok ((pre ++ [c]) ++ g' ++ m) /\
    length g' = length g.
Proof.
  destruct g as [|x g]; cbn [app]; rewrite write_middle by done.
  - exists []. by rewrite <- app_assoc.
  - exists (g ++ [c]). rewrite <- !app_assoc. split; [done|]. rewrite length_app. simpl. lia.
Qed.

Lemma unescape_loop n : forall m pre g post fuel,
  (length m <= n)%nat -> (length m < fuel)%nat ->
  exists g',
    loopM fuel (unescape_step quote (Z.of_nat (length pre + length g + length m)))
      (Z.of_nat (length pre + length g), Z.of_nat (length pre), pre ++ g ++ m ++ post) =
      Ok (Z.of_nat (length pre + length (undouble m)), pre ++ undouble m ++ g' ++ post) /\
    (length (undouble m) + length g' = length g + length m)%nat.
Proof.
  induction n as [|n IH]; intros m pre g post fuel Hn Hf; (destruct fuel as [|fuel]; [lia|]);
    rewrite loopM_S, unescape_step_eq; (destruct m as [|c m]; [|try (simpl in Hn; lia)]).
  1,2: cbn [length app undouble]; rewrite !Nat.add_0_r, Z.eqb_refl; exists g; split; [done|lia].
  rewrite (proj2 (Z.eqb_neq _ _)) by (simpl; lia). cbn [negb].
  replace (pre ++ g ++ (c :: m) ++ post) with ((pre ++ g) ++ c :: m ++ post) by (by rewrite <- app_assoc).
  rewrite (read_middle (pre ++ g) c _ (Z.of_nat (length pre + length g))) by (by rewrite length_app). cbn [mbind result_bind].
  set (skip := match m with d :: _ => bool_decide (c = quote) && bool_decide (d = quote) | [] => false end).
  assert ((if bool_decide (c = quote) &&
      negb (Z.of_nat (length pre + length g) + 1 =? Z.of_nat (length pre + length g + length (c :: m))) then
      c' ← read ((pre ++ g) ++ c :: m ++ post) (Z.of_nat (length pre + length g) + 1); Ok (bool_decide (c' = quote))
    else Ok false) = (Ok skip : result csv_error bool)) as ->.
  { unfold skip. destruct m as [|d m].
    - rewrite (proj2 (Z.eqb_eq _ _)) by (simpl; lia). by rewrite andb_false_r.
    - rewrite (proj2 (Z.eqb_neq _ _)) by (simpl; lia). cbn [negb]. rewrite andb_true_r.
      case_bool_decide; [|done]. cbn [andb].
      replace ((pre ++ g) ++ c :: (d :: m) ++ post) with ((pre ++ g ++ [c]) ++ d :: m ++ post)
        by (by rewrite <- !app_assoc).
      rewrite read_middle by (rewrite !length_app; simpl; lia). done. }
  cbn [mbind result_bind]. destruct skip eqn:Hskip; unfold skip in Hskip.
  - destruct m as [|d m]; [done|]. apply andb_true_iff in Hskip as [Hc Hd].
    apply bool_decide_eq_true_1 in Hc as ->. apply bool_decide_eq_true_1 in Hd as ->.
    replace ((pre ++ g) ++ quote :: (quote :: m) ++ post) with (pre ++ (g ++ [quote]) ++ quote :: m ++ post)
      by (by rewrite <- !app_assoc).
    rewrite (app_assoc pre), (read_middle (pre ++ g ++ [quote])) by (rewrite !length_app; simpl; lia).
    cbn [mbind result_bind]. rewrite <- (app_assoc pre).
    destruct (gap_write pre (g ++ [quote]) (m ++ post) quote) as (g1 & -> & Hg1). cbn [mbind result_bind].
    rewrite length_app in Hg1. simpl in Hg1, Hn, Hf.
    destruct (IH m (pre ++ [quote]) g1 post fuel) as (g' & Hr & Hl); [lia..|]. exists g'.
    rewrite length_app in Hr. cbn [length] in *. rewrite Hg1 in *.
    replace (Z.of_nat (length pre + length g) + 1 + 1) with (Z.of_nat (length pre + 1 + (length g + 1))) by lia.
    replace (Z.of_nat (length pre) + 1) with (Z.of_nat (length pre + 1)) by lia.
    replace (length pre + length g + S (S (length m)))%nat
      with (length pre + 1 + (length g + 1) + length m)%nat by lia.
    rewrite Hr. cbn [undouble]. rewrite bool_decide_eq_true_2 by done. cbn [andb app length].
    split; [|lia]. f_equal. f_equal; [lia|by rewrite <- app_assoc].
  - rewrite (read_middle (pre ++ g) c _ (Z.of_nat (length pre + length g))) by (by rewrite length_app). cbn [mbind result_bind]. rewrite <- (app_assoc pre).
    destruct (gap_write pre g (m ++ post) c) as (g1 & -> & Hg1). cbn [mbind result_bind]. simpl in Hn, Hf.
    destruct (IH m (pre ++ [c]) g1 post fuel) as (g' & Hr & Hl); [lia..|]. exists g'.
    rewrite length_app in Hr. cbn [length] in *. rewrite Hg1 in *.
    replace (Z.of_nat (length pre + length g) + 1) with (Z.of_nat (length pre + 1 + length g)) by lia.
    replace (Z.of_nat (length pre) + 1) with (Z.of_nat (length pre + 1)) by lia.
    replace (length pre + length g + S (length m))%nat with (length pre + 1 + length g + length m)%nat by lia.
    rewrite Hr. assert (undouble (c :: m) = c :: undouble m) as ->.
    { destruct m as [|d m]; [done|]. cbn [undouble]. by rewrite Hskip. }
    cbn [app length]. split; [|lia]. f_equal. f_equal; [lia|by rewrite <- app_assoc].
Qed.

Lemma unquoted_quoted m : unquoted (quote :: m ++ [quote]) = undouble m.
Proof.
  cbn [unquoted]. rewrite reverse_snoc. by rewrite !bool_decide_eq_true_2, reverse_involutive by done.
Qed.

(** A text is a quoted one, or [unescape] leaves it alone. *)
Lemma unquoted_cases raw :
  (exists m, raw = quote :: m ++ [quote]) \/
  (unquoted raw = raw /\
   (length raw < 2 \/ raw !! 0%nat <> Some quote \/ raw !! (length raw - 1)%nat <> Some quote)%nat).
Proof.
  destruct raw as [|c m]; [right; simpl; split; [done|lia]|].
  destruct m as [|d m] using rev_ind; [right; simpl; split; [done|lia]|]. clear IHm.
  destruct (decide (c = quote)) as [->|Hc]; [destruct (decide (d = quote)) as [->|Hd]|].
  - left. by exists m.
  - right. split; [cbn [unquoted]; rewrite reverse_snoc; by rewrite (bool_decide_eq_false_2 (d = quote)), andb_false_r|].
    right. right. cbn [length]. rewrite length_app. cbn [length].
    replace (S (length m + 1) - 1)%nat with (length (quote :: m)) by (simpl; lia).
    change (quote :: m ++ [d]) with ((quote :: m) ++ [d]). rewrite list_lookup_middle by done. congruence.
  - right. split; [cbn [unquoted]; rewrite reverse_snoc; by rewrite (bool_decide_eq_false_2 (c = quote))|].
    right. left. cbn. congruence.
Qed.

Lemma double_quote_unescape_ok pre raw post :
  placed pre (length raw) post (unquoted raw)
    (@unescape (double_quote_escape sep quote) (pre ++ raw ++ NUL :: post) (Z.of_nat (length pre))
       (Z.of_nat (length pre + length raw))).
Proof.
  cbn [unescape double_quote_escape]. unfold double_quote_unescape.
  destruct (unquoted_cases raw) as [[m ->]|[-> Hraw]].
  - rewrite unquoted_quoted. cbn [length app]. rewrite length_app. cbn [length].
    rewrite (proj2 (Z.leb_le _ _)) by lia.
    rewrite (read_middle pre quote _ (Z.of_nat (length pre))) by done. cbn [mbind result_bind].
    rewrite bool_decide_eq_true_2 by done.
    replace (pre ++ quote :: (m ++ [quote]) ++ NUL :: post) with ((pre ++ quote :: m) ++ quote :: NUL :: post)
      by (rewrite <- !app_assoc; cbn; rewrite <- ?app_assoc; done).
    rewrite read_middle by (rewrite length_app; simpl; lia). cbn [mbind result_bind].
    rewrite bool_decide_eq_true_2 by done. cbn [andb].
    set (fuel := S (length ((pre ++ quote :: m) ++ quote :: NUL :: post))).
    assert (length m < fuel)%nat as Hfuel by (unfold fuel; rewrite !length_app; simpl; lia). clearbody fuel.
    destruct (unescape_loop (length m) m (pre ++ [quote]) [] (quote :: NUL :: post) fuel) as (g & Hr & Hl); [done..|].
    assert (length (pre ++ [quote]) = length pre + 1)%nat as Hp by (rewrite length_app; simpl; lia).
    rewrite Hp in Hr. cbn [length app] in Hr, Hl. rewrite Nat.add_0_r, <- !app_assoc in Hr. cbn [app] in Hr.
    rewrite <- (app_assoc pre). cbn [app].
    replace (Z.of_nat (length pre) + 1) with (Z.of_nat (length pre + 1)) by lia.
    replace (Z.of_nat (length pre + S (length m + 1)) - 1) with (Z.of_nat (length pre + 1 + length m)) by lia.
    rewrite Hr. cbn [mbind result_bind].
    destruct (trim_write (pre ++ [quote]) [] (undouble m) g quote (NUL :: post)) as (x & y & Hw & Hlen).
    rewrite Hp, <- !app_assoc in Hw. cbn [length app] in Hw, Hlen. rewrite Nat.add_0_r in Hw.
    destruct (write _ _ NUL) as [mem|e|f]; [|done..]. cbn [mbind result_bind] in *.
    injection Hw as Hmem Hb He.
    assert (x = []) as -> by (destruct x; [done|simpl in Hb; lia]). cbn [app length] in *.
    exists [quote], (y ++ [NUL]). rewrite Hmem. cbn [app length]. split.
    + f_equal. f_equal. f_equal. by rewrite <- app_assoc.
    + rewrite length_app. simpl. lia.
  - exists [], []. cbn [app length]. rewrite !Nat.add_0_r. split; [|lia].
    destruct (Z.leb_spec 2 (Z.of_nat (length pre + length raw) - Z.of_nat (length pre))) as [Hl|]; [|done].
    assert (forall i c, raw !! i = Some c ->
      read (pre ++ raw ++ NUL :: post) (Z.of_nat (length pre + i)) = (Ok c : result csv_error ascii)) as Hread.
    { intros i c Hi. apply read_lookup. pose proof (lookup_lt_Some _ _ _ Hi).
      rewrite lookup_app_r, lookup_app_l by lia. by replace (length pre + i - length pre)%nat with i by lia. }
    destruct (lookup_lt_is_Some_2 raw 0 ltac:(lia)) as [c0 H0].
    destruct (lookup_lt_is_Some_2 raw (length raw - 1) ltac:(lia)) as [c1 H1].
    pose proof (Hread _ _ H0) as R0. rewrite Nat.add_0_r in R0. rewrite R0. cbn [mbind result_bind].
    replace (Z.of_nat (length pre + length raw) - 1) with (Z.of_nat (length pre + (length raw - 1))) by lia.
    rewrite (Hread _ _ H1). case_bool_decide as E0; cbn [mbind result_bind andb]; [|done].
    rewrite bool_decide_eq_false_2; [done|]. intros ->. subst c0.
    destruct Hraw as [Hraw|[Hraw|Hraw]]; [lia|by apply Hraw..].
Qed.

Lemma undouble_eq c d m :
  undouble (c :: d :: m) =
    if bool_decide (c = quote) && bool_decide (d = quote) then quote :: undouble m else c :: undouble (d :: m).
Proof. done. Qed.

Lemma undouble_Forall (P : ascii -> Prop) m : Forall P m -> Forall P (undouble m).
Proof.
  remember (length m) as n eqn:Hn. assert (length m <= n)%nat as Hm by lia. clear Hn. revert m Hm.
  induction n as [|n IH]; intros [|c [|d m]] Hm HP; simpl in Hm; try lia; try done.
  apply Forall_cons_iff in HP as [Hc HP]. rewrite undouble_eq. case_match eqn:E.
  - apply andb_true_iff in E as [E _]. apply bool_decide_eq_true_1 in E as <-.
    apply Forall_cons_iff in HP as [_ HP]. constructor; [done|]. apply IH; [lia|done].
  - constructor; [done|]. apply IH; [simpl; lia|done].
Qed.

Lemma unquoted_nonul raw : nonul raw -> nonul (unquoted raw).
Proof.
  intros H. destruct (unquoted_cases raw) as [[m ->]|[-> _]]; [|done]. rewrite unquoted_quoted.
  apply undouble_Forall. apply Forall_cons_iff in H as [_ H]. by apply Forall_app in H as [H _].
Qed.

(** *** The interface of a quoting policy *)

#[export] Instance double_quote_laws : QuoteLaws (double_quote_escape sep quote) := {|
  raw_cell := quoted_cell false;
  unescaped := unquoted;
  raw_cell_prefix t raw := quoted_cell_prefix t false raw;
  find_ok := double_quote_find_ok;
  unescape_ok := double_quote_unescape_ok;
  unescaped_nonul := unquoted_nonul
|}.

(** *** The writer *)

Lemma quoted_cell_double c rest :
  quoted_cell true (double c ++ quote :: rest) =
    (fun r => double c ++ quote :: r) <$> quoted_cell false rest.
Proof.
  induction c as [|x c IH]; cbn [double app quoted_cell negb andb].
  - by rewrite bool_decide_eq_true_2.
  - case_bool_decide as E; cbn [app quoted_cell negb andb].
    + rewrite (bool_decide_eq_true_2 (quote = quote)), (bool_decide_eq_false_2 (quote = sep)) by done.
      cbn [negb]. rewrite IH. by destruct (quoted_cell false rest).
    + rewrite (bool_decide_eq_false_2 (x = quote)) by done. cbn [negb]. rewrite IH.
      by destruct (quoted_cell false rest).
Qed.

Lemma quoted_cell_written c rest :
  rest = [] \/ (exists t, rest = sep :: t) -> quoted_cell false (quote_cell c ++ rest) = Some (quote_cell c).
Proof.
  intros Hrest. unfold quote_cell. cbn [app quoted_cell negb andb].
  rewrite bool_decide_eq_false_2, bool_decide_eq_true_2 by done. cbn [negb].
  rewrite <- app_assoc. cbn [app]. rewrite quoted_cell_double.
  assert (quoted_cell false rest = Some []) as ->.
  { destruct Hrest as [->|[t ->]]; [done|]. cbn. by rewrite bool_decide_eq_true_2. }
  done.
Qed.

Lemma undouble_double c : undouble (double c) = c.
Proof.
  induction c as [|x c IH]; [done|]. cbn [double]. case_bool_decide as E.
  - subst. rewrite undouble_eq, !bool_decide_eq_true_2 by done. cbn [andb]. by rewrite IH.
  - destruct (double c) as [|d m] eqn:Ed.
    + by rewrite <- IH.
    + rewrite undouble_eq, bool_decide_eq_false_2 by done. cbn [andb]. by rewrite IH.
Qed.

Lemma unquoted_written c : unquoted (quote_cell c) = c.
Proof. unfold quote_cell. by rewrite unquoted_quoted, undouble_double. Qed.

Lemma double_Forall (P : ascii -> Prop) c : P quote -> Forall P c -> Forall P (double c).
Proof.
  intros Hq. induction 1 as [|x c Hx Hc IH]; cbn [double]; [constructor|].
  case_bool_decide; repeat constructor; done.
Qed.

Lemma quote_cell_Forall (P : ascii -> Prop) c : P quote -> Forall P c -> Forall P (quote_cell c).
Proof.
  intros Hq Hc. constructor; [done|]. apply Forall_app. split; [by apply double_Forall|by repeat constructor].
Qed.
End Quote.

(** ** Properties *)

(** C24: the three nested loops of [find_next_column_end] stop where the scan
    that toggles at each quote finds the first separator outside quotes, or the
    end of the text; they throw exactly when the text ends inside quotes, and
    never read past its NUL. *)
Theorem find_next_column_end_scan sep quote pre t post :
  quote <> sep -> uchar quote <> 0 -> nonul t ->
  @find_next_column_end (double_quote_escape sep quote) (pre ++ t ++ NUL :: post) (Z.of_nat (length pre)) =
    match quoted_cell sep quote false t with
    | Some raw => Ok (Z.of_nat (length pre + length raw))
    | None => Throw (make_error escaped_string_not_closed)
    end.
Proof. intros H1 H2 H3. by apply double_quote_find_ok. Qed.

(** A separator inside quotes, a doubled quote, and quotes left open. *)
Lemma find_next_column_end_scan_witness :
  let t := [DQ] ++ s2b "a,b" ++ [DQ; DQ; DQ] ++ s2b "c,d" in
  @find_next_column_end (double_quote_escape (chr 44) DQ) (s2b "xy" ++ t ++ [NUL]) 2 = Ok 10 /\
  @find_next_column_end (double_quote_escape (chr 44) DQ) ([DQ] ++ s2b "a,b" ++ [NUL]) 0 =
    Throw (make_error escaped_string_not_closed).
Proof.
  split;
    [etransitivity; [apply (find_next_column_end_scan (chr 44) DQ (s2b "xy"))|]
    |etransitivity; [apply (find_next_column_end_scan (chr 44) DQ [] ([DQ] ++ s2b "a,b"))|]];
    first [vm_compute; reflexivity|vm_compute; discriminate|by apply (bool_decide_unpack _)].
Defined.
