(* ===== verification/CsvNumber.v ===== *)
(** * The conversions of a column in csv.h

    The overloads of [io::detail::parse] for characters, strings and integers
    (src/src/csv.h), on the C string of the column: the checks that keep the
    accumulator in the range of its type, at every width, and what happens
    otherwise under each overflow policy. *)
From S2P Require Import Prelude CLib CsvError CsvLine.

(** ** Definitions *)

(** [std::numeric_limits] of the integer types. *)
Record int_type := { int_min : Z; int_max : Z }.

Definition unsigned_char : int_type := {| int_min := 0; int_max := 2 ^ 8 - 1 |}.
Definition unsigned_short : int_type := {| int_min := 0; int_max := 2 ^ 16 - 1 |}.
Definition unsigned_int : int_type := {| int_min := 0; int_max := 2 ^ 32 - 1 |}.
Definition unsigned_long : int_type := {| int_min := 0; int_max := 2 ^ 64 - 1 |}.
Definition unsigned_long_long : int_type := {| int_min := 0; int_max := 2 ^ 64 - 1 |}.
Definition signed_char : int_type := {| int_min := - 2 ^ 7; int_max := 2 ^ 7 - 1 |}.
Definition signed_short : int_type := {| int_min := - 2 ^ 15; int_max := 2 ^ 15 - 1 |}.
Definition signed_int : int_type := {| int_min := - 2 ^ 31; int_max := 2 ^ 31 - 1 |}.
Definition signed_long : int_type := {| int_min := - 2 ^ 63; int_max := 2 ^ 63 - 1 |}.
Definition signed_long_long : int_type := {| int_min := - 2 ^ 63; int_max := 2 ^ 63 - 1 |}.

Definition parse_char (col : bytes) : result csv_error ascii :=
  match cstr col with
  | [c] => Ok c
  | _ => Throw (make_error invalid_single_character)
  end.

Definition parse_string (col : bytes) : bytes := cstr col.

Section Integers.
Context `{!OverflowPolicy}.
Variable T : int_type.

Fixpoint parse_unsigned_loop (x : Z) (col : bytes) : result csv_error Z :=
  match col with
  | [] => Ok x
  | c :: col' =>
      if (48 <=? schar c) && (schar c <=? 57) then
        let y := schar c - 48 in
        if Z.quot (int_max T - y) 10 <? x then on_overflow (int_max T) x
        else parse_unsigned_loop (10 * x + y) col'
      else Throw (make_error no_digit)
  end.

Definition parse_unsigned_integer (col : bytes) : result csv_error Z := parse_unsigned_loop 0 col.

Fixpoint parse_negative_loop (x : Z) (col : bytes) : result csv_error Z :=
  match col with
  | [] => Ok x
  | c :: col' =>
      if (48 <=? schar c) && (schar c <=? 57) then
        let y := schar c - 48 in
        if x <? Z.quot (int_min T + y) 10 then on_underflow (int_min T) x
        else parse_negative_loop (10 * x - y) col'
      else Throw (make_error no_digit)
  end.

Definition parse_signed_integer (col : bytes) : result csv_error Z :=
  match col with
  | c :: col' =>
      if schar c =? 45 then parse_negative_loop 0 col'
      else if schar c =? 43 then parse_unsigned_integer col' else parse_unsigned_integer col
  | [] => parse_unsigned_integer []
  end.

(** [parse(char *col, T &x)]: the overload a type selects. *)
Definition parse (col : bytes) : result csv_error Z :=
  if int_min T =? 0 then parse_unsigned_integer (cstr col) else parse_signed_integer (cstr col).
End Integers.

(** ** Lemmas *)

(** The test before [10 * x + y] is exact. *)
Lemma overflow_test max x y :
  9 <= max -> 0 <= y <= 9 -> (Z.quot (max - y) 10 <? x) = (max <? 10 * x + y).
Proof.
  intros Hm Hy. rewrite Z.quot_div_nonneg by lia.
  destruct (Z.ltb_spec ((max - y) / 10) x), (Z.ltb_spec max (10 * x + y)); try done; divlia.
Qed.

Lemma underflow_test min x y :
  min <= -9 -> 0 <= y <= 9 -> (x <? Z.quot (min + y) 10) = (10 * x - y <? min).
Proof.
  intros Hm Hy. replace (min + y) with (- (- min - y)) by lia. rewrite Z.quot_opp_l by lia.
  rewrite Z.quot_div_nonneg by lia.
  destruct (Z.ltb_spec x (- ((- min - y) / 10))), (Z.ltb_spec (10 * x - y) min); try done; divlia.
Qed.

Lemma dec_fold_mono s v w :
  Forall (fun c => is_digit c = true) s -> 0 <= v -> 0 <= w ->
  w <= v -> w <= foldl (fun v c => v * 10 + (uchar c - 48)) v s.
Proof.
  intros Hs. revert v. induction Hs as [|c s Hc Hs IH]; intros v Hv Hw Hle; [done|]. simpl.
  apply schar_digit_value in Hc as [_ Hc]. apply IH; lia.
Qed.

(** An overflow policy whose outcome does not depend on the accumulator: all
    of csv.h but [ignore_overflow]. *)
Class ConstantPolicy `(!OverflowPolicy) := {
  overflow_const m x : on_overflow m x = on_overflow m 0;
  underflow_const m x : on_underflow m x = on_underflow m 0
}.

#[export] Instance throw_constant : ConstantPolicy throw_on_overflow.
Proof. done. Qed.

#[export] Instance set_to_max_constant : ConstantPolicy set_to_max_on_overflow.
Proof. done. Qed.

Section LoopSpecs.
Context `{!OverflowPolicy} `{!ConstantPolicy _}.

Lemma parse_unsigned_loop_spec T s x :
  9 <= int_max T -> 0 <= x <= int_max T ->
  parse_unsigned_loop T x s =
    (let v := foldl (fun v c => v * 10 + (uchar c - 48)) x (digit_prefix s) in
     if int_max T <? v then on_overflow (int_max T) 0
     else if forallb is_digit s then Ok v else Throw (make_error no_digit)).
Proof.
  intros HT. revert x. induction s as [|c s IH]; intros x Hx; cbn [parse_unsigned_loop digit_prefix forallb].
  { simpl. rewrite (proj2 (Z.ltb_ge _ _)) by lia. done. }
  fold (is_digit c). destruct (is_digit c) eqn:Hc; cbn [andb foldl].
  - destruct (schar_digit_value _ Hc) as [-> Hd]. rewrite overflow_test by lia.
    destruct (Z.ltb_spec (int_max T) (10 * x + (uchar c - 48))) as [Ho|Ho].
    + pose proof (dec_fold_mono (digit_prefix s) (10 * x + (uchar c - 48)) (10 * x + (uchar c - 48))
        (digit_prefix_is_digit s) ltac:(lia) ltac:(lia) ltac:(lia)).
      cbn zeta. replace (x * 10) with (10 * x) by lia. rewrite (proj2 (Z.ltb_lt _ _)) by lia. apply overflow_const.
    + rewrite IH by lia. by replace (x * 10) with (10 * x) by lia.
  - cbn zeta. rewrite (proj2 (Z.ltb_ge _ _)) by lia. done.
Qed.

Lemma parse_negative_loop_spec T s x :
  int_min T <= -9 -> int_min T <= x <= 0 ->
  parse_negative_loop T x s =
    (let v := - foldl (fun v c => v * 10 + (uchar c - 48)) (- x) (digit_prefix s) in
     if v <? int_min T then on_underflow (int_min T) 0
     else if forallb is_digit s then Ok v else Throw (make_error no_digit)).
Proof.
  intros HT. revert x. induction s as [|c s IH]; intros x Hx; cbn [parse_negative_loop digit_prefix forallb].
  { cbn zeta. simpl. rewrite Z.opp_involutive, (proj2 (Z.ltb_ge _ _)) by lia. done. }
  fold (is_digit c). destruct (is_digit c) eqn:Hc; cbn [andb foldl].
  - destruct (schar_digit_value _ Hc) as [-> Hd]. rewrite underflow_test by lia.
    replace (- x * 10 + (uchar c - 48)) with (- (10 * x - (uchar c - 48))) by lia.
    destruct (Z.ltb_spec (10 * x - (uchar c - 48)) (int_min T)) as [Ho|Ho].
    + pose proof (dec_fold_mono (digit_prefix s) (- (10 * x - (uchar c - 48))) (- (10 * x - (uchar c - 48)))
        (digit_prefix_is_digit s) ltac:(lia) ltac:(lia) ltac:(lia)).
      cbn zeta. rewrite (proj2 (Z.ltb_lt _ _)) by lia. apply underflow_const.
    + by rewrite IH by lia.
  - cbn zeta. rewrite Z.opp_involutive, (proj2 (Z.ltb_ge _ _)) by lia. done.
Qed.
End LoopSpecs.

Lemma fmt_u_all_digits n : 0 <= n -> forallb is_digit (fmt_u n) = true.
Proof. intros Hn. apply forallb_forall, List.Forall_forall. by apply digits10_is_digit. Qed.

Lemma fmt_u_head n c s : 0 <= n -> fmt_u n = c :: s -> schar c <> 45 /\ schar c <> 43.
Proof.
  intros Hn E. pose proof (digits10_is_digit n Hn) as H. unfold fmt_u in E. rewrite E in H.
  apply Forall_cons_iff in H as [Hc _]. apply schar_digit_value in Hc as [-> ?]. lia.
Qed.

(** ** Properties *)

(** An unsigned conversion reads exactly the decimal numbers of its range:
    the value of the text's leading digits decides the overflow, and only then
    a character that is no digit is reported. *)
Theorem parse_unsigned_spec T s :
  9 <= int_max T ->
  parse_unsigned_integer T s =
    if int_max T <? dec_value (digit_prefix s) then Throw (make_error integer_overflow)
    else if forallb is_digit s then Ok (dec_value s) else Throw (make_error no_digit).
Proof.
  intros HT. unfold parse_unsigned_integer. rewrite parse_unsigned_loop_spec by lia.
  fold (dec_value (digit_prefix s)). cbn zeta.
  destruct (forallb is_digit s) eqn:E; [by rewrite digit_prefix_all|done].
Qed.

Lemma parse_unsigned_spec_witness :
  parse_unsigned_integer unsigned_short (s2b "65535") = Ok 65535 /\
  parse_unsigned_integer unsigned_short (s2b "65536x") = Throw (make_error integer_overflow).
Proof.
  split; (rewrite (parse_unsigned_spec unsigned_short) by (vm_compute; congruence); vm_compute; reflexivity).
Defined.

(** A signed conversion is the inverse of printing with [%d], and reports
    an underflow or overflow for exactly the numbers outside its type's range. *)
Theorem parse_signed_fmt_d T n :
  int_min T <= -9 -> 9 <= int_max T ->
  parse_signed_integer T (fmt_d n) =
    if n <? int_min T then Throw (make_error integer_underflow)
    else if int_max T <? n then Throw (make_error integer_overflow) else Ok n.
Proof.
  intros Hmin Hmax. unfold fmt_d. destruct (Z.ltb_spec n 0) as [Hn|Hn].
  - cbn [app s2b String.list_ascii_of_string parse_signed_integer].
    change (schar _ =? 45) with true. cbn iota.
    fold (fmt_u (- n)). rewrite parse_negative_loop_spec by lia.
    rewrite digit_prefix_all, fmt_u_all_digits by (try apply fmt_u_all_digits; lia).
    cbn zeta. change (- 0) with 0. fold (dec_value (fmt_u (- n))).
    rewrite fmt_u_value, Z.opp_involutive by lia. case_match; [done|].
    by rewrite (proj2 (Z.ltb_ge _ _)) by lia.
  - fold (fmt_u n). rewrite (proj2 (Z.ltb_ge n _)) by lia.
    replace (parse_signed_integer T (fmt_u n)) with (parse_unsigned_integer T (fmt_u n)).
    + unfold parse_unsigned_integer. rewrite parse_unsigned_loop_spec by lia.
      rewrite digit_prefix_all, fmt_u_all_digits by (try apply fmt_u_all_digits; lia).
      fold (dec_value (fmt_u n)). by rewrite fmt_u_value.
    + destruct (fmt_u n) as [|c s] eqn:E; [done|]. cbn [parse_signed_integer].
      destruct (fmt_u_head _ _ _ Hn E). rewrite !(proj2 (Z.eqb_neq _ _)) by done. done.
Qed.

Lemma parse_signed_fmt_d_witness :
  parse_signed_integer signed_int (fmt_d (- 2 ^ 31)) = Ok (- 2 ^ 31) /\
  parse_signed_integer signed_int (fmt_d (- 2 ^ 31 - 1)) = Throw (make_error integer_underflow).
Proof.
  split; (rewrite (parse_signed_fmt_d signed_int) by (vm_compute; congruence); vm_compute; reflexivity).
Defined.
