(* ===== verification/CsvFloat.v ===== *)
(** * The floating-point columns of csv.h

    [io::detail::parse_float] (src/src/csv.h), over an arithmetic given as a
    class: the types [float], [double] and [long double] are the IEEE 754
    formats of the standard library's [SpecFloat], and the rational numbers are
    the reference the parsed value is stated against. *)
From Stdlib Require Import Qcanon Field SpecFloat.
From S2P Require Import Prelude CLib CsvError CsvLine CsvNumber.
#[local] Open Scope Z_scope.

(** ** Definitions *)

(** What [parse_float] uses of its type [T]: conversion of an [int], [T(0.1)]
    and the operators. *)
Class FloatType (T : Type) := {
  of_int : Z -> T;
  of_tenth : T;
  float_mul : T -> T -> T;
  float_add : T -> T -> T;
  float_div : T -> T -> T;
  float_opp : T -> T
}.

Section ParseFloat.
Context {T : Type} `{!FloatType T}.

Definition parse_sign (col : bytes) : bool * bytes :=
  match col with
  | c :: col' =>
      if schar c =? 45 then (true, col') else if schar c =? 43 then (false, col') else (false, col)
  | [] => (false, [])
  end.

(** The digits before the point. *)
Fixpoint parse_whole (x : T) (col : bytes) : T * bytes :=
  match col with
  | c :: col' =>
      if (48 <=? schar c) && (schar c <=? 57) then
        let y := schar c - 48 in
        let x := float_mul x (of_int 10) in
        let x := float_add x (of_int y) in
        parse_whole x col'
      else (x, col)
  | [] => (x, [])
  end.

(** The digits after the point; [pos] is the weight of the last one. *)
Fixpoint parse_decimals (pos x : T) (col : bytes) : T * bytes :=
  match col with
  | c :: col' =>
      if (48 <=? schar c) && (schar c <=? 57) then
        let pos := float_div pos (of_int 10) in
        let y := schar c - 48 in
        parse_decimals pos (float_add x (float_mul (of_int y) pos)) col'
      else (x, col)
  | [] => (x, [])
  end.

Definition is_point (c : ascii) : bool := (schar c =? 46) || (schar c =? 44).
Definition is_exponent_mark (c : ascii) : bool := (schar c =? 101) || (schar c =? 69).

Definition parse_fraction (x : T) (col : bytes) : T * bytes :=
  match col with
  | c :: col' => if is_point c then parse_decimals (of_int 1) x col' else (x, col)
  | [] => (x, [])
  end.

(** The body of [while (e != 1)], and [x *= base] after it. *)
Definition scale_step (s : T * T * Z) : result csv_error (T * T * Z + T) :=
  let '(x, base, e) := s in
  if negb (e =? 1) then
    if Z.land e 1 =? 0 then Ok (inl (x, float_mul base base, Z.shiftr e 1))
    else Ok (inl (float_mul x base, base, e - 1))
  else Ok (inr (float_mul x base)).

Definition scale (x base : T) (e : Z) : result csv_error T := loopM 64 scale_step (x, base, e).

(** What follows the exponent mark.  Negating the least [int] overflows. *)
Definition parse_exponent (x : T) (col : bytes) : result csv_error T :=
  e ← @parse_signed_integer set_to_max_on_overflow signed_int col;
  if negb (e =? 0) then
    if e <? 0 then
      if e =? int_min signed_int then Undefined Overflow else scale x of_tenth (- e)
    else scale x (of_int 10) e
  else Ok x.

Definition parse_float (col : bytes) : result csv_error T :=
  let '(is_neg, col) := parse_sign (cstr col) in
  let '(x, col) := parse_whole (of_int 0) col in
  let '(x, col) := parse_fraction x col in
  x ← match col with
      | c :: col' => if is_exponent_mark c then parse_exponent x col' else Throw (make_error no_digit)
      | [] => Ok x
      end;
  Ok (if is_neg : bool then float_opp x else x).
End ParseFloat.

(** The formats of x86-64, rounding to nearest even after every operation. *)
Definition sf_of_int (prec emax n : Z) : spec_float := binary_normalize prec emax n 0 false.

(** The [double] 0.1 converted to the format. *)
Definition sf_tenth (prec emax : Z) : spec_float :=
  binary_normalize prec emax 7205759403792794 (-56) false.

Definition sf_type (prec emax : Z) : FloatType spec_float := {|
  of_int := sf_of_int prec emax;
  of_tenth := sf_tenth prec emax;
  float_mul := SFmul prec emax;
  float_add := SFadd prec emax;
  float_div := SFdiv prec emax;
  float_opp := SFopp
|}.

Definition parse_binary32 (col : bytes) : result csv_error spec_float := @parse_float _ (sf_type 24 128) col.
Definition parse_binary64 (col : bytes) : result csv_error spec_float := @parse_float _ (sf_type 53 1024) col.
Definition parse_extended (col : bytes) : result csv_error spec_float := @parse_float _ (sf_type 64 16384) col.

(** Exact arithmetic. *)
Definition qc (a : Z) : Qc := Q2Qc (QArith_base.inject_Z a).

#[export] Instance exact_type : FloatType Qc := {|
  of_int := qc;
  of_tenth := (1 / qc 10)%Qc;
  float_mul := Qcmult;
  float_add := Qcplus;
  float_div := Qcdiv;
  float_opp := Qcopp
|}.

(** ** Specification: the literals [parse_float] accepts and their values *)

Record literal := { negative : bool; whole : bytes; decimals : bytes; exponent : Z }.

(** The text after the digits [t] starts with. *)
Definition skip_digits (t : bytes) : bytes := drop (length (digit_prefix t)) t.

(** The exponent, clamped to the range of [int]; once it is out of range the
    rest of the text is not read. *)
Definition exponent_of (t : bytes) : option Z :=
  let '(neg, t) := parse_sign t in
  let v := dec_value (digit_prefix t) in
  if (if neg : bool then 2 ^ 31 else 2 ^ 31 - 1) <? v then Some (if neg : bool then - 2 ^ 31 else 2 ^ 31 - 1)
  else if forallb is_digit t then Some (if neg : bool then - v else v) else None.

(** The digits after the point, if there is one, and what follows. *)
Definition fraction_digits (t : bytes) : bytes * bytes :=
  match t with
  | c :: t' => if is_point c then (digit_prefix t', skip_digits t') else ([], t)
  | [] => ([], [])
  end.

Definition scan (col : bytes) : option literal :=
  let '(neg, t) := parse_sign col in
  let w := digit_prefix t in
  let t := skip_digits t in
  let '(d, t) := fraction_digits t in
  match t with
  | [] => Some {| negative := neg; whole := w; decimals := d; exponent := 0 |}
  | c :: t =>
      if is_exponent_mark c then
        match exponent_of t with
        | Some e => Some {| negative := neg; whole := w; decimals := d; exponent := e |}
        | None => None
        end
      else None
  end.

Definition power_of_ten (e : Z) : Qc :=
  if e <? 0 then ((1 / qc 10) ^ Z.to_nat (- e))%Qc else (qc 10 ^ Z.to_nat e)%Qc.

Definition literal_value (l : literal) : Qc :=
  let m := (qc (dec_value (whole l ++ decimals l)) / qc 10 ^ length (decimals l))%Qc in
  let v := (m * power_of_ten (exponent l))%Qc in
  if negative l then (- v)%Qc else v.

(** ** Lemmas *)

(** *** Digits *)

Lemma dec_fold_linear v s :
  foldl (fun v c => v * 10 + (uchar c - 48)) v s = v * 10 ^ Z.of_nat (length s) + dec_value s.
Proof.
  unfold dec_value. revert v. induction s as [|c s IH]; intros v; cbn [foldl length]; [lia|].
  rewrite (IH (v * 10 + _)), (IH (0 * 10 + _)), Nat2Z.inj_succ, Z.pow_succ_r by lia. lia.
Qed.

Lemma dec_value_cons c s : dec_value (c :: s) = (uchar c - 48) * 10 ^ Z.of_nat (length s) + dec_value s.
Proof. unfold dec_value at 1. cbn [foldl]. by rewrite dec_fold_linear. Qed.

Lemma dec_value_app s s' : dec_value (s ++ s') = dec_value s * 10 ^ Z.of_nat (length s') + dec_value s'.
Proof. unfold dec_value at 1. rewrite foldl_app. fold (dec_value s). apply dec_fold_linear. Qed.

Lemma dec_value_nonneg s : Forall (fun c => is_digit c = true) s -> 0 <= dec_value s.
Proof.
  induction 1 as [|c s Hc _ IH]; [done|]. rewrite dec_value_cons.
  apply schar_digit_value in Hc as [_ Hc]. nia.
Qed.

Lemma skip_digits_cons c s : is_digit c = true -> skip_digits (c :: s) = skip_digits s.
Proof. intros Hc. unfold skip_digits. cbn [digit_prefix]. by rewrite Hc. Qed.

Lemma skip_digits_other c s : is_digit c = false -> skip_digits (c :: s) = c :: s.
Proof. intros Hc. unfold skip_digits. cbn [digit_prefix]. by rewrite Hc. Qed.

(** *** The exact arithmetic *)

Lemma qc_add a b : qc (a + b) = (qc a + qc b)%Qc.
Proof. unfold qc, Qcplus. apply Q2Qc_eq_iff. cbn [this Q2Qc]. by rewrite !Qreduction.Qred_correct, QArith_base.inject_Z_plus. Qed.

Lemma qc_mul a b : qc (a * b) = (qc a * qc b)%Qc.
Proof. unfold qc, Qcmult. apply Q2Qc_eq_iff. cbn [this Q2Qc]. by rewrite !Qreduction.Qred_correct, QArith_base.inject_Z_mult. Qed.

Lemma qc_pow a (n : nat) : qc (a ^ Z.of_nat n) = (qc a ^ n)%Qc.
Proof.
  induction n as [|n IH]; [done|].
  rewrite Nat2Z.inj_succ, Z.pow_succ_r, qc_mul, IH by lia. done.
Qed.

Lemma qc_10 : qc 10 <> qc 0.
Proof. intros H. apply (f_equal this) in H. done. Qed.

Lemma qc_10_pow n : (qc 10 ^ n)%Qc <> qc 0.
Proof.
  induction n as [|n IH]; [by intros H; apply (f_equal this) in H|]. cbn. intros H.
  apply Qcmult_integral in H as [H|H]; [by apply qc_10|done].
Qed.

Lemma parse_whole_exact x s :
  parse_whole (qc x) s = (qc (foldl (fun v c => v * 10 + (uchar c - 48)) x (digit_prefix s)), skip_digits s).
Proof.
  revert x. induction s as [|c s IH]; intros x; [done|]. cbn [parse_whole digit_prefix].
  fold (is_digit c). destruct (is_digit c) eqn:Hc; [|by rewrite skip_digits_other].
  destruct (schar_digit_value _ Hc) as [-> _]. cbn zeta.
  change (float_add _ _) with (qc x * qc 10 + qc (uchar c - 48))%Qc.
  by rewrite <- qc_mul, <- qc_add, IH, skip_digits_cons by done.
Qed.

Lemma no_decimals (x pos : Qc) : (x + pos * (qc (dec_value []) / qc 10 ^ length (A:=ascii) []))%Qc = x.
Proof. change (qc (dec_value [])) with 0%Qc. change (qc 10 ^ _)%Qc with 1%Qc. unfold Qcdiv. ring. Qed.

Lemma parse_decimals_exact (pos x : Qc) s :
  parse_decimals pos x s =
    (x + pos * (qc (dec_value (digit_prefix s)) / qc 10 ^ length (digit_prefix s)), skip_digits s)%Qc.
Proof.
  revert pos x. induction s as [|c s IH]; intros pos x; cbn [parse_decimals digit_prefix].
  { by rewrite no_decimals. }
  fold (is_digit c). destruct (is_digit c) eqn:Hc.
  - destruct (schar_digit_value _ Hc) as [-> _]. cbn zeta.
    rewrite IH, skip_digits_cons by done. f_equal. cbn [length].
    rewrite dec_value_cons, qc_add, qc_mul, qc_pow. cbn. field.
    split; [apply qc_10_pow|apply qc_10].
  - rewrite skip_digits_other by done. by rewrite no_decimals.
Qed.

Lemma parse_fraction_exact w t :
  parse_fraction (qc (dec_value w)) t =
    let '(d, u) := fraction_digits t in ((qc (dec_value (w ++ d)) / qc 10 ^ length d)%Qc, u).
Proof.
  assert (qc (dec_value w) = qc (dec_value (w ++ [])) / qc 10 ^ length (A:=ascii) [])%Qc as H0.
  { rewrite app_nil_r. change (qc 10 ^ length _)%Qc with 1%Qc. field. done. }
  destruct t as [|c u]; cbn [parse_fraction fraction_digits]; [by f_equal|].
  case_match; [|by f_equal]. rewrite parse_decimals_exact. f_equal.
  rewrite dec_value_app, qc_add, qc_mul, qc_pow. change (of_int 1) with 1%Qc. field. apply qc_10_pow.
Qed.

(** *** The exponent *)

Lemma parse_exponent_text t :
  @parse_signed_integer set_to_max_on_overflow signed_int t =
    match exponent_of t with Some e => Ok e | None => Throw (make_error no_digit) end.
Proof.
  unfold exponent_of, parse_signed_integer, parse_sign, parse_unsigned_integer.
  assert (forall t, @parse_unsigned_loop set_to_max_on_overflow signed_int 0 t =
    match (if 2 ^ 31 - 1 <? dec_value (digit_prefix t) then Some (2 ^ 31 - 1)
           else if forallb is_digit t then Some (dec_value (digit_prefix t)) else None) with
    | Some e => Ok e | None => Throw (make_error no_digit) end) as Hu.
  { intros u. rewrite parse_unsigned_loop_spec by done. fold (dec_value (digit_prefix u)). cbn zeta.
    change (int_max signed_int) with (2 ^ 31 - 1). by cases. }
  destruct t as [|c t]; [done|]. case_match; [|case_match; apply Hu].
  rewrite parse_negative_loop_spec by done. change (- 0) with 0. fold (dec_value (digit_prefix t)). cbn zeta.
  change (int_min signed_int) with (- 2 ^ 31).
  replace (- dec_value (digit_prefix t) <? - 2 ^ 31) with (2 ^ 31 <? dec_value (digit_prefix t))
    by (apply Bool.eq_iff_eq_true; rewrite !Z.ltb_lt; lia).
  by cases.
Qed.

Lemma exponent_of_range t e : exponent_of t = Some e -> - 2 ^ 31 <= e < 2 ^ 31.
Proof.
  unfold exponent_of. destruct (parse_sign t) as [neg u].
  pose proof (dec_value_nonneg _ (digit_prefix_is_digit u)).
  destruct neg; case_match eqn:Hv; [intros [= <-]; lia|case_match; intros [= <-]; bool2prop; lia| |];
    [intros [= <-]; lia|case_match; intros [= <-]; bool2prop; lia].
Qed.

Lemma scale_step_one {T} `{!FloatType T} (x base : T) :
  scale_step (x, base, 1) = Ok (inr (float_mul x base)).
Proof. done. Qed.

Lemma scale_step_even {T} `{!FloatType T} (x base : T) e :
  1 <= e -> scale_step (x, base, 2 * e) = Ok (inl (x, float_mul base base, e)).
Proof.
  intros He. unfold scale_step. rewrite (proj2 (Z.eqb_neq _ _)) by lia. cbn [negb].
  rewrite (land_low_mod _ 1) by done. replace (2 * e) with (e * 2 ^ 1) at 1 by lia.
  rewrite Z.mod_mul by done. cbn [Z.eqb]. rewrite Z.shiftr_div_pow2 by done.
  replace (2 * e) with (e * 2 ^ 1) by lia. by rewrite Z.div_mul.
Qed.

Lemma scale_step_odd {T} `{!FloatType T} (x base : T) e :
  1 <= e -> scale_step (x, base, 2 * e + 1) = Ok (inl (float_mul x base, base, 2 * e)).
Proof.
  intros He. unfold scale_step. rewrite (proj2 (Z.eqb_neq _ _)) by lia. cbn [negb].
  rewrite (land_low_mod _ 1) by done. replace ((2 * e + 1) mod 2 ^ 1) with 1 by (pows; divlia).
  change (1 =? 0) with false. cbn iota. do 3 f_equal. lia.
Qed.

(** The loop runs through the binary digits of the exponent: what holds after
    the last step, and is carried backwards by a squaring and by a product, holds
    of its result. *)
Lemma scale_ind {T} `{!FloatType T} (Q : T -> T -> Z -> T -> Prop) :
  (forall x b, Q x b 1 (float_mul x b)) ->
  (forall x b e r, 1 <= e -> Q x (float_mul b b) e r -> Q x b (2 * e) r) ->
  (forall x b e r, 1 <= e -> Q (float_mul x b) b (2 * e) r -> Q x b (2 * e + 1) r) ->
  forall x b e, 1 <= e < 2 ^ 31 -> exists r, scale x b e = Ok r /\ Q x b e r.
Proof.
  intros H1 Heven Hodd x b e He. unfold scale.
  assert (forall k fuel x b e, 1 <= e < 2 ^ (Z.of_nat k + 1) -> (2 * k < fuel)%nat ->
    exists r, loopM fuel scale_step (x, b, e) = Ok r /\ Q x b e r) as H; [|apply (H 30%nat); lia].
  clear x b e He. induction k as [|k IH]; intros fuel x b e He Hf.
  { replace e with 1 by (change (2 ^ (Z.of_nat 0 + 1)) with 2 in He; lia).
    destruct fuel; [lia|]. rewrite loopM_S, scale_step_one. eexists. done. }
  destruct (decide (e = 1)) as [->|Hne].
  { destruct fuel; [lia|]. rewrite loopM_S, scale_step_one. eexists. done. }
  rewrite Nat2Z.inj_succ in He. replace (Z.succ (Z.of_nat k) + 1) with (Z.of_nat k + 1 + 1) in He by lia.
  rewrite Z.pow_add_r in He by lia. change (2 ^ 1) with 2 in He.
  assert (exists h, 1 <= h < 2 ^ (Z.of_nat k + 1) /\ (e = 2 * h \/ e = 2 * h + 1)) as (h & Hh & Heq).
  { exists (e / 2). generalize dependent (2 ^ (Z.of_nat k + 1)). intros. divlia. }
  destruct fuel as [|[|fuel]]; [lia..|]. destruct Heq as [->| ->]; rewrite loopM_S.
  - rewrite scale_step_even by lia. cbn -[loopM].
    destruct (IH (S fuel) x (float_mul b b) h) as (r & -> & Hr); [lia..|].
    exists r. split; [done|]. apply Heven; [lia|done].
  - rewrite scale_step_odd by lia. cbn -[loopM]. rewrite loopM_S, scale_step_even by lia. cbn -[loopM].
    destruct (IH fuel (float_mul x b) (float_mul b b) h) as (r & -> & Hr); [lia..|].
    exists r. split; [done|]. apply Hodd, Heven; [lia..|done].
Qed.

Lemma Qcpower_add (b : Qc) n m : (b ^ (n + m) = b ^ n * b ^ m)%Qc.
Proof. induction n as [|n IH]; cbn; [ring|]. rewrite IH. ring. Qed.

Lemma scale_exact (x b : Qc) e : 1 <= e < 2 ^ 31 -> scale x b e = Ok (x * b ^ Z.to_nat e)%Qc.
Proof.
  intros He. destruct (scale_ind (fun x b e r => r = x * b ^ Z.to_nat e)%Qc) with x b e as (r & -> & ->); [| | |done..].
  - intros y c. change (Z.to_nat 1) with 1%nat. cbn. ring.
  - intros y c f r Hf ->. replace (Z.to_nat (2 * f)) with (Z.to_nat f + Z.to_nat f)%nat by lia.
    rewrite Qcpower_add. f_equal. change (float_mul c c) with (c * c)%Qc. generalize (Z.to_nat f). intros n. induction n as [|n IH]; [cbn; ring|].
    cbn. rewrite IH. ring.
  - intros y c f r Hf ->. replace (Z.to_nat (2 * f + 1)) with (S (Z.to_nat (2 * f))) by lia. cbn. ring.
Qed.

Lemma parse_exponent_exact (x : Qc) t :
  parse_exponent x t =
    match exponent_of t with
    | Some e => if e =? - 2 ^ 31 then Undefined Overflow else Ok (x * power_of_ten e)%Qc
    | None => Throw (make_error no_digit)
    end.
Proof.
  unfold parse_exponent. rewrite parse_exponent_text. destruct (exponent_of t) as [e|] eqn:E; [|done].
  apply exponent_of_range in E. cbn -[scale]. unfold power_of_ten.
  change (- Z.pow_pos 2 31) with (- 2 ^ 31).
  destruct (Z.eqb_spec e 0) as [->|He]; cbn [negb].
  { cbn. f_equal. change (x = x * 1)%Qc. ring. }
  destruct (Z.ltb_spec e 0); [destruct (Z.eqb_spec e (- 2 ^ 31)); [done|]|].
  - by rewrite scale_exact by lia.
  - rewrite (proj2 (Z.eqb_neq _ _)), scale_exact by lia. done.
Qed.

(** *** Two arithmetics run in step *)

(** The same way out, and related values. *)
Definition result_rel {E A B} (R : A -> B -> Prop) (r : result E A) (r' : result E B) : Prop :=
  match r, r' with
  | Ok a, Ok b => R a b
  | Throw e, Throw e' => e = e'
  | Undefined f, Undefined f' => f = f'
  | _, _ => False
  end.

Section Simulation.
Context {T T' : Type} `{!FloatType T} `{!FloatType T'} (R : T -> T' -> Prop).
Hypothesis R_of_int : forall n, R (of_int n) (of_int n).
Hypothesis R_tenth : R of_tenth of_tenth.
Hypothesis R_mul : forall x x' y y', R x x' -> R y y' -> R (float_mul x y) (float_mul x' y').
Hypothesis R_add : forall x x' y y', R x x' -> R y y' -> R (float_add x y) (float_add x' y').
Hypothesis R_div : forall x x' y y', R x x' -> R y y' -> R (float_div x y) (float_div x' y').
Hypothesis R_opp : forall x x', R x x' -> R (float_opp x) (float_opp x').

#[local] Hint Resolve R_of_int R_tenth R_mul R_add R_div R_opp : core.

Let RP (p : T * bytes) (p' : T' * bytes) : Prop := R p.1 p'.1 /\ p.2 = p'.2.

Lemma parse_whole_rel x x' s : R x x' -> RP (parse_whole x s) (parse_whole x' s).
Proof.
  revert x x'. induction s as [|c s IH]; intros x x' H; [done|].
  cbn [parse_whole]. case_match; [|done]. apply IH; auto.
Qed.

Lemma parse_decimals_rel pos pos' x x' s :
  R pos pos' -> R x x' -> RP (parse_decimals pos x s) (parse_decimals pos' x' s).
Proof.
  revert pos pos' x x'. induction s as [|c s IH]; intros pos pos' x x' Hp H; [done|].
  cbn [parse_decimals]. case_match; [|done]. apply IH; auto.
Qed.

Lemma parse_fraction_rel x x' s : R x x' -> RP (parse_fraction x s) (parse_fraction x' s).
Proof.
  intros H. destruct s as [|c s]; [done|]. cbn [parse_fraction].
  case_match; [|done]. apply parse_decimals_rel; auto.
Qed.

Lemma scale_rel fuel x x' b b' e :
  R x x' -> R b b' ->
  result_rel R (loopM fuel scale_step (x, b, e)) (loopM fuel scale_step (x', b', e)).
Proof.
  revert x x' b b' e. induction fuel as [|fuel IH]; intros x x' b b' e Hx Hb; [done|].
  rewrite !loopM_S. cbn [scale_step]. case_match; [|apply R_mul; auto].
  case_match; cbn -[loopM]; apply IH; auto.
Qed.

Lemma parse_exponent_rel x x' s : R x x' -> result_rel R (parse_exponent x s) (parse_exponent x' s).
Proof.
  intros H. unfold parse_exponent. destruct (parse_signed_integer _ s) as [e|e|f]; [|done..].
  cbn -[scale]. repeat case_match; try done; apply scale_rel; auto.
Qed.

Lemma parse_float_rel col : result_rel R (parse_float (T := T) col) (parse_float (T := T') col).
Proof.
  unfold parse_float. destruct (parse_sign (cstr col)) as [neg s].
  pose proof (parse_whole_rel (of_int 0) (of_int 0) s (R_of_int 0)) as [Hx Hs].
  destruct (parse_whole (of_int 0) s) as [x t], (parse_whole (of_int 0) s) as [x' t'].
  cbn in Hx, Hs. subst t'.
  pose proof (parse_fraction_rel x x' t Hx) as [Hy Ht].
  destruct (parse_fraction x t) as [y u], (parse_fraction x' t) as [y' u']. cbn in Hy, Ht. subst u'.
  destruct u as [|c u]; [destruct neg; cbn; auto|]. cbn [mbind result_bind]. destruct (is_exponent_mark c); [|by unfold result_rel].
  pose proof (parse_exponent_rel y y' u Hy) as He. unfold result_rel in He.
  destruct (parse_exponent y u), (parse_exponent y' u); try done. destruct neg; cbn; auto.
Qed.
End Simulation.

Lemma parse_float_literals col :
  parse_float (T := Qc) col =
    match scan (cstr col) with
    | Some l => if exponent l =? - 2 ^ 31 then Undefined Overflow else Ok (literal_value l)
    | None => Throw (make_error no_digit)
    end.
Proof.
  unfold parse_float, scan. destruct (parse_sign (cstr col)) as [neg s].
  change (of_int 0) with (qc 0). rewrite parse_whole_exact. fold (dec_value (digit_prefix s)).
  rewrite parse_fraction_exact. generalize (digit_prefix s), (skip_digits s). intros w t.
  destruct (fraction_digits t) as [d u].
  destruct u as [|c u].
  - cbn -[Z.pow]. unfold literal_value. cbn [negative whole decimals exponent].
    change (power_of_ten 0) with 1%Qc. rewrite Qcmult_1_r. by destruct neg.
  - destruct (is_exponent_mark c); [|reflexivity].
    rewrite parse_exponent_exact. destruct (exponent_of u) as [e|]; [|reflexivity].
    unfold literal_value. cbn [negative whole decimals exponent].
    destruct (e =? - 2 ^ 31); [reflexivity|]. by destruct neg.
Qed.

(** ** Properties *)

(** C22: over exact arithmetic, what [parse_float] does with every text.  It accepts
    an optional sign, digits, optionally a point or comma with digits, and
    optionally e or E with an optional sign and digits (each group of digits may be
    empty), nothing else following, with one exception: when the digits of the
    exponent exceed the range of [int], the exponent is the bound of [int] on
    that side and whatever follows those digits is not read, so that
    1e99999999999xyz is accepted too.  On an accepted text it yields the rational
    number denoted by sign, digits and exponent, the latter clamped as just said,
    unless that exponent is -2^31, whose negation overflows [int]; every other text
    is reported as [no_digit]. *)
Theorem parse_float_exact col :
  parse_float (T := Qc) col =
    match scan (cstr col) with
    | Some l => if exponent l =? - 2 ^ 31 then Undefined Overflow else Ok (literal_value l)
    | None => Throw (make_error no_digit)
    end.
Proof. apply parse_float_literals. Qed.

(** Whether a column is accepted, and with which error it is refused, does
    not depend on the arithmetic of the type: [float], [double] and
    [long double] all succeed on the literals, throw [no_digit] on every other
    text and overflow on the exponent -2^31 alone; the loop over the exponent
    always ends. *)
Theorem parse_float_outcome {T} `{!FloatType T} col :
  match scan (cstr col) with
  | Some l => if exponent l =? - 2 ^ 31 then parse_float (T := T) col = Undefined Overflow
              else exists x, parse_float (T := T) col = Ok x
  | None => parse_float (T := T) col = Throw (make_error no_digit)
  end.
Proof.
  assert (result_rel (fun (_ : T) (_ : Qc) => True) (parse_float (T := T) col) (parse_float (T := Qc) col)) as H
    by (apply parse_float_rel; done).
  rewrite parse_float_literals in H. destruct (scan (cstr col)) as [l|]; [destruct (exponent l =? - 2 ^ 31)|];
    destruct (parse_float (T := T) col); try done; cbn in H; subst; eauto.
Qed.
