(* ===== verification/CsvIeee.v ===== *)
(** * Binary floating point in the columns of csv.h

    What [parse_float] (src/src/csv.h, modelled in CsvFloat.v) computes in the
    formats [float], [double] and [long double]: integers below two to the
    precision are exact, and where the powers of ten it multiplies with leave the
    format or are not exact, the value is not the one the text denotes. *)
From Stdlib Require Import SpecFloat.
From S2P Require Import Prelude CLib CsvError CsvLine CsvNumber CsvFloat.
#[local] Open Scope Z_scope.

(** ** Lemmas *)

(** *** Mantissas *)

Lemma digits2_log2 p : Zpos (digits2_pos p) = Z.log2 (Zpos p) + 1.
Proof.
  induction p as [p IH|p IH|]; cbn [digits2_pos]; [| |done]; rewrite Pos2Z.inj_succ, IH.
  - rewrite (Pos2Z.inj_xI p). pose proof (Z.log2_succ_double (Zpos p)). lia.
  - rewrite (Pos2Z.inj_xO p). pose proof (Z.log2_double (Zpos p)). lia.
Qed.

Lemma shift_mantissa m d : Zpos (Pos.iter xO m d) = Zpos m * 2 ^ Zpos d.
Proof.
  induction d as [|d IH] using Pos.peano_ind; [cbn; lia|].
  rewrite Pos.iter_succ, Pos2Z.inj_xO, IH, Pos2Z.inj_succ, Z.pow_succ_r by lia. lia.
Qed.

Lemma iter_pos_nat {A} (f : A -> A) n x : SpecFloat.iter_pos f n x = Nat.iter (Pos.to_nat n) f x.
Proof.
  assert (forall a b y, Nat.iter (a + b) f y = Nat.iter a f (Nat.iter b f y)) as Hadd.
  { intros a b y. induction a as [|a IHa]; [done|]. change (f (Nat.iter (a + b) f y) = f (Nat.iter a f (Nat.iter b f y))). by rewrite IHa. }
  revert x. induction n as [n IH|n IH|]; intros x; cbn [SpecFloat.iter_pos]; [..|done].
  - rewrite !IH, Pos2Nat.inj_xI. replace (S (2 * Pos.to_nat n)) with (Pos.to_nat n + (Pos.to_nat n + 1))%nat by lia.
    by rewrite !Hadd.
  - rewrite !IH, Pos2Nat.inj_xO. replace (2 * Pos.to_nat n)%nat with (Pos.to_nat n + Pos.to_nat n)%nat by lia.
    by rewrite Hadd.
Qed.

Abbreviation exact_record m := {| shr_m := m; shr_r := false; shr_s := false |}.

Lemma shr_1_double m : 0 < m -> shr_1 (exact_record (2 * m)) = exact_record m.
Proof. by destruct m. Qed.

Lemma shr_exact m n e : 0 < m -> 0 <= n -> shr (exact_record (m * 2 ^ n)) e n = (exact_record m, e + n).
Proof.
  intros Hm Hn. destruct n as [|n|n]; [cbn; by rewrite Z.mul_1_r, Z.add_0_r| |lia].
  unfold shr. f_equal. rewrite iter_pos_nat, <- (positive_nat_Z n).
  generalize (Pos.to_nat n). clear n Hn. intros n. revert m Hm.
  induction n as [|n IH]; intros m Hm; [cbn; by rewrite Z.mul_1_r|].
  rewrite Nat2Z.inj_succ, Z.pow_succ_r by lia. replace (m * (2 * 2 ^ Z.of_nat n)) with ((2 * m) * 2 ^ Z.of_nat n) by lia.
  cbn [Nat.iter nat_rect]. change (shr_1 (Nat.iter n shr_1 (exact_record (2 * m * 2 ^ Z.of_nat n))) = exact_record m).
  rewrite IH by lia. by apply shr_1_double.
Qed.

Section Format.
Variables prec emax : Z.
Hypothesis Hprec : 4 <= prec.
Hypothesis Hemax : prec <= emax.

(** *** The float of an integer below [2 ^ prec] *)

Definition size (m : Z) : Z := Z.log2 m + 1.

Definition canon (s : bool) (m : Z) : spec_float :=
  S754_finite s (Z.to_pos (m * 2 ^ (prec - size m))) (size m - prec).

Lemma size_bounds m : 0 < m < 2 ^ prec -> 1 <= size m <= prec.
Proof.
  intros Hm. unfold size. pose proof (Z.log2_nonneg m).
  assert (Z.log2 m < prec) by (apply Z.log2_lt_pow2; lia). lia.
Qed.

Lemma fexp_size d : 1 <= d -> fexp prec emax d = d - prec.
Proof. intros Hd. unfold fexp, emin. lia. Qed.

Lemma Zdigits2_shift m k : 0 < m -> 0 <= k -> Zdigits2 (m * 2 ^ k) = size m + k.
Proof.
  intros Hm Hk. assert (0 < m * 2 ^ k) by nia. unfold size.
  destruct (m * 2 ^ k) as [|p|p] eqn:E; try lia. cbn [Zdigits2].
  rewrite digits2_log2, <- E, Z.log2_mul_pow2 by lia. lia.
Qed.

Lemma shr_fexp_exact m k :
  0 < m < 2 ^ prec -> 0 <= k -> prec <= size m + k ->
  shr_fexp prec emax (m * 2 ^ k) (- k) loc_Exact =
    (exact_record (m * 2 ^ (prec - size m)), size m - prec).
Proof.
  intros Hm Hk Hs. pose proof (size_bounds m Hm). unfold shr_fexp. cbn [shr_record_of_loc].
  rewrite Zdigits2_shift, fexp_size by lia.
  replace (m * 2 ^ k) with (m * 2 ^ (prec - size m) * 2 ^ (size m + k + - k - prec - - k)).
  - rewrite shr_exact by nia. f_equal. lia.
  - rewrite <- Z.mul_assoc, <- Z.pow_add_r by lia. do 2 f_equal. lia.
Qed.

Lemma round_aux_exact s m k :
  0 < m < 2 ^ prec -> 0 <= k -> prec <= size m + k ->
  binary_round_aux prec emax s (m * 2 ^ k) (- k) loc_Exact = canon s m.
Proof.
  intros Hm Hk Hs. pose proof (size_bounds m Hm). unfold binary_round_aux.
  rewrite shr_fexp_exact by lia. cbn [shr_m loc_of_shr_record round_nearest_even].
  replace (size m - prec) with (- (prec - size m)) by lia.
  rewrite shr_fexp_exact by lia. cbn [shr_m].
  assert (0 < m * 2 ^ (prec - size m)) by nia. unfold canon.
  destruct (m * 2 ^ (prec - size m)) as [|p|p] eqn:E; try lia.
  rewrite (proj2 (Z.leb_le _ _)) by lia. done.
Qed.

Lemma round_exact s p m k :
  Zpos p = m * 2 ^ k -> 0 < m < 2 ^ prec -> 0 <= k ->
  binary_round prec emax s p (- k) = canon s m.
Proof.
  intros Hp Hm Hk. pose proof (size_bounds m Hm). unfold binary_round, shl_align.
  replace (Zpos (digits2_pos p)) with (size m + k).
  2:{ rewrite <- (Zdigits2_shift m k), <- Hp by lia. done. }
  rewrite fexp_size by lia.
  destruct (size m + k + - k - prec - - k) as [|d|d] eqn:E.
  - rewrite Hp. apply round_aux_exact; lia.
  - rewrite Hp. apply round_aux_exact; lia.
  - rewrite shift_mantissa, Hp, <- Z.mul_assoc, <- Z.pow_add_r by lia.
    replace (size m + k + - k - prec) with (- (k + Zpos d)) by lia. apply round_aux_exact; lia.
Qed.

Lemma sf_of_int_pos m : 0 < m < 2 ^ prec -> sf_of_int prec emax m = canon false m.
Proof.
  intros Hm. unfold sf_of_int. destruct m as [|p|p]; try lia. cbn [binary_normalize].
  apply (round_exact false p _ 0); lia.
Qed.

Lemma sf_of_int_opp m : 0 < m < 2 ^ prec -> sf_of_int prec emax (- m) = SFopp (sf_of_int prec emax m).
Proof.
  intros Hm. rewrite (sf_of_int_pos m) by done. unfold sf_of_int. destruct m as [|p|p]; try lia.
  cbn [binary_normalize Z.opp]. apply (round_exact true p (Zpos p) 0); lia.
Qed.

(** *** Exact operations *)

Lemma canon_mantissa m : 0 < m < 2 ^ prec -> Zpos (Z.to_pos (m * 2 ^ (prec - size m))) = m * 2 ^ (prec - size m).
Proof. intros Hm. pose proof (size_bounds m Hm). apply Z2Pos.id. nia. Qed.

Lemma sf_mul_int a b :
  0 <= a < 2 ^ prec -> 0 <= b < 2 ^ prec -> a * b < 2 ^ prec ->
  SFmul prec emax (sf_of_int prec emax a) (sf_of_int prec emax b) = sf_of_int prec emax (a * b).
Proof.
  intros Ha Hb Hab.
  destruct (decide (a = 0)) as [->|]; [|destruct (decide (b = 0)) as [->|]].
  - rewrite Z.mul_0_l. destruct (decide (b = 0)) as [->|]; [done|]. by rewrite (sf_of_int_pos b) by lia.
  - rewrite Z.mul_0_r. by rewrite (sf_of_int_pos a) by lia.
  - rewrite !sf_of_int_pos by nia. pose proof (size_bounds a ltac:(lia)). pose proof (size_bounds b ltac:(lia)).
    unfold canon at 1 2. cbn [SFmul xorb]. rewrite Pos2Z.inj_mul, !canon_mantissa by lia.
    replace (a * _ * _) with (a * b * 2 ^ (prec - size a + (prec - size b))) by (rewrite Z.pow_add_r by lia; lia).
    replace (size a - prec + _) with (- (prec - size a + (prec - size b))) by lia.
    apply round_aux_exact; [nia|lia|].
    assert (size a <= size (a * b)) by (unfold size; pose proof (Z.log2_le_mono a (a * b)); nia). lia.
Qed.

Lemma sf_add_int a b :
  0 <= a -> 0 <= b -> a + b < 2 ^ prec ->
  SFadd prec emax (sf_of_int prec emax a) (sf_of_int prec emax b) = sf_of_int prec emax (a + b).
Proof.
  intros Ha Hb Hab.
  destruct (decide (a = 0)) as [->|]; [|destruct (decide (b = 0)) as [->|]].
  - rewrite Z.add_0_l. destruct (decide (b = 0)) as [->|]; [done|]. by rewrite (sf_of_int_pos b) by lia.
  - rewrite Z.add_0_r. by rewrite (sf_of_int_pos a) by lia.
  - rewrite !sf_of_int_pos by lia.
    pose proof (size_bounds a ltac:(lia)). pose proof (size_bounds b ltac:(lia)).
    set (k := prec - Z.min (size a) (size b)).
    assert (forall m, 0 < m < 2 ^ prec -> prec - size m <= k ->
      Zpos (fst (shl_align (Z.to_pos (m * 2 ^ (prec - size m))) (size m - prec) (- k))) = m * 2 ^ k) as Hal.
    { intros m Hm Hk. pose proof (size_bounds m Hm). unfold shl_align.
      destruct (- k - (size m - prec)) as [|d|d] eqn:E; cbn [fst]; [|lia|].
      - rewrite canon_mantissa by lia. do 2 f_equal. lia.
      - rewrite shift_mantissa, canon_mantissa, <- Z.mul_assoc, <- Z.pow_add_r by lia. do 2 f_equal. lia. }
    unfold canon at 1 2. cbn [SFadd cond_Zopp].
    replace (Z.min (size a - prec) (size b - prec)) with (- k) by lia.
    rewrite !Hal by lia. rewrite <- Z.mul_add_distr_r.
    destruct ((a + b) * 2 ^ k) as [|p|p] eqn:E; [nia| |nia].
    cbn [binary_normalize]. apply round_exact; lia.
Qed.

Lemma parse_whole_int s x :
  Forall (fun c => is_digit c = true) s -> 0 <= x ->
  foldl (fun v c => v * 10 + (uchar c - 48)) x s < 2 ^ prec ->
  @parse_whole _ (sf_type prec emax) (sf_of_int prec emax x) s =
    (sf_of_int prec emax (foldl (fun v c => v * 10 + (uchar c - 48)) x s), []).
Proof.
  intros Hs. revert x. induction Hs as [|c s Hc Hs IH]; intros x Hx Hv; [done|].
  cbn [parse_whole foldl] in *. unfold is_digit in Hc. rewrite Hc. fold (is_digit c) in Hc.
  destruct (schar_digit_value _ Hc) as [-> Hd].
  assert (x * 10 + (uchar c - 48) < 2 ^ prec).
  { pose proof (dec_fold_mono s (x * 10 + (uchar c - 48)) (x * 10 + (uchar c - 48)) Hs ltac:(lia) ltac:(lia) ltac:(lia)). lia. }
  cbn zeta. cbn [float_mul float_add of_int sf_type].
  assert (2 ^ 4 <= 2 ^ prec) by (apply Z.pow_le_mono_r; lia).
  rewrite sf_mul_int, sf_add_int by lia. apply IH; [lia|done].
Qed.
End Format.

(** *** A zero times a base that overflows *)

(** The base of the loop after [k] squarings, as a [double]. *)
Definition square_base (k : nat) : spec_float :=
  Nat.iter k (fun b => SFmul 53 1024 b b) (sf_of_int 53 1024 10).

Lemma square_base_inf k : square_base (9 + k) = S754_infinity false.
Proof.
  induction k as [|k IH]; [vm_compute; reflexivity|].
  replace (9 + S k)%nat with (S (9 + k)) by lia.
  change (SFmul 53 1024 (square_base (9 + k)) (square_base (9 + k)) = S754_infinity false). by rewrite IH.
Qed.

Lemma square_base_finite k :
  (k < 9)%nat -> SFmul 53 1024 (S754_zero false) (square_base k) = S754_zero false.
Proof. intros Hk. do 9 (destruct k as [|k]; [vm_compute; reflexivity|]). lia. Qed.

Lemma ltb_mul_r a b p : 0 < p -> (a * p <? b * p) = (a <? b).
Proof. intros Hp. apply Bool.eq_iff_eq_true. by rewrite !Z.ltb_lt, <- Z.mul_lt_mono_pos_r by lia. Qed.

Lemma scale_zero x b e :
  1 <= e < 2 ^ 31 ->
  exists r, @scale _ (sf_type 53 1024) x b e = Ok r /\
    forall k, b = square_base k ->
      (x = S754_nan -> r = S754_nan) /\
      (x = S754_zero false ->
       r = if e * 2 ^ Z.of_nat k <? 512 then S754_zero false else S754_nan).
Proof.
  intros He. apply (@scale_ind _ (sf_type 53 1024) (fun x b e r => forall k, b = square_base k ->
      (x = S754_nan -> r = S754_nan) /\
      (x = S754_zero false -> r = if e * 2 ^ Z.of_nat k <? 512 then S754_zero false else S754_nan)));
    [..|done]; clear x b e He; cbn [float_mul sf_type].
  - intros x b k ->. split; intros ->; [done|]. rewrite Z.mul_1_l.
    destruct (decide (k < 9)%nat) as [Hk|Hk].
    + rewrite square_base_finite, (proj2 (Z.ltb_lt _ _)); [done| |done].
      apply (Z.pow_lt_mono_r 2 _ 9); lia.
    + replace k with (9 + (k - 9))%nat at 1 by lia. rewrite square_base_inf, (proj2 (Z.ltb_ge _ _)); [done|].
      apply (Z.pow_le_mono_r 2 9); lia.
  - intros x b e r He H k ->. destruct (H (S k)) as [H1 H2]; [done|]. split; [done|]. intros Hx. rewrite H2 by done.
    rewrite Nat2Z.inj_succ, Z.pow_succ_r by lia. by replace (e * (2 * _)) with (2 * e * 2 ^ Z.of_nat k) by lia.
  - intros x b e r He H k ->. destruct (H k) as [H1 H2]; [done|]. split; intros ->; [by apply H1|].
    destruct (decide (k < 9)%nat) as [Hk|Hk].
    + rewrite H2 by (by apply square_base_finite).
      replace 512 with (2 * 2 ^ (8 - Z.of_nat k) * 2 ^ Z.of_nat k)
        by (rewrite <- Z.mul_assoc, <- Z.pow_add_r by lia; by replace (8 - Z.of_nat k + Z.of_nat k) with 8 by lia).
      assert (0 < 2 ^ Z.of_nat k) by lia.
      assert ((2 * e <? 2 * 2 ^ (8 - Z.of_nat k)) = (2 * e + 1 <? 2 * 2 ^ (8 - Z.of_nat k))) as Heq
        by (apply Bool.eq_iff_eq_true; rewrite !Z.ltb_lt; lia).
      by rewrite !ltb_mul_r, Heq by lia.
    + rewrite (proj2 (Z.ltb_ge _ _)).
      * apply H1. replace k with (9 + (k - 9))%nat by lia. by rewrite square_base_inf.
      * pose proof (Z.pow_le_mono_r 2 9 (Z.of_nat k) ltac:(lia) ltac:(lia)). nia.
Qed.

(** *** Printed numbers *)

Lemma cstr_fmt_u n : 0 <= n -> cstr (fmt_u n) = fmt_u n.
Proof.
  intros Hn. apply cstr_no_nul. eapply List.Forall_impl; [|by apply digits10_is_digit].
  intros c Hd. apply schar_digit_value in Hd. lia.
Qed.

Lemma parse_sign_fmt_u n : 0 <= n -> parse_sign (fmt_u n) = (false, fmt_u n).
Proof.
  intros Hn. destruct (fmt_u n) as [|c s] eqn:E; [done|]. destruct (fmt_u_head _ _ _ Hn E).
  cbn [parse_sign]. by rewrite !(proj2 (Z.eqb_neq _ _)).
Qed.

Lemma exponent_of_fmt_u n : 0 <= n -> exponent_of (fmt_u n) = Some (Z.min n (2 ^ 31 - 1)).
Proof.
  intros Hn. unfold exponent_of. rewrite parse_sign_fmt_u by done.
  rewrite digit_prefix_all, fmt_u_all_digits, fmt_u_value by (try apply fmt_u_all_digits; done).
  case_match; bool2prop; f_equal; lia.
Qed.

(** ** Properties *)

(** C21: an integer whose absolute value is below two to the precision, printed with
    [%d] and read back by [parse_float], gives the very float that the conversion
    of the integer gives, in every binary format with a precision of at least four
    bits and a largest exponent not below it: [float], [double] and [long double]. *)
Theorem parse_float_fmt_d prec emax n :
  4 <= prec -> prec <= emax -> - 2 ^ prec < n < 2 ^ prec ->
  @parse_float _ (sf_type prec emax) (fmt_d n) = Ok (sf_of_int prec emax n).
Proof.
  intros Hp He Hn.
  assert (forall m, 0 <= m < 2 ^ prec ->
    @parse_whole _ (sf_type prec emax) (sf_of_int prec emax 0) (fmt_u m) = (sf_of_int prec emax m, [])) as Hw.
  { intros m Hm. pose proof (digits10_is_digit m ltac:(lia)).
    rewrite parse_whole_int by (try done; try lia; fold (dec_value (fmt_u m)); rewrite fmt_u_value; lia).
    fold (dec_value (fmt_u m)). by rewrite fmt_u_value by lia. }
  unfold parse_float, fmt_d. destruct (Z.ltb_spec n 0) as [Hneg|Hpos].
  - fold (fmt_u (- n)). cbn [app s2b String.list_ascii_of_string].
    change (cstr (_ :: fmt_u (- n))) with ("-"%char :: cstr (fmt_u (- n))). rewrite cstr_fmt_u by lia.
    cbn [parse_sign]. change (schar _ =? 45) with true. cbn [of_int sf_type]. rewrite Hw by lia.
    cbn. f_equal. rewrite <- sf_of_int_opp by lia. f_equal. lia.
  - fold (fmt_u n). rewrite cstr_fmt_u, parse_sign_fmt_u by lia. cbn [of_int sf_type]. by rewrite Hw by lia.
Qed.

Lemma parse_float_fmt_d_witness :
  parse_binary64 (fmt_d (- 2 ^ 53 + 1)) = Ok (sf_of_int 53 1024 (- 2 ^ 53 + 1)) /\
  parse_binary32 (s2b "16777215") = Ok (S754_finite false 16777215 0).
Proof.
  split; [apply (parse_float_fmt_d 53 1024); lia|apply (parse_float_fmt_d 24 128 16777215); lia].
Defined.

(** C25: zero with a large exponent is not read as zero: from [0e512] on the
    [double] the base is squared into is infinite, and the column is NaN. *)
Theorem parse_float_zero_exponent n :
  0 <= n ->
  parse_binary64 (s2b "0e" ++ fmt_u n) = Ok (if n <? 512 then S754_zero false else S754_nan).
Proof.
  intros Hn. unfold parse_binary64, parse_float.
  change (cstr (s2b "0e" ++ fmt_u n)) with ("0"%char :: "e"%char :: cstr (fmt_u n)).
  rewrite cstr_fmt_u by lia. generalize (exponent_of_fmt_u n Hn). generalize (fmt_u n). intros t Ht.
  change (parse_sign ("0"%char :: "e"%char :: t)) with (false, "0"%char :: "e"%char :: t). cbn iota.
  assert (@parse_whole _ (sf_type 53 1024) (@of_int _ (sf_type 53 1024) 0) ("0"%char :: "e"%char :: t) =
    (S754_zero false, "e"%char :: t)) as -> by (vm_compute; reflexivity).
  cbn [parse_fraction]. change (is_point "e") with false. cbn iota. change (is_exponent_mark "e") with true. cbn iota.
  unfold parse_exponent. rewrite parse_exponent_text, Ht. cbn [mbind result_bind].
  destruct (Z.eqb_spec (Z.min n (2 ^ 31 - 1)) 0) as [E|E]; cbn [negb].
  { rewrite (proj2 (Z.ltb_lt n 512)) by lia. done. }
  rewrite (proj2 (Z.ltb_ge _ 0)) by lia.
  destruct (scale_zero (S754_zero false) (square_base 0) (Z.min n (2 ^ 31 - 1))) as (r & Hr & Hq); [lia|].
  change (@of_int _ (sf_type 53 1024) 10) with (square_base 0). rewrite Hr. cbn [mbind result_bind].
  rewrite (proj2 (Hq 0%nat eq_refl) eq_refl), Z.mul_1_r.
  by destruct (Z.ltb_spec n 512), (Z.ltb_spec (Z.min n (2 ^ 31 - 1)) 512); try lia.
Qed.

Lemma parse_float_zero_exponent_witness :
  parse_binary64 (s2b "0e511") = Ok (S754_zero false) /\ parse_binary64 (s2b "0e512") = Ok S754_nan.
Proof.
  split; [apply (parse_float_zero_exponent 511); lia|apply (parse_float_zero_exponent 512); lia].
Defined.

(** The digits after the point are not rounded once: [0.3] is not read as the
    [double] nearest to three tenths, and [1e-1] as a [long double] is the
    [double] 0.1, which [0.1] is not. *)
Example decimals_inexact :
  parse_binary64 (s2b "0.3") = Ok (S754_finite false 5404319552844596 (-54)) /\
  SFdiv 53 1024 (sf_of_int 53 1024 3) (sf_of_int 53 1024 10) = S754_finite false 5404319552844595 (-54) /\
  parse_extended (s2b "1e-1") <> parse_extended (s2b "0.1").
Proof. vm_compute. done. Qed.
