(* ===== verification/FloatRound.v ===== *)
(** * Rounding in the IEEE 754 formats

    How far the operations of the standard library's [SpecFloat] are from the exact
    ones, for the formats of CsvFloat.v: each rounds to the nearest float, with a
    relative error of at most [2 ^ -prec] as long as its result stays in the normal
    range, and the errors of successive operations add up ([mul_accurate],
    [add_accurate], [div_accurate], [int_accurate]). *)
From Stdlib Require Import QArith Qabs Qpower Lqa Psatz SpecFloat.
From S2P Require Import Prelude CLib CsvError CsvLine CsvNumber CsvFloat CsvIeee.
#[local] Open Scope Z_scope.

(** ** Definitions *)

Definition pow2 (e : Z) : Q := Qpower (2 # 1) e.

(** The unit roundoff of a format of [prec] digits. *)
Definition roundoff (prec : Z) : Q := pow2 (- prec).

(** The number a finite float stands for. *)
Definition sf_value (x : spec_float) : option Q :=
  match x with
  | S754_zero _ => Some 0%Q
  | S754_finite s m e => Some (inject_Z (if s then Zneg m else Zpos m) * pow2 e)%Q
  | _ => None
  end.

(** [v] is [X] up to a relative error of [c], and the other way round. *)
Definition near (c X v : Q) : Prop := (0 <= X /\ X * (1 - c) <= v /\ v * (1 - c) <= X)%Q.

(** Far enough from both ends of the format. *)
Definition in_range (emax : Z) (v : Q) : Prop := (pow2 (2 - emax) <= v < pow2 (emax - 1))%Q.

(** What [parse_float] may compute: zero, or a number with room for the errors. *)
Definition fits (emax : Z) (V : Q) : Prop := (V == 0)%Q \/ in_range (emax - 1) V.

(** A float that is not negative, with all its digits, after [k] roundings of [X]. *)
Definition accurate (prec k : Z) (X : Q) (x : spec_float) : Prop :=
  match x with
  | S754_zero false => (X == 0)%Q
  | S754_finite false m e =>
      2 ^ (prec - 1) <= Zpos m < 2 ^ prec /\
      near (inject_Z k * roundoff prec) X (inject_Z (Zpos m) * pow2 e)
  | _ => False
  end.

(** ** Lemmas *)

(** *** Shifting a mantissa to the right *)

(** The record stands for [N / D]: the mantissa is the whole part, the first flag
    says that the rest is at least one half, the second that it is neither zero
    nor one half. *)
Definition located (N D : Z) (t : shr_record) : Prop :=
  exists r, N = shr_m t * D + r /\ 0 <= r < D /\
    (shr_r t = true <-> D <= 2 * r) /\ (shr_s t = true <-> r <> 0 /\ 2 * r <> D).

Lemma located_exact m : located m 1 (exact_record m).
Proof. exists 0. cbn. repeat split; try lia; done. Qed.

Lemma located_loc N D t : located N D t -> located N D (shr_record_of_loc (shr_m t) (loc_of_shr_record t)).
Proof. by destruct t as [m [] []]. Qed.

Lemma located_shr_1 N D t : 0 <= shr_m t -> located N D t -> located N (2 * D) (shr_1 t).
Proof.
  destruct t as [m rb sb]. cbn [shr_m shr_r shr_s]. intros Hm (r & HN & Hr & Hrb & Hsb). cbn [shr_m shr_r shr_s] in *.
  assert (exists m' b, m = 2 * m' + Z.b2z b /\ shr_1 (Build_shr_record m rb sb) = Build_shr_record m' b (rb || sb))
    as (m' & b & -> & ->).
  { destruct m as [|[p|p|]|p]; [exists 0, false|exists (Zpos p), true|exists (Zpos p), false|exists 0, true|]; [..|lia];
      (split; [cbn [Z.b2z]; lia|done]). }
  exists (Z.b2z b * D + r). cbn [shr_m shr_r shr_s]. rewrite orb_true_iff, Hrb, Hsb.
  split_and!; [lia|destruct b; cbn [Z.b2z]; lia..].
Qed.

Lemma located_shr N D t e n :
  0 <= shr_m t -> located N D t -> 0 <= n ->
  exists t', shr t e n = (t', e + n) /\ located N (D * 2 ^ n) t' /\ 0 <= shr_m t'.
Proof.
  intros Hm Ht Hn. destruct n as [|n|n]; [| |lia].
  { exists t. cbn [shr Z.pow]. by rewrite Z.mul_1_r, Z.add_0_r. }
  unfold shr. rewrite iter_pos_nat. eexists. split; [done|].
  rewrite <- (positive_nat_Z n). clear Hn. induction (Pos.to_nat n) as [|k IH]; [by rewrite Z.mul_1_r|].
  destruct IH as [IH IHm]. rewrite Nat2Z.inj_succ, Z.pow_succ_r by lia.
  change (Nat.iter (S k) shr_1 t) with (shr_1 (Nat.iter k shr_1 t)).
  replace (D * (2 * 2 ^ Z.of_nat k)) with (2 * (D * 2 ^ Z.of_nat k)) by lia.
  split; [by apply located_shr_1|]. by destruct (Nat.iter k shr_1 t) as [[|[p|p|]|p] rb sb].
Qed.

Lemma located_floor N D t : located N D t -> shr_m t * D <= N < (shr_m t + 1) * D.
Proof. intros (r & -> & Hr & _). lia. Qed.

Lemma round_nearest_even_near N D t :
  located N D t ->
  let q := round_nearest_even (shr_m t) (loc_of_shr_record t) in
  Z.abs (2 * (q * D - N)) <= D /\ shr_m t <= q <= shr_m t + 1.
Proof.
  destruct t as [m rb sb]. intros (r & -> & Hr & Hrb & Hsb). cbn [shr_m shr_r shr_s] in *.
  destruct rb, sb; cbn [loc_of_shr_record round_nearest_even]; [..|destruct (Z.even m)| |]; cbn zeta; lia.
Qed.

(** *** Rounding a mantissa of at least [prec] digits *)

Lemma Zdigits2_size m : 0 < m -> Zdigits2 m = size m.
Proof. intros Hm. destruct m as [|p|p]; [lia| |lia]. apply digits2_log2. Qed.

Lemma size_spec m : 0 < m -> 2 ^ (size m - 1) <= m < 2 ^ size m.
Proof. intros Hm. unfold size. replace (Z.log2 m + 1 - 1) with (Z.log2 m) by lia. by apply Z.log2_spec. Qed.

Lemma size_unique m d : 0 < d -> 2 ^ (d - 1) <= m < 2 ^ d -> size m = d.
Proof.
  intros Hd Hm. unfold size. rewrite (Z.log2_unique m (d - 1)); [lia|lia|].
  by replace (Z.succ (d - 1)) with d by lia.
Qed.

Lemma size_pos m : 0 < m -> 1 <= size m.
Proof. intros Hm. unfold size. pose proof (Z.log2_nonneg m). lia. Qed.

Lemma pow2_split a b : 0 <= a -> 0 <= b -> 2 ^ (a + b) = 2 ^ a * 2 ^ b.
Proof. intros. by apply Z.pow_add_r. Qed.

Section Round.
Variables prec emax : Z.
Hypothesis Hprec : 2 <= prec.

Lemma shr_fexp_located N D m E l :
  0 < D -> 0 < m -> located N D (shr_record_of_loc m l) ->
  prec <= size m -> emin prec emax + prec <= size m + E ->
  exists t, shr_fexp prec emax m E l = (t, size m + E - prec) /\
    located N (D * 2 ^ (size m - prec)) t /\ 2 ^ (prec - 1) <= shr_m t < 2 ^ prec.
Proof.
  intros HD Hm Hl Hs He. unfold shr_fexp. rewrite Zdigits2_size by done.
  assert (fexp prec emax (size m + E) = size m + E - prec) as -> by (unfold fexp; lia).
  assert (shr_m (shr_record_of_loc m l) = m) as Hsm by (by destruct l as [|[]]).
  destruct (located_shr N D (shr_record_of_loc m l) E (size m - prec)) as (t & Ht & Hl' & _); [lia|done|lia|].
  exists t. replace (size m + E - prec - E) with (size m - prec) by lia.
  rewrite Ht. split; [f_equal; lia|]. split; [done|].
  apply located_floor in Hl, Hl'. rewrite Hsm in Hl. destruct (size_spec m Hm) as [Hlo Hhi].
  replace (size m) with (prec + (size m - prec)) in Hhi by lia.
  replace (size m - 1) with (prec - 1 + (size m - prec)) in Hlo by lia.
  rewrite pow2_split in Hlo, Hhi by lia. assert (0 < 2 ^ (size m - prec)) by lia.
  set (s := 2 ^ (size m - prec)) in *. clearbody s.
  apply (Z.mul_le_mono_nonneg_r _ _ D) in Hlo; [|lia].
  assert ((m + 1) * D <= 2 ^ prec * s * D) by (apply Z.mul_le_mono_nonneg_r; lia).
  split; [apply Z.lt_succ_r|]; apply (Z.mul_lt_mono_pos_r (D * s)); lia.
Qed.

(** The nearest float: a mantissa of [prec] digits. *)
Lemma round_aux_nearest s N D m E l :
  0 < D -> 0 < m -> located N D (shr_record_of_loc m l) ->
  prec <= size m -> emin prec emax + prec <= size m + E -> size m + E < emax ->
  exists m' e', binary_round_aux prec emax s m E l = S754_finite s m' e' /\
    2 ^ (prec - 1) <= Zpos m' < 2 ^ prec /\ E <= e' /\
    Z.abs (2 * (Zpos m' * 2 ^ (e' - E) * D - N)) <= D * 2 ^ (size m - prec).
Proof.
  intros HD Hm Hl Hs He Hmax. unfold binary_round_aux.
  destruct (shr_fexp_located N D m E l) as (t & -> & Ht & Hr); [done..|].
  destruct (round_nearest_even_near _ _ _ Ht) as [Hq Hqr].
  set (q := round_nearest_even _ _) in *. assert (2 ^ prec = 2 * 2 ^ (prec - 1)) as Hp
    by (rewrite <- Z.pow_succ_r by lia; f_equal; lia).
  assert (exists m' k, shr_fexp prec emax q (size m + E - prec) loc_Exact = (exact_record m', size m + E - prec + k) /\
    q = m' * 2 ^ k /\ 0 <= k <= 1 /\ 2 ^ (prec - 1) <= m' < 2 ^ prec) as (m' & k & -> & Hqk & Hk & Hm').
  { assert (0 < 2 ^ (prec - 1)) by lia. unfold shr_fexp. cbn [shr_record_of_loc]. rewrite Zdigits2_size by lia.
    destruct (decide (q = 2 ^ prec)) as [->|Hne].
    - exists (2 ^ (prec - 1)), 1. replace (size (2 ^ prec)) with (prec + 1).
      2: { symmetry. apply size_unique; [lia|]. replace (prec + 1 - 1) with prec by lia. rewrite pow2_split by lia. lia. }
      assert (fexp prec emax (prec + 1 + (size m + E - prec)) = size m + E - prec + 1) as -> by (unfold fexp; lia).
      replace (size m + E - prec + 1 - _) with 1 by lia. rewrite Hp, (Z.mul_comm 2). rewrite (shr_exact (2 ^ (prec - 1)) 1) by lia. split_and!; [done|lia..].
    - exists q, 0. rewrite (size_unique q prec) by lia.
      assert (fexp prec emax (prec + (size m + E - prec)) = size m + E - prec) as -> by (unfold fexp; lia).
      rewrite Z.sub_diag. cbn [shr]. split_and!; [f_equal; lia|lia..]. }
  cbn [shr_m]. destruct m' as [|m'|m']; [lia| |lia].
  rewrite (proj2 (Z.leb_le _ _)) by lia. exists m', (size m + E - prec + k). split_and!; [done|lia..|].
  replace (_ + k - E) with (k + (size m - prec)) by lia. rewrite pow2_split by lia.
  replace (_ * D) with (Zpos m' * 2 ^ k * (D * 2 ^ (size m - prec))) by lia. by rewrite <- Hqk.
Qed.
End Round.

(** *** Relative errors *)

#[export] Instance near_proper : Proper (Qeq ==> Qeq ==> Qeq ==> iff) near.
Proof. intros c c' Hc X X' HX v v' Hv. unfold near. by rewrite Hc, HX, Hv. Qed.

#[export] Instance in_range_proper emax : Proper (Qeq ==> iff) (in_range emax).
Proof. intros v v' Hv. unfold in_range. by rewrite Hv. Qed.

#[export] Instance fits_proper emax : Proper (Qeq ==> iff) (fits emax).
Proof. intros v v' Hv. unfold fits. by rewrite Hv. Qed.

#[export] Instance accurate_proper prec k : Proper (Qeq ==> eq ==> iff) (accurate prec k).
Proof. intros X X' HX x x' <-. destruct x as [[]| | |[] m e]; cbn [accurate]; by rewrite ?HX. Qed.

Section Near.
#[local] Open Scope Q_scope.

Lemma near_pos c X v : near c X v -> c <= 1 -> 0 <= v.
Proof. intros (HX & Hl & _) Hc. nra. Qed.

Lemma near_refl c X : 0 <= X -> 0 <= c -> near c X X.
Proof. intros HX Hc. split; nra. Qed.

Lemma near_mono c d X v : near c X v -> c <= d -> d <= 1 -> near d X v.
Proof. intros H Hcd Hd. pose proof (near_pos c X v H). destruct H as (HX & Hl & Hr). split; nra. Qed.

Lemma near_trans c d X v w : near c X v -> near d v w -> 0 <= c -> 0 <= d -> c + d <= 1 -> near (c + d) X w.
Proof.
  intros H H' Hc Hd Hcd. pose proof (near_pos c X v H). pose proof (near_pos d v w H').
  destruct H as (HX & Hl & Hr), H' as (Hv & Hl' & Hr').
  assert (0 <= c * d) by nra. split_and!; [done| |].
  - apply Qle_trans with (X * (1 - c) * (1 - d)); [nra|]. apply Qle_trans with (v * (1 - d)); [nra|done].
  - apply Qle_trans with (w * (1 - d) * (1 - c)); [nra|]. apply Qle_trans with (v * (1 - c)); [nra|done].
Qed.

Lemma near_mul c d X v Y w :
  near c X v -> near d Y w -> 0 <= c -> 0 <= d -> c + d <= 1 -> near (c + d) (X * Y) (v * w).
Proof.
  intros H H' Hc Hd Hcd. pose proof (near_pos c X v H). pose proof (near_pos d Y w H').
  destruct H as (HX & Hl & Hr), H' as (HY & Hl' & Hr'). assert (0 <= c * d) by nra.
  assert (0 <= X * Y) by nra. assert (0 <= v * w) by nra. split_and!; [done| |].
  - apply Qle_trans with ((X * (1 - c)) * (Y * (1 - d))); [nra|]. apply Qmult_le_compat_nonneg; split; nra.
  - apply Qle_trans with ((v * (1 - c)) * (w * (1 - d))); [nra|]. apply Qmult_le_compat_nonneg; split; nra.
Qed.

Lemma near_add c X v Y w : near c X v -> near c Y w -> near c (X + Y) (v + w).
Proof. intros (HX & Hl & Hr) (HY & Hl' & Hr'). split; lra. Qed.
End Near.

(** *** Powers of two *)

Lemma pow2_pos e : (0 < pow2 e)%Q.
Proof. by apply Qpower_0_lt. Qed.

Lemma pow2_add a b : (pow2 (a + b) == pow2 a * pow2 b)%Q.
Proof. by apply Qpower_plus. Qed.

Lemma nonzero_pos p : ~ (inject_Z (Zpos p) == 0)%Q.
Proof. intros H. discriminate H. Qed.

Lemma pow2_nonzero e : ~ (pow2 e == 0)%Q.
Proof. intros H. pose proof (pow2_pos e) as Hp. by rewrite H in Hp. Qed.

Lemma pow2_Z n : 0 <= n -> (pow2 n == inject_Z (2 ^ n))%Q.
Proof. intros Hn. symmetry. by apply Zpower_Qpower. Qed.

Lemma pow2_lt a b : (pow2 a < pow2 b)%Q <-> a < b.
Proof.
  split; intros H; [by apply (Qpower_lt_compat_l_inv (2 # 1))|by apply (Qpower_lt_compat_l (2 # 1))].
Qed.

Lemma roundoff_pos prec : (0 < roundoff prec)%Q.
Proof. apply pow2_pos. Qed.

Lemma roundoff_scaled prec k : 0 <= prec -> (inject_Z k * roundoff prec * inject_Z (2 ^ prec) == inject_Z k)%Q.
Proof.
  intros Hp. rewrite <- pow2_Z, <- Qmult_assoc by done. unfold roundoff. rewrite <- pow2_add, Z.add_opp_diag_l.
  by rewrite Qmult_1_r.
Qed.

(** What an error of [k] roundings amounts to. *)
Lemma roundoff_half prec k : 0 <= prec -> 2 * k <= 2 ^ prec -> (inject_Z k * roundoff prec <= 1 # 2)%Q.
Proof.
  intros Hp Hk. rewrite Zle_Qle, inject_Z_mult in Hk. pose proof (roundoff_scaled prec k Hp).
  change (inject_Z 2) with (2 # 1)%Q in Hk.
  assert (0 < inject_Z (2 ^ prec))%Q by (rewrite <- pow2_Z by done; apply pow2_pos). nra.
Qed.

Lemma roundoff_small prec : 1 <= prec -> (roundoff prec <= 1 # 2)%Q.
Proof.
  intros Hp. rewrite <- (Qmult_1_l (roundoff prec)). change 1%Q with (inject_Z 1).
  apply roundoff_half; [lia|]. apply (Z.pow_le_mono_r 2 1); lia.
Qed.

Lemma roundoff_add prec k j : (inject_Z (k + j) * roundoff prec == inject_Z k * roundoff prec + inject_Z j * roundoff prec)%Q.
Proof. rewrite inject_Z_plus. ring. Qed.

Lemma roundoff_le prec k j : k <= j -> (inject_Z k * roundoff prec <= inject_Z j * roundoff prec)%Q.
Proof. intros H. rewrite Zle_Qle in H. pose proof (roundoff_pos prec). nra. Qed.

(** The error of one rounding, from the integers. *)
Lemma abs_scaled a b B : Z.abs (2 * (a - b)) <= B ->
  (- inject_Z B <= 2 * (inject_Z a - inject_Z b) <= inject_Z B)%Q.
Proof.
  intros H. apply Z.abs_le in H. rewrite !Zle_Qle, inject_Z_mult in H. unfold Z.sub in H.
  rewrite inject_Z_plus, !inject_Z_opp in H. done.
Qed.

Lemma scale_bounds d p x y b : (0 < p -> - (d * b) <= 2 * (x - y) <= d * b ->
  - (d * (b * p)) <= 2 * (x * p - y * p) <= d * (b * p))%Q.
Proof. intros Hp [H1 H2]. split; nra. Qed.

Lemma nearest_near u v w : (0 <= v -> 0 < u -> u <= 1 -> Qabs (w - v) <= u * v -> near u v w)%Q.
Proof. intros Hv Hu Hu1 H. apply Qabs_Qle_condition in H as [H1 H2]. split_and!; nra. Qed.

(** *** The operations *)

Section Operations.
Variables prec emax : Z.
Hypothesis Hprec : 2 <= prec.

Abbreviation normal m := (2 ^ (prec - 1) <= Zpos m < 2 ^ prec).
Abbreviation value m e := (inject_Z (Zpos m) * pow2 e)%Q.

Lemma in_range_size N D m E v :
  0 < D -> 0 < m -> m * D <= N < (m + 1) * D -> (v * inject_Z D == inject_Z N * pow2 E)%Q -> in_range emax v ->
  (pow2 (size m - 1 + E) <= v)%Q /\ emin prec emax + prec <= size m + E < emax.
Proof.
  intros HD Hm HN Hv [Hlo Hhi]. destruct (size_spec m Hm) as [Hs1 Hs2].
  assert (2 ^ (size m - 1) * D <= N) as H1 by nia. assert (N < 2 ^ size m * D) as H2 by nia.
  pose proof (size_pos m Hm).
  rewrite Zle_Qle, inject_Z_mult, <- pow2_Z in H1 by lia. rewrite Zlt_Qlt, inject_Z_mult, <- pow2_Z in H2 by lia.
  rewrite Zlt_Qlt in HD. change (inject_Z 0) with 0%Q in HD. pose proof (pow2_pos E).
  assert (pow2 (size m - 1 + E) <= v)%Q as Hv1.
  { rewrite pow2_add. apply (Qmult_le_r _ _ (inject_Z D)); [done|]. rewrite Hv. nra. }
  assert (v < pow2 (size m + E))%Q as Hv2.
  { rewrite pow2_add. apply (Qmult_lt_r _ _ (inject_Z D)); [done|]. rewrite Hv. nra. }
  split; [done|]. assert (2 - emax < size m + E) by (apply pow2_lt; by eapply Qle_lt_trans).
  assert (size m - 1 + E < emax - 1) by (apply pow2_lt; by eapply Qle_lt_trans). unfold emin. lia.
Qed.

Lemma round_aux_near s N D m E l v :
  0 < D -> 0 < m -> located N D (shr_record_of_loc m l) -> prec <= size m ->
  (v * inject_Z D == inject_Z N * pow2 E)%Q -> in_range emax v ->
  exists m' e', binary_round_aux prec emax s m E l = S754_finite s m' e' /\ normal m' /\
    near (roundoff prec) v (value m' e').
Proof.
  intros HD Hm Hl Hs Hv Hr. pose proof (located_floor _ _ _ Hl) as HN.
  replace (shr_m _) with m in HN by (by destruct l as [|[]]).
  destruct (in_range_size N D m E v) as [Hv1 Hexp]; [done..|].
  destruct (round_aux_nearest prec emax Hprec s N D m E l) as (m' & e' & -> & Hm' & He' & Hn); [done..|lia|lia|].
  exists m', e'. split; [done|]. split; [done|]. pose proof (pow2_pos (size m - 1 + E)).
  pose proof (roundoff_small prec ltac:(lia)). apply nearest_near; [lra|apply pow2_pos|lra|].
  assert (inject_Z (Zpos m' * 2 ^ (e' - E) * D) * pow2 E == value m' e' * inject_Z D)%Q as HW.
  { rewrite !inject_Z_mult, <- pow2_Z by lia. replace e' with (e' - E + E) at 2 by lia. rewrite (pow2_add (e' - E)). ring. }
  assert (pow2 (size m - prec) * pow2 E == 2 * roundoff prec * pow2 (size m - 1 + E))%Q as HB.
  { change 2%Q with (pow2 1). unfold roundoff. rewrite <- !pow2_add. by replace (1 + - prec + _) with (size m - prec + E) by lia. }
  apply abs_scaled in Hn. rewrite (inject_Z_mult D), <- (pow2_Z (size m - prec)) in Hn by lia.
  rewrite Zlt_Qlt in HD. change (inject_Z 0) with 0%Q in HD. apply Qabs_Qle_condition.
  apply (scale_bounds (inject_Z D) (pow2 E)) in Hn; [|apply pow2_pos]. rewrite HB in Hn.
  rewrite HW, <- Hv in Hn. split; apply (Qmult_le_l _ _ (inject_Z D)); try done; nra.
Qed.

Lemma normal_size m : normal m -> size (Zpos m) = prec.
Proof. intros Hm. apply size_unique; [lia|done]. Qed.

Lemma size_mono a b : 0 < a -> a <= b -> size a <= size b.
Proof. intros Ha Hab. unfold size. pose proof (Z.log2_le_mono a b Hab). lia. Qed.

(** The result of an operation whose exact value is [v]. *)
Definition rounds_to (v : Q) (x : spec_float) : Prop :=
  exists m e, x = S754_finite false m e /\ normal m /\ near (roundoff prec) v (value m e).

Lemma mul_rounds m1 e1 m2 e2 :
  normal m1 -> normal m2 -> in_range emax (value m1 e1 * value m2 e2) ->
  rounds_to (value m1 e1 * value m2 e2) (SFmul prec emax (S754_finite false m1 e1) (S754_finite false m2 e2)).
Proof.
  intros H1 H2 Hr. cbn [SFmul xorb]. apply (round_aux_near _ (Zpos (m1 * m2)) 1); try done; try lia.
  - apply located_exact.
  - rewrite <- (normal_size m1) at 1 by done. apply size_mono; [|rewrite Pos2Z.inj_mul]; nia.
  - rewrite Pos2Z.inj_mul, inject_Z_mult, pow2_add. change (inject_Z 1) with 1%Q. ring.
Qed.

Lemma SFadd_finite m1 e1 m2 e2 :
  exists p, SFadd prec emax (S754_finite false m1 e1) (S754_finite false m2 e2) =
      binary_round prec emax false p (Z.min e1 e2) /\
    Zpos p = Zpos m1 * 2 ^ (e1 - Z.min e1 e2) + Zpos m2 * 2 ^ (e2 - Z.min e1 e2).
Proof.
  assert (forall m e ez, ez <= e -> Zpos (fst (shl_align m e ez)) = Zpos m * 2 ^ (e - ez)) as Hal.
  { intros m e ez He. unfold shl_align. destruct (ez - e) as [|d|d] eqn:E; cbn [fst]; [|lia|].
    - replace (e - ez) with 0 by lia. cbn. lia.
    - rewrite shift_mantissa. do 2 f_equal. lia. }
  cbn [SFadd cond_Zopp]. rewrite !Hal by lia.
  destruct (Zpos m1 * 2 ^ (e1 - Z.min e1 e2) + Zpos m2 * 2 ^ (e2 - Z.min e1 e2)) as [|p|p] eqn:E; [nia| |nia].
  by exists p.
Qed.

Lemma add_rounds m1 e1 m2 e2 :
  normal m1 -> normal m2 -> in_range emax (value m1 e1 + value m2 e2) ->
  rounds_to (value m1 e1 + value m2 e2) (SFadd prec emax (S754_finite false m1 e1) (S754_finite false m2 e2)).
Proof.
  intros H1 H2 Hr. destruct (SFadd_finite m1 e1 m2 e2) as (p & -> & Hp). set (ez := Z.min e1 e2) in *.
  assert (value m1 e1 + value m2 e2 == value p ez)%Q as Hv.
  { rewrite Hp, inject_Z_plus, !inject_Z_mult, <- !pow2_Z by lia.
    replace e1 with (e1 - ez + ez) at 1 by lia. replace e2 with (e2 - ez + ez) at 1 by lia.
    rewrite (pow2_add (e1 - ez)), (pow2_add (e2 - ez)). ring. }
  assert (prec <= size (Zpos p)).
  { rewrite <- (normal_size m1) by done. destruct (decide (e1 <= e2)).
    - apply size_mono; [lia|]. replace (e1 - ez) with 0 in Hp by lia. nia.
    - rewrite (normal_size m1), <- (normal_size m2) by done.
      apply size_mono; [lia|]. replace (e2 - ez) with 0 in Hp by lia. nia. }
  destruct (in_range_size (Zpos p) 1 (Zpos p) ez (value m1 e1 + value m2 e2)) as [_ He]; try lia.
  { rewrite Hv. ring. }
  { done. }
  unfold binary_round, shl_align. replace (Zpos (digits2_pos p)) with (size (Zpos p)) by (symmetry; apply digits2_log2).
  assert (fexp prec emax (size (Zpos p) + ez) = size (Zpos p) + ez - prec) as -> by (unfold fexp; lia).
  destruct (size (Zpos p) + ez - prec - ez) as [|d|d] eqn:E; [..|lia];
    apply (round_aux_near _ (Zpos p) 1); try done; try apply located_exact; try lia; rewrite Hv; ring.
Qed.

Lemma located_new D q r : 0 < D -> 0 <= r < D -> located (q * D + r) D (shr_record_of_loc q (new_location D r)).
Proof.
  intros HD Hr. assert (Z.even D = false -> 2 * r <> D) as Hodd by (intros H <-; by rewrite Z.even_mul in H).
  unfold new_location, new_location_even, new_location_odd.
  destruct (Z.even D), (Z.eqb_spec r 0) as [->|Hr0];
    [|destruct (Z.compare_spec (2 * r) D)| |destruct (Z.compare_spec (2 * r + 1) D)];
    eexists; cbn [shr_record_of_loc shr_m shr_r shr_s]; (split; [done|]); lia.
Qed.

(** The quotient is computed with enough digits. *)
Lemma div_digits m1 m2 x :
  normal m1 -> normal m2 -> in_range emax (inject_Z (Zpos m1) / inject_Z (Zpos m2) * pow2 x) ->
  exists s, x - Z.min (fexp prec emax x) x = s /\ 0 <= s /\ 2 ^ (prec - 1) * Zpos m2 <= Zpos m1 * 2 ^ s.
Proof.
  intros H1 H2 [Hlo _]. assert (2 ^ prec = 2 * 2 ^ (prec - 1)) as Hp by (rewrite <- Z.pow_succ_r by lia; f_equal; lia).
  assert (0 < inject_Z (Zpos m2))%Q as Hm2 by done.
  apply (Qmult_le_r _ _ (inject_Z (Zpos m2)) Hm2) in Hlo.
  assert (inject_Z (Zpos m1) / inject_Z (Zpos m2) * pow2 x * inject_Z (Zpos m2) == inject_Z (Zpos m1) * pow2 x)%Q as E
    by (field; apply nonzero_pos).
  rewrite E in Hlo. pose proof (pow2_pos x). pose proof (pow2_pos (2 - emax)).
  assert (2 - emax <= x) as Hx.
  { apply Z.lt_succ_r, pow2_lt. apply (Qmult_lt_r _ _ (inject_Z (Zpos m2)) Hm2). eapply Qle_lt_trans; [done|].
    unfold Z.succ. rewrite pow2_add. change (pow2 1) with (inject_Z 2).
    assert (inject_Z (Zpos m1) < inject_Z 2 * inject_Z (Zpos m2))%Q by (rewrite <- inject_Z_mult, <- Zlt_Qlt; lia). nra. }
  unfold fexp, emin. destruct (decide (x = 2 - emax)) as [->|Hne]; eexists; (split; [done|]).
  - replace (2 - emax - _) with (prec - 1) by lia. split; [lia|].
    assert (Zpos m2 <= Zpos m1); [|nia]. rewrite Zle_Qle. apply (Qmult_le_l _ _ (pow2 (2 - emax))); [done|]. lra.
  - replace (x - _) with prec by lia. split; [lia|]. nia.
Qed.

Lemma div_rounds m1 e1 m2 e2 :
  normal m1 -> normal m2 -> in_range emax (value m1 e1 / value m2 e2) ->
  rounds_to (value m1 e1 / value m2 e2) (SFdiv prec emax (S754_finite false m1 e1) (S754_finite false m2 e2)).
Proof.
  intros H1 H2 Hr. cbn [SFdiv xorb]. unfold SFdiv_core_binary. rewrite !Zdigits2_size, !normal_size by done.
  replace (prec + e1 - (prec + e2)) with (e1 - e2) by lia.
  assert (value m1 e1 / value m2 e2 == inject_Z (Zpos m1) / inject_Z (Zpos m2) * pow2 (e1 - e2))%Q as Hv.
  { replace e1 with (e2 + (e1 - e2)) at 1 by lia. rewrite pow2_add.
    field. split; [apply nonzero_pos|apply pow2_nonzero]. }
  assert (in_range emax (inject_Z (Zpos m1) / inject_Z (Zpos m2) * pow2 (e1 - e2))) as Hr' by (by unfold in_range; rewrite <- Hv).
  destruct (div_digits m1 m2 (e1 - e2)) as (s & Hs & Hs0 & Hd); [done..|]. rewrite Hs.
  set (e' := Z.min _ _) in *. set (m' := match s with Z0 => _ | _ => _ end).
  assert (m' = Zpos m1 * 2 ^ s) as Hm' by (unfold m'; destruct s; [lia|by rewrite Z.shiftl_mul_pow2|lia]).
  pose proof (Z_div_mod m' (Zpos m2) ltac:(lia)) as Hqr. destruct (Z.div_eucl m' (Zpos m2)) as [q r].
  destruct Hqr as [Hq Hr0].
  assert (2 ^ (prec - 1) <= q) as Hq1 by (apply Z.lt_succ_r, (Z.mul_lt_mono_pos_r (Zpos m2)); lia).
  apply (round_aux_near _ m' (Zpos m2)); [lia|lia| | | |done].
  - rewrite Hq, Z.mul_comm. apply located_new; lia.
  - unfold size. pose proof (Z.log2_le_pow2 q (prec - 1)). lia.
  - rewrite Hv, Hm', inject_Z_mult, <- pow2_Z by done. replace (e1 - e2) with (s + e') by lia. rewrite pow2_add. field. apply nonzero_pos.
Qed.

Lemma int_accurate n :
  4 <= prec -> prec <= emax -> 0 <= n < 2 ^ prec -> accurate prec 0 (inject_Z n) (sf_of_int prec emax n).
Proof.
  intros Hp He Hn. destruct (decide (n = 0)) as [->|Hn0]; [done|].
  rewrite (sf_of_int_pos prec emax) by lia. unfold canon. cbn [accurate].
  rewrite (canon_mantissa prec Hp n) by lia. pose proof (size_bounds prec n ltac:(lia)) as Hs.
  destruct (size_spec n ltac:(lia)) as [H1 H2]. split.
  - assert (2 ^ (prec - 1) = 2 ^ (size n - 1) * 2 ^ (prec - size n)) as -> by (rewrite <- pow2_split by lia; f_equal; lia).
    assert (2 ^ prec = 2 ^ size n * 2 ^ (prec - size n)) as -> by (rewrite <- pow2_split by lia; f_equal; lia).
    split; [apply Z.mul_le_mono_nonneg_r|apply Z.mul_lt_mono_pos_r]; lia.
  - assert (inject_Z (n * 2 ^ (prec - size n)) * pow2 (size n - prec) == inject_Z n)%Q as E.
    { rewrite inject_Z_mult, <- pow2_Z, <- Qmult_assoc, <- pow2_add by lia.
      replace (_ + _) with 0 by lia. change (pow2 0) with 1%Q. ring. }
    unfold near. rewrite E. rewrite Qmult_0_l. assert (0 <= inject_Z n)%Q by (change 0%Q with (inject_Z 0); rewrite <- Zle_Qle; lia).
    split_and!; lra.
Qed.
End Operations.

(** *** Errors add up *)

Section Accuracy.
Variables prec emax : Z.
Hypothesis Hprec : 4 <= prec.
Hypothesis Hemax : prec <= emax.

Abbreviation err k := (inject_Z k * roundoff prec)%Q.

Lemma err_nonneg k : 0 <= k -> (0 <= err k)%Q.
Proof. intros Hk. pose proof (roundoff_le prec 0 k Hk) as H. by rewrite Qmult_0_l in H. Qed.

Lemma err_half k : 2 * k <= 2 ^ prec -> (err k <= 1 # 2)%Q.
Proof. apply roundoff_half. lia. Qed.

Lemma near_in_range k X v : 2 * k <= 2 ^ prec -> near (err k) X v -> in_range (emax - 1) X -> in_range emax v.
Proof.
  intros Hk%err_half Hn [H1 H2]. pose proof (near_pos _ _ _ Hn ltac:(lra)). destruct Hn as (HX & Hl & Hr).
  split.
  - replace (2 - (emax - 1)) with (1 + (2 - emax)) in H1 by lia. rewrite pow2_add in H1. change (pow2 1) with 2%Q in H1. nra.
  - replace (emax - 1) with (1 + (emax - 1 - 1)) by lia. rewrite pow2_add. change (pow2 1) with 2%Q. nra.
Qed.

Lemma accurate_mono k j X x : k <= j -> 2 * j <= 2 ^ prec -> accurate prec k X x -> accurate prec j X x.
Proof.
  intros Hkj Hj. destruct x as [[]| | |[] m e]; cbn [accurate]; try done. intros [Hm Hn]. split; [done|].
  apply err_half in Hj. apply (near_mono (err k)); [done|by apply roundoff_le|lra].
Qed.

Lemma accurate_pos k X m e :
  2 * k <= 2 ^ prec -> accurate prec k X (S754_finite false m e) -> (0 < X)%Q.
Proof.
  intros Hk%err_half [Hm (HX & Hl & Hr)]. assert (0 < inject_Z (Zpos m))%Q by done. pose proof (pow2_pos e).
  assert (0 < inject_Z (Zpos m) * pow2 e)%Q by nra. nra.
Qed.

Lemma rounds_accurate k V v x :
  0 <= k -> 2 * (k + 1) <= 2 ^ prec -> near (err k) V v -> (0 < V)%Q -> fits emax V ->
  (in_range emax v -> rounds_to prec v x) -> accurate prec (k + 1) V x.
Proof.
  intros Hk Hk2 Hn HV Hfit Hx. destruct Hfit as [H0|Hr]; [rewrite H0 in HV; by apply Qlt_irrefl in HV|].
  destruct Hx as (m & e & -> & Hm & He); [apply (near_in_range k V); [lia|done..]|]. split; [done|].
  rewrite roundoff_add, Qmult_1_l. pose proof (err_half (k + 1) Hk2) as Hh. rewrite roundoff_add, Qmult_1_l in Hh.
  apply (near_trans _ _ _ v); [done|done|by apply err_nonneg|apply Qlt_le_weak, pow2_pos|lra].
Qed.

Lemma mul_accurate k j X Y x y :
  0 <= k -> 0 <= j -> 2 * (k + j + 1) <= 2 ^ prec -> accurate prec k X x -> accurate prec j Y y ->
  fits emax (X * Y) -> accurate prec (k + j + 1) (X * Y) (SFmul prec emax x y).
Proof.
  intros Hk Hj Hkj Hx Hy Hfit.
  destruct x as [[]| | |[] m e], y as [[]| | |[] m' e']; try done; cbn [accurate SFmul xorb] in Hx, Hy |- *;
    [by rewrite Hx, Qmult_0_l|by rewrite Hx, Qmult_0_l|by rewrite Hy, Qmult_0_r|].
  pose proof (accurate_pos k X m e ltac:(lia) Hx). pose proof (accurate_pos j Y m' e' ltac:(lia) Hy).
  destruct Hx as [Hm Hx], Hy as [Hm' Hy].
  apply (rounds_accurate _ _ (inject_Z (Zpos m) * pow2 e * (inject_Z (Zpos m') * pow2 e'))); [lia|done| |nra|done|].
  - rewrite roundoff_add. apply near_mul; [done|done|by apply err_nonneg|by apply err_nonneg|].
    rewrite <- roundoff_add. pose proof (err_half (k + j) ltac:(lia)). lra.
  - intros Hr. by apply mul_rounds; [lia|..].
Qed.

Lemma add_accurate k X Y x y :
  0 <= k -> 2 * (k + 1) <= 2 ^ prec -> accurate prec k X x -> accurate prec k Y y ->
  fits emax (X + Y) -> accurate prec (k + 1) (X + Y) (SFadd prec emax x y).
Proof.
  intros Hk Hk2 Hx Hy Hfit.
  destruct x as [[]| | |[] m e], y as [[]| | |[] m' e']; try done.
  - cbn [accurate SFadd] in Hx, Hy |- *. by rewrite Hx, Hy.
  - cbn [accurate] in Hx. rewrite Hx, Qplus_0_l. by apply (accurate_mono k); [lia..|].
  - cbn [accurate] in Hy. rewrite Hy, Qplus_0_r. by apply (accurate_mono k); [lia..|].
  - pose proof (accurate_pos k X m e ltac:(lia) Hx). pose proof (accurate_pos k Y m' e' ltac:(lia) Hy).
    destruct Hx as [Hm Hx], Hy as [Hm' Hy].
    apply (rounds_accurate _ _ (inject_Z (Zpos m) * pow2 e + inject_Z (Zpos m') * pow2 e')); [lia|done| |lra|done|].
    + by apply near_add.
    + intros Hr. by apply add_rounds; [lia|..].
Qed.

Lemma div_accurate k X x n :
  0 <= k -> 2 * (k + 1) <= 2 ^ prec -> 0 < n < 2 ^ prec -> accurate prec k X x -> fits emax (X / inject_Z n) ->
  accurate prec (k + 1) (X / inject_Z n) (SFdiv prec emax x (sf_of_int prec emax n)).
Proof.
  intros Hk Hk2 Hn Hx Hfit. pose proof (int_accurate prec emax ltac:(lia) n Hprec Hemax ltac:(lia)) as Hy.
  assert (0 < inject_Z n)%Q as Hnq by (change 0%Q with (inject_Z 0); rewrite <- Zlt_Qlt; lia).
  assert (0 < / inject_Z n)%Q as Hinv by (by apply Qinv_lt_0_compat).
  rewrite (sf_of_int_pos prec emax) in Hy |- * by lia. unfold canon in *.
  generalize dependent (Z.to_pos (n * 2 ^ (prec - size n))). generalize (size n - prec). intros e' m' [Hm' (_ & H1 & H2)].
  assert (inject_Z (Zpos m') * pow2 e' == inject_Z n)%Q as Hv by (change (inject_Z 0) with 0%Q in H1, H2; lra). clear H1 H2.
  destruct x as [[]| | |[] m e]; try done.
  { cbn [accurate SFdiv xorb] in Hx |- *. rewrite Hx. unfold Qdiv. by rewrite Qmult_0_l. }
  pose proof (accurate_pos k X m e ltac:(lia) Hx). destruct Hx as [Hm Hx].
  apply (rounds_accurate _ _ (inject_Z (Zpos m) * pow2 e / (inject_Z (Zpos m') * pow2 e'))); [lia|done| |unfold Qdiv; nra|done|].
  - rewrite Hv. unfold Qdiv. destruct Hx as (HX & Hl & Hr). split_and!; nra.
  - intros Hr. by apply div_rounds; [lia|..].
Qed.
End Accuracy.

#[global] Arguments accurate_mono {prec} _ _ _ _ _ _ _ _.
#[global] Arguments err_half {prec} _ _ _.
#[global] Arguments err_nonneg {prec} _ _.
#[global] Arguments mul_accurate {prec emax} _ _ _ _ _ _ _ _ _ _ _ _ _.
#[global] Arguments add_accurate {prec emax} _ _ _ _ _ _ _ _ _ _ _.
#[global] Arguments div_accurate {prec emax} _ _ _ _ _ _ _ _ _ _ _.
