(* ===== verification/CsvRound.v ===== *)
(** * The rounding error of the floating-point columns

    How far the value [parse_float] (src/src/csv.h, modelled in CsvFloat.v) gives
    is from the number the text denotes, in an IEEE 754 format: the loops of
    [parse_float] run in step with exact arithmetic, and the errors of FloatRound.v
    are counted along the way. *)
From Stdlib Require Import QArith Qcanon Qabs Qpower Lqa Psatz SpecFloat.
From S2P Require Import Prelude CLib CsvError CsvLine CsvNumber CsvFloat CsvIeee FloatRound.
#[local] Open Scope Z_scope.

(** ** Definitions *)

(** The roundings [parse_float] does for a literal: two for a digit before the
    point, one for a digit after it, and for each power of ten one for the product
    and [j] for the base. *)
Definition roundings (j : Z) (l : literal) : Z :=
  2 * Z.of_nat (length (whole l)) + 2 + Z.of_nat (length (decimals l)) + Z.abs (exponent l) * (j + 1).

(** The literal and all that is computed for it stay in the normal range. *)
Definition normal_literal (emax : Z) (l : literal) : Prop :=
  10 ^ (Z.of_nat (length (whole l)) + Z.max (exponent l) 0) < 2 ^ (emax - 2) /\
  10 ^ (Z.of_nat (length (decimals l)) + Z.max (- exponent l) 0) <= 2 ^ (emax - 3).

(** ** Lemmas *)

Section Accuracy.
Variables prec emax : Z.
Hypothesis Hprec : 4 <= prec.
Hypothesis Hemax : prec <= emax.

Abbreviation err k := (inject_Z k * roundoff prec)%Q.

(** *** The loops of [parse_float], in step with exact arithmetic *)

Abbreviation lowest := (pow2 (3 - emax)).
Abbreviation highest := (pow2 (emax - 2)).
Abbreviation tens n := (inject_Z (10 ^ Z.of_nat n)).

Lemma fits_between V : (V == 0 \/ lowest <= V)%Q -> (V < highest)%Q -> fits emax V.
Proof.
  intros [H|H] Hh; [by left|right]. unfold in_range. replace (2 - (emax - 1)) with (3 - emax) by lia.
  by replace (emax - 1 - 1) with (emax - 2) by lia.
Qed.

Lemma lowest_le_1 : (lowest <= 1)%Q.
Proof. apply (Qpower_le_compat_l (2 # 1) (3 - emax) 0); [lia|done]. Qed.

Lemma tens_S n : (tens (S n) == 10 * tens n)%Q.
Proof. rewrite Nat2Z.inj_succ, Z.pow_succ_r, inject_Z_mult by lia. done. Qed.

Lemma tens_ge_1 n : (1 <= tens n)%Q.
Proof. change 1%Q with (inject_Z 1). rewrite <- Zle_Qle. lia. Qed.

Lemma this_int n : (this (qc n) == inject_Z n)%Q.
Proof. apply Qreduction.Qred_correct. Qed.

Lemma this_mul (a b : Qc) : (this (a * b)%Qc == a * b)%Q.
Proof. apply Qreduction.Qred_correct. Qed.

Lemma this_add (a b : Qc) : (this (a + b)%Qc == a + b)%Q.
Proof. apply Qreduction.Qred_correct. Qed.

Lemma this_div (a b : Qc) : (this (a / b)%Qc == a / b)%Q.
Proof. unfold Qcdiv, Qcinv, Qdiv. rewrite this_mul. cbn [this Q2Qc]. by rewrite Qreduction.Qred_correct. Qed.

Lemma digit_accurate y : 0 <= y <= 9 -> accurate prec 0 (this (qc y)) (sf_of_int prec emax y).
Proof.
  intros Hy. rewrite this_int. apply int_accurate; try lia. assert (2 ^ 4 <= 2 ^ prec) by (apply Z.pow_le_mono_r; lia). lia.
Qed.

Lemma ten_accurate : accurate prec 0 (inject_Z 10) (sf_of_int prec emax 10).
Proof. apply int_accurate; try lia. assert (2 ^ 4 <= 2 ^ prec) by (apply Z.pow_le_mono_r; lia). lia. Qed.

Lemma digit_cases y : 0 <= y <= 9 -> (inject_Z y == 0 \/ 1 <= inject_Z y)%Q /\ (inject_Z y <= 9)%Q.
Proof.
  intros Hy. split; [|change 9%Q with (inject_Z 9); rewrite <- Zle_Qle; lia].
  destruct (decide (y = 0)) as [->|]; [by left|right]. change 1%Q with (inject_Z 1). rewrite <- Zle_Qle. lia.
Qed.

Lemma parse_whole_accurate s (k : Z) (X : Qc) x :
  0 <= k -> accurate prec k X x -> (X == 0 \/ 1 <= X)%Q ->
  let n := length (digit_prefix s) in
  ((X + 1) * tens n <= highest)%Q -> 2 * (k + 2 * Z.of_nat n) <= 2 ^ prec ->
  let r := parse_whole X s in
  exists y, @parse_whole _ (sf_type prec emax) x s = (y, r.2) /\
    accurate prec (k + 2 * Z.of_nat n) r.1 y /\ (r.1 == 0 \/ 1 <= r.1)%Q /\ (r.1 + 1 <= (X + 1) * tens n)%Q.
Proof.
  cbv zeta. revert k X x. induction s as [|c s IH]; intros k X x Hk Hx HX Hn Hk2.
  { exists x. cbn [parse_whole digit_prefix length fst snd] in *. rewrite Z.add_0_r. split_and!; try done. 
    change (tens 0) with 1%Q. lra. }
  cbn [parse_whole digit_prefix] in *. fold (is_digit c) in *. destruct (is_digit c) eqn:Hc.
  2: { exists x. cbn [length fst snd] in *. rewrite Z.add_0_r. split_and!; try done. change (tens 0) with 1%Q. lra. }
  destruct (schar_digit_value _ Hc) as [-> Hd]. set (y := uchar c - 48) in *. cbn [length] in *.
  destruct (digit_cases y) as [Hy Hy9]; [lia|]. rewrite tens_S in Hn. pose proof (tens_ge_1 (length (digit_prefix s))).
  set (X' := (X * qc 10 + qc y)%Qc).
  assert (X' == X * 10 + inject_Z y)%Q as HX' by (unfold X'; rewrite this_add, this_mul, !this_int; done).
  assert (0 <= inject_Z y)%Q by (destruct Hy as [Hy|Hy]; lra). pose proof lowest_le_1.
  assert ((X * 10 + inject_Z y + 1) * tens (length (digit_prefix s)) <= highest)%Q as Hn' by nra.
  cbn [float_mul float_add of_int exact_type sf_type]. fold X'.
  destruct (IH (k + 2) X' (SFadd prec emax (SFmul prec emax x (sf_of_int prec emax 10)) (sf_of_int prec emax y)))
    as (z & Hz & Hacc & Hlow & Hhigh); [lia| | | |lia|].
  - rewrite HX'. replace (k + 2) with (k + 0 + 1 + 1) by lia. apply (add_accurate Hprec); [lia..| | |].
    + apply (mul_accurate Hprec); [lia..|done|apply ten_accurate|]. change (inject_Z 10) with 10%Q.
      apply fits_between; [destruct HX; [left|right]; lra|nra].
    + apply (accurate_mono Hprec 0); [lia..|]. rewrite <- this_int. apply digit_accurate. lia.
    + apply fits_between; [destruct HX as [HX|HX], Hy as [Hy|Hy]; [left|right..]; lra|nra].
  - rewrite HX'. destruct HX as [HX|HX], Hy as [Hy|Hy]; [left|right..]; lra.
  - by rewrite HX'.
  - exists z. split_and!; [done| |done|].
    + replace (k + 2 * Z.of_nat (S _)) with (k + 2 + 2 * Z.of_nat (length (digit_prefix s))) by lia. done.
    + rewrite HX' in Hhigh. rewrite tens_S. nra.
Qed.

(** One more digit after the point, of weight [P / 10]. *)
Lemma decimal_accurate i k (P X : Qc) pos x y :
  0 <= i -> i + 2 <= k -> 2 * (k + 1) <= 2 ^ prec -> 0 <= y <= 9 ->
  accurate prec i P pos -> accurate prec k X x ->
  (10 * lowest <= P)%Q -> (P <= 1)%Q -> (X == 0 \/ P <= X)%Q -> (X + P <= highest)%Q ->
  let P' := (P / qc 10)%Qc in
  let X' := (X + qc y * P')%Qc in
  let pos' := SFdiv prec emax pos (sf_of_int prec emax 10) in
  accurate prec (i + 1) P' pos' /\
  accurate prec (k + 1) X' (SFadd prec emax x (SFmul prec emax (sf_of_int prec emax y) pos')) /\
  (P' == P / 10)%Q /\ (X' == 0 \/ P' <= X')%Q /\ (X' + P' <= X + P)%Q.
Proof.
  intros Hi Hik Hk Hy Hpos Hx HP HP1 HX Hhi. cbv zeta. set (P' := (P / qc 10)%Qc). set (pos' := SFdiv _ _ _ _).
  assert (P' == P / 10)%Q as HP' by (unfold P'; rewrite this_div, this_int; done).
  assert (P / 10 * 10 == P)%Q as HP10 by field. rewrite <- HP' in HP10.
  assert (X + qc y * P' == X + inject_Z y * P')%Q as HX'. { by rewrite this_int. }
  destruct (digit_cases y Hy) as [Hy0 Hy9]. pose proof (pow2_pos (3 - emax)).
  assert (accurate prec (i + 1) P' pos') as Hpos'.
  { unfold pos'. rewrite HP'. apply (div_accurate Hprec Hemax i P); [lia|lia| |done|].
    - split; [lia|]. assert (2 ^ 4 <= 2 ^ prec) by (apply Z.pow_le_mono_r; lia). lia.
    - change (inject_Z 10) with 10%Q. rewrite <- HP'. apply fits_between; [right|]; destruct HX; lra. }
  assert (this (X + qc y * P')%Qc == X + inject_Z y * P')%Q as HX'' by (by rewrite this_add, this_mul, this_int).
  assert (inject_Z y * P' == 0 \/ P' <= inject_Z y * P')%Q as HyP by (destruct Hy0 as [H0|H1]; [left; rewrite H0; lra|right; nra]).
  assert (inject_Z y * P' <= 9 * P')%Q by nra.
  split_and!; [done| |done| |].
  - rewrite HX''. apply (add_accurate Hprec); [lia|lia|done| |].
    + apply (accurate_mono Hprec (0 + (i + 1) + 1)); [lia..|].
      apply (mul_accurate Hprec); [lia..| |done|].
      * rewrite <- this_int. by apply digit_accurate.
      * apply fits_between; [destruct HyP; [by left|right; lra]|destruct HX; lra].
    + apply fits_between; [destruct HX, HyP; [left|right..]; lra|lra].
  - rewrite HX''. destruct HX, HyP; [left|right..]; lra.
  - rewrite HX''. lra.
Qed.

Lemma parse_decimals_accurate s i k (P X : Qc) pos x :
  0 <= i -> i + 2 <= k ->
  accurate prec i P pos -> accurate prec k X x ->
  let n := length (digit_prefix s) in
  2 * (k + Z.of_nat n) <= 2 ^ prec ->
  (lowest * tens n <= P)%Q -> (P <= 1)%Q -> (X == 0 \/ P <= X)%Q -> (X + P <= highest)%Q ->
  let r := parse_decimals P X s in
  exists y, @parse_decimals _ (sf_type prec emax) pos x s = (y, r.2) /\
    accurate prec (k + Z.of_nat n) r.1 y /\ (r.1 == 0 \/ P <= r.1 * tens n)%Q /\ (r.1 < X + P)%Q.
Proof.
  cbv zeta. pose proof (pow2_pos (3 - emax)). revert i k P X pos x.
  induction s as [|c s IH]; intros i k P X pos x Hi Hik Hpos Hx Hk HP HP1 HX Hhi.
  { exists x. cbn [parse_decimals digit_prefix length fst snd] in *. rewrite Z.add_0_r.
    change (tens 0) with 1%Q in *. split_and!; try done; [destruct HX; [by left|right; lra]|lra]. }
  cbn [parse_decimals digit_prefix] in *. fold (is_digit c) in *. destruct (is_digit c) eqn:Hc.
  2: { exists x. cbn [length fst snd] in *. rewrite Z.add_0_r.
       change (tens 0) with 1%Q in *. split_and!; try done; [destruct HX; [by left|right; lra]|lra]. }
  destruct (schar_digit_value _ Hc) as [-> Hd]. set (y := uchar c - 48) in *. cbn [length] in *.
  rewrite tens_S in HP. pose proof (tens_ge_1 (length (digit_prefix s))).
  destruct (decimal_accurate i k P X pos x y) as (Hpos' & Hx' & HP' & Hlow & Hsum); [lia|lia|lia|lia|done|done|nra|done..|].
  cbn [float_mul float_add float_div of_int exact_type sf_type].
  set (P' := (P / qc 10)%Qc) in *. set (X' := (X + qc y * P')%Qc) in *.
  assert (P' * 10 == P)%Q as HP10 by (rewrite HP'; field).
  destruct (IH (i + 1) (k + 1) P' X' _ _ ltac:(lia) ltac:(lia) Hpos' Hx') as (z & Hz & Hacc & Hl & Hh); [lia|nra|lra|done|lra|].
  exists z. split_and!; [done| | |lra].
  - by replace (k + Z.of_nat (S _)) with (k + 1 + Z.of_nat (length (digit_prefix s))) by lia.
  - destruct Hl as [Hl|Hl]; [by left|right]. rewrite tens_S. lra.
Qed.

(** *** The exponent *)

Lemma scale_accurate x b e :
  1 <= e < 2 ^ 31 ->
  exists r, @scale _ (sf_type prec emax) x b e = Ok r /\
    forall k j X B, accurate prec k X x -> accurate prec j B b -> 0 <= k -> 0 <= j ->
      2 * (k + e * (j + 1)) <= 2 ^ prec ->
      (forall i, 1 <= i <= e -> fits emax (Qpower B i)) ->
      (forall i, 0 <= i <= e -> fits emax (X * Qpower B i)) ->
      accurate prec (k + e * (j + 1)) (X * Qpower B e) r.
Proof.
  intros He. apply (@scale_ind _ (sf_type prec emax) (fun x b e r => forall k j X B, accurate prec k X x ->
      accurate prec j B b -> 0 <= k -> 0 <= j -> 2 * (k + e * (j + 1)) <= 2 ^ prec ->
      (forall i, 1 <= i <= e -> fits emax (Qpower B i)) ->
      (forall i, 0 <= i <= e -> fits emax (X * Qpower B i)) ->
      accurate prec (k + e * (j + 1)) (X * Qpower B e) r)); [..|done]; clear x b e He; cbn [float_mul sf_type].
  - intros x b k j X B Hx Hb Hk Hj Hkj _ HX. rewrite Z.mul_1_l, Z.add_assoc in *. rewrite Qpower_1_r.
    apply (mul_accurate Hprec); [done..|]. rewrite <- (Qpower_1_r B). apply HX. lia.
  - intros x b e r He H k j X B Hx Hb Hk Hj Hkj HB HX.
    assert (forall i, Qpower (B * B) i == Qpower B (2 * i))%Q as Hpow by (intros i; by rewrite Qpower_mult).
    rewrite <- Hpow. replace (k + 2 * e * (j + 1)) with (k + e * (j + j + 1 + 1)) by lia.
    apply H; [done| |done|lia|lia|intros i Hi; rewrite Hpow; apply HB; lia|intros i Hi; rewrite Hpow; apply HX; lia].
    apply (mul_accurate Hprec); [done|done|nia|done..|]. apply (HB 2). lia.
  - intros x b e r He H k j X B Hx Hb Hk Hj Hkj HB HX.
    assert (forall i, 0 <= i -> (X * B * Qpower B i == X * Qpower B (i + 1))%Q) as Hpow.
    { intros i Hi. rewrite (Qpower_plus' B i 1), Qpower_1_r by lia. ring. }
    rewrite <- Hpow by lia. replace (k + (2 * e + 1) * (j + 1)) with (k + j + 1 + 2 * e * (j + 1)) by lia.
    apply H; [|done|lia|lia|lia|intros i Hi; apply HB; lia|intros i Hi; rewrite Hpow by lia; apply HX; lia].
    apply (mul_accurate Hprec); [done|done|nia|done..|]. rewrite <- (Qpower_1_r B). apply HX. lia.
Qed.

Lemma ten_pow_pos n : 0 <= n -> (Qpower 10 n == inject_Z (10 ^ n))%Q.
Proof. intros Hn. symmetry. by apply (Zpower_Qpower 10). Qed.

Lemma ten_pow_neg n : 0 <= n -> (Qpower 10 (- n) == / inject_Z (10 ^ n))%Q.
Proof. intros Hn. by rewrite Qpower_opp, ten_pow_pos. Qed.

(** A number with [w] digits before the point and [d] after it, scaled. *)
Lemma fits_scaled X (w d : nat) a b i :
  0 <= a -> 0 <= b -> 10 ^ (Z.of_nat w + a) < 2 ^ (emax - 2) -> 10 ^ (Z.of_nat d + b) <= 2 ^ (emax - 3) ->
  (X == 0 \/ 1 <= X * tens d)%Q -> (X <= tens w)%Q -> - b <= i <= a -> fits emax (X * Qpower 10 i).
Proof.
  intros Ha Hb Hw Hd HX HX' Hi.
  rewrite Z.pow_add_r, Zlt_Qlt, inject_Z_mult, <- pow2_Z in Hw by lia.
  rewrite Z.pow_add_r, Zle_Qle, inject_Z_mult, <- (pow2_Z (emax - 3)) in Hd by lia.
  assert (lowest * pow2 (emax - 3) == 1)%Q as Hlow by (rewrite <- pow2_add; by replace (3 - emax + (emax - 3)) with 0 by lia).
  pose proof (pow2_pos (3 - emax)). pose proof (tens_ge_1 d). pose proof (tens_ge_1 w).
  assert (forall n, 0 <= n -> (1 <= inject_Z (10 ^ n))%Q) as Hge by (intros n Hn; change 1%Q with (inject_Z 1); rewrite <- Zle_Qle; lia).
  pose proof (Hge a Ha) as Hga. pose proof (Hge b Hb) as Hgb.
  assert (0 <= X)%Q as HX0 by (destruct HX; [lra|nra]).
  destruct (decide (0 <= i)) as [Hi0|Hi0].
  - rewrite ten_pow_pos by done. pose proof (Hge i Hi0) as Hgi.
    assert (inject_Z (10 ^ i) <= inject_Z (10 ^ a))%Q by (rewrite <- Zle_Qle; apply Z.pow_le_mono_r; lia).
    apply fits_between; [destruct HX as [HX|HX]; [left; rewrite HX; ring|right]|].
    + assert (lowest * tens d <= 1)%Q by nra. assert (lowest <= X)%Q by nra. nra.
    + apply (Qle_lt_trans _ (tens w * inject_Z (10 ^ a))); [|done]. apply Qmult_le_compat_nonneg; split; lra.
  - replace i with (- (- i)) by lia. rewrite ten_pow_neg by lia. set (n := - i) in *. pose proof (Hge n ltac:(lia)) as Hgn.
    assert (inject_Z (10 ^ n) <= inject_Z (10 ^ b))%Q by (rewrite <- Zle_Qle; apply Z.pow_le_mono_r; lia).
    assert (X * / inject_Z (10 ^ n) * inject_Z (10 ^ n) == X)%Q as Hinv by (field; intros E; rewrite E in Hgn; by apply Hgn).
    set (V := (X * / inject_Z (10 ^ n))%Q) in *.
    apply fits_between; [destruct HX as [HX|HX]; [left; unfold V; rewrite HX; ring|right]|].
    + apply (Qmult_le_r _ _ (inject_Z (10 ^ n))); [lra|]. rewrite Hinv.
      apply (Qmult_le_r _ _ (tens d)); [lra|]. apply (Qle_trans _ 1); [|done].
      apply (Qle_trans _ (lowest * (tens d * inject_Z (10 ^ b)))); [|nra].
      assert (0 <= lowest * tens d)%Q by nra. nra.
    + apply (Qmult_lt_r _ _ (inject_Z (10 ^ n))); [lra|]. rewrite Hinv.
      assert (tens w <= tens w * inject_Z (10 ^ a))%Q by nra. assert (X < highest)%Q by lra.
      pose proof (pow2_pos (emax - 2)). nra.
Qed.

(** *** The whole literal *)

Abbreviation mantissa w d := (qc (dec_value (w ++ d)) / qc 10 ^ length d)%Qc.

Lemma fraction_accurate k (X : Qc) x t :
  0 <= k -> accurate prec k X x -> (X == 0 \/ 1 <= X)%Q ->
  let n := length (fraction_digits t).1 in
  2 * (k + 2 + Z.of_nat n) <= 2 ^ prec -> (lowest * tens n <= 1)%Q -> (X + 1 <= highest)%Q ->
  let r := parse_fraction X t in
  exists y, @parse_fraction _ (sf_type prec emax) x t = (y, r.2) /\
    accurate prec (k + 2 + Z.of_nat n) r.1 y /\ (r.1 == 0 \/ 1 <= r.1 * tens n)%Q /\ (r.1 < X + 1)%Q.
Proof.
  cbv zeta. intros Hk Hx HX Hn Hlow Hhi.
  assert (accurate prec (k + 2) X x) as Hx' by (apply (accurate_mono Hprec k); [lia..|done]).
  assert (parse_fraction X t = (X, t) -> @parse_fraction _ (sf_type prec emax) x t = (x, t) ->
    length (fraction_digits t).1 = 0%nat -> exists y, @parse_fraction _ (sf_type prec emax) x t = (y, (parse_fraction X t).2) /\
    accurate prec (k + 2 + Z.of_nat (length (fraction_digits t).1)) (parse_fraction X t).1 y /\
    ((parse_fraction X t).1 == 0 \/ 1 <= (parse_fraction X t).1 * tens (length (fraction_digits t).1))%Q /\
    ((parse_fraction X t).1 < X + 1)%Q) as Hnone.
  { intros -> -> ->. exists x. cbn [fst snd]. rewrite Z.add_0_r. change (tens 0) with 1%Q.
    split_and!; [done|done|destruct HX; [by left|right; lra]|lra]. }
  destruct t as [|c t]; [by apply Hnone|]. cbn [parse_fraction fraction_digits] in *.
  destruct (is_point c); [|by apply Hnone]. cbn [fst] in *.
  change (@of_int Qc exact_type 1) with (qc 1). assert (this (qc 1) == 1)%Q as H1 by done.
  destruct (parse_decimals_accurate t 0 (k + 2) (qc 1) X (sf_of_int prec emax 1) x) as (y & Hy & Hacc & Hl & Hh);
    try done; try lia; rewrite ?H1; try done; try lra.
  - apply digit_accurate. lia.
  - exists y. split_and!; done.
Qed.

Lemma mantissa_accurate t :
  let w := digit_prefix t in
  let '(d, u) := fraction_digits (skip_digits t) in
  let k := 2 * Z.of_nat (length w) + 2 + Z.of_nat (length d) in
  (tens (length w) <= highest)%Q -> (lowest * tens (length d) <= 1)%Q -> 2 * k <= 2 ^ prec ->
  exists x y, @parse_whole _ (sf_type prec emax) (sf_of_int prec emax 0) t = (x, skip_digits t) /\
    @parse_fraction _ (sf_type prec emax) x (skip_digits t) = (y, u) /\
    accurate prec k (mantissa w d) y /\ (mantissa w d == 0 \/ 1 <= mantissa w d * tens (length d))%Q /\
    (mantissa w d <= tens (length w))%Q.
Proof.
  cbv zeta. destruct (fraction_digits (skip_digits t)) as [d u] eqn:Ed. intros Hw Hd Hk.
  destruct (parse_whole_accurate t 0 (qc 0) (sf_of_int prec emax 0)) as (x & Hx & Hacc & Hl & Hh); try done; try lia.
  { by left. }
  { change (this (qc 0)) with 0%Q. lra. }
  rewrite parse_whole_exact in Hx, Hacc, Hl, Hh. cbn [fst snd] in *. fold (dec_value (digit_prefix t)) in *.
  change (this (qc 0)) with 0%Q in Hh.
  destruct (fraction_accurate (0 + 2 * Z.of_nat (length (digit_prefix t))) (qc (dec_value (digit_prefix t))) x (skip_digits t))
    as (y & Hy & Hacc' & Hl' & Hh'); rewrite ?Ed; try done; try lia; try lra.
  rewrite parse_fraction_exact, Ed in Hy, Hacc', Hl', Hh'. cbn [fst snd] in *.
  exists x, y. split_and!; [done|done|done|done|lra].
Qed.

Lemma this_tenth_pow (q : Qc) n : (this (q ^ n)%Qc == Qpower q (Z.of_nat n))%Q.
Proof.
  induction n as [|n IH]; [done|]. rewrite Nat2Z.inj_succ. unfold Z.succ. rewrite Qpower_plus', Qpower_1_r by lia.
  change (q ^ S n)%Qc with (q * q ^ n)%Qc. rewrite this_mul, IH. ring.
Qed.

Lemma tenth_pow i : (Qpower (1 # 10) i == Qpower 10 (- i))%Q.
Proof. change (1 # 10)%Q with (/ 10)%Q. by rewrite Qinv_power, Qpower_opp. Qed.

Lemma this_power_of_ten e : (this (power_of_ten e) == Qpower 10 e)%Q.
Proof.
  unfold power_of_ten. destruct (Z.ltb_spec e 0); rewrite this_tenth_pow, Z2Nat.id by lia; [|done].
  change (this (1 / qc 10)%Qc) with (1 # 10)%Q. rewrite tenth_pow. by replace (- - e) with e by lia.
Qed.

Lemma exponent_accurate k j X (w d : nat) x t e :
  0 <= k -> 0 <= j -> accurate prec k X x -> accurate prec j (1 # 10) (sf_tenth prec emax) ->
  exponent_of t = Some e -> e <> - 2 ^ 31 -> 2 * (k + Z.abs e * (j + 1)) <= 2 ^ prec ->
  10 ^ (Z.of_nat w + Z.max e 0) < 2 ^ (emax - 2) -> 10 ^ (Z.of_nat d + Z.max (- e) 0) <= 2 ^ (emax - 3) ->
  (X == 0 \/ 1 <= X * tens d)%Q -> (X <= tens w)%Q ->
  exists y, @parse_exponent _ (sf_type prec emax) x t = Ok y /\
    accurate prec (k + Z.abs e * (j + 1)) (X * Qpower 10 e) y.
Proof.
  intros Hk Hj Hx Hten Ht He Hkj Hw Hd HX HX'. pose proof (exponent_of_range t e Ht).
  assert (forall Y i, (Y == 0 \/ 1 <= Y * tens d)%Q -> (Y <= tens w)%Q ->
    - Z.max (- e) 0 <= i <= Z.max e 0 -> fits emax (Y * Qpower 10 i)) as Hfit
    by (intros Y i H1 H2 H3; apply (fits_scaled Y w d (Z.max e 0) (Z.max (- e) 0)); [lia..|done|done|done|done|done]).
  assert (forall i, - Z.max (- e) 0 <= i <= Z.max e 0 -> fits emax (Qpower 10 i)) as Hfit1.
  { intros i Hi. rewrite <- (Qmult_1_l (Qpower 10 i)). pose proof (tens_ge_1 d). pose proof (tens_ge_1 w).
    apply Hfit; [right; lra|lra|done]. }
  unfold parse_exponent. rewrite parse_exponent_text, Ht. cbn [mbind result_bind].
  destruct (Z.eqb_spec e 0) as [->|He0]; cbn [negb].
  { exists x. split; [done|]. change (Qpower 10 0) with 1%Q. rewrite Qmult_1_r. by rewrite Z.add_0_r. }
  destruct (Z.ltb_spec e 0).
  - rewrite (proj2 (Z.eqb_neq e _)) by done.
    destruct (scale_accurate x (sf_tenth prec emax) (- e)) as (r & Er & Hr); [lia|]. exists r. split; [exact Er|].
    specialize (Hr k j X (1 # 10)%Q Hx Hten Hk Hj). rewrite tenth_pow in Hr.
    replace (- - e) with e in Hr by lia. replace (Z.abs e) with (- e) by lia.
    apply Hr; [lia|intros i Hi; rewrite tenth_pow; apply Hfit1; lia|intros i Hi; rewrite tenth_pow; apply Hfit; [done|done|lia]].
  - destruct (scale_accurate x (sf_of_int prec emax 10) e) as (r & Er & Hr); [lia|]. exists r. split; [exact Er|].
    replace (Z.abs e) with e by lia. apply Hr; [done|apply (accurate_mono Hprec 0); [lia|nia|apply ten_accurate]|done|done|lia| |];
      intros i Hi; [apply Hfit1; lia|apply Hfit; [done|done|lia]].
Qed.

(** What an accurate float and its opposite are worth. *)
Lemma accurate_error k V x (neg : bool) :
  0 <= k -> 2 * k <= 2 ^ prec -> accurate prec k V x ->
  exists v, sf_value (if neg then SFopp x else x) = Some v /\
    (Qabs (v - (if neg then - V else V)) * inject_Z (2 ^ prec) <= inject_Z (2 * k) * Qabs (if neg then - V else V))%Q.
Proof.
  intros Hk0 Hk Hx.
  assert (exists v, sf_value x = Some v /\ (exists v', sf_value (SFopp x) = Some v' /\ v' == - v)%Q /\
    near (err k) V v) as (v & Hv & (v' & Hv' & Hopp) & Hn).
  { destruct x as [[]| | |[] m e]; try done.
    - exists 0%Q. cbn [accurate] in Hx. split_and!; [done|by exists 0%Q|]. rewrite Hx. split_and!; lra.
    - destruct Hx as [Hm Hn]. eexists. split_and!; [done| |exact Hn]. eexists. split; [done|].
      change (inject_Z (- Zpos m) * pow2 e == - (inject_Z (Zpos m) * pow2 e))%Q. rewrite inject_Z_opp. ring. }
  assert (Qabs (v - V) * inject_Z (2 ^ prec) <= inject_Z (2 * k) * Qabs V)%Q as Habs.
  { pose proof (err_half Hprec k Hk) as Hh. pose proof (near_pos _ _ _ Hn ltac:(lra)). pose proof (roundoff_scaled prec k ltac:(lia)) as Hs.
    assert (0 < inject_Z (2 ^ prec))%Q by (rewrite <- pow2_Z by lia; apply pow2_pos).
    destruct Hn as (HX & Hl & Hr). rewrite (Qabs_pos V), inject_Z_mult by done. change (inject_Z 2) with 2%Q.
    rewrite <- Hs. set (c := err k) in *.
    assert (2 * (c * inject_Z (2 ^ prec)) * V == 2 * c * V * inject_Z (2 ^ prec))%Q as -> by ring.
    apply Qmult_le_compat_r; [|lra]. apply Qabs_Qle_condition. pose proof (err_nonneg (prec:=prec) k Hk0) as Hc. fold c in Hc. split; nra. }
  destruct neg; [exists v'|exists v]; (split; [done|]); [|done]. rewrite Hopp, Qabs_opp.
  assert (- v - - V == - (v - V))%Q as -> by ring. by rewrite Qabs_opp.
Qed.
Lemma normal_bounds w d a b :
  0 <= a -> 0 <= b -> 10 ^ (Z.of_nat w + a) < 2 ^ (emax - 2) -> 10 ^ (Z.of_nat d + b) <= 2 ^ (emax - 3) ->
  (tens w <= highest)%Q /\ (lowest * tens d <= 1)%Q.
Proof.
  intros Ha Hb Hw Hd.
  assert (10 ^ Z.of_nat w <= 2 ^ (emax - 2)) as Hw'.
  { pose proof (Z.pow_le_mono_r 10 (Z.of_nat w) (Z.of_nat w + a) ltac:(lia) ltac:(lia)). lia. }
  assert (10 ^ Z.of_nat d <= 2 ^ (emax - 3)) as Hd'.
  { pose proof (Z.pow_le_mono_r 10 (Z.of_nat d) (Z.of_nat d + b) ltac:(lia) ltac:(lia)). lia. }
  rewrite Zle_Qle, <- pow2_Z in Hw', Hd' by lia. split; [done|].
  assert (lowest * pow2 (emax - 3) == 1)%Q as Hlow by (rewrite <- pow2_add; by replace (3 - emax + (emax - 3)) with 0 by lia).
  pose proof (pow2_pos (3 - emax)). nra.
Qed.

(** The text after the digits: nothing, or an exponent. *)
Lemma scan_tail neg (w d u : bytes) l :
  match u with
  | [] => Some {| negative := neg; whole := w; decimals := d; exponent := 0 |}
  | c :: t =>
      if is_exponent_mark c then
        match exponent_of t with
        | Some e => Some {| negative := neg; whole := w; decimals := d; exponent := e |}
        | None => None
        end
      else None
  end = Some l ->
  exists e, l = {| negative := neg; whole := w; decimals := d; exponent := e |} /\
    (u = [] /\ e = 0 \/ exists c t, u = c :: t /\ is_exponent_mark c = true /\ exponent_of t = Some e).
Proof.
  destruct u as [|c u]; [intros [= <-]; exists 0; auto|].
  destruct (is_exponent_mark c) eqn:Hc; [|done]. destruct (exponent_of u) as [e|] eqn:Eu; [|done].
  intros [= <-]. exists e. eauto 8.
Qed.

Lemma literal_value_error k neg w d e x :
  0 <= k -> 2 * k <= 2 ^ prec -> accurate prec k (mantissa w d * Qpower 10 e) x ->
  let V := literal_value {| negative := neg; whole := w; decimals := d; exponent := e |} in
  exists v, sf_value (if neg then SFopp x else x) = Some v /\
    (Qabs (v - V) * inject_Z (2 ^ prec) <= inject_Z (2 * k) * Qabs V)%Q.
Proof.
  intros Hk Hk2 Hx. destruct (accurate_error k _ x neg Hk Hk2 Hx) as (v & Hv & Hb). exists v. split; [done|].
  assert (this (mantissa w d * power_of_ten e)%Qc == mantissa w d * Qpower 10 e)%Q as Hm by (by rewrite this_mul, this_power_of_ten).
  unfold literal_value. cbn [negative whole decimals exponent]. destruct neg; [|by rewrite Hm].
  assert (forall q : Qc, this (- q)%Qc == - q)%Q as Hopp by (intros q; apply Qreduction.Qred_correct).
  by rewrite Hopp, Hm.
Qed.
End Accuracy.

(** One tenth in the three formats: rounded once as a [float] and a [double], and
    1024 roundings off as a [long double]. *)
Lemma tenth_accurate :
  accurate 24 1 (1 # 10) (sf_tenth 24 128) /\ accurate 53 1 (1 # 10) (sf_tenth 53 1024) /\
  accurate 64 1024 (1 # 10) (sf_tenth 64 16384).
Proof. vm_compute. split_and!; first [reflexivity|discriminate]. Qed.

(** ** Properties *)

(** C23: the value [parse_float] gives in an IEEE 754 format is within
    [2 * k * 2 ^ -prec] of the number the literal denotes, relatively, where [k]
    counts the roundings: two for a digit before the point, one for a digit after
    it, two more, and [j + 1] for each power of ten, where the base of the negative
    exponents is within [j] roundings of one tenth.  The literal may have as many
    digits and as large an exponent as keep all intermediate values normal. *)
Theorem parse_float_rounding prec emax j col l :
  4 <= prec -> prec <= emax -> 0 <= j -> accurate prec j (1 # 10) (sf_tenth prec emax) ->
  scan (cstr col) = Some l -> exponent l <> - 2 ^ 31 -> normal_literal emax l ->
  2 * roundings j l <= 2 ^ prec ->
  exists x v, @parse_float _ (sf_type prec emax) col = Ok x /\ sf_value x = Some v /\
    (Qabs (v - literal_value l) * inject_Z (2 ^ prec) <= inject_Z (2 * roundings j l) * Qabs (literal_value l))%Q.
Proof.
  intros Hp He Hj Hten Hl Hmin [Hw Hd] Hk. unfold scan in Hl. unfold parse_float.
  destruct (parse_sign (cstr col)) as [neg t]. pose proof (mantissa_accurate prec emax Hp He t) as Hm. cbv zeta in Hm.
  destruct (fraction_digits (skip_digits t)) as [d u]. apply scan_tail in Hl as (e & -> & Hu).
  unfold roundings in *. cbn [negative whole decimals exponent] in *.
  destruct (normal_bounds prec emax Hp He (length (digit_prefix t)) (length d) (Z.max e 0) (Z.max (- e) 0)) as [Hhi Hlo]; [lia..|done|done|].
  set (k := 2 * Z.of_nat _ + 2 + Z.of_nat _) in *. assert (0 <= Z.abs e * (j + 1)) by nia.
  assert (0 <= k + Z.abs e * (j + 1)) as Hk0 by lia.
  destruct Hm as (x & y & Hx & Hy & Hacc & HX & HX'); [done|done|lia|].
  change (@of_int _ (sf_type prec emax) 0) with (sf_of_int prec emax 0). rewrite Hx, Hy.
  destruct Hu as [[-> ->]|(c & t' & -> & Hc & He')].
  - destruct (literal_value_error prec Hp k neg (digit_prefix t) d 0 y ltac:(lia) ltac:(lia)) as (v & Hv & Hb).
    { change (Qpower 10 0) with 1%Q. by rewrite Qmult_1_r. }
    replace (k + Z.abs 0 * (j + 1)) with k by lia. exists (if neg then SFopp y else y), v. by destruct neg.
  - rewrite Hc. destruct (exponent_accurate prec emax Hp He k j _ (length (digit_prefix t)) (length d) y t' e
      ltac:(lia) Hj Hacc Hten He' Hmin Hk Hw Hd HX HX') as (z & -> & Hz).
    destruct (literal_value_error prec Hp _ neg (digit_prefix t) d e z Hk0 Hk Hz) as (v & Hv & Hb).
    exists (if neg then SFopp z else z), v. by destruct neg.
Qed.

Lemma parse_float_rounding_witness :
  exists x v, parse_binary64 (s2b "-3.14e-2") = Ok x /\ sf_value x = Some v /\
    (Qabs (v - (-157 # 5000)) * inject_Z (2 ^ 53) <= inject_Z 20 * Qabs (-157 # 5000))%Q.
Proof.
  destruct (parse_float_rounding 53 1024 1 (s2b "-3.14e-2")
    {| negative := true; whole := s2b "3"; decimals := s2b "14"; exponent := -2 |}) as (x & v & Hx & Hv & Hb);
    [lia|lia|lia|apply tenth_accurate|vm_compute; reflexivity|vm_compute; discriminate|split; vm_compute; first [reflexivity|discriminate]|vm_compute; discriminate|].
  exists x, v. split; [exact Hx|]. split; [exact Hv|]. exact Hb.
Defined.
