(* ===== verification/CsvParse.v ===== *)
(** * The CSV reader and the database configuration

    [CSVReader] (src/src/csv.h) over the line reader and the line parser, and
    [CsvParse] (src/src/CsvParse.cpp), which reads the six database settings
    from the first row of a file.  An exception ends the program, so its value
    is all that is kept of it. *)
From S2P Require Import Prelude CLib CsvError CsvReader CsvLine.

(** ** CSVReader *)

Section Reader.
Context {S : Type} `{!ByteSourceBase S} `{!TrimPolicy} `{!QuotePolicy} `{!CommentPolicy}.
Variable block_len : Z.

Record CSVReader := mkCSVReader {
  in_ : LineReader S;
  row : list (option Z);
  column_names : list bytes;
  col_order : list Z
}.

Definition index_order (column_count : nat) : list Z := Z.of_nat <$> seq 0 column_count.

(** The constructor, on a line reader. *)
Definition CSVReader_init (column_count : nat) (lr : LineReader S) : CSVReader :=
  {| in_ := lr;
     row := replicate column_count None;
     column_names := (fun i => s2b "col" ++ fmt_u (Z.of_nat i)) <$> seq 1 column_count;
     col_order := index_order column_count |}.

Definition set_column_names (names : list bytes) (r : CSVReader) : CSVReader :=
  mkCSVReader (in_ r) (row r) names (col_order r).

Definition set_header (names : list bytes) (r : CSVReader) : CSVReader :=
  mkCSVReader (in_ r) (replicate (length (row r)) None) names (index_order (length (row r))).

(** [has_column]: the position of the first column with the name, the number of
    columns if there is none, is sought in the order. *)
Definition has_column (name : bytes) (r : CSVReader) : bool :=
  let pos := match list_find (fun n => n = name) (column_names r) with
             | Some (i, _) => i
             | None => length (column_names r)
             end in
  bool_decide (Z.of_nat pos ∈ col_order r).

(** The members of [CSVReader] that hand a call over to [in]. *)
Definition set_in (lr : LineReader S) (r : CSVReader) : CSVReader :=
  mkCSVReader lr (row r) (column_names r) (col_order r).

Definition csv_next_line (r : CSVReader) : result csv_error (option Z * CSVReader) :=
  '(line, lr) ← next_line block_len (in_ r); Ok (line, set_in lr r).

Definition csv_set_file_name (file_name : option bytes) (r : CSVReader) : CSVReader :=
  set_in (set_lr_file_name file_name (in_ r)) r.

Definition csv_get_truncated_file_name (r : CSVReader) : bytes := lr_file_name (in_ r).

Definition csv_set_file_line (file_line : Z) (r : CSVReader) : CSVReader :=
  set_in (set_lr_file_line file_line (in_ r)) r.

Definition csv_get_file_line (r : CSVReader) : Z := lr_file_line (in_ r).

Definition with_buffer (mem : bytes) (lr : LineReader S) : LineReader S :=
  mkLineReader mem (reader lr) (data_begin lr) (data_end lr) (lr_file_name lr) (lr_file_line lr).

(** The [do ... while] that skips comment lines; [None] at the end. *)
Definition line_step (lr : LineReader S) : result csv_error (LineReader S + option Z * LineReader S) :=
  '(line, lr) ← next_line block_len lr;
  match line with
  | None => Ok (inr (None, lr))
  | Some p =>
      c ← is_comment (buffer lr) p;
      if c : bool then Ok (inl lr) else Ok (inr (Some p, lr))
  end.

(** [catch (error::with_file_name &err)]: every error has a file name. *)
Definition catch_file_name {A} (lr : LineReader S) (body : result csv_error A) : result csv_error A :=
  match body with
  | Throw e =>
      if with_file_name (error_type e) then Throw (set_file_name (Some (lr_file_name lr)) e) else Throw e
  | r => r
  end.

(** [catch (error::with_file_line &err)], with the line of [in]. *)
Definition catch_file_line {A} (lr : LineReader S) (body : result csv_error A) : result csv_error A :=
  match body with
  | Throw e =>
      if with_file_line (error_type e) then Throw (set_file_line (i32 (lr_file_line lr)) e) else Throw e
  | r => r
  end.

Definition read_header (fuel : nat) (ignore_policy : Z) (cols : list bytes) (r : CSVReader)
    : result csv_error CSVReader :=
  let r := set_column_names cols r in
  catch_file_name (in_ r) (
    '(line, lr) ← loopM fuel line_step (in_ r);
    match line with
    | None => Throw (make_error header_missing)
    | Some p =>
        '(mem, order) ← parse_header_line (buffer lr) (Some p) (column_names r) ignore_policy;
        Ok (mkCSVReader (with_buffer mem lr) (row r) (column_names r) order)
    end).

(** [parse_helper] for columns of type [std::string]: the value each column is
    assigned, [None] where its pointer is null. *)
Definition parse_helper (mem : bytes) (rows : list (option Z)) : list (option bytes) :=
  (fun p => match p with Some p => Some (cstr (drop (Z.to_nat p) mem)) | None => None end) <$> rows.

(** [read_row]; an error of [next_line] has its line already. *)
Definition read_row (fuel : nat) (r : CSVReader)
    : result csv_error (bool * list (option bytes) * CSVReader) :=
  catch_file_name (in_ r) (
    '(line, lr) ← loopM fuel line_step (in_ r);
    match line with
    | None => Ok (false, [], mkCSVReader lr (row r) (column_names r) (col_order r))
    | Some p =>
        '(mem, rows) ← catch_file_line lr (parse_line (buffer lr) (Some p) (row r) (col_order r));
        Ok (true, parse_helper mem rows,
            mkCSVReader (with_buffer mem lr) rows (column_names r) (col_order r))
    end).
End Reader.
Arguments CSVReader : clear implicits.

(** ** CsvParse *)

Record CsvParse := mkCsvParse {
  strDbIp : bytes; strDbPort : bytes; strDbUserName : bytes;
  strDbPasswd : bytes; strDbName : bytes; strDbTable : bytes
}.

Definition CsvParse_init : CsvParse := mkCsvParse [] [] [] [] [] [].

Definition GetDbIp (c : CsvParse) : bytes := strDbIp c.
Definition GetDbPort (c : CsvParse) : bytes := strDbPort c.
Definition GetDbUserName (c : CsvParse) : bytes := strDbUserName c.
Definition GetDbPasswd (c : CsvParse) : bytes := strDbPasswd c.
Definition GetDbName (c : CsvParse) : bytes := strDbName c.
Definition GetDbTable (c : CsvParse) : bytes := strDbTable c.

Definition db_columns : list bytes :=
  [s2b "DbIp"; s2b "DbPort"; s2b "DbUserName"; s2b "DbPasswd"; s2b "DbName"; s2b "DbTable"].

(** The default policies of [CSVReader]. *)
Definition csv_trim : TrimPolicy := trim_chars [chr 32; chr 9].
Definition csv_quote : QuotePolicy := no_quote_escape (chr 44).

Section ParseCsvData.
Context {S : Type} `{!ByteSourceBase S}.

(** [fopen(path, _)]: a byte source, or [errno]. *)
Variable fopen : bytes -> S + Z.
Variable block_len : Z.
(** What the new buffer holds. *)
Variable junk : bytes.

Definition open_file (file_name : bytes) : result csv_error S :=
  match fopen file_name with
  | inl s => Ok s
  | inr x =>
      Throw (set_file_name (Some file_name) (set_errno x (make_error can_not_open_file)))
  end.

(** The variables [read_row] assigns start empty. *)
Definition assigned (values : list (option bytes)) (i : nat) : bytes := default [] (mjoin (values !! i)).

Definition ParseCsvData (ptrCsvPath : option bytes) (c : CsvParse) : result csv_error (bool * CsvParse) :=
  match ptrCsvPath with
  | None => Ok (false, c)
  | Some path =>
      src ← open_file path;
      lr ← LineReader_init block_len (Some path) src junk;
      let r := CSVReader_init 6 lr in
      r ← @read_header S _ csv_trim csv_quote no_comment block_len 1 ignore_missing_column db_columns r;
      '(ok, values, _) ← @read_row S _ csv_trim csv_quote no_comment block_len 1 r;
      if negb ok then Ok (false, c)
      else
        let v := assigned values in
        if existsb (fun i => (length (v i) =? 0)%nat) (seq 0 6) then Ok (false, c)
        else Ok (true, mkCsvParse (v 0%nat) (v 1%nat) (v 2%nat) (v 3%nat) (v 4%nat) (v 5%nat))
  end.
End ParseCsvData.

(** ** Specification *)

(** The value of a column of a table with one row. *)
Fixpoint assoc (name : bytes) (hs vs : list bytes) : option bytes :=
  match hs, vs with
  | h :: hs', v :: vs' => if decide (h = name) then Some v else assoc name hs' vs'
  | _, _ => None
  end.

(** The position of a name. *)
Fixpoint position (name : bytes) (names : list bytes) : nat :=
  match names with
  | [] => 0
  | n :: names' => if decide (n = name) then 0%nat else Datatypes.S (position name names')
  end.

(** A cell: no comma, line break or NUL in it. *)
Definition cell_ok (c : bytes) : Prop :=
  Forall (fun x => x <> chr 44 /\ x <> LF /\ x <> CR /\ uchar x <> 0) c.

#[export] Instance cell_ok_dec c : Decision (cell_ok c).
Proof. unfold cell_ok. apply _. Defined.

Definition csv_trimmed (c : bytes) : bytes := trim_text [chr 32; chr 9] c.

Definition setting (hs vs : list bytes) (i : nat) : bytes :=
  match db_columns !! i with
  | Some name => default [] (csv_trimmed <$> assoc name (csv_trimmed <$> hs) vs)
  | None => []
  end.

Definition settings (hs vs : list bytes) : CsvParse :=
  let v := setting hs vs in
  mkCsvParse (v 0%nat) (v 1%nat) (v 2%nat) (v 3%nat) (v 4%nat) (v 5%nat).

(** ** Lemmas *)

Lemma position_lookup name names :
  name ∈ names -> names !! position name names = Some name.
Proof.
  induction names as [|n names IH]; intros H; [by apply not_elem_of_nil in H|]. cbn [position].
  case_decide as E; [by subst|]. apply elem_of_cons in H as [->|H]; [done|]. by apply IH.
Qed.

Lemma position_inj name name' names :
  name ∈ names -> name' ∈ names -> position name names = position name' names -> name = name'.
Proof.
  intros H H' E. apply position_lookup in H, H'. rewrite E in H. congruence.
Qed.

(** The columns of a joined line. *)
Lemma before_sep_app c t :
  Forall (fun x => x <> chr 44) c -> before_sep (chr 44) (c ++ chr 44 :: t) = c.
Proof.
  induction 1 as [|x c Hx _ IH]; cbn [app before_sep]; [by rewrite decide_True|].
  rewrite decide_False by done. by rewrite IH.
Qed.

Lemma before_sep_all c : Forall (fun x => x <> chr 44) c -> before_sep (chr 44) c = c.
Proof.
  induction 1 as [|x c Hx _ IH]; cbn [before_sep]; [done|]. rewrite decide_False by done. by rewrite IH.
Qed.

Definition joined (cs : list bytes) : option bytes :=
  match cs with [] => None | _ => Some (join cs) end.

Lemma join_cell c cs :
  cell_ok c ->
  before_sep (chr 44) (join (c :: cs)) = c /\ after_cell (join (c :: cs)) c = joined cs.
Proof.
  intros Hc. assert (Forall (fun x => x <> chr 44) c) as Hc'.
  { revert Hc. apply List.Forall_impl. tauto. }
  destruct cs as [|d cs].
  - cbn [join joined]. split; [by apply before_sep_all|]. unfold after_cell. by rewrite drop_all.
  - change (join (c :: d :: cs)) with (c ++ chr 44 :: join (d :: cs)).
    split; [by apply before_sep_app|]. unfold after_cell. by rewrite drop_app_length.
Qed.

Lemma join_Forall (P : ascii -> Prop) cs :
  P (chr 44) -> Forall (Forall P) cs -> Forall P (join cs).
Proof.
  intros HP. induction 1 as [|c cs Hc Hcs IH]; [constructor|]. destruct cs as [|d cs]; [done|].
  change (join (c :: d :: cs)) with (c ++ chr 44 :: join (d :: cs)).
  apply Forall_app. split; [done|]. by constructor.
Qed.

#[local] Existing Instance csv_trim.
#[local] Existing Instance csv_quote.
#[local] Instance csv_trim_laws : TrimLaws csv_trim := trim_chars_laws _.
#[local] Instance csv_quote_laws : QuoteLaws csv_quote := no_quote_laws _.

(** A row's values land at the positions of their columns. *)
Lemma parse_text_join names hs : forall vs cols,
  Forall cell_ok vs -> length hs = length vs -> NoDup hs -> Forall (fun h => h ∈ names) hs ->
  length cols = length names ->
  exists cols', parse_text (joined vs) cols ((fun h => Z.of_nat (position h names)) <$> hs) = Ok cols' /\
    forall name, name ∈ names ->
      cols' !! position name names =
        match assoc name hs vs with
        | Some v => Some (Some (csv_trimmed v))
        | None => cols !! position name names
        end.
Proof.
  induction hs as [|h hs IH]; intros vs cols Hvs Hl Hnd Hin Hcols;
    (destruct vs as [|v vs]; [|try done]); try done.
  { exists cols. done. }
  apply Forall_cons_iff in Hvs as [Hv Hvs]. apply Forall_cons_iff in Hin as [Hh Hin].
  apply list.NoDup_cons in Hnd as [Hni Hnd]. rewrite fmap_cons. cbn [parse_text joined].
  change (raw_cell ?t) with (Some (before_sep (chr 44) t)).
  destruct (join_cell v vs Hv) as [-> ->]. rewrite (proj2 (Z.eqb_neq _ _)) by lia. cbn [negb].
  pose proof (position_lookup _ _ Hh) as Hpos. apply lookup_lt_Some in Hpos.
  rewrite write_insert by lia. cbn [mbind result_bind].
  change (unescaped (trimmed v)) with (csv_trimmed v).
  destruct (IH vs (<[position h names := Some (csv_trimmed v)]> cols)) as (cols' & -> & Hc);
    [done|by injection Hl|done|done|by rewrite length_insert|].
  exists cols'. split; [done|]. intros name Hname. rewrite Hc by done. cbn [assoc].
  destruct (decide (h = name)) as [<-|Hne].
  - assert (assoc h hs vs = None) as ->.
    { clear -Hni. revert vs. induction hs as [|h' hs IH]; intros vs; [done|].
      apply not_elem_of_cons in Hni as [? ?]. destruct vs; [done|]. cbn [assoc].
      rewrite decide_False by done. auto. }
    apply list_lookup_insert_eq. lia.
  - destruct (assoc name hs vs); [done|]. apply list_lookup_insert_ne.
    intros E. apply Hne. by apply (position_inj h name names).
Qed.

(** A header of known, distinct columns gives their positions. *)
Lemma match_column_ok name names i found order :
  name ∈ names -> length found = (i + length names)%nat ->
  found !! (i + position name names)%nat = Some false ->
  match_column name names (Z.of_nat i) found order =
    Ok (Some (<[(i + position name names)%nat := true]> found, order ++ [Z.of_nat (i + position name names)])).
Proof.
  revert i. induction names as [|n names IH]; intros i Hin Hl Hf; [by apply not_elem_of_nil in Hin|].
  cbn [match_column position length] in *. destruct (decide (name = n)) as [->|Hne].
  - rewrite (decide_True (P := n = n)) in * by done. rewrite Nat.add_0_r in *.
    rewrite (read_lookup _ _ _ Hf). cbn [mbind result_bind].
    rewrite write_insert by lia. done.
  - rewrite (decide_False (P := n = name)) in * by done.
    apply elem_of_cons in Hin as [->|Hin]; [done|].
    replace (Z.of_nat i + 1) with (Z.of_nat (Datatypes.S i)) by lia.
    rewrite Nat.add_succ_r, <- Nat.add_succ_l in *. apply IH; [done|lia|done].
Qed.

Lemma header_text_join names ignore : forall hs fuel found order,
  Forall cell_ok hs -> NoDup (csv_trimmed <$> hs) -> Forall (fun h => csv_trimmed h ∈ names) hs ->
  length found = length names ->
  (forall h, h ∈ hs -> found !! position (csv_trimmed h) names = Some false) ->
  (length hs < fuel)%nat ->
  exists found', header_text fuel (joined hs) names ignore found order =
    Ok (found', order ++ ((fun h => Z.of_nat (position (csv_trimmed h) names)) <$> hs)).
Proof.
  induction hs as [|h hs IH]; intros fuel found order Hok Hnd Hin Hl Hf Hfuel;
    (destruct fuel as [|fuel]; [simpl in *; lia|]); cbn [header_text joined].
  { exists found. by rewrite app_nil_r. }
  apply Forall_cons_iff in Hok as [Hh Hok]. apply Forall_cons_iff in Hin as [Hhn Hin].
  rewrite fmap_cons in Hnd. apply list.NoDup_cons in Hnd as [Hni Hnd].
  change (raw_cell ?t) with (Some (before_sep (chr 44) t)).
  destruct (join_cell h hs Hh) as [-> ->]. change (unescaped (trimmed h)) with (csv_trimmed h).
  rewrite (match_column_ok _ _ 0) by (first [done|by apply Hf, list_elem_of_here]).
  cbn [mbind result_bind Nat.add].
  destruct (IH fuel (<[position (csv_trimmed h) names := true]> found)
    (order ++ [Z.of_nat (position (csv_trimmed h) names)])) as (found' & ->);
    [done|done|done|by rewrite length_insert| |simpl in *; lia|].
  - intros h' Hh'. rewrite list_lookup_insert_ne; [apply Hf; by apply list_elem_of_further|].
    intros E. rewrite list.Forall_forall in Hin. apply position_inj in E; [|done|by apply Hin].
    apply Hni. rewrite E. by apply list_elem_of_fmap_2.
  - exists found'. rewrite fmap_cons, <- app_assoc. done.
Qed.

(** ** The reader delivers the texts *)

Section ReaderLemmas.
Context {S : Type} `{!ByteSourceBase S} `{!SourceLaws S}.
Variable block_len : Z.
Hypothesis block_len_pos : 0 < block_len.

Lemma strip_cr_none line : Forall (fun x => x <> CR) line -> strip_cr line = line.
Proof.
  intros H. unfold strip_cr. destruct (list.last line) as [c|] eqn:E; [|done].
  rewrite decide_False; [done|]. intros ->. apply last_Some in E as [l ->].
  apply Forall_app in H as [_ H]. by apply Forall_cons_iff in H as [? _].
Qed.

(** A line that does not end with a carriage return, as [next_line] hands it over. *)
Lemma next_line_text (lr : LineReader S) line rest :
  lr_wf block_len lr -> line ++ rest <> [] -> pending lr = line ++ rest ->
  rest = [] \/ (exists r, rest = LF :: r) ->
  LF ∉ line -> strip_cr line = line -> Z.of_nat (length line) < block_len ->
  exists lr' pre post, next_line block_len lr = Ok (Some (Z.of_nat (length pre)), lr') /\
    lr_wf block_len lr' /\ pending lr' = tail rest /\ buffer lr' = pre ++ line ++ NUL :: post /\
    Z.of_nat (length pre + length line) < data_begin lr' /\ lr_file_name lr' = lr_file_name lr.
Proof.
  intros Hwf Hne Hp Hrest Hlf Hcr Hlen.
  pose proof (next_line_pending block_len block_len_pos lr Hwf) as H.
  rewrite Hp in H. specialize (H Hne). unfold next_line_post in H. rewrite Hp in H.
  assert (break_line (line ++ rest) = (line, tail rest)) as Hb.
  { destruct Hrest as [->|[r ->]]; [rewrite app_nil_r; by apply break_line_none|].
    by apply break_line_app. }
  rewrite Hb, (proj2 (Z.ltb_ge _ _)) in H by lia.
  destruct H as (lr' & ptr & E & Hwf' & Hp' & (pre & post & Hbuf & ->) & _ & Hd & Hn & _).
  rewrite Hcr in Hbuf, Hd.
  exists lr', pre, post. split_and!; try done. lia.
Qed.

(** Rewriting a line that was delivered changes nothing of what is pending. *)
Lemma with_buffer_ok (lr : LineReader S) pre t m post :
  lr_wf block_len lr -> buffer lr = pre ++ t ++ NUL :: post ->
  Z.of_nat (length pre + length t) < data_begin lr -> length m = Datatypes.S (length t) ->
  lr_wf block_len (with_buffer (pre ++ m ++ post) lr) /\
  pending (with_buffer (pre ++ m ++ post) lr) = pending lr.
Proof.
  intros Hwf Hbuf Hd Hm. split.
  - destruct Hwf as (Hlen & Hrest). split; [|exact Hrest].
    cbn. rewrite Hbuf in Hlen. rewrite !length_app in *. simpl in Hlen. lia.
  - unfold pending, with_buffer, unread_source. cbn. f_equal. f_equal. rewrite Hbuf.
    replace (pre ++ t ++ NUL :: post) with ((pre ++ t ++ [NUL]) ++ post) by (by rewrite <- !app_assoc).
    rewrite (app_assoc pre), !drop_app_ge by (rewrite !length_app; simpl; lia).
    f_equal. rewrite !length_app. simpl. lia.
Qed.

Lemma line_step_text fuel (lr : LineReader S) line rest :
  lr_wf block_len lr -> line ++ rest <> [] -> pending lr = line ++ rest ->
  rest = [] \/ (exists r, rest = LF :: r) ->
  LF ∉ line -> strip_cr line = line -> Z.of_nat (length line) < block_len ->
  exists lr' pre post,
    loopM (Datatypes.S fuel) (@line_step S _ no_comment block_len) lr =
      Ok (Some (Z.of_nat (length pre)), lr') /\
    lr_wf block_len lr' /\ pending lr' = tail rest /\ buffer lr' = pre ++ line ++ NUL :: post /\
    Z.of_nat (length pre + length line) < data_begin lr' /\ lr_file_name lr' = lr_file_name lr.
Proof.
  intros H1 H2 H3 H4 H5 H6 H7.
  destruct (next_line_text lr line rest H1 H2 H3 H4 H5 H6 H7) as (lr' & pre & post & E & Hr).
  exists lr', pre, post. split; [|done]. rewrite loopM_S. unfold line_step. rewrite E. done.
Qed.

Definition line_of_cells (cs : list bytes) : Prop :=
  cs <> [] /\ Forall cell_ok cs /\ Z.of_nat (length (join cs)) < block_len.

Lemma join_nonul cs : Forall cell_ok cs -> nonul (join cs).
Proof.
  intros H. apply join_Forall; [by vm_compute|]. revert H. apply List.Forall_impl. intros c.
  apply List.Forall_impl. tauto.
Qed.

Lemma join_no_break cs : Forall cell_ok cs -> LF ∉ join cs.
Proof.
  intros H Hin. assert (Forall (fun x => x <> LF) (join cs)) as Hf.
  { apply join_Forall; [by vm_compute|]. revert H. apply List.Forall_impl. intros c. apply List.Forall_impl. tauto. }
  rewrite list.Forall_forall in Hf. by destruct (Hf _ Hin).
Qed.

Lemma join_no_cr cs : Forall cell_ok cs -> strip_cr (join cs) = join cs.
Proof.
  intros H. apply strip_cr_none, join_Forall; [by vm_compute|]. revert H. apply List.Forall_impl. intros c.
  apply List.Forall_impl. tauto.
Qed.

Lemma join_length_cells cs : (length cs <= Datatypes.S (length (join cs)))%nat.
Proof.
  induction cs as [|c cs IH]; [simpl; lia|]. destruct cs as [|d cs]; [simpl; lia|].
  change (join (c :: d :: cs)) with (c ++ chr 44 :: join (d :: cs)).
  rewrite length_app. cbn [length] in *. lia.
Qed.

(** A line of known columns read as the header. *)
Lemma read_header_cells hs rest names (r : CSVReader S) :
  lr_wf block_len (in_ r) -> line_of_cells hs -> pending (in_ r) = join hs ++ LF :: rest ->
  NoDup (csv_trimmed <$> hs) -> Forall (fun h => csv_trimmed h ∈ names) hs ->
  exists lr', @read_header S _ csv_trim csv_quote no_comment block_len 1 ignore_missing_column names r =
    Ok (mkCSVReader lr' (row r) names ((fun h => Z.of_nat (position (csv_trimmed h) names)) <$> hs)) /\
    lr_wf block_len lr' /\ pending lr' = rest.
Proof.
  intros Hwf (Hne & Hok & Hlen) Hp Hnd Hin. unfold read_header. cbn [in_ set_column_names column_names].
  destruct (line_step_text 0 (in_ r) (join hs) (LF :: rest)) as (lr' & pre & post & -> & Hwf' & Hp' & Hbuf & Hd & _);
    [done| |done|right; by exists rest|by apply join_no_break|by apply join_no_cr|done|].
  { by destruct (join hs). }
  cbn [mbind result_bind]. rewrite Hbuf.
  pose proof (parse_header_line_parsed pre (join hs) post names ignore_missing_column (join_nonul _ Hok)) as H.
  destruct (header_text_join names ignore_missing_column hs
    (Datatypes.S (Datatypes.S (length (pre ++ join hs ++ NUL :: post)))) (replicate (length names) false) [])
    as (found' & E); [done|done|done|by rewrite length_replicate| | |].
  - intros h Hh. rewrite list.Forall_forall in Hin. apply lookup_replicate_2.
    eapply lookup_lt_Some. by apply position_lookup, Hin.
  - pose proof (join_length_cells hs). rewrite !length_app. simpl. lia.
  - replace (Some (join hs)) with (joined hs) in H by (by destruct hs). rewrite E in H.
    destruct H as (m & Hm & ->). change (negb (nz (Z.land _ _))) with false. cbn iota.
    cbn [mbind result_bind catch_file_name app].
    destruct (with_buffer_ok lr' pre (join hs) m post) as [? Hpend]; [done..|].
    eexists. split; [done|]. split; [done|]. by rewrite Hpend.
Qed.

(** A line of as many columns read as a row. *)
Lemma read_row_cells hs vs rest names (r : CSVReader S) :
  lr_wf block_len (in_ r) -> line_of_cells vs -> pending (in_ r) = join vs ++ rest -> join vs <> [] ->
  rest = [] \/ (exists s, rest = LF :: s) -> length hs = length vs ->
  NoDup hs -> Forall (fun h => h ∈ names) hs ->
  row r = replicate (length names) None ->
  col_order r = (fun h => Z.of_nat (position h names)) <$> hs ->
  exists values r', @read_row S _ csv_trim csv_quote no_comment block_len 1 r = Ok (true, values, r') /\
    forall name, name ∈ names ->
      values !! position name names = Some (csv_trimmed <$> assoc name hs vs).
Proof.
  intros Hwf (Hne & Hok & Hlen) Hp Hj Hrest Hl Hnd Hin Hrow Hord. unfold read_row.
  destruct (line_step_text 0 (in_ r) (join vs) rest) as (lr' & pre & post & -> & Hwf' & Hp' & Hbuf & Hd & _);
    [done|by destruct (join vs)|done|done|by apply join_no_break|by apply join_no_cr|done|].
  cbn [mbind result_bind]. rewrite Hbuf, Hrow, Hord.
  pose proof (parse_line_parsed ((fun h => Z.of_nat (position h names)) <$> hs) pre (Some (join vs)) post
    (replicate (length names) None) (replicate (length names) None) (join_nonul _ Hok)) as H.
  destruct (parse_text_join names hs vs (replicate (length names) None)) as (cols & E & Hcols);
    [done|done|done|done|by rewrite length_replicate|].
  replace (Some (join vs)) with (joined vs) in H by (by destruct vs). rewrite E in H.
  destruct H as (m & ptrs & Hparse & Hm & Hptrs).
  { apply Forall2_replicate. done. }
  replace (joined vs) with (Some (join vs)) in Hparse by (by destruct vs).
  change (rest_at pre (Some (join vs)) post) with (pre ++ join vs ++ NUL :: post) in Hparse.
  change (rest_ptr pre (Some (join vs))) with (Some (Z.of_nat (length pre))) in Hparse.
  rewrite Hparse. cbn [catch_file_line mbind result_bind catch_file_name].
  eexists _, _. split; [done|]. intros name Hname. unfold parse_helper. rewrite list_lookup_fmap.
  specialize (Hcols name Hname).
  assert (cols !! position name names = Some (csv_trimmed <$> assoc name hs vs)) as Hc.
  { rewrite Hcols. destruct (assoc name hs vs); [done|]. apply lookup_replicate_2.
    eapply lookup_lt_Some. by apply position_lookup. }
  destruct (Forall2_lookup_r _ _ _ _ _ Hptrs Hc) as (p & -> & Hpt). cbn [fmap option_fmap option_map].
  f_equal. destruct p as [p|], (assoc name hs vs) as [v|]; simpl in Hpt; try done.
  destruct Hpt as [Ht Hnn]. cbn. f_equal. rewrite (text_at_cstr _ _ _ Ht). by apply cstr_nonul.
Qed.
End ReaderLemmas.

(** ** Properties *)

(** C26: the settings file is read back: a first line of column names, known
    and distinct, in any order and padded with blanks, and a second line of as
    many values, set each setting to its trimmed value; the result is true and
    the settings replace the old ones exactly when all six are there and none
    is empty.  Nothing is thrown and no access leaves the buffer, at any block
    length above the two lines'. *)
Theorem ParseCsvData_reads_settings {S} `{!ByteSourceBase S} `{!SourceLaws S}
    (fopen : bytes -> S + Z) block_len junk path src hs vs rest c :
  1 < block_len -> Z.of_nat (length junk) = 3 * block_len ->
  fopen path = inl src ->
  strip_bom (content src) = join hs ++ LF :: join vs ++ rest ->
  rest = [] \/ (exists r, rest = LF :: r) ->
  line_of_cells block_len hs -> line_of_cells block_len vs -> join vs <> [] ->
  length hs = length vs ->
  NoDup (csv_trimmed <$> hs) -> Forall (fun h => csv_trimmed h ∈ db_columns) hs ->
  ParseCsvData fopen block_len junk (Some path) c =
    if existsb (fun i => (length (setting hs vs i) =? 0)%nat) (seq 0 6) then Ok (false, c)
    else Ok (true, settings hs vs).
Proof.
  intros Hbl Hjunk Hopen Hc Hrest Hhs Hvs Hj Hl Hnd Hin. unfold ParseCsvData, open_file.
  rewrite Hopen. cbn [mbind result_bind].
  destruct (LineReader_init_spec block_len (Some path) src junk) as (lr & -> & Hwf & Hp & _ & _); [done..|].
  cbn [mbind result_bind]. rewrite Hc in Hp.
  destruct (read_header_cells block_len ltac:(lia) hs (join vs ++ rest) db_columns (CSVReader_init 6 lr))
    as (lr' & -> & Hwf' & Hp'); [done..|]. cbn [mbind result_bind].
  destruct (read_row_cells block_len ltac:(lia) (csv_trimmed <$> hs) vs rest db_columns
    (mkCSVReader lr' (row (CSVReader_init 6 lr)) db_columns
       ((fun h => Z.of_nat (position (csv_trimmed h) db_columns)) <$> hs)))
    as (values & r' & -> & Hvalues);
    [done|done|done|done|done|by rewrite length_fmap|done| |done| |].
  { apply Forall_fmap. exact Hin. } { cbn. by rewrite <- list_fmap_compose. }
  cbn [mbind result_bind negb].
  assert (forall i, (i < 6)%nat -> assigned values i = setting hs vs i) as Hv.
  { intros i Hi. unfold assigned, setting.
    destruct (lookup_lt_is_Some_2 db_columns i Hi) as [name Hname]. rewrite Hname.
    assert (position name db_columns = i) as <-.
    { do 6 (destruct i as [|i]; [injection Hname as <-; vm_compute; reflexivity|]).
      exfalso. clear -Hi. lia. }
    rewrite Hvalues by (by eapply list_elem_of_lookup_2). done. }
  unfold settings. cbn [existsb seq]. rewrite !Hv by lia. done.
Qed.

Lemma ParseCsvData_reads_settings_witness :
  let hs := [s2b "DbPort"; s2b " DbIp"; s2b "DbName"; s2b "DbTable "; s2b "DbUserName"; s2b "DbPasswd"] in
  let vs := [s2b "3306"; s2b "127.0.0.1"; s2b "alarm"; s2b " cameras"; s2b "root"; s2b "secret"] in
  let src := {| file := join hs ++ LF :: join vs ++ [LF] |} in
  ParseCsvData (fun _ => inl src) 64 (replicate 192 NUL) (Some (s2b "DbCfg.csv")) CsvParse_init =
    Ok (true, mkCsvParse (s2b "127.0.0.1") (s2b "3306") (s2b "root") (s2b "secret") (s2b "alarm")
                (s2b "cameras")).
Proof.
  intros hs vs src.
  etransitivity;
    [apply (ParseCsvData_reads_settings (fun _ => inl src) 64 (replicate 192 NUL) (s2b "DbCfg.csv")
       src hs vs [LF])|].
  - lia.
  - reflexivity.
  - reflexivity.
  - reflexivity.
  - right. by exists [].
  - split; [done|]. split; [|vm_compute; reflexivity]. by apply (bool_decide_unpack _).
  - split; [done|]. split; [|vm_compute; reflexivity]. by apply (bool_decide_unpack _).
  - done.
  - done.
  - by apply (bool_decide_unpack _).
  - repeat constructor; by apply (bool_decide_unpack _).
  - vm_compute. reflexivity.
Defined.
