(* ===== verification/CsvFile.v ===== *)
(** * Whole files through the CSV reader

    [CSVReader] (src/src/csv.h, modelled in CsvParse.v) with quoted columns: the
    rows a quoting writer puts into a file, whatever separators, quotes and
    blanks their cells hold, are the rows [while (in.read_row(...))] delivers,
    from the bytes of the source through the reader's blocks, the cutting of
    lines and columns and the unescaping in place. *)
From S2P Require Import Prelude CLib CsvError CsvReader CsvLine CsvQuote CsvParse.

(** ** Specification *)

Definition comma : ascii := chr 44.
Definition quoted : QuotePolicy := double_quote_escape comma DQ.

(** The writer: each row on a line, its cells between quotes. *)
Definition write_row (cells : list bytes) : bytes := join (quote_cell DQ <$> cells).
Definition write_file (rows : list (list bytes)) : bytes := mjoin ((fun r => write_row r ++ [LF]) <$> rows).

(** What a line of the file can carry. *)
Definition row_ok (block_len : Z) (n : nat) (cells : list bytes) : Prop :=
  length cells = n /\ Forall (Forall (fun c => c <> LF /\ uchar c <> 0)) cells /\
  Z.of_nat (length (write_row cells)) < block_len.

#[export] Instance row_ok_dec block_len n cells : Decision (row_ok block_len n cells).
Proof. unfold row_ok. apply _. Defined.

(** [while (in.read_row(...))], collecting the rows. *)
Fixpoint read_all {S} `{!ByteSourceBase S} `{!TrimPolicy} `{!QuotePolicy} `{!CommentPolicy}
    (block_len : Z) (fuel : nat) (r : CSVReader S) : result csv_error (list (list (option bytes))) :=
  match fuel with
  | O => Undefined OutOfFuel
  | Datatypes.S fuel =>
      '(ok, values, r) ← read_row block_len 1 r;
      if ok : bool then rows ← read_all block_len fuel r; Ok (values :: rows) else Ok []
  end.

(** ** Lemmas *)

(** *** A written row as a text *)

Lemma trim_text_id chars c m d :
  is_trim_char c chars = false -> is_trim_char d chars = false ->
  trim_text chars (c :: m ++ [d]) = c :: m ++ [d].
Proof.
  intros Hc Hd. unfold trim_text. cbn [trim_front]. rewrite Hc.
  change (c :: m ++ [d]) with ((c :: m) ++ [d]). rewrite reverse_snoc. cbn [trim_front]. rewrite Hd.
  by rewrite reverse_cons, reverse_involutive.
Qed.

#[local] Existing Instance csv_trim.
#[local] Existing Instance quoted.
#[local] Instance trim_laws : TrimLaws csv_trim := trim_chars_laws _.
#[local] Instance quoted_laws : QuoteLaws quoted :=
  double_quote_laws comma DQ ltac:(by vm_compute) ltac:(by vm_compute).

Lemma join_cons q qs : join (q :: qs) = q ++ match qs with [] => [] | _ => comma :: join qs end.
Proof. destruct qs; [by rewrite app_nil_r|done]. Qed.

Lemma written_cell c cells :
  raw_cell (write_row (c :: cells)) = Some (quote_cell DQ c) /\
  after_cell (write_row (c :: cells)) (quote_cell DQ c) = joined (quote_cell DQ <$> cells) /\
  unescaped (trimmed (quote_cell DQ c)) = c.
Proof.
  unfold write_row. rewrite fmap_cons, join_cons. split; [|split].
  - apply (quoted_cell_written comma DQ); [by vm_compute|]. destruct cells; [by left|right; eauto].
  - rewrite after_cell_app. by destruct cells.
  - change (unquoted DQ (csv_trimmed (quote_cell DQ c)) = c). unfold csv_trimmed, quote_cell.
    rewrite trim_text_id by done. apply unquoted_written.
Qed.

Lemma parse_text_written cells : forall done_ todo,
  length todo = length cells ->
  parse_text (joined (quote_cell DQ <$> cells)) (done_ ++ todo)
    (Z.of_nat <$> seq (length done_) (length cells)) = Ok (done_ ++ (Some <$> cells)).
Proof.
  induction cells as [|c cells IH]; intros dn todo Hl; (destruct todo as [|t todo]; [|try done]); try done.
  cbn [length seq fmap list_fmap joined parse_text].
  destruct (written_cell c cells) as (Hr & Ha & Hu). unfold write_row in *. rewrite fmap_cons in *.
  rewrite Hr, Ha, Hu. rewrite (proj2 (Z.eqb_neq _ _)) by lia. cbn [negb].
  rewrite write_middle by done. cbn [mbind result_bind].
  specialize (IH (dn ++ [Some c]) todo). rewrite length_app in IH. cbn [length] in IH.
  rewrite <- !app_assoc in IH. cbn [app] in IH. replace (length dn + 1)%nat with (Datatypes.S (length dn)) in IH by lia.
  apply IH. by injection Hl.
Qed.

Lemma write_row_Forall (P : ascii -> Prop) cells :
  P comma -> P DQ -> Forall (Forall P) cells -> Forall P (write_row cells).
Proof.
  intros Hc Hq H. apply join_Forall; [done|]. apply Forall_fmap. revert H. apply List.Forall_impl. intros c.
  by apply quote_cell_Forall.
Qed.

(** A written row ends with a quote, so no carriage return is cut off it. *)
Lemma write_row_last cells : cells <> [] -> exists t, write_row cells = t ++ [DQ].
Proof.
  unfold write_row. induction cells as [|c cells IH]; [done|]. intros _. rewrite fmap_cons, join_cons.
  destruct cells as [|d cells].
  - exists (DQ :: double DQ c). by rewrite app_nil_r.
  - destruct IH as [t Ht]; [done|]. rewrite fmap_cons in *. rewrite Ht.
    exists (quote_cell DQ c ++ comma :: t). by rewrite <- app_assoc.
Qed.

(** *** Pointers left from the row before *)

Lemma write_agree {A} (l1 l2 : list A) i x k1 :
  length l1 = length l2 -> @write csv_error _ l1 i x = Ok k1 ->
  exists k2, @write csv_error _ l2 i x = Ok k2 /\ length k1 = length k2 /\
    forall j, (Z.of_nat j = i \/ l1 !! j = l2 !! j) -> k1 !! j = k2 !! j.
Proof.
  unfold write. intros Hl. rewrite <- Hl. destruct (_ || _) eqn:E; [done|]. intros [= <-].
  apply orb_false_iff in E as [E1 E2]. apply Z.ltb_ge in E1. apply Z.leb_gt in E2.
  eexists. split; [done|]. split; [by rewrite !length_insert|]. intros j Hj.
  destruct (decide (j = Z.to_nat i)) as [->|Hne].
  - rewrite !list_lookup_insert_eq by lia. done.
  - rewrite !list_lookup_insert_ne by done. destruct Hj as [Hj|Hj]; [lia|done].
Qed.

(** The columns of the order are overwritten, whatever they pointed to. *)
Lemma parse_line_agree `{!TrimPolicy} `{!QuotePolicy} order : forall mem line p1 p2 m q1,
  length p1 = length p2 -> parse_line mem line p1 order = Ok (m, q1) ->
  exists q2, parse_line mem line p2 order = Ok (m, q2) /\ length q1 = length q2 /\
    forall j, (Z.of_nat j ∈ order \/ p1 !! j = p2 !! j) -> q1 !! j = q2 !! j.
Proof.
  induction order as [|i order IH]; intros mem line p1 p2 m q1 Hl; cbn [parse_line].
  { destruct line; [done|]. intros [= -> ->]. exists p2. split_and!; [done..|]. intros j [Hj|Hj]; [|done].
    by apply not_elem_of_nil in Hj. }
  destruct line as [line|]; [|done]. intros Hp.
  apply bind_Ok in Hp as ([[[mem1 b] e] line1] & -> & H1). cbn [mbind result_bind].
  destruct (negb (i =? -1)) eqn:Ei.
  - apply bind_Ok in H1 as ([[mem2 b2] e2] & -> & H2). cbn [mbind result_bind].
    apply bind_Ok in H2 as ([[mem3 b3] e3] & -> & H3). cbn [mbind result_bind].
    apply bind_Ok in H3 as (k1 & Hk & H4). destruct (write_agree _ p2 _ _ _ Hl Hk) as (k2 & -> & Hlk & Ha).
    cbn [mbind result_bind]. destruct (IH _ _ _ _ _ _ Hlk H4) as (q2 & -> & Hlq & Hq).
    exists q2. split_and!; [done..|]. intros j Hj. apply Hq.
    destruct Hj as [Hj|Hj]; [apply elem_of_cons in Hj as [Hj|Hj]; [right; apply Ha; by left|by left]|].
    right. apply Ha. by right.
  - destruct (IH _ _ _ _ _ _ Hl H1) as (q2 & -> & Hlq & Hq). exists q2. split_and!; [done..|].
    intros j [Hj|Hj]; apply Hq; [|by right]. apply elem_of_cons in Hj as [Hj|Hj]; [|by left].
    apply negb_false_iff, Z.eqb_eq in Ei. exfalso. lia.
Qed.

(** *** Rows and files *)

Lemma parse_helper_points mem ptrs (cells : list bytes) :
  Forall2 (points mem) ptrs (Some <$> cells) -> parse_helper mem ptrs = Some <$> cells.
Proof.
  revert ptrs. induction cells as [|c cells IH]; intros ptrs Hp; inversion Hp as [|p ? ? ? Hc Hps]; subst; [done|].
  destruct p as [p|]; [|done]. destruct Hc as [Ht Hn]. unfold parse_helper. rewrite !fmap_cons.
  f_equal; [|by apply IH]. f_equal. rewrite (text_at_cstr _ _ _ Ht). by apply cstr_nonul.
Qed.

Section Rows.
Context {S : Type} `{!ByteSourceBase S} `{!SourceLaws S}.
Variable block_len : Z.
Hypothesis block_len_pos : 0 < block_len.
Variable n : nat.
Hypothesis n_pos : (0 < n)%nat.

(** The reader between two rows. *)
Definition ready (r : CSVReader S) (rest : bytes) : Prop :=
  lr_wf block_len (in_ r) /\ pending (in_ r) = rest /\ length (row r) = n /\ col_order r = index_order n.

Lemma read_row_written (r : CSVReader S) cells rest :
  ready r (write_row cells ++ LF :: rest) -> row_ok block_len n cells ->
  exists r', @read_row S _ csv_trim quoted no_comment block_len 1 r = Ok (true, Some <$> cells, r') /\ ready r' rest.
Proof.
  intros (Hwf & Hp & Hrow & Hord) (Hn & Hok & Hlen).
  assert (cells <> []) as Hne by (destruct cells; [simpl in Hn; lia|done]).
  destruct (write_row_last cells Hne) as [t Ht].
  assert (Forall (fun c => c <> LF /\ uchar c <> 0) (write_row cells)) as Hchars
    by (by apply write_row_Forall; [vm_compute|vm_compute|]).
  assert (nonul (write_row cells)) as Hnonul by (revert Hchars; apply List.Forall_impl; tauto).
  unfold read_row.
  destruct (line_step_text block_len block_len_pos 0 (in_ r) (write_row cells) (LF :: rest))
    as (lr' & pre & post & -> & Hwf' & Hp' & Hbuf & Hd & Hname);
    [done|by destruct (write_row cells)|done|right; eauto| | |done|].
  { intros Hin. rewrite list.Forall_forall in Hchars. by destruct (Hchars _ Hin). }
  { rewrite Ht, strip_cr_snoc. by rewrite decide_False. }
  cbn [mbind result_bind]. rewrite Hbuf, Hord.
  pose proof (parse_line_parsed (index_order n) pre (Some (write_row cells)) post
    (replicate n None) (replicate n None) Hnonul) as H.
  pose proof (parse_text_written cells [] (replicate n None)) as Htext. cbn [app length] in Htext.
  rewrite Hn in Htext. rewrite length_replicate in Htext. specialize (Htext eq_refl).
  replace (joined (quote_cell DQ <$> cells)) with (Some (write_row cells)) in Htext by (by destruct cells).
  unfold index_order in *. rewrite Htext in H. cbn [parsed] in H.
  destruct H as (m & ptrs & Hparse & Hm & Hptrs); [by apply Forall2_replicate|].
  change (rest_at pre (Some (write_row cells)) post) with (pre ++ write_row cells ++ NUL :: post) in Hparse.
  change (rest_ptr pre (Some (write_row cells))) with (Some (Z.of_nat (length pre))) in Hparse.
  destruct (parse_line_agree _ _ _ _ (row r) _ _ ltac:(by rewrite length_replicate) Hparse) as (q & -> & Hlq & Hq).
  assert (ptrs = q) as <-.
  { apply list_eq. intros j. destruct (decide (j < n)%nat) as [Hj|Hj].
    - apply Hq. left. apply list_elem_of_fmap_2, elem_of_seq. lia.
    - apply List.Forall2_length in Hptrs. rewrite length_fmap, Hn in Hptrs.
      rewrite !lookup_ge_None_2 by lia. done. }
  cbn [catch_file_line mbind result_bind catch_file_name].
  destruct (with_buffer_ok block_len lr' pre (write_row cells) m post) as [Hwf2 Hpend]; [done..|].
  eexists. split; [by rewrite (parse_helper_points _ _ _ Hptrs)|].
  split_and!; cbn [in_ row col_order]; [done|by rewrite Hpend| |done].
  apply List.Forall2_length in Hptrs. by rewrite length_fmap, Hn in Hptrs.
Qed.

Lemma read_all_written rows : forall r : CSVReader S,
  ready r (write_file rows) -> Forall (row_ok block_len n) rows ->
  @read_all S _ csv_trim quoted no_comment block_len (Datatypes.S (length rows)) r = Ok (map (map Some) rows).
Proof.
  induction rows as [|cells rows IH]; intros r Hr Hok.
  - destruct Hr as (Hwf & Hp & _). cbn [read_all]. unfold read_row. rewrite loopM_S. unfold line_step.
    by rewrite next_line_end.
  - apply Forall_cons_iff in Hok as [Hc Hok].
    change (write_file (cells :: rows)) with ((write_row cells ++ [LF]) ++ write_file rows) in Hr.
    rewrite <- app_assoc in Hr. cbn [app] in Hr.
    destruct (read_row_written r cells _ Hr Hc) as (r' & E & Hr'). cbn [length].
    change (read_all block_len (Datatypes.S (Datatypes.S (length rows))) r) with
      ('(ok, values, r) ← read_row block_len 1 r;
       if ok : bool then rows ← read_all block_len (Datatypes.S (length rows)) r; Ok (values :: rows) else Ok []).
    rewrite E. cbn [mbind result_bind]. by rewrite (IH r' Hr' Hok).
Qed.

(** The first bytes of a written file are no byte order mark. *)
Lemma write_file_no_bom rows : Forall (row_ok block_len n) rows -> strip_bom (write_file rows) = write_file rows.
Proof.
  intros H. destruct rows as [|cells rows]; [done|]. apply Forall_cons_iff in H as [(Hn & _) _].
  destruct cells as [|c cells]; [simpl in Hn; lia|].
  change (write_file _) with ((write_row (c :: cells) ++ [LF]) ++ write_file rows).
  unfold write_row. rewrite fmap_cons, join_cons. generalize (write_file rows). intros w.
  assert (forall t, strip_bom (DQ :: t) = DQ :: t) as Hq by (by intros [|x [|y t]]).
  apply Hq.
Qed.
End Rows.

(** ** Properties *)

(** C14: a file of rows of [n] cells, written with every cell between quotes and
    its quotes doubled, is read back: [CSVReader] with [double_quote_escape]
    delivers exactly the rows, cell by cell, whatever commas, quotes, blanks and
    carriage returns they hold, and then reports the end; no access leaves the
    buffer, at any block length above the longest line. *)
Theorem csv_file_roundtrip {S} `{!ByteSourceBase S} `{!SourceLaws S} block_len n junk name (src : S) rows :
  1 < block_len -> (0 < n)%nat -> Z.of_nat (length junk) = 3 * block_len ->
  content src = write_file rows -> Forall (row_ok block_len n) rows ->
  (lr ← LineReader_init block_len (Some name) src junk;
   @read_all S _ csv_trim quoted no_comment block_len (Datatypes.S (length rows)) (CSVReader_init n lr)) =
    Ok (map (map Some) rows).
Proof.
  intros Hbl Hn Hjunk Hc Hok.
  destruct (LineReader_init_spec block_len (Some name) src junk) as (lr & -> & Hwf & Hp & _ & _); [done..|].
  cbn [mbind result_bind]. rewrite Hc, (write_file_no_bom block_len n) in Hp by done.
  apply (read_all_written block_len ltac:(lia) n Hn); [|done].
  split_and!; cbn; [done|done|by rewrite length_replicate|done].
Qed.

Lemma csv_file_roundtrip_witness :
  let rows := [[s2b "a,b"; s2b " c "]; [[DQ; DQ; comma]; []]] in
  let src := {| file := write_file rows |} in
  (lr ← LineReader_init 64 (Some (s2b "t.csv")) src (replicate 192 NUL);
   @read_all _ _ csv_trim quoted no_comment 64 3 (CSVReader_init 2 lr)) = Ok (map (map Some) rows).
Proof.
  intros rows src. apply (csv_file_roundtrip 64 2 (replicate 192 NUL) (s2b "t.csv") src rows).
  - lia.
  - lia.
  - reflexivity.
  - reflexivity.
  - by apply (bool_decide_unpack _).
Defined.
