(* ===== verification/HikDev.v ===== *)
(** * Sessions with the cameras: HikDev.cpp

    Starting the vendor's SDK, logging in to a camera, enabling its motion
    detection and arming its alarm channel (src/src/HikDev.cpp).  The SDK is a
    library of which the repository has the header only: its calls are the
    operations of the class [HikSdk] over a world [W], and [HikSdkLaws] says what
    its manual promises of reading and writing a camera's configuration. *)
From S2P Require Import Prelude CLib.

(** ** The structures of HCNetSDK.h *)

Definition MAX_ALARMOUT_V30 : Z := 96.

Record NET_DVR_HANDLEEXCEPTION_V30 := {
  dwHandleType : Z;
  byRelAlarmOut : bytes
}.

Record NET_DVR_MOTION_V30 := {
  byMotionScope : list bytes;
  byMotionSensitive : Z;
  byEnableHandleMotion : Z;
  byEnableDisplay : Z;
  struMotionHandleType : NET_DVR_HANDLEEXCEPTION_V30;
  struAlarmTime : list bytes;
  byRelRecordChan : bytes
}.

(** The picture configuration: the part before the motion settings, these and
    the part after them. *)
Record NET_DVR_PICCFG_V30 := {
  pic_front : bytes;
  struMotion : NET_DVR_MOTION_V30;
  pic_back : bytes
}.

Definition set_motion (sensitive enable : Z) (c : NET_DVR_PICCFG_V30) : NET_DVR_PICCFG_V30 :=
  let m := struMotion c in
  {| pic_front := pic_front c;
     struMotion := {| byMotionScope := byMotionScope m; byMotionSensitive := sensitive;
                      byEnableHandleMotion := enable; byEnableDisplay := byEnableDisplay m;
                      struMotionHandleType := struMotionHandleType m;
                      struAlarmTime := struAlarmTime m; byRelRecordChan := byRelRecordChan m |};
     pic_back := pic_back c |}.

Definition NET_DVR_DEV_ADDRESS_MAX_LEN : Z := 129.
Definition NET_DVR_LOGIN_USERNAME_MAX_LEN : Z := 64.
Definition NET_DVR_LOGIN_PASSWD_MAX_LEN : Z := 64.
Definition NET_SDK_MAX_FILE_PATH : Z := 256.

(** The members of the login structure the program sets; the others are zero. *)
Record NET_DVR_USER_LOGIN_INFO := {
  sDeviceAddress : bytes;
  wPort : Z;
  sUserName : bytes;
  sPassword : bytes
}.

(** ** The SDK *)

Class HikSdk (W : Type) := {
  NET_DVR_Init : W -> bool * W;
  NET_DVR_SetSDKInitCfg_path : bytes -> W -> W;
  NET_DVR_Cleanup : W -> bool * W;
  NET_DVR_Login_V40 : NET_DVR_USER_LOGIN_INFO -> W -> Z * W;
  NET_DVR_GetPicCfg : Z -> Z -> W -> option NET_DVR_PICCFG_V30 * W;
  NET_DVR_SetPicCfg : Z -> Z -> NET_DVR_PICCFG_V30 -> W -> bool * W;
  NET_DVR_SetDVRMessageCallBack_V30 : W -> bool * W;
  NET_DVR_SetupAlarmChan_V41 : Z -> W -> Z * W;
  NET_DVR_CloseAlarmChan_V30 : Z -> W -> bool * W
}.

(** The configuration a camera has, whether the callback is registered, and
    which calls leave them alone. *)
Class HikSdkLaws (W : Type) `{!HikSdk W} := {
  camera_cfg : Z -> W -> NET_DVR_PICCFG_V30;
  callback_set : W -> bool;
  armed : Z -> W -> bool;
  get_cfg_law user w cfg w' :
    NET_DVR_GetPicCfg user 1 w = (Some cfg, w') ->
    cfg = camera_cfg user w /\ camera_cfg user w' = camera_cfg user w;
  set_cfg_law user cfg w w' :
    NET_DVR_SetPicCfg user 1 cfg w = (true, w') -> camera_cfg user w' = cfg;
  callback_law w w' user :
    NET_DVR_SetDVRMessageCallBack_V30 w = (true, w') ->
    callback_set w' = true /\ camera_cfg user w' = camera_cfg user w;
  setup_law user w h w' :
    NET_DVR_SetupAlarmChan_V41 user w = (h, w') -> 0 <= h ->
    armed user w' = true /\ callback_set w' = callback_set w /\
    camera_cfg user w' = camera_cfg user w
}.

(** ** The handle of a camera: [HikDevHandl] *)

Record HikDevHandl := {
  sDevIp : bytes;
  wDevPort : Z;
  sDevUserName : bytes;
  sDevPassword : bytes;
  lUserId : Z
}.

Section HikDev.
Context {W : Type} `{!HikSdk W}.

(** [strcpy(dst, src)] into a zeroed [char dst[size]]: the array afterwards. *)
Definition strcpy {E} (size : Z) (src : bytes) : result E bytes :=
  blit (replicate (Z.to_nat size) NUL) 0 (cstr src ++ [NUL]).

(** [HikDevOperate::InitialSDK]; the SDK is given the C string of the array. *)
Definition InitialSDK (w : W) : exec (bool * W) :=
  let '(ok, w) := NET_DVR_Init w in
  if negb ok then Ok (false, w)
  else
    path ← strcpy NET_SDK_MAX_FILE_PATH (s2b "/usr/local/mdalarm/lib");
    Ok (true, NET_DVR_SetSDKInitCfg_path (cstr path) w).

Definition DeinitialSDK (w : W) : bool * W := NET_DVR_Cleanup w.

(** [HikDevOperate::HikDevLogin]: the user id, or -1. *)
Definition HikDevLogin (DevHdl : HikDevHandl) (w : W) : exec (Z * W) :=
  addr ← strcpy NET_DVR_DEV_ADDRESS_MAX_LEN (sDevIp DevHdl);
  user ← strcpy NET_DVR_LOGIN_USERNAME_MAX_LEN (sDevUserName DevHdl);
  pass ← strcpy NET_DVR_LOGIN_PASSWD_MAX_LEN (sDevPassword DevHdl);
  let '(id, w) := NET_DVR_Login_V40
    {| sDeviceAddress := addr; wPort := wDevPort DevHdl; sUserName := user; sPassword := pass |} w in
  if id <? 0 then Ok (-1, w) else Ok (id, w).

(** *** The text of the motion parameters

    Every line goes through the 64-byte buffer [MotionDetectParamBuf]. *)
Definition param_line (text str : bytes) : bytes := append_snprintf 64 text str.

Definition param_flag (flags mask : Z) (text : string) (str : bytes) : bytes :=
  if nz (Z.land flags mask) then param_line (s2b " " ++ s2b text ++ [LF]) str else str.

Fixpoint param_channels (chans : bytes) (i : Z) (str : bytes) : bytes :=
  match chans with
  | [] => str
  | c :: chans' =>
      if negb (nz (uchar c)) then param_channels chans' (i + 1) str
      else param_channels chans' (i + 1) (param_line (s2b "  " ++ fmt_d i ++ s2b " " ++ [LF]) str)
  end.

Definition motion_param_text (m : NET_DVR_MOTION_V30) : exec bytes :=
  let h := struMotionHandleType m in
  let str := param_line (s2b "motion detect parameter : {" ++ [LF]) [] in
  let str := param_line (s2b " sensitive : " ++ fmt_d (byMotionSensitive m) ++ [LF]) str in
  let str := param_line (s2b " motion detect handle : " ++
               s2b (if nz (byEnableHandleMotion m) then "enable" else "disable") ++ [LF]) str in
  let str := param_line (s2b " motion detect high displa : " ++
               s2b (if nz (byEnableDisplay m) then "enable" else "disable") ++ [LF]) str in
  let str := if negb (nz (dwHandleType h)) then param_line (s2b " do nothing" ++ [LF]) str else str in
  let flags := dwHandleType h in
  let str := param_flag flags 0x01 "monitor alarm" str in
  let str := param_flag flags 0x02 "voice alarm" str in
  let str := param_flag flags 0x04 "upload to center" str in
  let str := param_flag flags 0x08 "trigger alarm output" str in
  let str := param_flag flags 0x10 "capture and email" str in
  let str := param_flag flags 0x20 "wireless, voice, light alarm together" str in
  let str := param_flag flags 0x40 "electronic map" str in
  let str := param_flag flags 0x200 "capture and ftp" str in
  let str := param_flag flags 0x1000 "capture and upload to clound" str in
  let str := param_line (s2b " channel for triggering alarm : { " ++ [LF]) str in
  chans ← slice (byRelAlarmOut h) 0 MAX_ALARMOUT_V30;
  let str := param_channels chans 0 str in
  Ok (param_line (s2b " }" ++ [LF] ++ s2b "}" ++ [LF]) str).

(** [HikDevOperate::HikDevMotionDetectCfg]; the text is built and not used. *)
Definition HikDevMotionDetectCfg (lUserId : Z) (w : W) : exec (bool * W) :=
  match NET_DVR_GetPicCfg lUserId 1 w with
  | (None, w) => Ok (false, w)
  | (Some cfg, w) =>
      strParamOut ← motion_param_text (struMotion cfg);
      let '(cfg, need) :=
        if negb (nz (byEnableHandleMotion (struMotion cfg))) then (set_motion 4 1 cfg, true)
        else (cfg, false) in
      if need then
        let '(ok, w) := NET_DVR_SetPicCfg lUserId 1 cfg w in
        if negb ok then Ok (false, w) else Ok (true, w)
      else Ok (true, w)
  end.

(** [HikDevOperate::HikDevStartAlarm], with [lAlarmHandle]. *)
Definition HikDevStartAlarm (lUserId : Z) (w : W) (lAlarmHandle : Z) : exec (bool * W * Z) :=
  '(ok, w) ← HikDevMotionDetectCfg lUserId w;
  if negb ok then Ok (false, w, lAlarmHandle)
  else
    let '(ok, w) := NET_DVR_SetDVRMessageCallBack_V30 w in
    if negb ok then Ok (false, w, lAlarmHandle)
    else
      let '(h, w) := NET_DVR_SetupAlarmChan_V41 lUserId w in
      if h <? 0 then Ok (false, w, h) else Ok (true, w, h).

Definition HikDevStopAlarm (w : W) (lAlarmHandle : Z) : bool * W :=
  NET_DVR_CloseAlarmChan_V30 lAlarmHandle w.
End HikDev.

(** [HikDevLoginCallback] assigns its parameters to themselves. *)
Definition HikDevLoginCallback (lUserID dwResult : Z) : unit := tt.

(** ** Lemmas *)

Lemma strcpy_fits {E} size src :
  Z.of_nat (length (cstr src)) < size ->
  @strcpy E size src =
    Ok (cstr src ++ replicate (Z.to_nat size - length (cstr src)) NUL).
Proof.
  intros H. unfold strcpy.
  rewrite (blit_ok _ 0) by (rewrite length_replicate, length_app; simpl; lia).
  cbn [take app Nat.add]. rewrite length_app, drop_replicate. cbn [length].
  replace (Z.to_nat size - length (cstr src))%nat
    with (S (Z.to_nat size - (length (cstr src) + 1)))%nat by lia.
  change (take 0 _) with (@nil ascii). by rewrite app_nil_l, <- app_assoc.
Qed.

Lemma strcpy_overflows {E} size src :
  size <= Z.of_nat (length (cstr src)) -> @strcpy E size src = Undefined OutOfBounds.
Proof.
  intros H. unfold strcpy, blit. rewrite length_app, length_replicate. cbn [length].
  by rewrite (proj2 (Z.ltb_lt _ (0 + _))) by lia.
Qed.

(** A configuration that succeeds: the camera's motion settings are read, and
    written only when the detection is off. *)
Lemma motion_cfg_spec {W} `{!HikSdk W} user (w w' : W) :
  HikDevMotionDetectCfg user w = Ok (true, w') ->
  exists cfg w1, NET_DVR_GetPicCfg user 1 w = (Some cfg, w1) /\
    if nz (byEnableHandleMotion (struMotion cfg)) then w' = w1
    else NET_DVR_SetPicCfg user 1 (set_motion 4 1 cfg) w1 = (true, w').
Proof.
  unfold HikDevMotionDetectCfg. destruct (NET_DVR_GetPicCfg user 1 w) as [[cfg|] w1]; [|done].
  intros (txt & _ & H)%bind_Ok. exists cfg, w1. split; [done|].
  destruct (nz (byEnableHandleMotion _)); cbn [negb] in H; [by injection H|].
  destruct (NET_DVR_SetPicCfg user 1 _ w1) as [[] w2]; cbn [negb] in H; by simplify_eq.
Qed.

(** ** Properties *)

(** C20: when [HikDevStartAlarm] answers true it has made these calls and no other,
    in this order: it read the picture settings of channel 1 of the camera; only if
    the motion detection in them was off, it wrote them back with the detection on
    and sensitivity 4, all else unchanged, and a camera that has it on is never
    written to; it registered the callback; and it set up the alarm channel,
    whose handle, not negative, is the one it keeps.  The camera is then armed, the
    callback registered, and the camera has the settings just described. *)
Theorem start_alarm_arms {W} `{!HikSdk W} `{!HikSdkLaws W} user (w w' : W) h h' :
  HikDevStartAlarm user w h = Ok (true, w', h') ->
  exists w1 w2 w3, let cfg := camera_cfg user w in let enabled := nz (byEnableHandleMotion (struMotion cfg)) in
    NET_DVR_GetPicCfg user 1 w = (Some cfg, w1) /\
    (if enabled then w2 = w1 else NET_DVR_SetPicCfg user 1 (set_motion 4 1 cfg) w1 = (true, w2)) /\
    NET_DVR_SetDVRMessageCallBack_V30 w2 = (true, w3) /\
    NET_DVR_SetupAlarmChan_V41 user w3 = (h', w') /\
    0 <= h' /\ armed user w' = true /\ callback_set w' = true /\
    camera_cfg user w' = if enabled then cfg else set_motion 4 1 cfg.
Proof.
  unfold HikDevStartAlarm. intros ([ok w2] & Hm & H)%bind_Ok. destruct ok; [|done]. cbn [negb] in H.
  apply motion_cfg_spec in Hm as (cfg & w1 & Hg & Hset). destruct (get_cfg_law _ _ _ _ Hg) as [-> Hw1].
  destruct (NET_DVR_SetDVRMessageCallBack_V30 w2) as [[] w3] eqn:Ec; cbn [negb] in H; [|done].
  destruct (callback_law _ _ user Ec) as [Hc Hw3].
  destruct (NET_DVR_SetupAlarmChan_V41 user w3) as [h2 w4] eqn:Es.
  destruct (Z.ltb_spec h2 0); [done|]. injection H as -> ->.
  destruct (setup_law _ _ _ _ Es ltac:(done)) as (Ha & Hc' & Hw4).
  exists w1, w2, w3. cbn zeta. do 6 (split; [congruence || lia|]). split; [congruence|]. rewrite Hw4, Hw3.
  destruct (nz _); [congruence|]. by apply set_cfg_law in Hset.
Qed.

(** The credentials of a camera go unchecked into arrays of the login
    structure: a login proceeds exactly when the address has fewer than 129
    characters and the name and password fewer than 64; it then passes their
    text, NUL-padded, and answers the user id or -1. *)
Theorem login_bounds {W} `{!HikSdk W} hdl (w : W) :
  HikDevLogin hdl w =
    if (length (cstr (sDevIp hdl)) <? 129)%nat && (length (cstr (sDevUserName hdl)) <? 64)%nat &&
       (length (cstr (sDevPassword hdl)) <? 64)%nat
    then
      let pad size s := cstr s ++ replicate (size - length (cstr s)) NUL in
      let '(id, w') := NET_DVR_Login_V40
        {| sDeviceAddress := pad 129%nat (sDevIp hdl); wPort := wDevPort hdl;
           sUserName := pad 64%nat (sDevUserName hdl); sPassword := pad 64%nat (sDevPassword hdl) |} w in
      Ok (Z.max id (-1), w')
    else Undefined OutOfBounds.
Proof.
  unfold HikDevLogin, NET_DVR_DEV_ADDRESS_MAX_LEN, NET_DVR_LOGIN_USERNAME_MAX_LEN,
    NET_DVR_LOGIN_PASSWD_MAX_LEN.
  destruct (Nat.ltb_spec (length (cstr (sDevIp hdl))) 129) as [H1|H1]; cbn [andb];
    [rewrite (strcpy_fits 129 (sDevIp hdl)) by lia|by rewrite (strcpy_overflows 129 (sDevIp hdl)) by lia]; cbn [mbind result_bind].
  destruct (Nat.ltb_spec (length (cstr (sDevUserName hdl))) 64) as [H2|H2]; cbn [andb];
    [rewrite (strcpy_fits 64 (sDevUserName hdl)) by lia|by rewrite (strcpy_overflows 64 (sDevUserName hdl)) by lia]; cbn [mbind result_bind].
  destruct (Nat.ltb_spec (length (cstr (sDevPassword hdl))) 64) as [H3|H3]; cbn [andb];
    [rewrite (strcpy_fits 64 (sDevPassword hdl)) by lia|by rewrite (strcpy_overflows 64 (sDevPassword hdl)) by lia]; cbn [mbind result_bind].
  cbn zeta. change (Z.to_nat 129) with 129%nat. change (Z.to_nat 64) with 64%nat.
  destruct (NET_DVR_Login_V40 _ w) as [id w']. destruct (Z.ltb_spec id 0).
  - do 2 f_equal. lia.
  - do 2 f_equal. lia.
Qed.

(** ** An instance: one camera that accepts every call *)

Record test_camera := {
  tc_cfg : NET_DVR_PICCFG_V30; tc_callback : bool; tc_armed : bool
}.

#[export] Instance TestSdk : HikSdk test_camera := {|
  NET_DVR_Init w := (true, w);
  NET_DVR_SetSDKInitCfg_path _ w := w;
  NET_DVR_Cleanup w := (true, w);
  NET_DVR_Login_V40 _ w := (0, w);
  NET_DVR_GetPicCfg _ _ w := (Some (tc_cfg w), w);
  NET_DVR_SetPicCfg _ _ cfg w :=
    (true, {| tc_cfg := cfg; tc_callback := tc_callback w; tc_armed := tc_armed w |});
  NET_DVR_SetDVRMessageCallBack_V30 w :=
    (true, {| tc_cfg := tc_cfg w; tc_callback := true; tc_armed := tc_armed w |});
  NET_DVR_SetupAlarmChan_V41 _ w :=
    (5, {| tc_cfg := tc_cfg w; tc_callback := tc_callback w; tc_armed := true |});
  NET_DVR_CloseAlarmChan_V30 _ w :=
    (true, {| tc_cfg := tc_cfg w; tc_callback := tc_callback w; tc_armed := false |})
|}.

#[export] Program Instance TestSdk_laws : HikSdkLaws test_camera := {|
  camera_cfg _ w := tc_cfg w; callback_set w := tc_callback w; armed _ w := tc_armed w
|}.
Solve All Obligations with (intros; simpl in *; simplify_eq; done).

Definition sample_camera : test_camera :=
  {| tc_cfg := {| pic_front := [];
                  struMotion := {| byMotionScope := []; byMotionSensitive := 2;
                                   byEnableHandleMotion := 0; byEnableDisplay := 1;
                                   struMotionHandleType := {| dwHandleType := 4;
                                     byRelAlarmOut := chr 1 :: replicate 95 NUL |};
                                   struAlarmTime := []; byRelRecordChan := [] |};
                  pic_back := [] |};
     tc_callback := false; tc_armed := false |}.

Lemma start_alarm_arms_witness :
  exists w', HikDevStartAlarm 0 sample_camera 0 = Ok (true, w', 5) /\ tc_armed w' = true /\
    tc_cfg w' = set_motion 4 1 (tc_cfg sample_camera).
Proof.
  assert (HikDevStartAlarm 0 sample_camera 0 =
    Ok (true, {| tc_cfg := set_motion 4 1 (tc_cfg sample_camera); tc_callback := true;
                 tc_armed := true |}, 5)) as E by (vm_compute; reflexivity).
  destruct (start_alarm_arms 0 sample_camera _ 0 5 E) as (w1 & w2 & w3 & _ & _ & _ & _ & _ & Ha & _ & Hc).
  eexists. split; [exact E|]. split; [exact Ha|exact Hc].
Defined.
