(* ===== verification/HikText.v ===== *)
(** * What HikDev.cpp prints

    The texts of an alarm and of the device and network configurations
    (src/src/HikDev.cpp): lines formatted with [snprintf] through 64-byte
    buffers, and text sent to [std::cout] and [stdout], given as the bytes
    printed. *)
From S2P Require Import Prelude CLib AlarmRing HikDev.

(** ** Definitions *)

Definition MACADDR_LEN : Z := 6.

(** [snprintf(buf + offset, size, ...)] of a text: the characters that fit and
    a NUL, nothing at all when [size] is 0. *)
Definition snprintf_at (buf : bytes) (offset size : Z) (text : bytes) : exec bytes :=
  if size =? 0 then Ok buf else blit buf offset (fst (snprintf size text) ++ [NUL]).

(** [HikDevMacHexToStr]: [offset] and the size passed are [DWORD]s. *)
Definition mac_step (bMacHex : bytes) (dwMacStrLen : Z) (s : Z * Z * bytes)
    : exec (Z * Z * bytes + bytes) :=
  let '(i, offset, sMacStr) := s in
  if i <? MACADDR_LEN then
    c ← read bMacHex i;
    if i <? MACADDR_LEN - 1 then
      let text := fmt_02x (uchar c) ++ s2b "-" in
      buf ← snprintf_at sMacStr offset (u32 (dwMacStrLen - offset)) text;
      Ok (inl (i + 1, u32 (offset + Z.of_nat (length text)), buf))
    else
      buf ← snprintf_at sMacStr offset (u32 (dwMacStrLen - offset)) (fmt_02x (uchar c));
      Ok (inl (i + 1, offset, buf))
  else Ok (inr sMacStr).

Definition HikDevMacHexToStr (bMacHex sMacStr : bytes) (dwMacStrLen : Z) : exec bytes :=
  loopM 7 (mac_step bMacHex dwMacStrLen) (0, 0, sMacStr).

(** A line of at most 63 bytes. *)
Definition info_line (text strOut : bytes) : bytes := append_snprintf 64 (text ++ [LF]) strOut.

(** A line with the value when its flag is set, and [invalid] otherwise. *)
Definition flagged_line (valid : Z) (label : string) (value : exec bytes) (strOut : bytes) : exec bytes :=
  if nz valid then v ← value; Ok (info_line (s2b "  " ++ s2b label ++ v) strOut)
  else Ok (info_line (s2b "  " ++ s2b label ++ s2b "invalid") strOut).

(** [junk] is what the 13 bytes of [sMacStr] hold. *)
Definition HikDevOutputAlarmDevInfo (junk : bytes) (d : NET_DVR_ALARMER) (strOut : bytes) : exec bytes :=
  let strOut := info_line (s2b " alarm device information : {") strOut in
  strOut ← flagged_line (byUserIDValid d) "user id : " (Ok (fmt_d (lUserID d))) strOut;
  strOut ← flagged_line (bySerialValid d) "serial number : " (c_string (sSerialNumber d)) strOut;
  strOut ← flagged_line (byVersionValid d) "device version : " (Ok (fmt_d (i32 (dwDeviceVersion d)))) strOut;
  strOut ← flagged_line (byDeviceNameValid d) "device name : " (c_string (sDeviceName d)) strOut;
  strOut ← flagged_line (byMacAddrValid d) "mac addr : "
             (mac ← HikDevMacHexToStr (byMacAddr d) junk (MACADDR_LEN * 2 + 1); c_string mac) strOut;
  strOut ← flagged_line (byLinkPortValid d) "link port : " (Ok (fmt_u (wLinkPort d))) strOut;
  strOut ← flagged_line (byDeviceIPValid d) "device ip : " (c_string (sDeviceIP d)) strOut;
  strOut ← flagged_line (bySocketIPValid d) "socket ip : " (c_string (sSocketIP d)) strOut;
  Ok (info_line (s2b " }") strOut).

(** The text [HikDevOutputAlarmInfo] logs and prints. *)
Definition HikDevOutputAlarmInfo (localtime_r : Z -> tm) (junk : bytes) (uiAlarmIdx : Z) (st : alarm_state)
    : exec bytes :=
  a ← read (struAlarmMotionDetect st) uiAlarmIdx;
  let t := localtime_r (AlarmTime a) in
  let str := info_line (s2b "motion detect alarm : {") [] in
  str ← HikDevOutputAlarmDevInfo junk (struAlarmDevInfo a) str;
  let str := info_line (s2b " channel No. : " ++ fmt_u (byChannel a)) str in
  let str := info_line (s2b " alarm date and time : " ++ fmt_d (tm_year t + 1900) ++ s2b "-" ++
               fmt_d (tm_mon t + 1) ++ s2b "-" ++ fmt_d (tm_mday t) ++ s2b " " ++ fmt_d (tm_hour t) ++
               s2b ":" ++ fmt_d (tm_min t) ++ s2b ":" ++ fmt_d (tm_sec t)) str in
  Ok (info_line (s2b "}") str).

(** ** The configurations printed on [std::cout] *)

Record NET_DVR_DEVICECFG_V40 := {
  dev_dwSize : Z; sDVRName : bytes; dwDVRID : Z; dwRecycleRecord : Z;
  dev_sSerialNumber : bytes; dwSoftwareVersion : Z; dwSoftwareBuildDate : Z;
  dwDSPSoftwareVersion : Z; dwDSPSoftwareBuildDate : Z; dwPanelVersion : Z;
  dwHardwareVersion : Z; byAlarmInPortNum : Z; byAlarmOutPortNum : Z; byRS232Num : Z;
  byRS485Num : Z; byNetworkPortNum : Z; byDiskCtrlNum : Z; byDiskNum : Z; byDVRType : Z;
  byChanNum : Z; byStartChan : Z; byDecordChans : Z; byVGANum : Z; byUSBNum : Z;
  byAuxoutNum : Z; byAudioNum : Z; byIPChanNum : Z; byZeroChanNum : Z; bySupport : Z;
  byEsataUseage : Z; byIPCPlug : Z; byStorageMode : Z; bySupport1 : Z; wDevType : Z;
  byDevTypeName : bytes; bySupport2 : Z; byAnalogAlarmInPortNum : Z; byStartAlarmInNo : Z;
  byStartAlarmOutNo : Z; byStartIPAlarmInNo : Z; byStartIPAlarmOutNo : Z; byHighIPChanNum : Z;
  byEnableRemotePowerOn : Z; wDevClass : Z; dev_byRes2 : bytes
}.

(** [std::cout << label << value << std::endl]. *)
Definition out (label : string) (value : bytes) : bytes := s2b label ++ value ++ [LF].
Definition out_num (label : string) (value : Z) : bytes := out label (fmt_u value).
Definition out_str (label : string) (value : bytes) : exec bytes := v ← c_string value; Ok (out label v).
Definition out_bit (label : string) (flags mask : Z) : bytes :=
  out label (s2b (if nz (Z.land flags mask) then "yes" else "no")).
Definition out_sel (label : string) (v : Z) (zero nonzero : string) : bytes :=
  out label (s2b (if nz v then nonzero else zero)).

(** A version: its high and low halves. *)
Definition high_word (v : Z) : Z := Z.shiftr v 16.
Definition low_word (v : Z) : Z := Z.land v 0x0000ffff.
Definition masked_high_word (v : Z) : Z := Z.shiftr (Z.land v 0xffff0000) 16.

Definition out_version (label : string) (v : Z) : bytes :=
  out label (fmt_u (high_word v) ++ s2b "." ++ fmt_u (low_word v)).

Definition date_month (d : Z) : Z := Z.shiftr (Z.land d 0x0000ff00) 8.
Definition date_day (d : Z) : Z := Z.land d 0x000000ff.

Definition out_date (label : string) (d : Z) : bytes :=
  out label (fmt_u (high_word d) ++ s2b "." ++ fmt_u (date_month d) ++ s2b "." ++ fmt_u (date_day d)).

Definition ip_channels (c : NET_DVR_DEVICECFG_V40) : Z :=
  Z.lor (u32 (Z.shiftl (byHighIPChanNum c) 8)) (byIPChanNum c).

(** [HikDevGetDevCfg], on the configuration the SDK returned. *)
Definition HikDevGetDevCfg_text (c : NET_DVR_DEVICECFG_V40) : exec bytes :=
  name ← out_str "device name : " (sDVRName c);
  type_name ← out_str "device type name : " (byDevTypeName c);
  serial ← out_str "device serial number : " (dev_sSerialNumber c);
  Ok (out_num "structrue size : " (dev_dwSize c) ++ name ++
      out_num "device id : " (dwDVRID c) ++
      out_num "dvr type : " (byDVRType c) ++
      out_num "device type : " (wDevType c) ++ type_name ++
      out_sel "record cycle or not : " (dwRecycleRecord c) "false" "true" ++ serial ++
      out "device software version : " (fmt_u (masked_high_word (dwSoftwareVersion c)) ++ s2b "." ++
        fmt_u (low_word (dwSoftwareVersion c))) ++
      out_date "device software build date : " (dwSoftwareBuildDate c) ++
      out_version "dsp software version : " (dwDSPSoftwareVersion c) ++
      out_date "dsp software build date : " (dwDSPSoftwareBuildDate c) ++
      out_version "panel version : " (dwPanelVersion c) ++
      out_version "hardware version : " (dwHardwareVersion c) ++
      out_num "alarm in port number : " (byAlarmInPortNum c) ++
      out_num "alarm out port number : " (byAlarmOutPortNum c) ++
      out_num "analog alarm inpot number : " (byAnalogAlarmInPortNum c) ++
      out_num "analog start alarm in port number : " (byStartAlarmInNo c) ++
      out_num "analog start alarm out port number : " (byStartAlarmOutNo c) ++
      out_num "IP start alarm in port number : " (byStartIPAlarmInNo c) ++
      out_num "IP start alarm out port number : " (byStartIPAlarmOutNo c) ++
      out_num "rs232 number : " (byRS232Num c) ++
      out_num "rs485 number : " (byRS485Num c) ++
      out_num "net port number : " (byNetworkPortNum c) ++
      out_num "disk ctrl number : " (byDiskCtrlNum c) ++
      out_num "disk number : " (byDiskNum c) ++
      out_num "channel number : " (byChanNum c) ++
      out_num "start channel number : " (byStartChan c) ++
      out_num "decord chaanel number : " (byDecordChans c) ++
      out_num "VGA port number : " (byVGANum c) ++
      out_num "usb port number : " (byUSBNum c) ++
      out_num "aux out port number : " (byAuxoutNum c) ++
      out_num "audio port number : " (byAudioNum c) ++
      out_num "ip channel number : " (ip_channels c) ++
      out_num "zero channel number : " (byZeroChanNum c) ++
      out_bit "Support Intelligent Search : " (bySupport c) 1 ++
      out_bit "Support Backup : " (bySupport c) 2 ++
      out_bit "Support Compress Ability Get : " (bySupport c) 4 ++
      out_bit "Support Double NetCard : " (bySupport c) 8 ++
      out_bit "Support Remote SADP : " (bySupport c) 0x10 ++
      out_bit "Support RaidCard Func : " (bySupport c) 0x20 ++
      out_bit "Support IPSAN Search : " (bySupport c) 0x40 ++
      out_bit "Support RTP Over RTSP : " (bySupport c) 0x80 ++
      out_bit "Support SNMP V30 : " (bySupport1 c) 1 ++
      out_bit "Support Playback Download : " (bySupport1 c) 2 ++
      out_bit "Support Expand OSD : " (bySupport2 c) 1 ++
      out_sel "esata useage : " (byEsataUseage c) "backup" "record" ++
      out_sel "ipc plug : " (byIPCPlug c) "close" "open" ++
      out_num "storage mode : " (byStorageMode c) ++
      out_sel "remote power on : " (byEnableRemotePowerOn c) "disable" "enable").

Record NET_DVR_IPADDR := { sIpV4 : bytes; byIPv6 : bytes }.

Record NET_DVR_ETHERNET_V30 := {
  struDVRIP : NET_DVR_IPADDR; struDVRIPMask : NET_DVR_IPADDR; dwNetInterface : Z;
  wDVRPort : Z; wMTU : Z; byMACAddr : bytes; byEthernetPortNo : Z; eth_byRes : bytes
}.

Record NET_DVR_PPPOECFG := {
  dwPPPOE : Z; sPPPoEUser : bytes; sPPPoEPassword : bytes; struPPPoEIP : NET_DVR_IPADDR
}.

Record NET_DVR_NETCFG_V50 := {
  net_dwSize : Z; struEtherNet : list NET_DVR_ETHERNET_V30; struRes1 : list NET_DVR_IPADDR;
  struAlarmHostIpAddr : NET_DVR_IPADDR; net_byRes2 : bytes; wAlarmHostIpPort : Z;
  byUseDhcp : Z; byIPv6Mode : Z; struDnsServer1IpAddr : NET_DVR_IPADDR;
  struDnsServer2IpAddr : NET_DVR_IPADDR; byIpResolver : bytes; wIpResolverPort : Z;
  wHttpPortNo : Z; struMulticastIpAddr : NET_DVR_IPADDR; struGatewayIpAddr : NET_DVR_IPADDR;
  struPPPoE : NET_DVR_PPPOECFG; byEnablePrivateMulticastDiscovery : Z;
  byEnableOnvifMulticastDiscovery : Z; wAlarmHost2IpPort : Z;
  struAlarmHost2IpAddr : NET_DVR_IPADDR; byEnableDNS : Z; net_byRes : bytes
}.

Definition MAX_ETHERNET : Z := 2.

Definition net_interface (v : Z) : string :=
  match v with
  | 1 => "10MBase-T"
  | 2 => "10MBase-T Full Duplex"
  | 3 => "100MBase-TX"
  | 4 => "100M Full Duplex"
  | 5 => "10M/100M/1000M Self-adaption"
  | 6 => "1000M Full Duplex"
  | _ => "Invalid"
  end.

Definition dhcp_text (v : Z) : string :=
  match v with 0 => "disable" | 1 => "enable" | _ => "invalide" end.

Definition ipv6_mode_text (v : Z) : string :=
  match v with
  | 0 => "router advertise" | 1 => "manual setting" | 2 => "using dhcp" | _ => "invalid"
  end.

(** The multicast discovery settings; other values print nothing, not even the
    end of the line. *)
Definition discovery_text (v : Z) : bytes :=
  match v with
  | 0 => s2b "default" ++ [LF] | 1 => s2b "disable" ++ [LF] | 2 => s2b "enable" ++ [LF] | _ => []
  end.

(** The [printf] loop over the MAC address. *)
Fixpoint mac_print (mac : bytes) : bytes :=
  match mac with
  | [] => []
  | [c] => fmt_02x (uchar c)
  | c :: mac' => fmt_02x (uchar c) ++ s2b "-" ++ mac_print mac'
  end.

Definition out_ip (label4 label6 : string) (a : NET_DVR_IPADDR) : exec bytes :=
  v4 ← out_str label4 (sIpV4 a); v6 ← out_str label6 (byIPv6 a); Ok (v4 ++ v6).

Definition ethernet_text (i : Z) (e : NET_DVR_ETHERNET_V30) : exec bytes :=
  ip ← out_ip "ipv4 : " "ipv6 : " (struDVRIP e);
  mask ← out_ip "ipv4 mask : " "ipv6 mask : " (struDVRIPMask e);
  mac ← slice (byMACAddr e) 0 MACADDR_LEN;
  Ok (s2b "ethernet " ++ fmt_u i ++ s2b " cfg : {" ++ [LF] ++ ip ++ mask ++
      out "net interface : " (s2b (net_interface (dwNetInterface e))) ++
      out_num "dvr port : " (wDVRPort e) ++
      out_num "MTU : " (wMTU e) ++
      out "mac addr : " (mac_print mac) ++
      out "ethernet port No. : "
        (if nz (byEthernetPortNo e) then fmt_d (byEthernetPortNo e - 1) else s2b "invalid") ++
      out "}" []).

Fixpoint ethernets_text (n : nat) (i : Z) (l : list NET_DVR_ETHERNET_V30) : exec bytes :=
  match n with
  | O => Ok []
  | S n' =>
      e ← read l i;
      t ← ethernet_text i e;
      rest ← ethernets_text n' (i + 1) l;
      Ok (t ++ rest)
  end.

(** [HikDevGetNetCfg], on the configuration the SDK returned. *)
Definition HikDevGetNetCfg_text (c : NET_DVR_NETCFG_V50) : exec bytes :=
  eth ← ethernets_text (Z.to_nat MAX_ETHERNET) 0 (struEtherNet c);
  host ← out_ip "alarm host ip addr v4 : " "alarm host ip addr v6 : " (struAlarmHostIpAddr c);
  host2 ← out_ip "alarm host2 ip addr v4 : " "alarm host2 ip addr v6 : " (struAlarmHost2IpAddr c);
  dns1 ← out_ip "dns server1 ip addr v4 : " "dns server1 ip addr v6 : " (struDnsServer1IpAddr c);
  dns2 ← out_ip "dns server2 ip addr v4 : " "dns server2 ip addr v6 : " (struDnsServer2IpAddr c);
  resolver ← out_str "ip resolver : " (byIpResolver c);
  multicast ← out_ip "multicast ipv4 : " "multicast ipv6 : " (struMulticastIpAddr c);
  gateway ← out_ip "gateway ipv4 : " "gateway ipv6 : " (struGatewayIpAddr c);
  user ← out_str "PPPoE user name : " (sPPPoEUser (struPPPoE c));
  pass ← out_str "PPPoE pass word : " (sPPPoEPassword (struPPPoE c));
  pppoe ← out_ip "PPPoE ipv4 : " "PPPoE ipv6 : " (struPPPoEIP (struPPPoE c));
  Ok (out_num "structure size : " (net_dwSize c) ++ eth ++ host ++
      out_num "alarm host ip port : " (wAlarmHostIpPort c) ++ host2 ++
      out_num "alarm host2 ip port : " (wAlarmHost2IpPort c) ++
      out "use dhcp : " (s2b (dhcp_text (byUseDhcp c))) ++
      out "ipv6 mode : " (s2b (ipv6_mode_text (byIPv6Mode c))) ++ dns1 ++ dns2 ++
      out_sel "dns mode : " (byEnableDNS c) "automatic getting" "manual setting" ++ resolver ++
      out_num "ip resolver port : " (wIpResolverPort c) ++
      out_num "http port : " (wHttpPortNo c) ++ multicast ++ gateway ++
      out_sel "PPPoE : " (dwPPPOE (struPPPoE c)) "disable" "enable" ++ user ++ pass ++ pppoe ++
      s2b "private multicast discovery : " ++ discovery_text (byEnablePrivateMulticastDiscovery c) ++
      s2b "onvif multicast discovery : " ++ discovery_text (byEnableOnvifMulticastDiscovery c)).

(** The two operations: what they print and answer.  [NET_DVR_GetDVRConfig] with
    the command of each is the SDK's. *)
Section Configurations.
Context {W : Type}.
Variable NET_DVR_GetDeviceCfg : Z -> W -> option NET_DVR_DEVICECFG_V40 * W.
Variable NET_DVR_GetNetCfg : Z -> W -> option NET_DVR_NETCFG_V50 * W.

Definition HikDevGetDevCfg (lUserId : Z) (w : W) : exec (bool * bytes * W) :=
  match NET_DVR_GetDeviceCfg lUserId w with
  | (None, w) => Ok (false, [], w)
  | (Some DevCfg, w) => text ← HikDevGetDevCfg_text DevCfg; Ok (true, text, w)
  end.

Definition HikDevGetNetCfg (lUserId : Z) (w : W) : exec (bool * bytes * W) :=
  match NET_DVR_GetNetCfg lUserId w with
  | (None, w) => Ok (false, [], w)
  | (Some struNetCfg, w) => text ← HikDevGetNetCfg_text struNetCfg; Ok (true, text, w)
  end.
End Configurations.

(** ** Lemmas *)

Lemma fmt_02x_byte c : exists a b, fmt_02x (uchar c) = [a; b].
Proof.
  assert (length (fmt_02x (uchar c)) = 2%nat) as H by (byte_cases c).
  destruct (fmt_02x (uchar c)) as [|a [|b [|]]]; try done. eauto.
Qed.

Lemma snprintf_at_fits (pre old post text : bytes) offset size :
  offset = Z.of_nat (length pre) -> Z.of_nat (length text) < size -> length old = S (length text) ->
  snprintf_at (pre ++ old ++ post) offset size text = Ok (pre ++ (text ++ [NUL]) ++ post).
Proof.
  intros -> Hs Ho. unfold snprintf_at. rewrite (proj2 (Z.eqb_neq _ 0)) by lia.
  rewrite snprintf_fits by done. apply blit_middle; [done|]. rewrite length_app. simpl. lia.
Qed.

Lemma mac_step_eq mac n i offset buf :
  mac_step mac n (i, offset, buf) =
    if i <? MACADDR_LEN then
      c ← read mac i;
      if i <? MACADDR_LEN - 1 then
        let text := fmt_02x (uchar c) ++ s2b "-" in
        buf ← snprintf_at buf offset (u32 (n - offset)) text;
        Ok (inl (i + 1, u32 (offset + Z.of_nat (length text)), buf))
      else
        buf ← snprintf_at buf offset (u32 (n - offset)) (fmt_02x (uchar c));
        Ok (inl (i + 1, offset, buf))
    else Ok (inr buf).
Proof. done. Qed.

(** One byte and its separator, where there is room for them. *)
Lemma mac_step_sep mac n i (c : ascii) pre (o0 o1 o2 o3 : ascii) post :
  mac !! i = Some c -> (i < 5)%nat -> Z.of_nat (length pre) + 4 <= n < 2 ^ 32 ->
  mac_step mac n (Z.of_nat i, Z.of_nat (length pre), pre ++ o0 :: o1 :: o2 :: o3 :: post) =
    Ok (inl (Z.of_nat (S i), Z.of_nat (length (pre ++ fmt_02x (uchar c) ++ s2b "-")),
             (pre ++ fmt_02x (uchar c) ++ s2b "-") ++ NUL :: post)).
Proof.
  intros Hc Hi Hn. rewrite mac_step_eq. unfold MACADDR_LEN. rewrite (proj2 (Z.ltb_lt _ 6)) by lia.
  rewrite (read_lookup _ _ _ Hc). cbn [mbind result_bind].
  rewrite (proj2 (Z.ltb_lt _ (6 - 1))) by lia. cbn zeta.
  destruct (fmt_02x_byte c) as (x & y & ->). rewrite (u32_small (n - _)) by lia.
  change (o0 :: o1 :: o2 :: o3 :: post) with ([o0; o1; o2; o3] ++ post).
  rewrite (snprintf_at_fits pre [o0; o1; o2; o3]) by (simpl; lia). cbn [mbind result_bind].
  rewrite u32_small by (simpl; pows; lia). rewrite !length_app, <- !app_assoc. cbn [length app s2b String.list_ascii_of_string].
  repeat f_equal; lia.
Qed.

Lemma mac_step_last mac n (c : ascii) pre (o0 o1 o2 : ascii) post :
  mac !! 5%nat = Some c -> Z.of_nat (length pre) + 3 <= n < 2 ^ 32 ->
  mac_step mac n (5, Z.of_nat (length pre), pre ++ o0 :: o1 :: o2 :: post) =
    Ok (inl (6, Z.of_nat (length pre), pre ++ fmt_02x (uchar c) ++ NUL :: post)).
Proof.
  intros Hc Hn. rewrite mac_step_eq. change (5 <? MACADDR_LEN) with true.
  pose proof (read_lookup (E := Empty_set) _ _ _ Hc) as Hr. change (Z.of_nat 5) with 5 in Hr. rewrite Hr. cbn [mbind result_bind].
  change (5 <? MACADDR_LEN - 1) with false. cbn iota.
  destruct (fmt_02x_byte c) as (x & y & ->). rewrite (u32_small (n - _)) by lia.
  change (o0 :: o1 :: o2 :: post) with ([o0; o1; o2] ++ post).
  rewrite (snprintf_at_fits pre [o0; o1; o2]) by (simpl; lia). done.
Qed.

#[local] Arguments mac_step : simpl never.
#[local] Arguments fmt_02x : simpl never.

(** Run one round of the loop: [H] gives its result, [E] the two digits. *)
Ltac mac_round H E :=
  let R := fresh in pose proof H as R; rewrite E in R;
  cbv [Z.of_nat length Pos.of_succ_nat Pos.succ app s2b String.list_ascii_of_string] in R;
  rewrite loopM_S, R by (first [done | simpl; lia]); clear R; cbn [mbind result_bind].

(** The first four bytes, which fit the caller's array too. *)
Lemma mac_four_steps (m0 m1 m2 m3 m4 m5 : ascii) (buf : bytes) n fuel :
  13 <= n < 2 ^ 32 -> (13 <= length buf)%nat ->
  loopM (S (S (S (S fuel)))) (mac_step [m0; m1; m2; m3; m4; m5] n) (0, 0, buf) =
    loopM fuel (mac_step [m0; m1; m2; m3; m4; m5] n)
      (4, 12, (fmt_02x (uchar m0) ++ s2b "-" ++ fmt_02x (uchar m1) ++ s2b "-" ++
               fmt_02x (uchar m2) ++ s2b "-" ++ fmt_02x (uchar m3) ++ s2b "-") ++ NUL :: drop 13 buf).
Proof.
  intros Hn Hl. do 13 (destruct buf as [|? buf]; [simpl in Hl; lia|]). clear Hl.
  set (mac := [m0; m1; m2; m3; m4; m5]).
  destruct (fmt_02x_byte m0) as (x0 & y0 & E0), (fmt_02x_byte m1) as (x1 & y1 & E1),
    (fmt_02x_byte m2) as (x2 & y2 & E2), (fmt_02x_byte m3) as (x3 & y3 & E3).
  assert (Hlt : 13 <= n) by lia.
  mac_round (mac_step_sep mac n 0 m0 [] a a0 a1 a2 (a3 :: a4 :: a5 :: a6 :: a7 :: a8 :: a9 :: a10 :: a11 :: buf)) E0.
  mac_round (mac_step_sep mac n 1 m1 [x0; y0; "-"%char] NUL a3 a4 a5
    (a6 :: a7 :: a8 :: a9 :: a10 :: a11 :: buf)) E1.
  mac_round (mac_step_sep mac n 2 m2 [x0; y0; "-"%char; x1; y1; "-"%char] NUL a6 a7 a8
    (a9 :: a10 :: a11 :: buf)) E2.
  mac_round (mac_step_sep mac n 3 m3 [x0; y0; "-"%char; x1; y1; "-"%char; x2; y2; "-"%char] NUL a9 a10 a11 buf) E3.
  rewrite E0, E1, E2, E3. reflexivity.
Qed.

(** ** Properties *)

(** The text of a MAC address needs 18 bytes, which [HikDevMacHexToStr]
    fills with the six bytes in hexadecimal; its caller passes an array of 13,
    past the end of which it always writes. *)
Theorem mac_to_str_bounds (mac buf : bytes) n :
  length mac = 6%nat -> in_u32 n -> Z.of_nat (length buf) = n ->
  (18 <= n -> HikDevMacHexToStr mac buf n = Ok (mac_print mac ++ NUL :: drop 18 buf)) /\
  (n = MACADDR_LEN * 2 + 1 -> HikDevMacHexToStr mac buf n = Undefined OutOfBounds).
Proof.
  intros Hm Hn Hb. unfold in_u32 in Hn.
  destruct mac as [|m0 [|m1 [|m2 [|m3 [|m4 [|m5 [|? ?]]]]]]]; try done. clear Hm.
  unfold HikDevMacHexToStr.
  destruct (fmt_02x_byte m0) as (x0 & y0 & E0), (fmt_02x_byte m1) as (x1 & y1 & E1),
    (fmt_02x_byte m2) as (x2 & y2 & E2), (fmt_02x_byte m3) as (x3 & y3 & E3),
    (fmt_02x_byte m4) as (x4 & y4 & E4), (fmt_02x_byte m5) as (x5 & y5 & E5).
  split; intros H.
  - do 18 (destruct buf as [|? buf]; [simpl in Hb; lia|]).
    rewrite mac_four_steps by (simpl in *; lia). set (mac := [m0; m1; m2; m3; m4; m5]).
    rewrite E0, E1, E2, E3. cbn [app s2b String.list_ascii_of_string drop].
    mac_round (mac_step_sep mac n 4 m4
      [x0; y0; "-"%char; x1; y1; "-"%char; x2; y2; "-"%char; x3; y3; "-"%char] NUL a12 a13 a14 (a15 :: a16 :: buf)) E4.
    mac_round (mac_step_last mac n m5
      [x0; y0; "-"%char; x1; y1; "-"%char; x2; y2; "-"%char; x3; y3; "-"%char; x4; y4; "-"%char] NUL a15 a16 buf) E5.
    rewrite loopM_S. unfold mac. cbn [mac_print]. rewrite E0, E1, E2, E3, E4, E5. reflexivity.
  - assert (n = 13) as -> by (rewrite H; reflexivity).
    rewrite mac_four_steps by (simpl; lia). set (mac := [m0; m1; m2; m3; m4; m5]).
    do 13 (destruct buf as [|? buf]; [simpl in Hb; lia|]). destruct buf; [|simpl in Hb; lia].
    rewrite E0, E1, E2, E3. cbn [app s2b String.list_ascii_of_string drop].
    rewrite loopM_S, mac_step_eq. change (read mac 4) with (@Ok Empty_set _ m4).
    cbn [mbind result_bind]. rewrite E4.
    change (4 <? MACADDR_LEN) with true. change (4 <? MACADDR_LEN - 1) with true. cbn iota zeta.
    set (l := [x0; y0; _; _; _; _; _; _; _; _; _; _; _]).
    change (snprintf_at l 12 (u32 (13 - 12)) ([x4; y4] ++ s2b "-")) with (@Ok Empty_set _ l).
    cbn [mbind result_bind].
    change (loopM 2 (mac_step mac 13) (4 + 1, u32 (12 + Z.of_nat (length ([x4; y4] ++ s2b "-"))), l))
      with (loopM 2 (mac_step mac 13) (5, 15, l)).
    rewrite loopM_S, mac_step_eq. change (read mac 5) with (@Ok Empty_set _ m5).
    cbn [mbind result_bind]. rewrite E5.
    change (5 <? MACADDR_LEN) with true. change (5 <? MACADDR_LEN - 1) with false. cbn iota zeta.
    unfold snprintf_at. change (u32 (13 - 15)) with 4294967294. rewrite snprintf_fits by (simpl; lia).
    reflexivity.
Qed.

Lemma mac_to_str_bounds_witness :
  let mac := map chr [0x00; 0x1b; 0x2c; 0x3d; 0xa4; 0xff] in
  HikDevMacHexToStr mac (replicate 18 NUL) 18 = Ok (s2b "00-1b-2c-3d-a4-ff" ++ [NUL]) /\
  HikDevMacHexToStr mac (replicate 13 NUL) 13 = Undefined OutOfBounds.
Proof.
  intros mac. split.
  - destruct (mac_to_str_bounds mac (replicate 18 NUL) 18 eq_refl ltac:(vm_compute; split; congruence) eq_refl)
      as [H _]. rewrite H by lia. vm_compute. reflexivity.
  - apply (mac_to_str_bounds mac (replicate 13 NUL) 13 eq_refl); [vm_compute; split; congruence|done|done].
Defined.

(** The numbers printed for a configuration are the fields packed in its
    words: the version halves and the date parts make up the word, both ways of
    taking the high half agree, the two bytes of the channel count make one
    number, and a support line says yes exactly when its bit is set. *)
Theorem dev_cfg_fields v c k label :
  in_u32 v -> 0 <= byIPChanNum c < 256 -> 0 <= byHighIPChanNum c < 256 -> 0 <= k < 8 ->
  v = high_word v * 2 ^ 16 + low_word v /\ masked_high_word v = high_word v /\
  v = high_word v * 2 ^ 16 + date_month v * 2 ^ 8 + date_day v /\
  ip_channels c = byHighIPChanNum c * 256 + byIPChanNum c /\
  out_bit label v (2 ^ k) = out label (s2b (if Z.testbit v k then "yes" else "no")).
Proof.
  intros Hv Hi Hh Hk. unfold in_u32 in Hv.
  assert (low_word v = v mod 2 ^ 16) as Hlow by (apply land_low_mod; done).
  assert (high_word v = v / 2 ^ 16) as Hhigh by (by apply Z.shiftr_div_pow2).
  assert (date_day v = v mod 2 ^ 8) as Hday by (apply land_low_mod; done).
  assert (date_month v = (v / 2 ^ 8) mod 2 ^ 8) as Hmonth.
  { unfold date_month. rewrite Z.shiftr_land, (Z.shiftr_div_pow2 v) by done.
    by apply land_low_mod. }
  split; [rewrite Hlow, Hhigh; divlia|]. split.
  { unfold masked_high_word. rewrite Z.shiftr_land. fold (high_word v). rewrite Hhigh.
    change (Z.shiftr 0xffff0000 16) with 0xffff. rewrite (land_low_mod _ 16) by done.
    apply Z.mod_small. divlia. }
  split; [rewrite Hday, Hmonth, Hhigh; divlia|]. split.
  { unfold ip_channels. rewrite Z.shiftl_mul_pow2, u32_small, <- Z.shiftl_mul_pow2 by (pows; lia).
    rewrite lor_shiftl_add by (pows; lia). pows. lia. }
  unfold out_bit. do 2 f_equal. unfold nz. rewrite <- (Z.shiftl_1_l k).
  destruct (Z.testbit v k) eqn:E.
  - rewrite (proj2 (Z.eqb_neq _ 0)); [done|]. intros H0. apply (f_equal (fun z => Z.testbit z k)) in H0.
    rewrite Z.land_spec, E, Z.bits_0, Z.shiftl_spec, Z.sub_diag in H0 by lia. done.
  - rewrite (proj2 (Z.eqb_eq _ 0)); [done|]. apply Z.bits_inj'. intros n Hn.
    rewrite Z.land_spec, Z.bits_0, Z.shiftl_spec by done.
    destruct (decide (n = k)) as [->|]; [by rewrite E|].
    replace (Z.testbit 1 (n - k)) with false; [by rewrite andb_false_r|]. symmetry.
    destruct (Z.lt_ge_cases n k); [by apply Z.testbit_neg_r; lia|].
    apply Z.bits_above_log2; simpl; lia.
Qed.

(** A recorder with 300 network channels. *)
Definition sample_device : NET_DVR_DEVICECFG_V40 := {|
  dev_dwSize := 352; sDVRName := s2b "gate" ++ zeros 28; dwDVRID := 1; dwRecycleRecord := 1;
  dev_sSerialNumber := s2b "DS-7800" ++ zeros 41; dwSoftwareVersion := 0x00040003;
  dwSoftwareBuildDate := 0x00130a1f; dwDSPSoftwareVersion := 0x00050000;
  dwDSPSoftwareBuildDate := 0x00130b01; dwPanelVersion := 0; dwHardwareVersion := 0;
  byAlarmInPortNum := 4; byAlarmOutPortNum := 1; byRS232Num := 1; byRS485Num := 1;
  byNetworkPortNum := 1; byDiskCtrlNum := 1; byDiskNum := 2; byDVRType := 3; byChanNum := 0;
  byStartChan := 1; byDecordChans := 0; byVGANum := 1; byUSBNum := 2; byAuxoutNum := 0;
  byAudioNum := 1; byIPChanNum := 44; byZeroChanNum := 1; bySupport := 0xa9; byEsataUseage := 0;
  byIPCPlug := 1; byStorageMode := 0; bySupport1 := 1; wDevType := 76;
  byDevTypeName := s2b "NVR" ++ zeros 21; bySupport2 := 0; byAnalogAlarmInPortNum := 4;
  byStartAlarmInNo := 1; byStartAlarmOutNo := 1; byStartIPAlarmInNo := 33;
  byStartIPAlarmOutNo := 33; byHighIPChanNum := 1; byEnableRemotePowerOn := 0; wDevClass := 101;
  dev_byRes2 := zeros 6
|}.

Lemma dev_cfg_fields_witness :
  ip_channels sample_device = 300 /\
  out_bit "Support Double NetCard : " (bySupport sample_device) 8 = s2b "Support Double NetCard : yes" ++ [LF].
Proof.
  destruct (dev_cfg_fields (bySupport sample_device) sample_device 3 "Support Double NetCard : ")
    as (_ & _ & _ & Hi & Hb); [vm_compute; split; congruence|simpl; lia|simpl; lia|lia|].
  split; [rewrite Hi; reflexivity|]. change 8 with (2 ^ 3). rewrite Hb. vm_compute. reflexivity.
Defined.
