(* ===== verification/SerialConfig.v ===== *)
(** * Opening and configuring the serial port: SerialPort.cpp

    [Open], [Close] and [Set] (src/src/SerialPort.cpp): the three device names
    tried in order, the terminal attributes computed flag by flag, and the error
    answers.  The operating system's calls are the operations of [Tty]. *)
From S2P Require Import Prelude CLib SerialLine.

(** ** Terminal attributes *)

Record termios := mkTermios {
  c_iflag : Z; c_oflag : Z; c_cflag : Z; c_lflag : Z; c_cc : list Z; c_ispeed : Z; c_ospeed : Z
}.

(** The constants of <termios.h> on Linux. *)
Definition CLOCAL : Z := 0x800.
Definition CREAD : Z := 0x80.
Definition CRTSCTS : Z := 0x80000000.
Definition IXON : Z := 0x400.
Definition IXOFF : Z := 0x1000.
Definition IXANY : Z := 0x800.
Definition CSIZE : Z := 0x30.
Definition CS5 : Z := 0x0.
Definition CS6 : Z := 0x10.
Definition CS7 : Z := 0x20.
Definition CS8 : Z := 0x30.
Definition PARENB : Z := 0x100.
Definition PARODD : Z := 0x200.
Definition CSTOPB : Z := 0x40.
Definition INPCK : Z := 0x10.
Definition OPOST : Z := 0x1.
Definition ICRNL : Z := 0x100.
Definition ICANON : Z := 0x2.
Definition ECHO : Z := 0x8.
Definition ECHOE : Z := 0x10.
Definition ISIG : Z := 0x1.
Definition VTIME : Z := 5.
Definition VMIN : Z := 6.
Definition CBAUD : Z := 0x100f.
Definition IBAUD0 : Z := 0x80000000.
Definition B115200 : Z := 0x1002.
Definition B19200 : Z := 0xe.
Definition B9600 : Z := 0xd.
Definition B4800 : Z := 0xc.
Definition B2400 : Z := 0xb.
Definition B1200 : Z := 0x9.
Definition B300 : Z := 0x7.

Definition with_iflag (f : Z -> Z) (t : termios) : termios :=
  mkTermios (f (c_iflag t)) (c_oflag t) (c_cflag t) (c_lflag t) (c_cc t) (c_ispeed t) (c_ospeed t).
Definition with_oflag (f : Z -> Z) (t : termios) : termios :=
  mkTermios (c_iflag t) (f (c_oflag t)) (c_cflag t) (c_lflag t) (c_cc t) (c_ispeed t) (c_ospeed t).
Definition with_cflag (f : Z -> Z) (t : termios) : termios :=
  mkTermios (c_iflag t) (c_oflag t) (f (c_cflag t)) (c_lflag t) (c_cc t) (c_ispeed t) (c_ospeed t).
Definition with_lflag (f : Z -> Z) (t : termios) : termios :=
  mkTermios (c_iflag t) (c_oflag t) (c_cflag t) (f (c_lflag t)) (c_cc t) (c_ispeed t) (c_ospeed t).
Definition with_cc (f : list Z -> list Z) (t : termios) : termios :=
  mkTermios (c_iflag t) (c_oflag t) (c_cflag t) (c_lflag t) (f (c_cc t)) (c_ispeed t) (c_ospeed t).

(** [flags |= b] and [flags &= ~b]. *)
Definition set_bits (b flags : Z) : Z := Z.lor flags b.
Definition clear_bits (b flags : Z) : Z := Z.ldiff flags b.

(** [cfsetispeed] and [cfsetospeed] of the C library: a word with bits outside
    [CBAUD] is refused (EINVAL) and changes nothing; a speed is kept in its member
    and in the [CBAUD] bits of [c_cflag].  The input speed 0 ("as the output") is
    the bit [IBAUD0] of [c_iflag] instead. *)
Definition cfsetispeed (speed : Z) (t : termios) : termios :=
  if nz (Z.ldiff speed CBAUD) then t
  else if speed =? 0 then
    mkTermios (set_bits IBAUD0 (c_iflag t)) (c_oflag t) (c_cflag t) (c_lflag t) (c_cc t)
      speed (c_ospeed t)
  else
    mkTermios (clear_bits IBAUD0 (c_iflag t)) (c_oflag t) (Z.lor (Z.ldiff (c_cflag t) CBAUD) speed)
      (c_lflag t) (c_cc t) speed (c_ospeed t).
Definition cfsetospeed (speed : Z) (t : termios) : termios :=
  if nz (Z.ldiff speed CBAUD) then t
  else
    mkTermios (c_iflag t) (c_oflag t) (Z.lor (Z.ldiff (c_cflag t) CBAUD) speed) (c_lflag t) (c_cc t)
      (c_ispeed t) speed.

(** ** The operating system *)

Class Tty (W : Type) := {
  tty_open : bytes -> W -> Z * W;
  tty_close : Z -> W -> W;
  tcgetattr : Z -> W -> option termios * W;
  tcflush_input : Z -> W -> W;
  tcsetattr_now : Z -> termios -> W -> bool * W
}.

(** ** [Set] *)

Definition speed_arr : list Z := [B115200; B19200; B9600; B4800; B2400; B1200; B300].
Definition name_arr : list Z := [115200; 19200; 9600; 4800; 2400; 1200; 300].

(** [sizeof(speed_arr)]: seven elements of four bytes. *)
Definition sizeof_speed_arr : Z := 4 * Z.of_nat (length speed_arr).

(** The words of the stack that lie behind the two arrays.  To C a read of them is
    undefined; a machine reads what is there.  With [nothing_past] such a read is
    the fault [OutOfBounds]. *)
Record past_end := mkPastEnd { past_speeds : list Z; past_names : list Z }.
Definition nothing_past : past_end := mkPastEnd [] [].

(** The [for] over the speeds, bounded by their size in bytes. *)
Definition speed_step (past : past_end) (baundrate : Z) (s : Z * termios) : exec (Z * termios + termios) :=
  let '(i, options) := s in
  if i <? sizeof_speed_arr then
    name ← read (name_arr ++ past_names past) i;
    if baundrate =? name then
      speed ← read (speed_arr ++ past_speeds past) i;
      Ok (inl (i + 1, cfsetospeed speed (cfsetispeed speed options)))
    else Ok (inl (i + 1, options))
  else Ok (inr options).

Definition set_speed (past : past_end) (baundrate : Z) (options : termios) : exec termios :=
  loopM (S (Z.to_nat sizeof_speed_arr)) (speed_step past baundrate) (0, options).

Definition set_flow (flow_ctrl : Z) (t : termios) : termios :=
  match flow_ctrl with
  | 0 => with_cflag (clear_bits CRTSCTS) t
  | 1 => with_cflag (set_bits CRTSCTS) t
  | 2 => with_cflag (set_bits (Z.lor (Z.lor IXON IXOFF) IXANY)) t
  | _ => t
  end.

Definition set_databits (databits : Z) (t : termios) : option termios :=
  let t := with_cflag (clear_bits CSIZE) t in
  match databits with
  | 5 => Some (with_cflag (set_bits CS5) t)
  | 6 => Some (with_cflag (set_bits CS6) t)
  | 7 => Some (with_cflag (set_bits CS7) t)
  | 8 => Some (with_cflag (set_bits CS8) t)
  | _ => None
  end.

(** The parity is a character code: n, N, o, O, e, E, s and S. *)
Definition set_parity (parity : Z) (t : termios) : option termios :=
  match parity with
  | 110 | 78 => Some (with_iflag (clear_bits INPCK) (with_cflag (clear_bits PARENB) t))
  | 111 | 79 => Some (with_iflag (set_bits INPCK) (with_cflag (set_bits (Z.lor PARODD PARENB)) t))
  | 101 | 69 =>
      Some (with_iflag (set_bits INPCK) (with_cflag (clear_bits PARODD) (with_cflag (set_bits PARENB) t)))
  | 115 | 83 => Some (with_cflag (clear_bits CSTOPB) (with_cflag (clear_bits PARENB) t))
  | _ => None
  end.

Definition set_stopbits (stopbits : Z) (t : termios) : option termios :=
  match stopbits with
  | 1 => Some (with_cflag (clear_bits CSTOPB) t)
  | 2 => Some (with_cflag (set_bits CSTOPB) t)
  | _ => None
  end.

(** From the control modes to [c_cc]; [None] is an unsupported setting. *)
Definition set_options (flow_ctrl databits stopbits parity : Z) (t : termios) : option termios :=
  let t := with_cflag (set_bits CREAD) (with_cflag (set_bits CLOCAL) t) in
  t ← set_databits databits (set_flow flow_ctrl t);
  t ← set_parity parity t;
  t ← set_stopbits stopbits t;
  let t := with_oflag (clear_bits OPOST) t in
  let t := with_iflag (clear_bits ICRNL) t in
  let t := with_lflag (clear_bits (Z.lor (Z.lor (Z.lor ICANON ECHO) ECHOE) ISIG)) t in
  Some (with_cc (fun cc => <[Z.to_nat VMIN := 1]> (<[Z.to_nat VTIME := 1]> cc)) t).

Section Port.
Context {W : Type} `{!Tty W}.

(** [SerialPort::Set] on a stack with [past] behind its two arrays. *)
Definition Set_with (past : past_end) (fd baundrate flow_ctrl databits stopbits parity : Z) (w : W)
    : exec (Z * W) :=
  match tcgetattr fd w with
  | (None, w) => Ok (UART_FALSE, w)
  | (Some options, w) =>
      options ← set_speed past baundrate options;
      match set_options flow_ctrl databits stopbits parity options with
      | None => Ok (UART_FALSE, w)
      | Some options =>
          let w := tcflush_input fd w in
          let '(ok, w) := tcsetattr_now fd options w in
          if negb ok then Ok (UART_FALSE, w) else Ok (UART_TRUE, w)
      end
  end.

(** [SerialPort::Set] as C defines it. *)
Definition Set_ : Z -> Z -> Z -> Z -> Z -> Z -> W -> exec (Z * W) := Set_with nothing_past.

Definition dev_t : list bytes := [s2b "/dev/ttyUSB0"; s2b "/dev/ttyUSB1"; s2b "/dev/ttyUSB2"].

(** The [while] of [Open]: the descriptor, or [UART_FALSE] when no port is left. *)
Definition open_step (s : Z * W) : exec (Z * W + Z * W) :=
  let '(port_id, w) := s in
  name ← read dev_t port_id;
  let '(fd, w) := tty_open name w in
  if fd =? UART_FALSE then
    if Z.of_nat (length dev_t) <=? port_id + 1 then Ok (inr (UART_FALSE, w))
    else Ok (inl (port_id + 1, w))
  else Ok (inr (fd, w)).

(** [SerialPort::Open]: its result, the descriptor it leaves in [fd], and
    [isnormal]; [past] is for [Set]. *)
Definition Open_with (past : past_end) (isnormal baundrate databite stopbite parity : Z) (w : W)
    : exec (Z * Z * Z * W) :=
  '(fd, w) ← loopM 3 open_step (0, w);
  if fd =? UART_FALSE then Ok (UART_FALSE, fd, isnormal, w)
  else
    '(r, w) ← Set_with past fd baundrate 0 databite stopbite parity w;
    Ok (r, fd, r, w).

(** [SerialPort::Open] as C defines it. *)
Definition Open : Z -> Z -> Z -> Z -> Z -> W -> exec (Z * Z * Z * W) := Open_with nothing_past.

Definition Close (fd : Z) (w : W) : W := tty_close fd w.
End Port.

(** ** Lemmas *)

Lemma below_32 n : 0 <= n < 32 -> In n (List.map Z.of_nat (seq 0 32)).
Proof.
  intros Hn. apply in_map_iff. exists (Z.to_nat n). split; [lia|]. apply in_seq. lia.
Qed.

(** An equation of masked flags, bit by bit. *)
Ltac flag_bits :=
  apply Z.bits_inj'; let n := fresh "n" in let Hn := fresh in intros n Hn;
  repeat first [rewrite Z.land_spec | rewrite Z.lor_spec | rewrite Z.ldiff_spec];
  let H := fresh in
  destruct (Z.lt_ge_cases n 32) as [H|H];
  [ let H' := fresh in
    pose proof (below_32 n (conj Hn H)) as H'; vm_compute in H'; clear -H';
    repeat destruct H' as [<- | H']; [..|destruct H'];
    repeat match goal with
    | |- context [Z.testbit ?c ?k] =>
        let v := eval vm_compute in (Z.testbit c k) in
        lazymatch v with
        | true => change (Z.testbit c k) with true
        | false => change (Z.testbit c k) with false
        end
    end; cbn [negb];
    rewrite ?andb_false_r, ?andb_true_r, ?orb_true_r, ?orb_false_r, ?andb_false_r; reflexivity
  | repeat match goal with
    | |- context [Z.testbit ?c n] =>
        lazymatch eval vm_compute in c with
        | Z0 => rewrite (Z.bits_0 n)
        | Zpos _ => rewrite (Z.bits_above_log2 c n)
            by (first [vm_compute; congruence | apply Z.lt_le_trans with 32; [vm_compute; reflexivity | lia]])
        end
    end;
    cbn [negb]; rewrite ?andb_false_r, ?andb_true_r, ?orb_false_r, ?andb_true_r; reflexivity ].

Lemma speed_step_eq past baud i options :
  speed_step past baud (i, options) =
    if i <? sizeof_speed_arr then
      name ← read (name_arr ++ past_names past) i;
      if baud =? name then
        speed ← read (speed_arr ++ past_speeds past) i;
        Ok (inl (i + 1, cfsetospeed speed (cfsetispeed speed options)))
      else Ok (inl (i + 1, options))
    else Ok (inr options).
Proof. done. Qed.

(** Within the arrays each round continues. *)
Lemma speed_round past baud (i : nat) options :
  (i < 7)%nat ->
  exists options', speed_step past baud (Z.of_nat i, options) = Ok (inl (Z.of_nat (S i), options')).
Proof.
  intros Hi. rewrite speed_step_eq, (proj2 (Z.ltb_lt _ _)) by (unfold sizeof_speed_arr; simpl; lia).
  destruct (lookup_lt_is_Some_2 name_arr i Hi) as [nm Hn], (lookup_lt_is_Some_2 speed_arr i Hi) as [sp Hs].
  rewrite (read_lookup (name_arr ++ past_names past) i nm) by (rewrite lookup_app_l; [exact Hn|exact Hi]). cbn [mbind result_bind].
  replace (Z.of_nat i + 1) with (Z.of_nat (S i)) by lia.
  destruct (baud =? nm); [|eauto].
  rewrite (read_lookup _ i sp) by (rewrite lookup_app_l; [exact Hs|exact Hi]).
  cbn [mbind result_bind]. eauto.
Qed.

(** The bound in bytes runs the loop off its arrays. *)
Lemma set_speed_out_of_bounds baud options :
  set_speed nothing_past baud options = Undefined OutOfBounds.
Proof.
  unfold set_speed. change (Z.to_nat sizeof_speed_arr) with 28%nat.
  assert (forall i k options, (i + k = 7)%nat ->
    loopM (k + 22) (speed_step nothing_past baud) (Z.of_nat i, options) = Undefined OutOfBounds) as H.
  { intros i k. revert i. induction k as [|k IH]; intros i o Hik; cbn [Nat.add]; rewrite loopM_S.
    - replace i with 7%nat by lia. rewrite speed_step_eq.
      change (Z.of_nat 7 <? sizeof_speed_arr) with true. reflexivity.
    - destruct (speed_round nothing_past baud i o) as [o' ->]; [lia|].
      cbn [mbind result_bind]. apply IH. lia. }
  apply (H 0%nat 7%nat). done.
Qed.

(** Names past the end that are not the rate asked for change nothing. *)
Lemma set_speed_past past baud : forall k (i : nat) options,
  (7 <= i)%nat -> (i + k = 28)%nat -> (21 <= length (past_names past))%nat ->
  Forall (fun name => name <> baud) (past_names past) ->
  loopM (S k) (speed_step past baud) (Z.of_nat i, options) = Ok options.
Proof.
  induction k as [|k IH]; intros i o Hi Hik Hl Hn; rewrite loopM_S, speed_step_eq.
  { by rewrite (proj2 (Z.ltb_ge _ _)) by (unfold sizeof_speed_arr; simpl; lia). }
  rewrite (proj2 (Z.ltb_lt _ _)) by (unfold sizeof_speed_arr; simpl; lia).
  destruct (lookup_lt_is_Some_2 (past_names past) (i - 7)) as [nm Hnm]; [lia|].
  rewrite (read_lookup (name_arr ++ past_names past) i nm) by (rewrite lookup_app_r by (simpl; lia); exact Hnm).
  cbn [mbind result_bind]. apply list_elem_of_lookup_2 in Hnm.
  pose proof (proj1 (list.Forall_forall _ _) Hn nm Hnm) as Hne.
  rewrite (proj2 (Z.eqb_neq _ _)) by (intros E; by apply Hne).
  replace (Z.of_nat i + 1) with (Z.of_nat (S i)) by lia. apply IH; (lia || done).
Qed.

(** The speed set in both members and in the control modes. *)
Lemma cfset_115200 t :
  cfsetospeed B115200 (cfsetispeed B115200 t) =
    mkTermios (clear_bits IBAUD0 (c_iflag t)) (c_oflag t)
      (Z.lor (Z.ldiff (Z.lor (Z.ldiff (c_cflag t) CBAUD) B115200) CBAUD) B115200)
      (c_lflag t) (c_cc t) B115200 B115200.
Proof. reflexivity. Qed.

(** The rate of the service is found at the first index. *)
Lemma set_speed_115200 past options :
  (21 <= length (past_names past))%nat -> Forall (fun name => name <> 115200) (past_names past) ->
  set_speed past 115200 options = Ok (cfsetospeed B115200 (cfsetispeed B115200 options)).
Proof.
  intros Hl Hn. unfold set_speed. change (S (Z.to_nat sizeof_speed_arr)) with 29%nat.
  transitivity (loopM 22 (speed_step past 115200)
    (Z.of_nat 7, cfsetospeed B115200 (cfsetispeed B115200 options))); [reflexivity|].
  by apply (set_speed_past past 115200 21 7); [lia..| |].
Qed.

(** ** Properties *)

Section Properties.
Context {W : Type} `{!Tty W}.

(** Whenever the attributes of the port can be read, [Set] runs off its
    tables: the loop over seven speeds is bounded by their size in bytes. *)
Theorem Set_out_of_bounds fd baud flow databits stopbits parity options (w w' : W) :
  tcgetattr fd w = (Some options, w') ->
  Set_ fd baud flow databits stopbits parity w = Undefined OutOfBounds.
Proof.
  intros H. unfold Set_, Set_with. rewrite H. by rewrite set_speed_out_of_bounds.
Qed.

(** C35: the service's call of [Set] (115200 baud, eight data bits, one stop bit, no
    parity, no flow control).  Its loop over the speeds reads 21 words behind its
    arrays, which C leaves undefined; on a machine where those words can be read
    and are not the rate 115200, [Set] hands [tcsetattr] the attributes it read
    with exactly these changes, and answers as [tcsetattr] does: both speeds
    115200; of the control modes the speed, eight data bits, one stop bit, no
    parity, the receiver on, modem lines ignored, hardware flow control off; of the
    input modes only the parity check, the translation of CR and the mark of speed
    0 cleared; of the output modes only post-processing cleared; of the local modes
    only line editing, echo, visual erase and signals cleared; of the control
    characters VTIME and VMIN set to 1.  Every other mode stays as the port had it,
    software flow control and the other translations of input among them. *)
Theorem Set_raw_8N1 past fd options (w w' : W) :
  tcgetattr fd w = (Some options, w') -> (8 <= length (c_cc options))%nat ->
  (21 <= length (past_names past))%nat -> Forall (fun name => name <> 115200) (past_names past) ->
  exists o,
    Set_with past fd 115200 0 8 1 78 w =
      (let '(ok, w'') := tcsetattr_now fd o (tcflush_input fd w') in
       Ok (if ok : bool then UART_TRUE else UART_FALSE, w'')) /\
    c_ispeed o = B115200 /\ c_ospeed o = B115200 /\
    (let changed := CBAUD + CSIZE + PARENB + CSTOPB + CLOCAL + CREAD + CRTSCTS in
     Z.land (c_cflag o) changed = B115200 + CS8 + CLOCAL + CREAD /\
     Z.ldiff (c_cflag o) changed = Z.ldiff (c_cflag options) changed) /\
    c_iflag o = Z.ldiff (c_iflag options) (INPCK + ICRNL + IBAUD0) /\
    c_oflag o = Z.ldiff (c_oflag options) OPOST /\
    c_lflag o = Z.ldiff (c_lflag options) (ICANON + ECHO + ECHOE + ISIG) /\
    c_cc o = <[6%nat := 1]> (<[5%nat := 1]> (c_cc options)) /\
    c_cc o !! 5%nat = Some 1 /\ c_cc o !! 6%nat = Some 1.
Proof.
  intros H Hcc Hl Hn. unfold Set_with. rewrite H, set_speed_115200, cfset_115200 by done.
  cbn [mbind result_bind set_options set_databits set_parity set_stopbits set_flow option_bind].
  match goal with |- context [tcsetattr_now fd ?o _] => exists o end. split.
  { destruct (tcsetattr_now _ _ _) as [[] w'']; reflexivity. }
  cbn. unfold clear_bits, set_bits. change (Z.to_nat VTIME) with 5%nat. change (Z.to_nat VMIN) with 6%nat.
  do 2 (split; [done|]). split; [split; flag_bits|]. do 3 (split; [flag_bits|]). split; [done|]. split.
  - rewrite list_lookup_insert_ne by done. apply list_lookup_insert_eq. lia.
  - apply list_lookup_insert_eq. rewrite length_insert. lia.
Qed.
End Properties.

(** Software flow control puts input flags among the control flags: the
    input modes stay as they are, and every speed but 115200 turns into another. *)
Theorem soft_flow_breaks_speed speed t :
  In speed speed_arr ->
  let t' := set_flow 2 (cfsetospeed speed t) in
  c_iflag t' = c_iflag t /\
  Z.land (c_cflag t') CBAUD = (if speed =? B115200 then speed else speed + 0x1000).
Proof.
  intros Hs. cbn zeta. unfold set_flow, with_cflag.
  assert (cfsetospeed speed t = mkTermios (c_iflag t) (c_oflag t) (Z.lor (Z.ldiff (c_cflag t) CBAUD) speed)
    (c_lflag t) (c_cc t) (c_ispeed t) speed) as ->
    by (repeat (destruct Hs as [<- | Hs]; [reflexivity|]); destruct Hs).
  split; [done|]. cbn. unfold set_bits.
  repeat (destruct Hs as [<- | Hs]; [flag_bits|]). destruct Hs.
Qed.

(** ** An instance: a port that keeps what is set *)

#[export] Instance TestTty : Tty termios := {|
  tty_open name w := (if decide (name = s2b "/dev/ttyUSB1") then 3 else UART_FALSE, w);
  tty_close _ w := w;
  tcgetattr _ w := (Some w, w);
  tcflush_input _ w := w;
  tcsetattr_now _ o w := (true, o)
|}.

(** A terminal in its usual line mode at 9600 baud. *)
Definition sample_termios : termios :=
  mkTermios 0x500 0x5 0xbd 0x8a3b (replicate 19 0) B9600 B9600.

Lemma Set_out_of_bounds_witness :
  @Set_ termios TestTty 3 115200 0 8 1 78 sample_termios = Undefined OutOfBounds.
Proof. apply (@Set_out_of_bounds termios TestTty 3 115200 0 8 1 78 sample_termios sample_termios sample_termios). reflexivity. Defined.

(** A stack with zeros behind the arrays. *)
Definition zeros_past : past_end := mkPastEnd (replicate 21 0) (replicate 21 0).

(** The port keeps its software flow control. *)
Lemma Set_raw_8N1_witness :
  exists o, @Set_with termios TestTty zeros_past 3 115200 0 8 1 78 sample_termios = Ok (UART_TRUE, o) /\
    c_ospeed o = B115200 /\ c_iflag o = IXON.
Proof.
  destruct (@Set_raw_8N1 termios TestTty zeros_past 3 sample_termios sample_termios sample_termios eq_refl
    ltac:(simpl; lia) ltac:(simpl; lia)) as (o & E & _ & Hs & _ & Hi & _).
  { unfold zeros_past. cbn. repeat (apply List.Forall_cons; [discriminate|]). apply List.Forall_nil. }
  exists o. split; [exact E|]. split; [exact Hs|]. rewrite Hi. reflexivity.
Defined.

Lemma soft_flow_breaks_speed_witness :
  Z.land (c_cflag (set_flow 2 (cfsetospeed B9600 sample_termios))) CBAUD = 0x100d.
Proof.
  rewrite (proj2 (soft_flow_breaks_speed B9600 sample_termios ltac:(simpl; tauto))). reflexivity.
Defined.
