(* ===== verification/AlarmLoop.v ===== *)
(** * The alarm loop of main.cpp

    The [while (ServiceRun)] loop of [main] (src/src/main.cpp): it takes the
    unread alarms of the ring, looks each camera up in the tables and sends one
    text message per warning phone.  A schedule of events says when the SDK
    notifies an alarm, when a signal arrives and when the loop runs a round; the
    specification is a queue of pending alarms and an outbox. *)
From S2P Require Import Prelude CLib Utf16 Message SerialLine AlarmRing StdMap DataBase CsvError.

(** ** State *)

(** What ends [main] early: its [return -1], or an exception nothing catches. *)
Inductive service_stop :=
  | ReturnMinusOne
  | UncaughtStd (e : std_exception)
  | UncaughtCsv (e : csv_error).

(** The buffers given to [writeBuffer] so far, with what it answered. *)
Abbreviation outbox := (list (bytes * Z)).

(** Code of the loop: a stop leaves the outbox as it was by then. *)
Abbreviation loop_result A := (result (service_stop * outbox) A).

(** The variables the loop works on. *)
Record service := mkService {
  ServiceRun : bool;
  ring : alarm_state;
  tables : database;
  sent : outbox
}.

Definition SIGTERM : Z := 15.

(** [ProcessQuit], the signal handler. *)
Definition ProcessQuit (pid : Z) (ServiceRun : bool) : bool :=
  if SIGTERM =? pid then false else ServiceRun.

(** Code that throws nothing, in code that may. *)
Definition lift {E A} (m : exec A) : result E A :=
  match m with
  | Ok a => Ok a
  | Throw e => match e with end
  | Undefined f => Undefined f
  end.

(** An exception of the standard library leaves [main]. *)
Definition uncaught {A} (log : outbox) (m : result std_exception A) : loop_result A :=
  match m with
  | Ok a => Ok a
  | Throw e => Throw (UncaughtStd e, log)
  | Undefined f => Undefined f
  end.

(** ** A round of the loop *)

(** [snprintf(sDataTime, 128, ...)] and [strDataTime.insert(0, sDataTime)]. *)
Definition date_text (d : date_time) : bytes :=
  cstr (fst (snprintf 128
    (fmt_u (uiYear d) ++ s2b "-" ++ fmt_u (uiMonth d) ++ s2b "-" ++ fmt_u (uiDay d) ++ s2b " " ++
     fmt_u (uiHour d) ++ s2b ":" ++ fmt_u (uiMinute d) ++ s2b ":" ++ fmt_u (uiSecond d)))).

Definition BufSent_size : Z := 512.

(** The [for] that copies the message to [BufSent]. *)
Definition copy_step (strMsgSent : bytes) (s : Z * bytes) : exec (Z * bytes + Z * bytes) :=
  let '(size, BufSent) := s in
  if size <? str_size strMsgSent then
    c ← read strMsgSent size;
    BufSent ← write BufSent size c;
    Ok (inl (u32 (size + 1), BufSent))
  else Ok (inr (size, BufSent)).

Definition copy_message (strMsgSent : bytes) : exec (Z * bytes) :=
  loopM (S (S (Z.to_nat BufSent_size))) (copy_step strMsgSent)
    (0, replicate (Z.to_nat BufSent_size) NUL).

(** An alarm as the loop sees it: the device and the time. *)
Abbreviation alarm_key := (NET_DVR_ALARMER * Z)%type.

Definition key_of (a : ALARM_MOTION_DETECT) : alarm_key := (struAlarmDevInfo a, AlarmTime a).

Section Loop.
(** The system's time zone and its [write], and the open port. *)
Variable localtime_r : Z -> tm.
Variable os_write : Z -> bytes -> Z.
Variable MsgModuleCom : SerialPort.

(** The body of the loop over the phones; the answer of [writeBuffer] is not
    looked at. *)
Definition send_phone (strDataTime strAlarmIp strAlarmDevName phone : bytes) (log : outbox)
    : loop_result outbox :=
  strMsgSent ← uncaught log (PackMsgToAlarm strDataTime strAlarmIp strAlarmDevName phone);
  '(size, BufSent) ← lift (copy_message strMsgSent);
  data ← slice BufSent 0 size;
  Ok (log ++ [(data, writeBuffer os_write MsgModuleCom data)]).

Fixpoint send_phones (strDataTime strAlarmIp strAlarmDevName : bytes) (vstrPhone : list bytes)
    (log : outbox) : loop_result outbox :=
  match vstrPhone with
  | [] => Ok log
  | phone :: vstrPhone' =>
      log ← send_phone strDataTime strAlarmIp strAlarmDevName phone log;
      send_phones strDataTime strAlarmIp strAlarmDevName vstrPhone' log
  end.

(** The body of the loop over the alarms, once the date and the address are known. *)
Definition deliver_alarm (strDataTime strAlarmIp : bytes) (db : database) (log : outbox)
    : loop_result (database * outbox) :=
  if bool_decide (strAlarmIp = []) then Ok (db, log)
  else
    '(ok, strAlarmDevName, db) ← lift (GetCameraName strAlarmIp [] db);
    if negb ok then Ok (db, log)
    else
      let '(ok, vstrPhone, db) := GetCameraWarnPhone strAlarmIp [] db in
      if negb ok then Throw (ReturnMinusOne, log)
      else
        log ← send_phones strDataTime strAlarmIp strAlarmDevName vstrPhone log;
        Ok (db, log).

(** The whole body. *)
Definition handle_alarm (i : Z) (r : alarm_state) (db : database) (log : outbox)
    : loop_result (database * outbox) :=
  d ← lift (HikDevGetAlarmDateTime localtime_r i r);
  let strDataTime := date_text d in
  strAlarmIp ← lift (HikDevGetAlarmIp i [] r);
  deliver_alarm strDataTime strAlarmIp db log.

Definition alarm_step (uiAlarmNum : Z) (r : alarm_state) (s : Z * database * outbox)
    : loop_result (Z * database * outbox + database * outbox) :=
  let '(i, db, log) := s in
  if i <? uiAlarmNum then
    '(db, log) ← handle_alarm i r db log;
    Ok (inl (u32 (i + 1), db, log))
  else Ok (inr (db, log)).

(** One round; [sleep] and [usleep] pass time only. *)
Definition service_round (s : service) : loop_result service :=
  let uiAlarmNum := HikDevGetAlarmNum (ring s) in
  if uiAlarmNum =? 0 then Ok s
  else
    '(db, log) ← loopM (S (Z.to_nat uiAlarmNum)) (alarm_step uiAlarmNum (ring s))
                   (0, tables s, sent s);
    Ok (mkService (ServiceRun s) (HikDevSetAlarmIdxOffset uiAlarmNum (ring s)) db log).

(** *** Schedules *)

(** What happens around the loop, one after the other. *)
Inductive event :=
  | Notify (lCommand : Z) (pAlarmer : NET_DVR_ALARMER) (pAlarmInfo : bytes) (now : Z)
  | Signal (pid : Z)
  | Round.

(** [inr] is the loop left, its condition being false. *)
Definition service_event (e : event) (s : service) : loop_result (service + service) :=
  match e with
  | Notify lCommand a info now =>
      r ← lift (HikDevAlarmCallback lCommand a info now (ring s));
      Ok (inl (mkService (ServiceRun s) r (tables s) (sent s)))
  | Signal pid => Ok (inl (mkService (ProcessQuit pid (ServiceRun s)) (ring s) (tables s) (sent s)))
  | Round => if ServiceRun s then s' ← service_round s; Ok (inl s') else Ok (inr s)
  end.

Fixpoint service_loop (events : list event) (s : service) : loop_result (service + service) :=
  match events with
  | [] => Ok (inl s)
  | e :: events' =>
      r ← service_event e s;
      match r with
      | inl s' => service_loop events' s'
      | inr s' => Ok (inr s')
      end
  end.

(** ** Specification *)

(** The address an alarm gives, empty when it gives none. *)
Definition alarm_ip (a : NET_DVR_ALARMER) : bytes :=
  if nz (byDeviceIPValid a) then cstr (sDeviceIP a) else [].

Definition alarm_date (now : Z) : bytes := date_text (date_of_tm (localtime_r now)).

(** The text sent to one phone: nothing for an empty number. *)
Definition phone_text (date ip name phone : bytes) : bytes :=
  if bool_decide (phone = []) then [] else message date ip name phone.

(** The directory: the cameras and their phones by address. *)
Variable cams : list camera.
Variable phones : bytes -> option (list bytes).

(** The messages an alarm leads to: none for an unknown camera. *)
Definition alarm_texts (k : alarm_key) : list bytes :=
  let ip := alarm_ip (fst k) in
  if bool_decide (ip = []) then []
  else match with_ip ip cams with
       | [] => []
       | c :: _ => phone_text (alarm_date (snd k)) ip (c_name c) <$> default [] (phones ip)
       end.

Definition written (text : bytes) : bytes * Z := (text, writeBuffer os_write MsgModuleCom text).

(** The specification's state. *)
Record queue_spec := mkSpec {
  running : bool;
  pending : list alarm_key;
  delivered : outbox
}.

(** A notification that puts an alarm in the queue. *)
Definition is_recorded (lCommand : Z) (info : bytes) : bool :=
  bool_decide (is_motion lCommand info) &&
  negb (bool_decide (Forall (fun c => uchar c = 0) (channel_bytes info))).

(** [None]: the queue would hold more alarms than the ring can count. *)
Definition spec_event (e : event) (s : queue_spec) : option (queue_spec + queue_spec) :=
  match e with
  | Notify lCommand a info now =>
      if is_recorded lCommand info then
        if (length (pending s) <? 31)%nat
        then Some (inl (mkSpec (running s) (pending s ++ [(a, now)]) (delivered s)))
        else None
      else Some (inl s)
  | Signal pid => Some (inl (mkSpec (if pid =? SIGTERM then false else running s) (pending s) (delivered s)))
  | Round =>
      if running s
      then Some (inl (mkSpec true [] (delivered s ++ (written <$> (pending s ≫= alarm_texts)))))
      else Some (inr s)
  end.

Fixpoint spec_loop (events : list event) (s : queue_spec) : option (queue_spec + queue_spec) :=
  match events with
  | [] => Some (inl s)
  | e :: events' =>
      match spec_event e s with
      | Some (inl s') => spec_loop events' s'
      | r => r
      end
  end.

(** The service state that stands for a specification state. *)
Definition represents (s : service) (q : queue_spec) : Prop :=
  ServiceRun s = running q /\ ring_inv (ring s) /\ key_of <$> unread (ring s) = pending q /\
  holds (tables s) cams phones /\ sent s = delivered q.

(** An address as a C string in its array. *)
Definition alarmer_ok (a : NET_DVR_ALARMER) : Prop :=
  byDeviceIPValid a <> 0 -> NUL ∈ sDeviceIP a.

(** A message to the phone can be built and fits in [BufSent]. *)
Definition deliverable (date ip name phone : bytes) : Prop :=
  phone = [] \/
  (length phone = 11%nat /\ message_size date ip name phone <= BufSent_size).

(** The alarms of a known camera can be delivered at the time [now]. *)
Definition alarm_ok (k : alarm_key) : Prop :=
  let ip := alarm_ip (fst k) in
  alarmer_ok (fst k) /\ convertible ip /\
  forall c cs, with_ip ip cams = c :: cs -> ip <> [] ->
    convertible (c_name c) /\
    exists ps, phones ip = Some ps /\
      Forall (deliverable (alarm_date (snd k)) ip (c_name c)) ps.

Definition event_ok (e : event) : Prop :=
  match e with
  | Notify _ a info now => (232 <= length info)%nat /\ alarm_ok (a, now)
  | _ => True
  end.
End Loop.

(** ** Lemmas *)

Lemma lift_ok {E A} (m : exec A) a : m = Ok a -> @lift E A m = Ok a.
Proof. by intros ->. Qed.

Lemma date_text_convertible d : convertible (date_text d).
Proof.
  unfold convertible, date_text. set (full := _ ++ _). pose proof (snprintf_bounded 128 full ltac:(lia)).
  pose proof (cstr_length_le (fst (snprintf 128 full))). pows. lia.
Qed.

(** *** Copying to [BufSent] *)

Lemma copy_step_eq m size buf :
  copy_step m (size, buf) =
    if size <? str_size m then
      c ← read m size; buf ← write buf size c; Ok (inl (u32 (size + 1), buf))
    else Ok (inr (size, buf)).
Proof. done. Qed.

(** From [pre] copied on, with [junk] left in the array. *)
Lemma copy_loop fuel : forall post pre junk,
  (length pre + length junk = 512)%nat -> (length junk + 1 < fuel)%nat ->
  loopM fuel (copy_step (pre ++ post)) (Z.of_nat (length pre), pre ++ junk) =
    if (length post <=? length junk)%nat
    then Ok (Z.of_nat (length (pre ++ post)), pre ++ post ++ drop (length post) junk)
    else Undefined OutOfBounds.
Proof.
  induction fuel as [|fuel IH]; intros post pre junk Hl Hf; [lia|].
  rewrite loopM_S, copy_step_eq. unfold str_size. destruct post as [|c post].
  { rewrite app_nil_r, Z.ltb_irrefl. cbn [mbind result_bind length Nat.leb app drop]. done. }
  rewrite (proj2 (Z.ltb_lt _ _)) by (rewrite length_app; simpl; lia).
  rewrite read_middle by done. cbn [mbind result_bind]. destruct junk as [|j junk].
  { rewrite app_nil_r. unfold write. rewrite Z.leb_refl, orb_true_r. done. }
  rewrite write_middle by done. cbn [mbind result_bind]. simpl in Hl, Hf.
  rewrite u32_small by (pows; lia).
  replace (Z.of_nat (length pre) + 1) with (Z.of_nat (length (pre ++ [c])))
    by (rewrite length_app; simpl; lia).
  change (c :: post) with ([c] ++ post). change (c :: junk) with ([c] ++ junk).
  rewrite !app_assoc. rewrite IH by (rewrite ?length_app; simpl; lia).
  cbn [length app Nat.leb drop]. case_match; [|done]. by rewrite <- !app_assoc.
Qed.

Lemma copy_message_eq m :
  copy_message m =
    if (length m <=? 512)%nat then Ok (str_size m, m ++ drop (length m) (replicate 512 NUL))
    else Undefined OutOfBounds.
Proof.
  pose proof (copy_loop 514 m [] (replicate 512 NUL)) as E.
  rewrite length_replicate in E. apply E; simpl; lia.
Qed.

Lemma copy_message_fits m :
  str_size m <= BufSent_size ->
  exists buf, copy_message m = Ok (str_size m, buf) /\
    @slice (service_stop * outbox) _ buf 0 (str_size m) = Ok m.
Proof.
  intros H. unfold str_size, BufSent_size in *. rewrite copy_message_eq.
  rewrite (proj2 (Nat.leb_le _ _)) by lia. eexists. split; [done|].
  unfold str_size. rewrite slice_front by (rewrite length_app; lia). by rewrite take_app_length.
Qed.

Lemma copy_message_overflows m :
  BufSent_size < str_size m -> copy_message m = Undefined OutOfBounds.
Proof.
  intros H. unfold str_size, BufSent_size in *. rewrite copy_message_eq.
  by rewrite (proj2 (Nat.leb_gt _ _)) by lia.
Qed.

Lemma message_length date ip name phone :
  convertible date -> convertible ip -> convertible name -> ip <> [] -> length phone = 11%nat ->
  str_size (message date ip name phone) = message_size date ip name phone.
Proof.
  intros Hd Hi Hn Hip Hph.
  destruct (PackMsgToAlarm_size date ip name phone) as (m & E & Hs); [done..|lia|].
  rewrite PackMsgToAlarm_eleven in E by done. by injection E as <-.
Qed.

Section LoopLemmas.
Context (localtime_r : Z -> tm) (os_write : Z -> bytes -> Z) (com : SerialPort).
Context (cams : list camera) (phones : bytes -> option (list bytes)).
Context (Hcams : Z.of_nat (length cams) < 2 ^ 32).

Abbreviation written := (written os_write com).
Abbreviation alarm_texts := (alarm_texts localtime_r cams phones).

Lemma send_phone_text date ip name phone log :
  convertible date -> convertible ip -> convertible name -> ip <> [] ->
  deliverable date ip name phone ->
  send_phone os_write com date ip name phone log =
    Ok (log ++ [written (phone_text date ip name phone)]).
Proof.
  intros Hd Hi Hn Hip Hok. unfold send_phone, phone_text.
  assert (exists m, PackMsgToAlarm date ip name phone = Ok m /\ str_size m <= BufSent_size /\
    m = if bool_decide (phone = []) then [] else message date ip name phone) as (m & -> & Hs & <-).
  { destruct Hok as [->|[Hl Hs]].
    - exists []. unfold PackMsgToAlarm. rewrite orb_true_r. split; [done|]. split; [done|].
      done.
    - assert (phone <> []) by (intros ->; done). exists (message date ip name phone).
      rewrite PackMsgToAlarm_eleven, bool_decide_eq_false_2 by done.
      by rewrite message_length by done. }
  cbn [uncaught mbind result_bind]. destruct (copy_message_fits m Hs) as (buf & -> & Hb).
  cbn [lift mbind result_bind]. rewrite Hb. done.
Qed.

Lemma send_phones_texts date ip name ps : forall log,
  convertible date -> convertible ip -> convertible name -> ip <> [] ->
  Forall (deliverable date ip name) ps ->
  send_phones os_write com date ip name ps log =
    Ok (log ++ (written <$> (phone_text date ip name <$> ps))).
Proof.
  intros log Hd Hi Hn Hip Hps. revert log.
  induction Hps as [|p ps Hp _ IH]; intros log; cbn [send_phones]; [by rewrite app_nil_r|].
  rewrite send_phone_text by done. cbn [mbind result_bind]. rewrite IH, <- app_assoc. done.
Qed.

Lemma alarm_ip_ok r i a :
  alarm_at i r = Ok a -> alarmer_ok (struAlarmDevInfo a) ->
  HikDevGetAlarmIp i [] r = Ok (alarm_ip (struAlarmDevInfo a)).
Proof.
  intros Ha Hok. unfold HikDevGetAlarmIp, alarm_ip, alarmer_ok, nz in *. rewrite Ha.
  cbn [mbind result_bind]. destruct (Z.eqb_spec (byDeviceIPValid (struAlarmDevInfo a)) 0); [done|].
  cbn [negb]. unfold c_string. by rewrite decide_True by auto.
Qed.

(** An alarm that can be delivered, from its address on. *)
Lemma deliver_alarm_texts k db log :
  alarm_ok localtime_r cams phones k -> holds db cams phones ->
  deliver_alarm os_write com (alarm_date localtime_r (snd k)) (alarm_ip (fst k)) db log =
    Ok (db, log ++ (written <$> alarm_texts k)).
Proof.
  intros (Hip & Hci & Hok) Hdb. unfold deliver_alarm, AlarmLoop.alarm_texts.
  destruct (decide (alarm_ip (fst k) = [])) as [E|E];
    [rewrite !bool_decide_eq_true_2 by done; by rewrite app_nil_r|].
  rewrite !bool_decide_eq_false_2 by done. rewrite (GetCameraName_holds db cams phones) by done.
  cbn [mbind result_bind lift]. destruct (with_ip _ cams) as [|c cs] eqn:Ew; cbn [negb];
    [by rewrite app_nil_r|].
  destruct (Hok c cs eq_refl E) as (Hcn & ps & Hps & Hd).
  rewrite (GetCameraWarnPhone_holds db cams phones) by done. rewrite Hps. cbn [negb].
  rewrite send_phones_texts by (first [done|apply date_text_convertible]). done.
Qed.

(** The body of the loop on such an alarm. *)
Lemma handle_alarm_texts i r a db log :
  alarm_at i r = Ok a -> alarm_ok localtime_r cams phones (key_of a) -> holds db cams phones ->
  handle_alarm localtime_r os_write com i r db log =
    Ok (db, log ++ (written <$> alarm_texts (key_of a))).
Proof.
  intros Ha Hok Hdb. unfold handle_alarm, HikDevGetAlarmDateTime. rewrite Ha.
  cbn [mbind result_bind lift]. rewrite (alarm_ip_ok r i a Ha (proj1 Hok)).
  cbn [mbind result_bind lift]. by apply (deliver_alarm_texts (key_of a)).
Qed.

Lemma alarm_step_eq n r i db log :
  alarm_step localtime_r os_write com n r (i, db, log) =
    if i <? n then
      '(db, log) ← handle_alarm localtime_r os_write com i r db log;
      Ok (inl (u32 (i + 1), db, log))
    else Ok (inr (db, log)).
Proof. done. Qed.

(** The loop over the alarms gets past those that can be delivered. *)
Lemma alarms_prefix r db post : forall mid pre fuel log,
  ring_inv r -> unread r = pre ++ mid ++ post ->
  Forall (alarm_ok localtime_r cams phones) (key_of <$> mid) -> holds db cams phones ->
  loopM (length mid + fuel) (alarm_step localtime_r os_write com (HikDevGetAlarmNum r) r)
    (Z.of_nat (length pre), db, log) =
  loopM fuel (alarm_step localtime_r os_write com (HikDevGetAlarmNum r) r)
    (Z.of_nat (length (pre ++ mid)), db, log ++ (written <$> ((key_of <$> mid) ≫= alarm_texts))).
Proof.
  induction mid as [|a mid IH]; intros pre fuel log Hr Hu Hok Hdb.
  { cbn. by rewrite !app_nil_r. }
  pose proof (unread_length r Hr) as Hn. rewrite Hu, !length_app in Hn. simpl length in *.
  pose proof (HikDevGetAlarmNum_range r Hr). cbn [Nat.add]. rewrite loopM_S, alarm_step_eq.
  rewrite (proj2 (Z.ltb_lt _ _)) by lia. apply Forall_cons_iff in Hok as [Ha Hok].
  rewrite (handle_alarm_texts _ r a) by (first [done|apply alarm_at_unread; [done|];
    rewrite Hu; apply list_lookup_middle; done]).
  cbn [mbind result_bind]. rewrite u32_small by (pows; lia).
  replace (Z.of_nat (length pre) + 1) with (Z.of_nat (length (pre ++ [a])))
    by (rewrite length_app; simpl; lia).
  rewrite IH; [|done|by rewrite Hu, <- app_assoc|done|done].
  rewrite fmap_cons, bind_cons, fmap_app, <- !app_assoc. done.
Qed.

Lemma alarms_loop r db log :
  ring_inv r -> Forall (alarm_ok localtime_r cams phones) (key_of <$> unread r) ->
  holds db cams phones ->
  loopM (S (Z.to_nat (HikDevGetAlarmNum r)))
    (alarm_step localtime_r os_write com (HikDevGetAlarmNum r) r) (0, db, log) =
    Ok (db, log ++ (written <$> ((key_of <$> unread r) ≫= alarm_texts))).
Proof.
  intros Hr Hok Hdb. pose proof (unread_length r Hr) as Hn. pose proof (HikDevGetAlarmNum_range r Hr).
  rewrite <- Hn, <- Nat.add_1_r.
  rewrite (alarms_prefix r db [] (unread r) [] 1) by (by rewrite ?app_nil_r).
  rewrite app_nil_l, loopM_S, alarm_step_eq. by rewrite (proj2 (Z.ltb_ge _ _)) by lia.
Qed.

(** A round delivers every pending alarm and empties the queue. *)
Lemma round_delivers s q :
  represents cams phones s q -> Forall (alarm_ok localtime_r cams phones) (pending q) ->
  exists s', service_round localtime_r os_write com s = Ok s' /\
    represents cams phones s' (mkSpec (running q) []
      (delivered q ++ (written <$> (pending q ≫= alarm_texts)))).
Proof.
  intros (Hrun & Hr & Hp & Hdb & Hs) Hok. unfold service_round.
  pose proof (unread_length (ring s) Hr) as Hn. pose proof (HikDevGetAlarmNum_range _ Hr) as Hrange.
  destruct (Z.eqb_spec (HikDevGetAlarmNum (ring s)) 0) as [E|E].
  { exists s. split; [done|]. rewrite E in Hn. apply nil_length_inv in Hn.
    pose proof Hp as Hp'. rewrite Hn in Hp'. rewrite <- Hp' in Hp |- *. cbn.
    rewrite app_nil_r. done. }
  rewrite alarms_loop by (by rewrite ?Hp).
  cbn [mbind result_bind]. eexists. split; [done|]. unfold represents. cbn.
  split; [done|]. split; [apply consume_inv; [done|lia]|].
  split; [|by rewrite Hp, Hs]. rewrite consume_unread by (try done; lia).
  rewrite <- Hn, drop_all. done.
Qed.

(** A notification puts at most one alarm in the queue. *)
Lemma notify_queues lCommand a info now s q q' :
  represents cams phones s q -> (232 <= length info)%nat ->
  spec_event localtime_r os_write com cams phones (Notify lCommand a info now) q = Some (inl q') ->
  exists s', service_event localtime_r os_write com (Notify lCommand a info now) s = Ok (inl s') /\
    represents cams phones s' q'.
Proof.
  intros (Hrun & Hr & Hp & Hdb & Hs) Hl. cbn [spec_event service_event]. unfold is_recorded.
  pose proof (unread_length (ring s) Hr) as Hn. pose proof (HikDevGetAlarmNum_range _ Hr) as Hrange.
  assert (length (pending q) = length (unread (ring s))) as Hlen by (by rewrite <- Hp, length_fmap).
  destruct (decide (is_motion lCommand info)) as [Hm|Hm].
  2:{ rewrite bool_decide_eq_false_2 by done. intros [= <-]. rewrite callback_other by done.
      by eexists. }
  rewrite bool_decide_eq_true_2 by done. cbn [andb].
  destruct (callback_motion lCommand a info now (ring s) Hl Hm) as [(n & Hn64 & [[c [Hc Hc0]] _] & ->)|[Hz ->]].
  - rewrite bool_decide_eq_false_2 by (intros F; apply Hc0; by eapply Forall_lookup_1 in F).
    cbn [negb]. destruct (Nat.ltb_spec (length (pending q)) 31) as [Hlt|]; [|done]. intros [= <-].
    destruct (record_alarm_eq a (Z.of_nat n) now (ring s) Hr) as (res & E). rewrite E.
    destruct (record_alarm_unread _ _ _ _ _ Hr E) as (res' & Hu); [lia|].
    pose proof (record_alarm_inv _ _ _ _ _ Hr E). eexists. split; [done|].
    unfold represents. cbn. split; [done|]. split; [done|]. rewrite Hu, fmap_app, Hp. done.
  - rewrite bool_decide_eq_true_2 by done. intros [= <-]. by eexists.
Qed.

(** A schedule, event by event. *)
Lemma service_loop_refines events s q out :
  represents cams phones s q -> Forall (alarm_ok localtime_r cams phones) (pending q) ->
  Forall (event_ok localtime_r cams phones) events ->
  spec_loop localtime_r os_write com cams phones events q = Some out ->
  match out with
  | inl q' => exists s', service_loop localtime_r os_write com events s = Ok (inl s') /\
                represents cams phones s' q'
  | inr q' => exists s', service_loop localtime_r os_write com events s = Ok (inr s') /\
                represents cams phones s' q'
  end.
Proof.
  intros Hrep Hok Hev. revert s q Hrep Hok.
  induction Hev as [|e events He Hev IH]; intros s q Hrep Hok; cbn [spec_loop service_loop].
  { intros [= <-]. eauto. }
  destruct (spec_event localtime_r os_write com cams phones e q) as [[q1|q1]|] eqn:E; [| |done].
  - assert (exists s', service_event localtime_r os_write com e s = Ok (inl s') /\
      represents cams phones s' q1 /\ Forall (alarm_ok localtime_r cams phones) (pending q1))
      as (s' & -> & Hrep' & Hok').
    { destruct e as [l a info now|pid|].
      - destruct He as [Hl Ha]. destruct (notify_queues _ _ _ _ _ _ _ Hrep Hl E) as (s' & Hs & Hr).
        exists s'. split; [done|]. split; [done|]. cbn [spec_event] in E.
        destruct (is_recorded l info); [|by injection E as <-].
        destruct (Nat.ltb_spec (length (pending q)) 31); [|done]. injection E as <-. apply Forall_app.
        split; [done|by constructor].
      - injection E as <-. eexists. split; [done|]. split; [|done].
        destruct Hrep as (Hrun & ?). split; [|done]. cbn. unfold ProcessQuit. rewrite Hrun.
        by rewrite Z.eqb_sym.
      - cbn [spec_event] in E. destruct (running q) eqn:Hq; [|done]. injection E as <-. cbn [service_event].
        rewrite (proj1 Hrep), Hq.
        destruct (round_delivers s q Hrep Hok) as (s' & -> & Hr).
        rewrite Hq in Hr. exists s'. split; [done|]. split; [done|]. constructor. }
    cbn [mbind result_bind]. by apply IH.
  - intros [= <-]. destruct e as [l a info now|pid|]; cbn [spec_event] in E; [|done|].
    { destruct (is_recorded l info); [by destruct (Nat.ltb_spec (length (pending q)) 31)|done]. }
    destruct (running q) eqn:Hq; [done|]. injection E as <-. cbn [service_event].
    rewrite (proj1 Hrep), Hq. cbn. eauto.
Qed.

Lemma send_phones_app date ip name ps qs : forall log,
  send_phones os_write com date ip name (ps ++ qs) log =
    (log ← send_phones os_write com date ip name ps log;
     send_phones os_write com date ip name qs log).
Proof.
  induction ps as [|p ps IH]; intros log; [done|]. cbn [app send_phones].
  destruct (send_phone _ _ _ _ _ _ _); cbn [mbind result_bind]; [apply IH|done..].
Qed.
End LoopLemmas.

(** ** Properties *)

Section Properties.
Context (localtime_r : Z -> tm) (os_write : Z -> bytes -> Z) (com : SerialPort).

(** C1: the service refines a queue with an outbox.  Over any schedule of
    notifications, signals and rounds in which no more than 31 alarms are ever
    pending, and whose alarms can be delivered, the loop runs without fault or
    exception; each round sends, for every alarm recorded since the last one, in
    order and once, the message to each phone of its camera, and leaves the
    tables as they were; after SIGTERM the next round leaves the loop. *)
Theorem service_refines_queue cams phones events s q out :
  Z.of_nat (length cams) < 2 ^ 32 ->
  represents cams phones s q -> Forall (alarm_ok localtime_r cams phones) (pending q) ->
  Forall (event_ok localtime_r cams phones) events ->
  spec_loop localtime_r os_write com cams phones events q = Some out ->
  match out with
  | inl q' => exists s', service_loop localtime_r os_write com events s = Ok (inl s') /\
                represents cams phones s' q'
  | inr q' => exists s', service_loop localtime_r os_write com events s = Ok (inr s') /\
                represents cams phones s' q'
  end.
Proof. intros Hcams. by apply service_loop_refines. Qed.

(** C29: every outcome of sending to one phone: an empty number writes an empty
    text to the port; a number of one to six characters ends the program with an
    uncaught exception; from seven on a message is written whole if it has at
    most 512 characters, and otherwise it overruns [BufSent]. *)
Theorem send_phone_outcomes date ip name phone log :
  convertible date -> convertible ip -> convertible name -> ip <> [] ->
  let size := message_size date ip name phone in
  if (length phone =? 0)%nat then
    send_phone os_write com date ip name phone log = Ok (log ++ [written os_write com []])
  else if (length phone <? 7)%nat then
    send_phone os_write com date ip name phone log = Throw (UncaughtStd out_of_range, log)
  else if size <=? 512 then
    exists m, PackMsgToAlarm date ip name phone = Ok m /\ str_size m = size /\
      send_phone os_write com date ip name phone log = Ok (log ++ [written os_write com m])
  else send_phone os_write com date ip name phone log = Undefined OutOfBounds.
Proof.
  intros Hd Hi Hn Hip. cbn zeta. unfold send_phone.
  destruct (Nat.eqb_spec (length phone) 0) as [E|E].
  { apply nil_length_inv in E as ->. unfold PackMsgToAlarm. by rewrite orb_true_r. }
  destruct (Nat.ltb_spec (length phone) 7).
  { rewrite PackMsgToAlarm_short by (first [done|lia]). done. }
  destruct (PackMsgToAlarm_size date ip name phone) as (m & -> & Hs); [done..|].
  rewrite <- Hs. cbn [uncaught mbind result_bind]. destruct (Z.leb_spec (str_size m) 512).
  - exists m. split; [done|]. split; [done|]. destruct (copy_message_fits m) as (buf & -> & Hb); [done|].
    cbn [lift mbind result_bind]. by rewrite Hb.
  - by rewrite copy_message_overflows.
Qed.

(** C30: one bad number stops the service: when an unread alarm is of a known
    camera with a number of one to six characters, the round ends the program
    there.  The messages of the alarms before it and to the phones before it are
    sent; no later one is. *)
Theorem bad_number_stops_service cams phones s pre a post c cs ps phone qs :
  Z.of_nat (length cams) < 2 ^ 32 -> holds (tables s) cams phones -> ring_inv (ring s) ->
  unread (ring s) = pre ++ a :: post ->
  Forall (alarm_ok localtime_r cams phones) (key_of <$> pre) ->
  let ip := alarm_ip (struAlarmDevInfo a) in
  let date := alarm_date localtime_r (AlarmTime a) in
  alarmer_ok (struAlarmDevInfo a) -> ip <> [] -> convertible ip ->
  with_ip ip cams = c :: cs -> convertible (c_name c) ->
  phones ip = Some (ps ++ phone :: qs) -> Forall (deliverable date ip (c_name c)) ps ->
  (1 <= length phone < 7)%nat ->
  service_round localtime_r os_write com s =
    Throw (UncaughtStd out_of_range, sent s ++
      (written os_write com <$> ((key_of <$> pre) ≫= alarm_texts localtime_r cams phones)) ++
      (written os_write com <$> (phone_text date ip (c_name c) <$> ps))).
Proof.
  intros Hcams Hdb Hr Hu Hpre ip date Hok Hip Hci Hw Hcn Hps Hd Hph. unfold service_round.
  pose proof (unread_length (ring s) Hr) as Hn. pose proof (HikDevGetAlarmNum_range _ Hr).
  rewrite Hu, length_app in Hn. simpl length in Hn. rewrite (proj2 (Z.eqb_neq _ _)) by lia.
  rewrite <- Hn, <- Nat.add_succ_r.
  rewrite (alarms_prefix localtime_r os_write com cams phones Hcams (ring s) (tables s) (a :: post) pre []) by done.
  rewrite app_nil_l, loopM_S, alarm_step_eq, (proj2 (Z.ltb_lt _ _)) by lia.
  assert (alarm_at (Z.of_nat (length pre)) (ring s) = Ok a) as Ha.
  { apply alarm_at_unread; [done|]. rewrite Hu. by apply list_lookup_middle. }
  unfold handle_alarm, HikDevGetAlarmDateTime. rewrite Ha. cbn [mbind result_bind lift].
  rewrite (alarm_ip_ok _ _ a Ha Hok). cbn [mbind result_bind lift]. unfold deliver_alarm. fold ip.
  rewrite bool_decide_eq_false_2 by done. rewrite (GetCameraName_holds _ cams phones) by done.
  rewrite Hw. cbn [mbind result_bind lift negb].
  rewrite (GetCameraWarnPhone_holds _ cams phones) by done. rewrite Hps. cbn [negb].
  rewrite send_phones_app, send_phones_texts by (first [done|apply date_text_convertible]).
  cbn [mbind result_bind send_phones]. unfold send_phone.
  rewrite PackMsgToAlarm_short by (first [done|apply date_text_convertible]).
  cbn [uncaught mbind result_bind]. by rewrite <- app_assoc.
Qed.
End Properties.

(** ** Witnesses *)

(** The camera [sample_old] and one with a bad number. *)
Definition sample_bad : camera :=
  {| c_ip := s2b "10.0.0.7"; c_port := s2b "8000"; c_name := s2b "attic"; c_username := s2b "admin";
     c_password := s2b "pw"; c_phonenums := s2b "13700000000,110" |}.

Definition sample_cams : list camera := [sample_old; sample_bad].

Definition sample_phones (ip : bytes) : option (list bytes) :=
  find ip [(c_ip sample_old, c_phones sample_old); (c_ip sample_bad, c_phones sample_bad)].

Definition sample_tables : database :=
  {| CameraInfoName := []; CameraInfoFromDB := entry_of <$> sample_cams;
     IpWarnToPhoneFromDB :=
       [(c_ip sample_old, c_phones sample_old); (c_ip sample_bad, c_phones sample_bad)] |}.

Definition device_at (ip : bytes) : NET_DVR_ALARMER :=
  {| byUserIDValid := 1; bySerialValid := 0; byVersionValid := 0; byDeviceNameValid := 0;
     byMacAddrValid := 0; byLinkPortValid := 0; byDeviceIPValid := 1; bySocketIPValid := 0;
     lUserID := 0; sSerialNumber := zeros 48; dwDeviceVersion := 0; sDeviceName := zeros 32;
     byMacAddr := zeros 6; wLinkPort := 0; sDeviceIP := ip ++ zeros (128 - length ip);
     sSocketIP := zeros 128; byIpProtocol := 0; byRes1 := zeros 2; bJSONBroken := 0;
     wSocketPort := 0; byRes2 := zeros 6 |}.

(** 2 January 2020, 03:04:05. *)
Definition sample_clock (_ : Z) : tm :=
  {| tm_year := 120; tm_mon := 0; tm_mday := 2; tm_hour := 3; tm_min := 4; tm_sec := 5 |}.

Definition sample_port : SerialPort := mkSerialPort 3 UART_TRUE [] 0 0.
Definition sample_write (_ : Z) (b : bytes) : Z := Z.of_nat (length b).

Definition sample_service : service := mkService true HikDevOperate_init sample_tables [].
Definition sample_queue : queue_spec := mkSpec true [] [].

Definition sample_alarm (ip : bytes) : event :=
  Notify COMM_ALARM_V30 (device_at ip) demo_info 7.

Lemma sample_alarm_ok : alarm_ok sample_clock sample_cams sample_phones (device_at (c_ip sample_old), 7).
Proof.
  split; [intros _; by apply (bool_decide_unpack _)|]. split; [vm_compute; discriminate|].
  change (with_ip _ _) with [sample_old]. intros c cs [= <- <-] _.
  split; [vm_compute; discriminate|]. exists [s2b "13600000000"]. split; [reflexivity|].
  constructor; [|constructor]. right. split; [reflexivity|vm_compute; discriminate].
Qed.

Lemma sample_event_ok :
  event_ok sample_clock sample_cams sample_phones (sample_alarm (c_ip sample_old)).
Proof. split; [vm_compute; lia|exact sample_alarm_ok]. Qed.

Lemma service_refines_queue_witness :
  let old := c_ip sample_old in
  let text := message (s2b "2020-1-2 3:4:5") old (s2b "hall") (s2b "13600000000") in
  exists s', service_loop sample_clock sample_write sample_port
      [sample_alarm old; Round; sample_alarm old; Signal 1; Round; Signal SIGTERM; Round]
      sample_service = Ok (inr s') /\ sent s' = [(text, UART_TRUE); (text, UART_TRUE)].
Proof.
  intros old text.
  destruct (service_refines_queue sample_clock sample_write sample_port sample_cams sample_phones
    [sample_alarm old; Round; sample_alarm old; Signal 1; Round; Signal SIGTERM; Round]
    sample_service sample_queue
    (inr (mkSpec false [] [(text, UART_TRUE); (text, UART_TRUE)]))) as (s' & E & _ & _ & _ & _ & Hs).
  - vm_compute. reflexivity.
  - split; [reflexivity|]. split; [vm_compute; repeat split; discriminate|].
    split; [reflexivity|]. split; [|reflexivity]. split; [reflexivity|]. intros ip. reflexivity.
  - constructor.
  - repeat (apply List.Forall_cons; [first [exact sample_event_ok|exact I]|]). apply List.Forall_nil.
  - vm_compute. reflexivity.
  - exists s'. split; [exact E|exact Hs].
Defined.

Lemma send_phone_outcomes_witness :
  send_phone sample_write sample_port (s2b "2020-1-2 3:4:5") (s2b "10.0.0.9") (replicate 90 (chr 65))
    (s2b "13600000000") [] = Undefined OutOfBounds.
Proof.
  apply (send_phone_outcomes sample_write sample_port (s2b "2020-1-2 3:4:5") (s2b "10.0.0.9")
    (replicate 90 (chr 65)) (s2b "13600000000") []);
    [vm_compute; discriminate|vm_compute; discriminate|vm_compute; discriminate|discriminate].
Defined.

(** The ring after an alarm of each camera. *)
Definition sample_ring : alarm_state :=
  let a ip := mkAlarm (device_at ip) (zeros 7) 3 7 in
  mkRing (a (c_ip sample_old) :: a (c_ip sample_bad) :: replicate 30 zero_alarm) 2 0.

Lemma bad_number_stops_service_witness :
  service_round sample_clock sample_write sample_port
    (mkService true sample_ring sample_tables []) =
  Throw (UncaughtStd out_of_range,
    [(message (s2b "2020-1-2 3:4:5") (s2b "10.0.0.9") (s2b "hall") (s2b "13600000000"), UART_TRUE);
     (message (s2b "2020-1-2 3:4:5") (s2b "10.0.0.7") (s2b "attic") (s2b "13700000000"), UART_TRUE)]).
Proof.
  etransitivity; [apply (bad_number_stops_service sample_clock sample_write sample_port sample_cams
    sample_phones (mkService true sample_ring sample_tables [])
    [mkAlarm (device_at (c_ip sample_old)) (zeros 7) 3 7]
    (mkAlarm (device_at (c_ip sample_bad)) (zeros 7) 3 7) [] sample_bad []
    [s2b "13700000000"] (s2b "110") [])|].
  - vm_compute. reflexivity.
  - split; [reflexivity|]. intros ip. reflexivity.
  - vm_compute. repeat split; discriminate.
  - reflexivity.
  - constructor; [exact sample_alarm_ok|constructor].
  - intros _. by apply (bool_decide_unpack _).
  - vm_compute. discriminate.
  - vm_compute. discriminate.
  - reflexivity.
  - vm_compute. discriminate.
  - reflexivity.
  - constructor; [|constructor]. right. split; [reflexivity|vm_compute; discriminate].
  - simpl. lia.
  - vm_compute. reflexivity.
Defined.
