(* ===== verification/ServiceRace.v ===== *)
(** * The service under the callback thread

    AlarmLoop.v lets notifications, signals and whole rounds of the loop of [main]
    follow one another.  Here the loop runs in small steps, one per access to the
    ring, over the ring of AlarmRace.v, whose callback moves in between; a signal
    may come at any time.  The work on one alarm between two accesses (the
    look-ups in the tables, which only [main] uses, and the writes to the port) is
    one step.  Every interleaving has an atomic schedule that gives the same
    messages. *)
From S2P Require Import Prelude CLib AlarmRing AlarmRace StdMap DataBase CsvError Message SerialLine AlarmLoop.

(** ** State *)

(** Where [main] is in its loop; the count and the index of the [for] are those of
    the reader of AlarmRace.v. *)
Inductive main_pc :=
  | MTest                                      (* [while (ServiceRun)] *)
  | MPoll                                      (* in [HikDevGetAlarmNum] *)
  | MFor                                       (* [i < uiAlarmNum] *)
  | MIp (strDataTime : bytes)                  (* before [HikDevGetAlarmIp] *)
  | MSend (strDataTime strAlarmIp : bytes)     (* before [strAlarmIp.empty()] *)
  | MLeft                                      (* after the loop *)
  | MStop (e : service_stop)                   (* left by [return -1] or an exception *)
  | MFault (f : fault).                        (* undefined behaviour *)

Record race_service := mkRS {
  core : race;
  mpc : main_pc;
  rs_run : bool;
  rs_tables : database;
  rs_sent : outbox
}.

(** [main] before the loop, with what the start-up left. *)
Definition race_service_init (ServiceRun : bool) (db : database) : race_service :=
  mkRS race_init MTest ServiceRun db [].

(** ** Steps *)

Definition at_pc (c : race) (pc : main_pc) (s : race_service) : race_service :=
  mkRS c pc (rs_run s) (rs_tables s) (rs_sent s).

(** [uiAlarmNum] is 0: back to the head of the loop, the ring untouched. *)
Definition skip_round (c : race) : race :=
  mkRace (shared c) (wpc c) RIdle (hist c) (consumed c) (seen c).

Section Steps.
Variable localtime_r : Z -> tm.
Variable os_write : Z -> bytes -> Z.
Variable MsgModuleCom : SerialPort.
Variable g : granularity.

Definition main_step (s : race_service) : option race_service :=
  let c := core s in
  match mpc s with
  | MTest => Some (at_pc c (if rs_run s then MPoll else MLeft) s)
  | MPoll =>
      c' ← reader_step g c;
      Some match rpc c' with
           | RCount _ _ => at_pc c' MPoll s
           | RRead uiAlarmNum _ =>
               if uiAlarmNum =? 0 then at_pc (skip_round c') MTest s else at_pc c' MFor s
           | _ => at_pc c' (MFault OutOfBounds) s
           end
  | MFor =>
      match rpc c with
      | RRead uiAlarmNum i =>
          if i <? uiAlarmNum then
            Some match HikDevGetAlarmDateTime localtime_r i (shared c) with
                 | Ok d => at_pc c (MIp (date_text d)) s
                 | Undefined f => at_pc c (MFault f) s
                 | Throw e => match e : Empty_set with end
                 end
          else c' ← reader_step g c; Some (at_pc c' MTest s)
      | _ => None
      end
  | MIp strDataTime =>
      match rpc c with
      | RRead _ i =>
          c' ← reader_step g c;
          Some match HikDevGetAlarmIp i [] (shared c) with
               | Ok strAlarmIp => at_pc c' (MSend strDataTime strAlarmIp) s
               | Undefined f => at_pc c' (MFault f) s
               | Throw e => match e : Empty_set with end
               end
      | _ => None
      end
  | MSend strDataTime strAlarmIp =>
      Some match deliver_alarm os_write MsgModuleCom strDataTime strAlarmIp (rs_tables s) (rs_sent s) with
           | Ok (db, log) => mkRS c MFor (rs_run s) db log
           | Throw (e, log) => mkRS c (MStop e) (rs_run s) (rs_tables s) log
           | Undefined f => at_pc c (MFault f) s
           end
  | MLeft | MStop _ | MFault _ => None
  end.

(** The SDK calls the callback, the callback moves, the process gets a signal, or
    [main] moves. *)
Inductive service_label :=
  | LNotify (lCommand : Z) (pAlarmer : NET_DVR_ALARMER) (pAlarmInfo : bytes) (now : Z)
  | LCallback
  | LSignal (pid : Z)
  | LMain.

(** Up to the ring the callback works on the memory it was given only. *)
Definition race_service_step (l : service_label) (s : race_service) : option race_service :=
  match l with
  | LNotify lCommand a info now =>
      match wpc (core s) with
      | WIdle =>
          match motion_channel lCommand info with
          | Ok (Some i) =>
              c' ← race_step g (AlarmRace.Notify (a, u8 (i + 1), now)) (core s);
              Some (at_pc c' (mpc s) s)
          | Ok None => Some s
          | Undefined f => Some (at_pc (core s) (MFault f) s)
          | Throw e => match e : Empty_set with end
          end
      | _ => None
      end
  | LCallback => c' ← race_step g Callback (core s); Some (at_pc c' (mpc s) s)
  | LSignal pid => Some (mkRS (core s) (mpc s) (ProcessQuit pid (rs_run s)) (rs_tables s) (rs_sent s))
  | LMain => main_step s
  end.

(** The states reachable when notifications are restricted by [allowed]. *)
Inductive service_reachable (allowed : event -> race_service -> Prop) (db : database)
    : race_service -> Prop :=
  | sreach_init : service_reachable allowed db (race_service_init true db)
  | sreach_step s l s' :
      service_reachable allowed db s ->
      (forall lCommand a info now, l = LNotify lCommand a info now ->
         allowed (Notify lCommand a info now) s) ->
      race_service_step l s = Some s' -> service_reachable allowed db s'.

(** A schedule executed. *)
Fixpoint service_run (ls : list service_label) (s : race_service) : option race_service :=
  match ls with
  | [] => Some s
  | l :: ls' => s' ← race_service_step l s; service_run ls' s'
  end.

(** It is under light load. *)
Fixpoint light_schedule (ls : list service_label) (s : race_service) : bool :=
  match ls with
  | [] => true
  | l :: ls' =>
      match l with LNotify _ _ _ _ => bool_decide (light (core s)) | _ => true end &&
      match race_service_step l s with Some s' => light_schedule ls' s' | None => true end
  end.
End Steps.

(** ** Specification *)

(** The alarms a schedule of events records. *)
Definition event_key (e : event) : list alarm_key :=
  match e with
  | Notify lCommand a info now => if is_recorded lCommand info then [(a, now)] else []
  | _ => []
  end.

Definition notified (events : list event) : list alarm_key := events ≫= event_key.

Definition key_of_payload (x : payload) : alarm_key := (x.1.1, x.2).

Section Spec.
Context (localtime_r : Z -> tm) (os_write : Z -> bytes -> Z) (com : SerialPort).
Context (cams : list camera) (phones : bytes -> option (list bytes)).

(** Light load, and alarms that can be delivered. *)
Definition service_light (e : event) (s : race_service) : Prop :=
  event_ok localtime_r cams phones e /\ (event_key e <> [] -> light (core s)).

(** How an interleaved state relates to the end of an atomic schedule: at the head
    of the loop they have the same messages, flag and unread alarms; within a
    round the atomic one has sent the messages of the whole round. *)
Definition linearized (s : race_service) (r : service + service) : Prop :=
  match mpc s with
  | MTest => exists s', r = inl s' /\ ServiceRun s' = rs_run s /\ sent s' = rs_sent s /\
      key_of <$> unread (ring s') = key_of_payload <$> drop (Z.to_nat (consumed (core s))) (hist (core s))
  | MPoll | MFor | MIp _ | MSend _ _ => exists s' later, r = inl s' /\ sent s' = rs_sent s ++ later
  | MLeft => exists s', r = inr s' /\ sent s' = rs_sent s
  | MStop _ | MFault _ => False
  end.

(** The messages of published alarms. *)
Definition texts_of (xs : list payload) : outbox :=
  written os_write com <$> ((key_of_payload <$> xs) ≫= alarm_texts localtime_r cams phones).

(** Where [main] is among the alarms published: [dn] handled, [todo] left of the
    round. *)
Definition main_at (s : race_service) (dn todo : list payload) : Prop :=
  let c := core s in
  let at_index k m := Z.of_nat (length dn) = consumed c + k /\ Z.of_nat (length todo) = m in
  match mpc s, rpc c with
  | MTest, RIdle | MPoll, RIdle | MLeft, RIdle => at_index 0 0
  | MPoll, RCount _ w => Z.of_nat (length dn) = consumed c /\
      w = Z.of_nat (length (dn ++ todo)) mod 32
  | MFor, RRead n i => at_index i (n - i)
  | MIp date, RRead n i => at_index i (n - i) /\
      exists x todo', todo = x :: todo' /\ date = alarm_date localtime_r x.2
  | MSend date ip, RRead n i => at_index (i - 1) (n - i + 1) /\
      exists x todo', todo = x :: todo' /\ date = alarm_date localtime_r x.2 /\ ip = alarm_ip x.1.1
  | _, _ => False
  end.

(** The queue that stands for the state: while [HikDevGetAlarmNum] has not loaded
    the write index, the test of [ServiceRun] still holds. *)
Definition queue_at (s : race_service) (todo rest : list payload) : queue_spec :=
  mkSpec (match mpc s, rpc (core s) with MPoll, RIdle => true | _, _ => rs_run s end)
    (key_of_payload <$> rest) (rs_sent s ++ texts_of todo).

(** The schedule [events] brings the queue there. *)
Definition brings (events : list event) (s : race_service) (todo rest : list payload) : Prop :=
  let r := spec_loop localtime_r os_write com cams phones events (mkSpec true [] []) in
  match mpc s with
  | MLeft => exists q, r = Some (inr q) /\ delivered q = rs_sent s
  | _ => r = Some (inl (queue_at s todo rest))
  end.

(** The alarm the callback is working on comes from a notification. *)
Definition in_flight (w : writer) : option payload :=
  match w with
  | WDev x | WChan x | WTime x | WInc x => Some x
  | WIdle | WWrap => None
  end.

Definition flight_ok (w : writer) : Prop :=
  forall x, in_flight w = Some x -> exists lCommand info,
    event_ok localtime_r cams phones (Notify lCommand x.1.1 info x.2) /\
    is_recorded lCommand info = true.

Definition service_inv (s : race_service) : Prop :=
  race_inv (core s) /\ holds (rs_tables s) cams phones /\ flight_ok (wpc (core s)) /\
  exists events dn todo rest,
    Forall (event_ok localtime_r cams phones) events /\
    notified events = key_of_payload <$> hist (core s) /\
    hist (core s) = dn ++ todo ++ rest /\ rs_sent s = texts_of dn /\
    main_at s dn todo /\ brings events s todo rest.
End Spec.

(** ** Lemmas *)

Lemma HikDevGetAlarmDateTime_read localtime_r i st e :
  alarm_at i st = Ok e ->
  HikDevGetAlarmDateTime localtime_r i st = Ok (date_of_tm (localtime_r (AlarmTime e))).
Proof. intros E. unfold HikDevGetAlarmDateTime. by rewrite E. Qed.

(** A recorded notification is one the callback takes a channel of. *)
Lemma motion_channel_recorded lCommand info :
  (232 <= length info)%nat ->
  if is_recorded lCommand info
  then exists i, motion_channel lCommand info = Ok (Some i)
  else motion_channel lCommand info = Ok None.
Proof.
  intros Hl. destruct (motion_channel_spec lCommand info Hl) as ([i|] & -> & Ho); unfold is_recorded.
  - destruct Ho as (Hm & n & _ & _ & [c [Hc Hc0]] & _). rewrite bool_decide_eq_true_2 by done.
    rewrite bool_decide_eq_false_2; [by exists i|]. intros F. by eapply Hc0, (Forall_lookup_1 _ _ _ _ F).
  - destruct (decide (is_motion lCommand info)).
    + by rewrite (bool_decide_eq_true_2 (Forall _ _)), andb_false_r by auto.
    + by rewrite bool_decide_eq_false_2 by done.
Qed.

Lemma notified_app es1 es2 : notified (es1 ++ es2) = notified es1 ++ notified es2.
Proof. apply bind_app. Qed.

(** A step of the callback: a store to its own entry, or the publication. *)
Lemma writer_step_cases c c' :
  writer_step one_access c = Some c' ->
  rpc c' = rpc c /\ consumed c' = consumed c /\
  (hist c' = hist c /\ in_flight (wpc c') = in_flight (wpc c) \/
   exists x, wpc c = WInc x /\ wpc c' = WIdle /\ hist c' = hist c ++ [x]).
Proof.
  unfold writer_step. destruct (wpc c); cbn; try done; intros [= <-]; cbn; eauto 10.
Qed.

Lemma init_represents cams phones db :
  holds db cams phones -> represents cams phones (mkService true HikDevOperate_init db []) (mkSpec true [] []).
Proof. intros H. split; [done|]. split; [apply HikDevOperate_init_inv|]. by split. Qed.

Section Lemmas.
Context (localtime_r : Z -> tm) (os_write : Z -> bytes -> Z) (com : SerialPort).
Context (cams : list camera) (phones : bytes -> option (list bytes)).
Context (Hcams : Z.of_nat (length cams) < 2 ^ 32).

Abbreviation service_inv := (service_inv localtime_r os_write com cams phones).
Abbreviation texts_of := (texts_of localtime_r os_write com cams phones).
Abbreviation spec_loop := (spec_loop localtime_r os_write com cams phones).
Abbreviation main_at := (main_at localtime_r).
Abbreviation brings := (brings localtime_r os_write com cams phones).
Abbreviation event_ok := (event_ok localtime_r cams phones).
Abbreviation flight_ok := (flight_ok localtime_r cams phones).
Abbreviation main_step := (main_step localtime_r os_write com one_access).
Abbreviation race_service_step := (race_service_step localtime_r os_write com one_access).

Lemma spec_loop_app es1 : forall es2 q,
  spec_loop (es1 ++ es2) q =
    match spec_loop es1 q with Some (inl q') => spec_loop es2 q' | r => r end.
Proof.
  induction es1 as [|e es1 IH]; intros es2 q; [done|]. cbn [app AlarmLoop.spec_loop].
  by destruct (spec_event _ _ _ _ _ e q) as [[q'|q']|].
Qed.

Lemma texts_of_cons x xs :
  texts_of (x :: xs) = (written os_write com <$> alarm_texts localtime_r cams phones (key_of_payload x)) ++ texts_of xs.
Proof. unfold ServiceRace.texts_of. cbn. by rewrite fmap_app. Qed.

Lemma texts_of_app xs x :
  texts_of (xs ++ [x]) = texts_of xs ++ (written os_write com <$> alarm_texts localtime_r cams phones (key_of_payload x)).
Proof. unfold ServiceRace.texts_of. rewrite !fmap_app, bind_app, fmap_app. cbn. by rewrite app_nil_r. Qed.

Lemma notified_ok events :
  Forall event_ok events -> Forall (alarm_ok localtime_r cams phones) (notified events).
Proof.
  induction 1 as [|e events He _ IH]; [constructor|]. apply Forall_app. split; [|exact IH].
  destruct e as [l a info now| |]; cbn; [|constructor..].
  destruct (is_recorded l info); [|constructor]. constructor; [apply He|constructor].
Qed.

(** The alarms published can be delivered. *)
Lemma published_ok events h k x :
  Forall event_ok events -> notified events = key_of_payload <$> h -> h !! k = Some x ->
  alarm_ok localtime_r cams phones (key_of_payload x).
Proof.
  intros Hev E Hx. apply notified_ok in Hev. rewrite E in Hev.
  eapply Forall_lookup_1; [exact Hev|]. by rewrite list_lookup_fmap, Hx.
Qed.

(** The round consumes what is handled or left of it. *)
Lemma main_at_consumed s dn todo :
  race_inv (core s) -> main_at s dn todo -> consumed (core s) <= Z.of_nat (length dn + length todo).
Proof.
  intros (_ & _ & _ & _ & _ & _ & _ & Hrd) H. unfold reader_inv, ServiceRace.main_at in *.
  destruct (mpc s), (rpc (core s)); try done; lia.
Qed.

#[export] Instance main_label_dec l : Decision (l = LMain).
Proof. destruct l; first [by left|by right]. Defined.

#[local] Instance left_dec pc : Decision (pc = MLeft).
Proof. destruct pc; first [by left|by right]. Defined.

#[local] Instance first_load_dec pc r : Decision (pc = MPoll /\ r = RIdle).
Proof. destruct pc, r; first [by left|right; by intros []]. Defined.

(** *** The callback and the signals *)

(** A step that leaves [main] and the history where they are. *)
Lemma inv_frame s c' :
  service_inv s -> race_inv c' -> flight_ok (wpc c') ->
  rpc c' = rpc (core s) -> consumed c' = consumed (core s) -> hist c' = hist (core s) ->
  service_inv (at_pc c' (mpc s) s).
Proof.
  intros (_ & Hdb & _ & events & dn & todo & rest & H1 & H2 & H3 & Ht & H4 & H5) Hr Hf Er Ec Eh.
  split; [done|]. split; [done|]. split; [done|]. exists events, dn, todo, rest.
  unfold ServiceRace.main_at, ServiceRace.brings, queue_at in *. cbn [at_pc core mpc rs_run rs_sent].
  by rewrite Er, Ec, Eh.
Qed.

(** A schedule that goes on by one event. *)
Lemma brings_snoc e events s s' todo rest todo' rest' :
  mpc s <> MLeft -> mpc s' <> MLeft -> brings events s todo rest ->
  spec_event localtime_r os_write com cams phones e
    (queue_at localtime_r os_write com cams phones s todo rest) =
    Some (inl (queue_at localtime_r os_write com cams phones s' todo' rest')) ->
  brings (events ++ [e]) s' todo' rest'.
Proof.
  intros Hs Hs' Hb He. unfold ServiceRace.brings in *. rewrite spec_loop_app.
  destruct (mpc s); try done; rewrite Hb; cbn [AlarmLoop.spec_loop]; rewrite He; by destruct (mpc s').
Qed.

(** After the loop the schedule may go on with anything. *)
Lemma brings_left e events s s' todo rest todo' rest' :
  mpc s = MLeft -> mpc s' = MLeft -> rs_sent s' = rs_sent s ->
  brings events s todo rest -> brings (events ++ [e]) s' todo' rest'.
Proof.
  unfold ServiceRace.brings. intros -> -> -> (q & E & Hd). exists q. by rewrite spec_loop_app, E.
Qed.

(** The publication: the notification takes its place in the schedule. *)
Lemma inv_publish s c' x :
  service_inv s -> race_inv c' -> wpc (core s) = WInc x -> wpc c' = WIdle ->
  rpc c' = rpc (core s) -> consumed c' = consumed (core s) -> hist c' = hist (core s) ++ [x] ->
  service_inv (at_pc c' (mpc s) s).
Proof.
  intros (Hri & Hdb & Hfl & events & dn & todo & rest & H1 & H2 & H3 & Ht & H4 & H5) Hr Ew Ew' Er Ec Eh.
  destruct (Hfl x) as (l & info & Hev & Hrec); [by rewrite Ew|].
  split; [done|]. split; [done|]. split; [intros y; cbn; by rewrite Ew'|].
  exists (events ++ [Notify l x.1.1 info x.2]), dn, todo, (rest ++ [x]). cbn [at_pc core].
  split; [apply Forall_app; split; [done|by constructor]|].
  split; [rewrite notified_app, H2, Eh, fmap_app; cbn; by rewrite Hrec|].
  split; [rewrite Eh, H3, <- !app_assoc; done|]. split; [done|].
  split; [unfold ServiceRace.main_at in *; cbn [at_pc core mpc]; by rewrite Er, Ec|].
  assert (length rest < 31)%nat as Hlt.
  { pose proof (main_at_consumed _ _ _ Hri H4) as Hle. destruct Hri as (_ & _ & _ & _ & _ & _ & Hwi & _).
    unfold writer_inv in Hwi. rewrite Ew, H3, !length_app in Hwi. lia. }
  destruct (decide (mpc s = MLeft)); [by eapply brings_left|].
  eapply brings_snoc; [done..|exact H5|]. unfold queue_at. cbn [at_pc core mpc rs_run rs_sent spec_event pending].
  rewrite Hrec, length_fmap, (proj2 (Nat.ltb_lt _ _)) by done. by rewrite Er, fmap_app.
Qed.

Lemma inv_callback s s' :
  service_inv s -> race_service_step LCallback s = Some s' -> service_inv s'.
Proof.
  intros Hinv. cbn. destruct (writer_step one_access (core s)) as [c'|] eqn:E; cbn; [|done]. intros [= <-].
  pose proof (race_inv_writer _ _ (proj1 Hinv) E) as Hr.
  destruct (writer_step_cases _ _ E) as (Er & Ec & [[Eh Ef]|(x & Ew & Ew' & Eh)]).
  - apply inv_frame; [done..| |done|done|done]. intros x. rewrite Ef. apply Hinv.
  - by eapply inv_publish.
Qed.

Lemma inv_notify s s' lCommand a info now :
  service_inv s -> service_light localtime_r cams phones (Notify lCommand a info now) s ->
  race_service_step (LNotify lCommand a info now) s = Some s' -> service_inv s'.
Proof.
  intros Hinv [Hev Hl]. cbn. destruct (wpc (core s)) eqn:Ew; try done.
  pose proof (motion_channel_recorded lCommand info (proj1 Hev)) as Hm. cbn [event_key] in Hl.
  destruct (is_recorded lCommand info) eqn:Hrec; [destruct Hm as [i Hm]|]; rewrite Hm; [|by intros [= <-]].
  intros [= <-]. apply inv_frame; [done| | |done..].
  - eapply (race_inv_step (AlarmRace.Notify (a, u8 (i + 1), now))); [apply Hinv|by intros; apply Hl|].
    cbn. by rewrite Ew.
  - intros x [= <-]. eauto.
Qed.

Lemma inv_signal s s' pid :
  service_inv s -> race_service_step (LSignal pid) s = Some s' -> service_inv s'.
Proof.
  intros (Hri & Hdb & Hfl & events & dn & todo & rest & H1 & H2 & H3 & Ht & H4 & H5) [= <-].
  split; [done|]. split; [done|]. split; [done|]. cbn [core].
  destruct (decide (mpc s = MLeft \/ (mpc s = MPoll /\ rpc (core s) = RIdle))) as [Hc|Hc].
  - exists events, dn, todo, rest. do 5 (split; [done|]).
    unfold ServiceRace.brings, queue_at in *. cbn. destruct Hc as [E|[E E']]; rewrite E in *; [done|].
    by rewrite E' in *.
  - exists (events ++ [Signal pid]), dn, todo, rest. split; [apply Forall_app; split; [done|by constructor]|].
    split; [by rewrite notified_app, app_nil_r|]. do 3 (split; [done|]).
    eapply brings_snoc; [| |exact H5|]; [tauto|cbn; tauto|]. unfold queue_at, ProcessQuit. cbn.
    rewrite (Z.eqb_sym SIGTERM). destruct (mpc s), (rpc (core s)); try done; tauto.
Qed.

(** *** The main loop *)

Lemma inv_test s s' : service_inv s -> mpc s = MTest -> main_step s = Some s' -> service_inv s'.
Proof.
  intros (Hri & Hdb & Hfl & events & dn & todo & rest & H1 & H2 & H3 & Ht & H4 & H5) Em. unfold ServiceRace.main_step.
  rewrite Em. intros [= <-]. split; [done|]. split; [done|]. split; [done|]. cbn [at_pc core].
  unfold ServiceRace.main_at, ServiceRace.brings, queue_at in *. rewrite Em in *. cbn [at_pc core mpc].
  destruct (rpc (core s)) eqn:Er; try done. destruct (rs_run s) eqn:Erun.
  - by exists events, dn, todo, rest.
  - exists (events ++ [Round]), dn, todo, rest. split; [apply Forall_app; split; [done|by constructor]|].
    rewrite notified_app, app_nil_r. do 4 (split; [done|]).
    eexists. rewrite spec_loop_app, H5. cbn. split; [reflexivity|]. cbn.
    destruct H4 as [_ Hlen]. destruct todo; [|done]. by rewrite app_nil_r.
Qed.

(** The load of the write index: the round takes its place in the schedule, and so
    does a SIGTERM since the test of [ServiceRun]. *)
Lemma inv_load s s' :
  service_inv s -> mpc s = MPoll -> rpc (core s) = RIdle -> main_step s = Some s' -> service_inv s'.
Proof.
  intros (Hri & Hdb & Hfl & events & dn & todo & rest & H1 & H2 & H3 & Ht & H4 & H5) Em Er. unfold ServiceRace.main_step.
  rewrite Em. destruct (reader_step one_access (core s)) as [c'|] eqn:Hst; cbn; [|done].
  pose proof (race_inv_reader _ _ Hri Hst) as Hri'. unfold reader_step in Hst. rewrite Er in Hst.
  injection Hst as <-. cbn. intros [= <-]. split; [done|]. split; [done|]. split; [done|]. cbn [at_pc core hist].
  unfold ServiceRace.main_at, ServiceRace.brings, queue_at in *. rewrite Em, Er in *. cbn [at_pc core mpc rpc rs_run rs_sent].
  destruct H4 as [Hdn Htodo]. destruct todo; [|done].
  exists (events ++ Round :: (if rs_run s then [] else [Signal SIGTERM])), dn, rest, [].
  split; [apply Forall_app; split; [done|]; destruct (rs_run s); by repeat constructor|].
  split; [rewrite notified_app, H2; destruct (rs_run s); by rewrite app_nil_r|].
  split; [by rewrite app_nil_r|]. split; [done|]. split.
  - split; [cbn; lia|]. destruct Hri as (_ & _ & _ & -> & _). by rewrite H3.
  - rewrite spec_loop_app, H5. cbn. rewrite app_nil_r. destruct (rs_run s); reflexivity.
Qed.

(** The count is the number of alarms of the round. *)
Lemma inv_count s s' b w :
  service_inv s -> mpc s = MPoll -> rpc (core s) = RCount b w -> main_step s = Some s' -> service_inv s'.
Proof.
  intros (Hri & Hdb & Hfl & events & dn & todo & rest & H1 & H2 & H3 & Ht & H4 & H5) Em Er. unfold ServiceRace.main_step.
  rewrite Em. destruct (reader_step one_access (core s)) as [c'|] eqn:Hst; cbn [mbind option_bind]; [|done].
  pose proof (race_inv_reader _ _ Hri Hst) as Hri'. unfold reader_step in Hst. rewrite Er in Hst.
  cbn [reload one_access] in Hst. injection Hst as Hst.
  unfold ServiceRace.main_at, ServiceRace.brings, queue_at in *. rewrite Em, Er in *.
  destruct H4 as [Hdn Hw]. set (p0 := Z.of_nat (length (dn ++ todo))) in *.
  assert ((if b then u32 (w - dwAlarmMotionDetectRd (shared (core s)))
    else u32 (ALARM_MOTION_DETECT_MAX - dwAlarmMotionDetectRd (shared (core s)) + w)) =
    Z.of_nat (length todo)) as Hn.
  { destruct Hri as (_ & Hc & Hp & _ & Hrd & _ & _ & Hri). unfold reader_inv in Hri. rewrite Er in Hri.
    destruct Hri as (_ & -> & _). rewrite Hrd, Hw. rewrite H3, app_assoc, length_app in Hp.
    subst p0. rewrite length_app in *. rewrite count_snapshot by lia. lia. }
  rewrite Hn in Hst. subst c'. cbn [rpc]. destruct (Z.eqb_spec (Z.of_nat (length todo)) 0) as [E0|E0]; intros [= <-].
  - destruct todo; [|done]. split.
    { destruct Hri' as (A1 & A2 & A3 & A4 & A5 & A6 & A7 & Hrd). 
      refine (conj A1 (conj A2 (conj A3 (conj A4 (conj A5 (conj A6 (conj A7 _))))))).
      unfold reader_inv in *. cbn in *. destruct Hrd as (_ & _ & Hrd). by rewrite Z.add_0_r in Hrd. }
    split; [done|]. split; [done|]. exists events, dn, [], rest. do 4 (split; [done|]).
    split; [|exact H5]. cbn. lia.
  - split; [done|]. split; [done|]. split; [done|]. exists events, dn, todo, rest. do 4 (split; [done|]).
    split; [|exact H5]. cbn. lia.
Qed.

(** The alarm [main] handles next. *)
Lemma next_alarm s n i events dn todo rest :
  race_inv (core s) -> rpc (core s) = RRead n i -> i < n ->
  Forall event_ok events -> notified events = key_of_payload <$> hist (core s) ->
  hist (core s) = dn ++ todo ++ rest -> Z.of_nat (length dn) = consumed (core s) + i ->
  Z.of_nat (length todo) = n - i ->
  exists e todo', alarm_at i (shared (core s)) = Ok e /\ todo = payload_of e :: todo' /\
    alarm_ok localtime_r cams phones (key_of_payload (payload_of e)).
Proof.
  intros Hri Er Hi Hev Hnot Hh Hdn Htodo. destruct (reader_reads _ _ _ Hri Er Hi) as (e & Ha & Hx).
  destruct todo as [|x todo']; [simpl in Htodo; lia|]. exists e, todo'. split; [done|].
  split; [|by eapply published_ok]. rewrite Hh in Hx.
  rewrite <- Hdn, Nat2Z.id in Hx. cbn [app] in Hx. rewrite list_lookup_middle in Hx by done. congruence.
Qed.

Lemma inv_for s s' : service_inv s -> mpc s = MFor -> main_step s = Some s' -> service_inv s'.
Proof.
  intros (Hri & Hdb & Hfl & events & dn & todo & rest & H1 & H2 & H3 & Ht & H4 & H5) Em. unfold ServiceRace.main_step.
  rewrite Em. unfold ServiceRace.main_at, ServiceRace.brings, queue_at in *. rewrite Em in *.
  destruct (rpc (core s)) as [| |n i|] eqn:Er; try done. destruct H4 as [Hdn Htodo].
  destruct (Z.ltb_spec i n) as [Hi|Hi].
  - destruct (next_alarm s n i events dn todo rest) as (e & todo' & Ha & -> & _); [done..|].
    rewrite (HikDevGetAlarmDateTime_read _ _ _ _ Ha). intros [= <-].
    split; [done|]. split; [done|]. split; [done|]. exists events, dn, (payload_of e :: todo'), rest.
    do 4 (split; [done|]). unfold ServiceRace.main_at, ServiceRace.brings, queue_at.
    cbn [at_pc core mpc rs_run rs_sent]. rewrite Er. split; [|exact H5]. split; [done|]. by eexists _, _.
  - destruct (reader_step one_access (core s)) as [c'|] eqn:Hst; cbn; [|done]. intros [= <-].
    pose proof (race_inv_reader _ _ Hri Hst) as Hri'. unfold reader_step in Hst. rewrite Er in Hst.
    rewrite (proj2 (Z.ltb_ge _ _)) in Hst by done. injection Hst as <-.
    split; [done|]. split; [done|]. split; [done|]. exists events, dn, todo, rest. do 4 (split; [done|]).
    split; [|exact H5]. cbn. lia.
Qed.

Lemma inv_ip s s' date : service_inv s -> mpc s = MIp date -> main_step s = Some s' -> service_inv s'.
Proof.
  intros (Hri & Hdb & Hfl & events & dn & todo & rest & H1 & H2 & H3 & Ht & H4 & H5) Em. unfold ServiceRace.main_step.
  rewrite Em. unfold ServiceRace.main_at, ServiceRace.brings, queue_at in *. rewrite Em in *.
  destruct (rpc (core s)) as [| |n i|] eqn:Er; try done.
  destruct H4 as [[Hdn Htodo] (x & todo' & -> & ->)]. simpl length in Htodo.
  destruct (next_alarm s n i events dn (x :: todo') rest) as (e & ? & Ha & [= -> <-] & Hok); [first [done|simpl; lia]..|].
  destruct (reader_step one_access (core s)) as [c'|] eqn:Hst; cbn [mbind option_bind]; [|done].
  pose proof (race_inv_reader _ _ Hri Hst) as Hri'. unfold reader_step in Hst.
  rewrite Er, (proj2 (Z.ltb_lt _ _)), Ha in Hst by lia. injection Hst as <-.
  rewrite (alarm_ip_ok (shared (core s)) i e Ha (proj1 Hok)). intros [= <-].
  split; [done|]. split; [done|]. split; [done|]. exists events, dn, (payload_of e :: todo'), rest.
  do 4 (split; [done|]). split; [|exact H5]. cbn.
  split; [lia|]. by eexists _, _.
Qed.

Lemma inv_send s s' date ip :
  service_inv s -> mpc s = MSend date ip -> main_step s = Some s' -> service_inv s'.
Proof.
  intros (Hri & Hdb & Hfl & events & dn & todo & rest & H1 & H2 & H3 & Ht & H4 & H5) Em. unfold ServiceRace.main_step.
  rewrite Em. unfold ServiceRace.main_at, ServiceRace.brings, queue_at in *. rewrite Em in *.
  destruct (rpc (core s)) as [| |n i|] eqn:Er; try done.
  destruct H4 as [[Hdn Htodo] (x & todo' & -> & -> & ->)].
  assert (alarm_ok localtime_r cams phones (key_of_payload x)) as Hok.
  { eapply (published_ok events (hist (core s)) (length dn)); [done..|]. rewrite H3. by apply list_lookup_middle. }
  rewrite (deliver_alarm_texts localtime_r os_write com cams phones Hcams (key_of_payload x)) by done.
  intros [= <-]. split; [done|]. split; [done|]. split; [done|]. exists events, (dn ++ [x]), todo', rest.
  do 2 (split; [done|]). split; [by rewrite <- app_assoc|].
  split; [cbn; by rewrite Ht, texts_of_app|].
  unfold ServiceRace.main_at, ServiceRace.brings, queue_at. cbn [core mpc rs_run rs_sent]. rewrite Er.
  split; [rewrite length_app; simpl length in *; lia|]. by rewrite H5, texts_of_cons, app_assoc.
Qed.

Lemma inv_main s s' : service_inv s -> main_step s = Some s' -> service_inv s'.
Proof.
  intros Hinv Hst. pose proof Hinv as (_ & _ & _ & events & dn & todo & rest & _ & _ & _ & _ & Hat & _).
  unfold ServiceRace.main_at in Hat. destruct (mpc s) eqn:Em; [by eapply inv_test| | | | | |done..].
  - destruct (rpc (core s)) eqn:Er; [by eapply inv_load|by eapply inv_count|done..].
  - by eapply inv_for.
  - by eapply inv_ip.
  - by eapply inv_send.
  - unfold ServiceRace.main_step in Hst. by rewrite Em in Hst.
Qed.

Lemma inv_init db : holds db cams phones -> service_inv (race_service_init true db).
Proof.
  intros Hdb. split; [apply race_inv_init|]. split; [done|]. split; [done|].
  exists [], [], [], []. by repeat (split; [first [done|constructor]|]).
Qed.

Lemma inv_step l s s' :
  service_inv s ->
  (forall lCommand a info now, l = LNotify lCommand a info now ->
     service_light localtime_r cams phones (Notify lCommand a info now) s) ->
  race_service_step l s = Some s' -> service_inv s'.
Proof.
  intros Hinv Ha Hst. destruct l as [lCommand a info now| |pid|].
  - eapply inv_notify; [exact Hinv|by apply Ha|exact Hst].
  - by eapply inv_callback.
  - by eapply inv_signal.
  - by eapply inv_main.
Qed.

Lemma inv_reachable db s :
  holds db cams phones ->
  service_reachable localtime_r os_write com one_access (service_light localtime_r cams phones) db s ->
  service_inv s.
Proof.
  intros Hdb. induction 1 as [|s l s' _ IH Ha Hst]; [by apply inv_init|by eapply inv_step].
Qed.
(** Nothing has gone wrong. *)
Lemma inv_running s : service_inv s -> (forall f, mpc s <> MFault f) /\ forall e, mpc s <> MStop e.
Proof.
  intros (_ & _ & _ & _ & dn & todo & _ & _ & _ & _ & _ & H & _). unfold ServiceRace.main_at in H.
  by destruct (mpc s).
Qed.

(** The messages are those of the first alarms published; at the head of the loop
    and after it, of the alarms consumed. *)
Lemma inv_sent s :
  service_inv s ->
  exists xs, rs_sent s = texts_of xs /\ xs `prefix_of` hist (core s) /\
    (mpc s = MTest \/ mpc s = MLeft -> xs = take (Z.to_nat (consumed (core s))) (hist (core s))).
Proof.
  intros (_ & _ & _ & events & dn & todo & rest & _ & _ & H3 & Ht & H4 & _).
  exists dn. split; [done|]. split; [rewrite H3; by apply prefix_app_r|].
  unfold ServiceRace.main_at in H4. intros [Em|Em]; rewrite Em in H4; destruct (rpc (core s)); try done;
    by rewrite H3, take_app_length' by lia.
Qed.
End Lemmas.

(** Executed schedules are reachable. *)
Section Runs.
Context (localtime_r : Z -> tm) (os_write : Z -> bytes -> Z) (com : SerialPort) (g : granularity).
Context (cams : list camera) (phones : bytes -> option (list bytes)) (db : database).

Abbreviation reached := (service_reachable localtime_r os_write com g (service_light localtime_r cams phones) db).

Definition label_ok (l : service_label) : Prop :=
  match l with
  | LNotify lCommand a info now => event_ok localtime_r cams phones (Notify lCommand a info now)
  | _ => True
  end.

Lemma service_run_reachable ls : forall s s',
  Forall label_ok ls -> light_schedule localtime_r os_write com g ls s = true ->
  service_run localtime_r os_write com g ls s = Some s' -> reached s -> reached s'.
Proof.
  induction ls as [|l ls IH]; intros s s' Hok Hlight; cbn [service_run]; [by intros [= ->]|].
  apply Forall_cons_iff in Hok as [Hl Hok]. cbn [light_schedule] in Hlight.
  apply andb_true_iff in Hlight as [Hli Hlight].
  destruct (race_service_step _ _ _ _ l s) as [s1|] eqn:E; cbn [mbind option_bind]; [|done]. intros Hrun Hs.
  apply (IH s1); [done..|]. eapply sreach_step; [exact Hs| |exact E].
  intros lCommand a info now ->. split; [exact Hl|]. intros _. by apply bool_decide_eq_true_1 in Hli.
Qed.
End Runs.

(** ** Properties *)

Section Properties.
Context (localtime_r : Z -> tm) (os_write : Z -> bytes -> Z) (com : SerialPort).
Context (cams : list camera) (phones : bytes -> option (list bytes)).

(** C3: every interleaving of the callback thread with the loop linearises.  From
    camera tables that hold a directory, with alarms that can be delivered, under
    light load and with one store and one load per access to an index, each state
    the two threads and the signals can reach has an atomic schedule of the same
    notifications, in the order of their publication, signals and whole rounds,
    on which the service of AlarmLoop.v runs without fault.  At the head of the
    loop both have the same messages, flag and unread alarms; within a round the
    messages are the first of those of the atomic round; and [main] has left the
    loop only if the atomic service has.  No access leaves the ring and no
    exception stops [main]. *)
Theorem interleaving_linearizes db s :
  Z.of_nat (length cams) < 2 ^ 32 -> holds db cams phones ->
  service_reachable localtime_r os_write com one_access (service_light localtime_r cams phones) db s ->
  exists events r,
    notified events = key_of_payload <$> hist (core s) /\
    service_loop localtime_r os_write com events (mkService true HikDevOperate_init db []) = Ok r /\
    linearized s r.
Proof.
  intros Hcams Hdb Hreach. apply (inv_reachable _ _ _ _ _ Hcams) in Hreach; [|done].
  destruct Hreach as (_ & _ & _ & events & dn & todo & rest & H1 & H2 & H3 & Ht & H4 & H5).
  unfold main_at, brings, queue_at, linearized in *.
  pose proof (fun out => service_loop_refines localtime_r os_write com cams phones Hcams events
    (mkService true HikDevOperate_init db []) (mkSpec true [] []) out (init_represents cams phones db Hdb)
    (List.Forall_nil _) H1) as Hloop.
  destruct (mpc s) eqn:Em; try done; destruct (rpc (core s)) eqn:Er; try done.
  all: try (destruct (Hloop _ H5) as (s' & E & Hrun & Hring & Hp & _ & Hsent); exists events, (inl s');
    split; [done|]; split; [done|]; cbn in Hsent, Hp, Hrun).
  - exists s'. destruct H4 as [Hdn Hlen]. destruct todo; [|done]. rewrite app_nil_r in Hsent.
    repeat (split; [done|]). rewrite Hp, H3. cbn [app]. by rewrite drop_app_length' by lia.
  - by exists s', (texts_of localtime_r os_write com cams phones todo).
  - by exists s', (texts_of localtime_r os_write com cams phones todo).
  - by exists s', (texts_of localtime_r os_write com cams phones todo).
  - by exists s', (texts_of localtime_r os_write com cams phones todo).
  - by exists s', (texts_of localtime_r os_write com cams phones todo).
  - destruct H5 as (q & Hq & Hd). destruct (Hloop _ Hq) as (s' & E & _ & _ & _ & _ & Hsent).
    exists events, (inr s'). split; [done|]. split; [done|]. exists s'. split; [done|congruence].
Qed.
End Properties.

(** ** Witnesses *)

(** An alarm of [sample_old] is published while [main] is between its two looks at
    the indices; a second one, and SIGTERM, come in the middle of the round. *)
Definition sample_notify : service_label := LNotify COMM_ALARM_V30 (device_at (c_ip sample_old)) demo_info 7.

Definition sample_interleaving : list service_label :=
  [sample_notify; LCallback; LMain; LCallback; LCallback; LCallback; LMain; sample_notify; LMain; LCallback;
   LMain; LCallback; LSignal SIGTERM; LMain; LCallback; LCallback; LMain; LMain].

(** An alarm that gives no address. *)
Definition blank_notify : service_label := LNotify COMM_ALARM_V30 zero_alarmer demo_info 7.

Lemma blank_event_ok : event_ok sample_clock sample_cams sample_phones (Notify COMM_ALARM_V30 zero_alarmer demo_info 7).
Proof.
  split; [vm_compute; lia|]. split; [by intros F; destruct F|]. split; [vm_compute; discriminate|].
  by intros c cs _ F; destruct F.
Qed.

Definition sample_label (l : service_label) : Prop :=
  l = sample_notify \/ l = blank_notify \/ forall lCommand a info now, l <> LNotify lCommand a info now.

Lemma sample_label_ok ls :
  Forall sample_label ls -> Forall (label_ok sample_clock sample_cams sample_phones) ls.
Proof.
  apply List.Forall_impl. intros l [->|[->|Hl]]; [exact sample_event_ok|exact blank_event_ok|].
  destruct l; [by destruct (Hl lCommand pAlarmer pAlarmInfo now)|done..].
Qed.

Lemma sample_tables_hold : holds sample_tables sample_cams sample_phones.
Proof. split; [reflexivity|]. intros ip. reflexivity. Qed.

Definition sample_after (g : granularity) (ls : list service_label) : race_service :=
  default (race_service_init true sample_tables)
    (service_run sample_clock sample_write sample_port g ls (race_service_init true sample_tables)).

Lemma sample_reachable g ls :
  Forall sample_label ls ->
  light_schedule sample_clock sample_write sample_port g ls (race_service_init true sample_tables) = true ->
  bool_decide (is_Some (service_run sample_clock sample_write sample_port g ls (race_service_init true sample_tables))) ->
  service_reachable sample_clock sample_write sample_port g
    (service_light sample_clock sample_cams sample_phones) sample_tables (sample_after g ls).
Proof.
  intros Hls Hlight E. apply bool_decide_unpack in E as [s E]. unfold sample_after. rewrite E. cbn [default].
  eapply service_run_reachable; [by apply sample_label_ok|exact Hlight|exact E|apply sreach_init].
Qed.

Ltac sample_labels :=
  repeat first
    [apply Forall_app; split | apply list.Forall_join | apply Forall_replicate
    |apply List.Forall_nil | apply List.Forall_cons 
    |by right; right | left; reflexivity | right; left; reflexivity].

Lemma interleaving_linearizes_witness :
  let text := message (s2b "2020-1-2 3:4:5") (c_ip sample_old) (s2b "hall") (s2b "13600000000") in
  exists events r,
    rs_sent (sample_after one_access sample_interleaving) = [(text, UART_TRUE)] /\
    mpc (sample_after one_access sample_interleaving) = MTest /\
    length (notified events) = 2%nat /\
    service_loop sample_clock sample_write sample_port events sample_service = Ok r /\
    linearized (sample_after one_access sample_interleaving) r.
Proof.
  intros text.
  destruct (interleaving_linearizes sample_clock sample_write sample_port sample_cams sample_phones sample_tables
    (sample_after one_access sample_interleaving)) as (events & r & Hn & Hloop & Hlin).
  - vm_compute. reflexivity.
  - exact sample_tables_hold.
  - apply sample_reachable; [sample_labels|vm_compute; reflexivity|vm_compute; exact I].
  - exists events, r. split; [vm_compute; reflexivity|]. split; [vm_compute; reflexivity|].
    split; [rewrite Hn; vm_compute; reflexivity|]. split; [exact Hloop|exact Hlin].
Defined.
