(* ===== verification/ServiceLive.v ===== *)
(** * Progress of the service under the callback thread

    What [main] reaches in the interleavings of ServiceRace.v: a round sends what
    has been published, and after SIGTERM the loop is left; and what goes wrong
    when the reset of the write index is a store of its own. *)
From S2P Require Import Prelude CLib AlarmRing AlarmRace StdMap DataBase CsvError Message SerialLine AlarmLoop ServiceRace.

Section Lemmas.
Context (localtime_r : Z -> tm) (os_write : Z -> bytes -> Z) (com : SerialPort).
Context (cams : list camera) (phones : bytes -> option (list bytes)).
Context (Hcams : Z.of_nat (length cams) < 2 ^ 32).

Abbreviation service_inv := (service_inv localtime_r os_write com cams phones).
Abbreviation main_step := (main_step localtime_r os_write com one_access).
Abbreviation race_service_step := (race_service_step localtime_r os_write com one_access).

(** *** A round of [main] alone *)

Abbreviation service_run := (service_run localtime_r os_write com one_access).

(** [main] moved, and the rest did not. *)
Definition same_rest (s s' : race_service) : Prop :=
  hist (core s') = hist (core s) /\ rs_run s' = rs_run s.

#[local] Instance same_rest_preorder : PreOrder same_rest.
Proof. split; [done|]. intros ? ? ? [? ?] [? ?]. split; congruence. Qed.

(** The control flow of [main], when nothing goes wrong. *)
Definition next_pc (s s' : race_service) : Prop :=
  let c := core s in
  let c' := core s' in
  match mpc s, rpc c with
  | MTest, r => mpc s' = (if rs_run s then MPoll else MLeft) /\ c' = c
  | MPoll, RIdle => mpc s' = MPoll /\ reader_step one_access c = Some c'
  | MPoll, RCount _ _ => exists c1, reader_step one_access c = Some c1 /\
      forall n i, rpc c1 = RRead n i ->
        if n =? 0 then mpc s' = MTest /\ consumed c' = consumed c1 else mpc s' = MFor /\ c' = c1
  | MFor, RRead n i =>
      if i <? n then (exists date, mpc s' = MIp date) /\ c' = c
      else mpc s' = MTest /\ consumed c' = consumed c + n
  | MIp _, RRead n i =>
      (exists date ip, mpc s' = MSend date ip) /\ rpc c' = RRead n (i + 1) /\ consumed c' = consumed c
  | MSend _ _, RRead n i => mpc s' = MFor /\ c' = c
  | _, _ => True
  end.

Lemma main_moves s :
  service_inv s -> mpc s <> MLeft ->
  exists s', main_step s = Some s' /\ service_inv s' /\ same_rest s s' /\ next_pc s s'.
Proof.
  intros Hinv Hleft. pose proof Hinv as (_ & _ & _ & _ & dn & todo & _ & _ & _ & _ & _ & Hat & _).
  assert (exists s', main_step s = Some s' /\ same_rest s s' /\
    ((forall f, mpc s' <> MFault f) -> (forall e, mpc s' <> MStop e) -> next_pc s s')) as (s' & E & Hsame & Hnext).
  { unfold ServiceRace.main_step, ServiceRace.main_at, next_pc, same_rest in *.
    destruct (mpc s) as [| | |date|date ip| | |]; try done;
      destruct (rpc (core s)) as [|b w|n i|] eqn:Er; try done.
    5: destruct Hat as [[_ Ht] (x & todo' & -> & _)]; simpl in Ht;
      destruct (reader_reads _ _ _ (proj1 Hinv) Er) as (e & Ha & _); [lia|].
    3: { unfold reader_step. rewrite Er. cbn [mbind option_bind rpc].
      set (count := if b then _ else _). destruct (count =? 0) eqn:Ez;
      (eexists; split; [reflexivity|]; split; [by split|]); intros _ _;
      (eexists; split; [reflexivity|]); intros ? ? [= <- <-]; by rewrite Ez. }
    all: unfold reader_step; rewrite ?Er; try rewrite Ha;
      cbn [mbind option_bind rpc]; repeat case_match; bool2prop; try lia; cbn [mbind option_bind];
      (eexists; split; [reflexivity|]; split; [by split|]); intros Hf Hs; cbn in *;
      first [solve [eauto 10]|congruence|by destruct (Hf _ eq_refl)|by destruct (Hs _ eq_refl)]. }
  assert (service_inv s') as Hinv' by (by eapply inv_main). exists s'. split; [done|]. split; [done|].
  split; [done|]. pose proof (inv_running _ _ _ _ _ s' Hinv') as [Hf He]. by apply Hnext.
Qed.

Lemma service_run_app ls1 : forall ls2 s,
  service_run (ls1 ++ ls2) s = s1 ← service_run ls1 s; service_run ls2 s1.
Proof.
  induction ls1 as [|l ls1 IH]; intros ls2 s; [done|]. cbn [app ServiceRace.service_run].
  destruct (race_service_step _ _); cbn; auto.
Qed.

Lemma service_run_main ls s : service_run (LMain :: ls) s = s1 ← main_step s; service_run ls s1.
Proof. done. Qed.

(** One step of [main], with what is known of the state it leads to. *)
Ltac main_moves s Hinv s' :=
  let E := fresh "E" in let Hinv' := fresh "Hinv" in
  let Hsame := fresh "Hsame" in let Hn := fresh "Hn" in
  destruct (main_moves s Hinv) as (s' & E & Hinv' & Hsame & Hn); [congruence|];
  rewrite service_run_main, E; cbn [mbind option_bind]; clear E; unfold next_pc in Hn.

(** The three steps for each alarm left, and the one that ends the round. *)
Lemma round_steps k : forall s n i,
  service_inv s -> mpc s = MFor -> rpc (core s) = RRead n i -> n - i = Z.of_nat k ->
  exists s', service_run (replicate (3 * k + 1) LMain) s = Some s' /\ service_inv s' /\ mpc s' = MTest /\
    consumed (core s') = consumed (core s) + n /\ same_rest s s'.
Proof.
  induction k as [|k IH]; intros s n i Hinv Em Er Hk.
  - change (3 * 0 + 1)%nat with 1%nat. cbn [replicate]. main_moves s Hinv s1.
    rewrite Em, Er, (proj2 (Z.ltb_ge _ _)) in Hn by lia. destruct Hn as [Em1 Hc]. by exists s1.
  - replace (3 * S k + 1)%nat with (S (S (S (3 * k + 1)))) by lia. cbn [replicate].
    main_moves s Hinv s1. rewrite Em, Er, (proj2 (Z.ltb_lt _ _)) in Hn by lia.
    destruct Hn as [[date Em1] Ec1]. main_moves s1 Hinv0 s2. rewrite Em1, Ec1, Er in Hn.
    destruct Hn as [(date' & ip & Em2) [Er2 Hc2]]. main_moves s2 Hinv1 s3. rewrite Em2, Er2 in Hn.
    destruct Hn as [Em3 Ec3].
    destruct (IH s3 n (i + 1)) as (s' & -> & Hinv' & Em' & Hc' & Hsame'); [done..|by rewrite Ec3|lia|].
    exists s'. split; [done|]. split; [done|]. split; [done|]. split; [by rewrite Hc', Ec3, Hc2|].
    do 3 (etransitivity; [eassumption|]). done.
Qed.

(** How many steps a round takes with [n] alarms waiting. *)
Definition round_length (n : nat) : nat := if (n =? 0)%nat then 3 else 3 * n + 4.

Lemma round_delivers_all s :
  service_inv s -> mpc s = MTest -> rs_run s = true ->
  let n := (length (hist (core s)) - Z.to_nat (consumed (core s)))%nat in
  exists s', service_run (replicate (round_length n) LMain) s = Some s' /\ service_inv s' /\ mpc s' = MTest /\
    consumed (core s') = Z.of_nat (length (hist (core s))) /\ same_rest s s'.
Proof.
  intros Hinv Em Erun n. pose proof Hinv as (Hri & _ & _ & _ & dn & todo & _ & _ & _ & _ & _ & Hat & _).
  unfold ServiceRace.main_at in Hat. rewrite Em in Hat. destruct (rpc (core s)) eqn:Er; try done. clear Hat.
  pose proof Hri as (_ & Hcp & _). destruct (count_steps _ Hri Er) as (c2 & Hc2 & _ & Er2 & Hh2 & Hcons2).
  replace (round_length n) with (S (S (S (if (n =? 0)%nat then 0 else 3 * n + 1)))) by
    (unfold round_length; case_match; lia). cbn [replicate].
  main_moves s Hinv s1. rewrite Em, Erun in Hn. destruct Hn as [Em1 Ec1].
  main_moves s1 Hinv0 s2. rewrite Em1, Ec1, Er in Hn. destruct Hn as [Em2 Est1].
  cbn [run race_step] in Hc2. rewrite Est1 in Hc2. cbn [mbind option_bind] in Hc2.
  assert (exists b w, rpc (core s2) = RCount b w) as (b & w & Erc).
  { unfold reader_step in Est1. rewrite Er in Est1. injection Est1 as <-. by eexists _, _. }
  main_moves s2 Hinv1 s3. rewrite Em2, Erc in Hn. destruct Hn as (c1 & Est2 & Hn). rewrite Est2 in Hc2.
  injection Hc2 as ->. specialize (Hn _ _ Er2).
  assert (same_rest s s3) as Hs by (do 2 (etransitivity; [eassumption|]); done).
  replace (n =? 0)%nat with (Z.of_nat (length (hist (core s))) - consumed (core s) =? 0)
    by (subst n; destruct (Z.eqb_spec (Z.of_nat (length (hist (core s))) - consumed (core s)) 0),
      (Nat.eqb_spec (length (hist (core s)) - Z.to_nat (consumed (core s))) 0); lia).
  destruct (Z.eqb_spec (Z.of_nat (length (hist (core s))) - consumed (core s)) 0) as [E0|E0].
  - destruct Hn as [Em3 Hc3]. exists s3. split; [done|]. split; [done|]. split; [done|]. split; [lia|done].
  - destruct Hn as [Em3 <-].
    destruct (round_steps n s3 (Z.of_nat (length (hist (core s))) - consumed (core s)) 0)
      as (s' & -> & Hinv' & Em' & Hc' & Hsame'); [done..|lia|].
    exists s'. split; [done|]. split; [done|]. split; [done|]. split; [lia|by etransitivity].
Qed.


(** *** After SIGTERM *)

(** A bound on the steps [main] has left once [ServiceRun] is false: a round of at
    most 31 alarms, and the test. *)
Definition steps_left (s : race_service) : Z :=
  match mpc s, rpc (core s) with
  | MTest, _ => 1
  | MPoll, RIdle => 97
  | MPoll, _ => 96
  | MFor, RRead n i => 3 * (n - i) + 2
  | MIp _, RRead n i => 3 * (n - i) + 1
  | MSend _ _, RRead n i => 3 * (n - i) + 3
  | _, _ => 0
  end.

Lemma steps_left_range s : service_inv s -> 0 <= steps_left s <= 97.
Proof.
  intros (Hri & _ & _ & _ & dn & todo & _ & _ & _ & _ & _ & Hat & _).
  destruct Hri as (_ & Hc & Hp & _ & _ & _ & _ & Hrd). unfold ServiceRace.main_at, reader_inv, steps_left in *.
  destruct (mpc s); try lia; destruct (rpc (core s)); try done; try lia.
Qed.

Lemma steps_left_main s s' :
  service_inv s -> rs_run s = false -> main_step s = Some s' ->
  service_inv s' /\ rs_run s' = false /\ steps_left s' < steps_left s.
Proof.
  intros Hinv Hrun E. assert (mpc s <> MLeft) as Hleft by (intros Em; unfold ServiceRace.main_step in E; by rewrite Em in E).
  destruct (main_moves s Hinv Hleft) as (s1 & E1 & Hinv1 & [_ Hsame] & Hn). rewrite E in E1. injection E1 as <-.
  split; [done|]. split; [congruence|]. pose proof (steps_left_range s' Hinv1) as Hr.
  pose proof Hinv as (Hri & _ & _ & _ & dn & todo & _ & _ & _ & _ & _ & Hat & _). pose proof Hri as (_ & _ & Hp & _ & _ & _ & _ & Hrd).
  unfold next_pc, ServiceRace.main_at, reader_inv, steps_left in *. rewrite Hrun in Hn.
  destruct (mpc s) as [| | |date|date ip| | |]; try done; destruct (rpc (core s)) as [|b w|n i|] eqn:Er; try done.
  - by destruct Hn as [-> _].
  - destruct Hn as [-> Hst]. unfold reader_step in Hst. rewrite Er in Hst. injection Hst as <-. done.
  - destruct Hn as (c1 & Hst & Hn). pose proof (race_inv_reader _ _ Hri Hst) as Hri1.
    unfold reader_step in Hst. rewrite Er in Hst. injection Hst as <-. cbn [rpc] in Hn. specialize (Hn _ _ eq_refl).
    destruct Hri1 as (_ & _ & Hp1 & _ & _ & _ & _ & Hrd1). unfold reader_inv in Hrd1. cbn in Hrd1, Hp1.
    match type of Hn with if ?c then _ else _ => destruct c end; destruct Hn as [-> Hc]; [done|].
    rewrite Hc in *. cbn [rpc] in *. lia.
  - destruct (Z.ltb_spec i n); [|by destruct Hn as [-> _]; lia]. destruct Hn as [[date ->] ->]. rewrite Er. lia.
  - destruct Hn as [(date' & ip & ->) [-> _]]. lia.
  - destruct Hn as [-> ->]. rewrite Er. lia.
Qed.

(** The other steps leave [main] where it is. *)
Lemma steps_left_other l s s' :
  l <> LMain -> service_inv s -> race_service_step l s = Some s' -> rs_run s = false ->
  rs_run s' = false /\ (service_inv s' -> steps_left s' = steps_left s).
Proof.
  intros Hl Hinv E Hrun. assert (forall c, writer_step one_access (core s) = Some c -> rpc c = rpc (core s)) as Hw
    by (intros c Hc; by apply writer_step_cases in Hc as [? _]).
  destruct l as [lCommand a info now| |pid|]; cbn in E; [| | |done].
  - destruct (wpc (core s)); try done. destruct (motion_channel lCommand info) as [[i|]|[]|f]; injection E as <-; [done..|].
    split; [done|]. intros Hinv'. by destruct (proj1 (inv_running _ _ _ _ _ _ Hinv') f).
  - destruct (writer_step one_access (core s)) as [c|] eqn:Hc; [|done]. injection E as <-. split; [done|]. intros _.
    unfold steps_left. cbn. by rewrite (Hw c eq_refl).
  - injection E as <-. cbn. rewrite Hrun. unfold ProcessQuit. split; [by case_match|done].
Qed.

Definition main_steps (ls : list service_label) : Z :=
  Z.of_nat (length (filter (fun l => l = LMain) ls)).

Lemma main_steps_bounded ls : forall s s',
  service_inv s -> rs_run s = false ->
  Forall (label_ok localtime_r cams phones) ls -> light_schedule localtime_r os_write com one_access ls s = true ->
  service_run ls s = Some s' ->
  service_inv s' /\ main_steps ls + steps_left s' <= steps_left s.
Proof.
  induction ls as [|l ls IH]; intros s s' Hinv Hrun Hok Hlight; cbn [ServiceRace.service_run].
  { intros [= <-]. split; [done|]. change (main_steps []) with 0. lia. }
  apply Forall_cons_iff in Hok as [Hl Hok]. cbn [light_schedule] in Hlight. apply andb_true_iff in Hlight as [Hli Hlight].
  destruct (race_service_step l s) as [s1|] eqn:E; cbn [mbind option_bind]; [|done]. intros Hs.
  assert (service_inv s1) as Hinv1.
  { eapply (inv_step localtime_r os_write com cams phones Hcams); [exact Hinv| |exact E].
    intros lCommand a info now ->. split; [exact Hl|]. intros _. by apply bool_decide_eq_true_1 in Hli. }
  destruct (decide (l = LMain)) as [->|Hne].
  - destruct (steps_left_main s s1 Hinv Hrun E) as (_ & Hrun1 & Hlt).
    destruct (IH s1 s') as [Hinv' Hle]; [done..|]. split; [done|]. unfold main_steps in *.
    rewrite list.filter_cons_True by done. cbn [length]. lia.
  - destruct (steps_left_other l s s1 Hne Hinv E Hrun) as [Hrun1 Heq]. specialize (Heq Hinv1).
    destruct (IH s1 s') as [Hinv' Hle]; [done..|]. split; [done|]. unfold main_steps in *.
    rewrite list.filter_cons_False by done. lia.
Qed.
End Lemmas.

(** ** Properties *)

Section Properties.
Context (localtime_r : Z -> tm) (os_write : Z -> bytes -> Z) (com : SerialPort).
Context (cams : list camera) (phones : bytes -> option (list bytes)).

(** C5: with one load and one store per access to an index of the ring, and tables
    that hold the directory: in every state that interleavings with deliverable
    alarms reach under light load (a notification comes only while fewer than 31
    alarms wait), the callback thread possibly in the middle of its stores, a round
    of [main] alone from the head of the loop with [ServiceRun] set is back there
    after [round_length n] steps ([3 n + 4] of them, or 3 if [n] is 0), [n] the
    alarms waiting, and the messages sent are then those of all the alarms
    published, each once and in order. *)
Theorem interleaved_round_delivers db s :
  Z.of_nat (length cams) < 2 ^ 32 -> holds db cams phones ->
  service_reachable localtime_r os_write com one_access (service_light localtime_r cams phones) db s ->
  mpc s = MTest -> rs_run s = true ->
  let n := (length (hist (core s)) - Z.to_nat (consumed (core s)))%nat in
  exists s',
    service_run localtime_r os_write com one_access (replicate (round_length n) LMain) s = Some s' /\
    mpc s' = MTest /\ rs_sent s' = texts_of localtime_r os_write com cams phones (hist (core s)).
Proof.
  intros Hcams Hdb Hreach Em Erun n. apply (inv_reachable _ _ _ _ _ Hcams) in Hreach; [|done].
  destruct (round_delivers_all _ _ _ _ _ Hcams s Hreach Em Erun) as (s' & E & Hinv & Em' & Hc & Hh & _).
  exists s'. split; [done|]. split; [done|]. destruct (inv_sent _ _ _ _ _ s' Hinv) as (xs & -> & _ & Hxs).
  by rewrite Hxs, Hc, Hh, take_ge by (first [lia|by left]).
Qed.

(** C6: after SIGTERM the loop is left, again with one load and one store per access
    to an index and tables that hold the directory.  From any state that
    interleavings with deliverable alarms reach under light load and in which
    [ServiceRun] has been cleared, even in the middle of a round, and over every
    continuation whose alarms are deliverable and that is under light load too,
    [main] takes at most 97 steps; until it has left the loop it can take one,
    without fault or exception, wherever the callback is; and when it has, the
    messages sent are those of the alarms consumed. *)
Theorem sigterm_ends_loop db s ls s' :
  Z.of_nat (length cams) < 2 ^ 32 -> holds db cams phones ->
  service_reachable localtime_r os_write com one_access (service_light localtime_r cams phones) db s ->
  rs_run s = false -> Forall (label_ok localtime_r cams phones) ls ->
  light_schedule localtime_r os_write com one_access ls s = true ->
  service_run localtime_r os_write com one_access ls s = Some s' ->
  main_steps ls <= 97 /\
  (mpc s' <> MLeft -> exists s'', main_step localtime_r os_write com one_access s' = Some s'' /\
     (forall f, mpc s'' <> MFault f) /\ forall e, mpc s'' <> MStop e) /\
  (mpc s' = MLeft -> rs_sent s' = texts_of localtime_r os_write com cams phones
     (take (Z.to_nat (consumed (core s'))) (hist (core s')))).
Proof.
  intros Hcams Hdb Hreach Hrun Hok Hlight Hs. apply (inv_reachable _ _ _ _ _ Hcams) in Hreach; [|done].
  destruct (main_steps_bounded _ _ _ _ _ Hcams ls s s' Hreach Hrun Hok Hlight Hs) as [Hinv Hle].
  pose proof (steps_left_range _ _ _ _ _ s Hreach). pose proof (steps_left_range _ _ _ _ _ s' Hinv).
  split; [lia|]. split.
  - intros Hleft. destruct (main_moves _ _ _ _ _ Hcams s' Hinv Hleft) as (s'' & E & Hinv'' & _).
    exists s''. split; [done|]. by eapply inv_running.
  - intros Hleft. destruct (inv_sent _ _ _ _ _ s' Hinv) as (xs & -> & _ & Hxs). by rewrite Hxs by (by right).
Qed.
End Properties.

(** ** Witnesses *)

(** SIGTERM comes while [main] reads the indices; the callback goes on. *)
Definition sample_terminated : race_service :=
  sample_after one_access
    ([sample_notify] ++ replicate 4 LCallback ++ [LMain; LMain; sample_notify; LSignal SIGTERM]).

Definition sample_last_round : list service_label :=
  [LMain; LCallback; LMain; LMain; LCallback; LCallback; LMain; LCallback; LMain; LMain].

Lemma sigterm_ends_loop_witness :
  let text := message (s2b "2020-1-2 3:4:5") (c_ip sample_old) (s2b "hall") (s2b "13600000000") in
  let s' := default sample_terminated
    (service_run sample_clock sample_write sample_port one_access sample_last_round sample_terminated) in
  mpc s' = MLeft /\ length (hist (core s')) = 2%nat /\ main_steps sample_last_round <= 97 /\
  rs_sent s' = [(text, UART_TRUE)].
Proof.
  intros text s'.
  destruct (sigterm_ends_loop sample_clock sample_write sample_port sample_cams sample_phones sample_tables
    sample_terminated sample_last_round s') as (Hle & _ & Hsent).
  - vm_compute. reflexivity.
  - exact sample_tables_hold.
  - apply sample_reachable; [sample_labels|vm_compute; reflexivity|vm_compute; exact I].
  - vm_compute. reflexivity.
  - apply sample_label_ok. unfold sample_last_round. sample_labels.
  - vm_compute. reflexivity.
  - vm_compute. reflexivity.
  - split; [vm_compute; reflexivity|]. split; [vm_compute; reflexivity|]. split; [exact Hle|].
    rewrite Hsent by (vm_compute; reflexivity). vm_compute. reflexivity.
Defined.

(** One alarm published and one being stored. *)
Definition sample_midway : list service_label :=
  [sample_notify; LCallback; LCallback; LCallback; LCallback; sample_notify; LCallback; LCallback].

Lemma interleaved_round_delivers_witness :
  let text := message (s2b "2020-1-2 3:4:5") (c_ip sample_old) (s2b "hall") (s2b "13600000000") in
  exists s', service_run sample_clock sample_write sample_port one_access (replicate 7 LMain)
      (sample_after one_access sample_midway) = Some s' /\
    mpc s' = MTest /\ rs_sent s' = [(text, UART_TRUE)].
Proof.
  intros text.
  destruct (interleaved_round_delivers sample_clock sample_write sample_port sample_cams sample_phones sample_tables
    (sample_after one_access sample_midway)) as (s' & Hrun & Hm & Hs).
  - vm_compute. reflexivity.
  - exact sample_tables_hold.
  - apply sample_reachable; [sample_labels|vm_compute; reflexivity|vm_compute; exact I].
  - vm_compute. reflexivity.
  - vm_compute. reflexivity.
  - exists s'. split; [exact Hrun|]. split; [exact Hm|]. rewrite Hs. vm_compute. reflexivity.
Defined.

(** ** When the reset of the write index is a store of its own *)

Definition split_store : granularity := {| split_wrap := true; reload := false |}.

Section Stale.
Context (localtime_r : Z -> tm) (os_write : Z -> bytes -> Z) (com : SerialPort).
Context (cams : list camera) (phones : bytes -> option (list bytes)).
Context (Hcams : Z.of_nat (length cams) < 2 ^ 32).
Context (db : database) (Hdb : holds db cams phones).

Abbreviation reaches := (service_reachable localtime_r os_write com split_store
  (service_light localtime_r cams phones) db).
Abbreviation texts_of := (texts_of localtime_r os_write com cams phones).
Abbreviation event_ok := (event_ok localtime_r cams phones).

(** The states below: [main] at [pc], running, the tables as they were. *)
Definition at_rest (st : alarm_state) (w : writer) (r : reader) (pc : main_pc) (h : list payload) (c : Z)
    (sn : list payload) (log : outbox) : race_service :=
  mkRS (mkRace st w r h c sn) pc true db log.

Lemma reaches_step l st w r pc h c sn log s' :
  reaches (at_rest st w r pc h c sn log) ->
  (forall lCommand a info now, l <> LNotify lCommand a info now) ->
  race_service_step localtime_r os_write com split_store l (at_rest st w r pc h c sn log) = Some s' ->
  reaches s'.
Proof. intros Hs Hl E. eapply sreach_step; [exact Hs| |exact E]. intros. by destruct (Hl lCommand a info now). Qed.

(** One step of the callback or of [main], computed. *)
Ltac goes_on l :=
  eapply (reaches_step l); [eassumption|done|]; cbn [race_service_step race_step at_rest core].

(** *** The callback alone *)

(** The entries up to the write index hold the alarms published. *)
Definition ring_holds (st : alarm_state) (h : list payload) : Prop :=
  length (struAlarmMotionDetect st) = 32%nat /\ dwAlarmMotionDetectWr st = Z.of_nat (length h) /\
  payload_of <$> take (length h) (struAlarmMotionDetect st) = h.

Lemma store_entry_insert f st p e :
  dwAlarmMotionDetectWr st = Z.of_nat p -> struAlarmMotionDetect st !! p = Some e ->
  store_entry f st = mkRing (<[p := f e]> (struAlarmMotionDetect st)) (Z.of_nat p) (dwAlarmMotionDetectRd st).
Proof.
  intros Hw He. unfold store_entry. rewrite Hw, Nat2Z.id. f_equal.
  apply list_eq. intros i. destruct (decide (i = p)) as [->|Hne].
  - rewrite list_lookup_alter_eq, list_lookup_insert_eq, He by (by eapply lookup_lt_Some). done.
  - by rewrite list_lookup_alter_ne, list_lookup_insert_ne.
Qed.

(** A notification and the callback up to its first store of the write index. *)
Lemma publish_reach st h c sn log l a info now :
  reaches (at_rest st WIdle RIdle MTest h c sn log) -> ring_holds st h -> (length h < 32)%nat ->
  event_ok (Notify l a info now) -> is_recorded l info = true -> Z.of_nat (length h) - c < 31 ->
  exists st' x, reaches (at_rest st' WWrap RIdle MTest (h ++ [x]) c sn log) /\ ring_holds st' (h ++ [x]) /\
    dwAlarmMotionDetectRd st' = dwAlarmMotionDetectRd st /\ key_of_payload x = (a, now).
Proof.
  intros Hreach (Hl & Hw & Hh) Hlt Hev Hrec Hlight.
  pose proof (motion_channel_recorded l info (proj1 Hev)) as Hm. rewrite Hrec in Hm. destruct Hm as [i Hm].
  destruct (lookup_lt_is_Some_2 (struAlarmMotionDetect st) (length h)) as [e He]; [lia|].
  set (x := (a, u8 (i + 1), now) : payload). set (p := length h) in *.
  assert (reaches (at_rest st (WDev x) RIdle MTest h c sn log)) as H0.
  { eapply (sreach_step _ _ _ _ _ _ _ (LNotify l a info now)); [exact Hreach| |].
    - intros ? ? ? ? [= <- <- <- <-]. split; [exact Hev|]. intros _. exact Hlight.
    - cbn. by rewrite Hm. }
  assert (reaches (at_rest (store_entry (fun e => mkAlarm a (byRes e) (byChannel e) (AlarmTime e)) st)
    (WChan x) RIdle MTest h c sn log)) as H1 by (by goes_on LCallback).
  rewrite (store_entry_insert _ st p e) in H1 by done.
  eassert (reaches (at_rest (store_entry _ _) (WTime x) RIdle MTest h c sn log)) as H2 by (by goes_on LCallback).
  erewrite (store_entry_insert _ _ p) in H2 by
    (first [reflexivity|cbn; apply list_lookup_insert_eq; lia]).
  eassert (reaches (at_rest (store_entry _ _) (WInc x) RIdle MTest h c sn log)) as H3 by (by goes_on LCallback).
  erewrite (store_entry_insert _ _ p) in H3 by
    (first [reflexivity|cbn; apply list_lookup_insert_eq; rewrite length_insert; lia]).
  cbn [shared struAlarmMotionDetect dwAlarmMotionDetectRd] in H3. rewrite !list_insert_insert_eq in H3. cbn in H3.
  match type of H3 with context [<[p := ?e']> _] => set (e3 := e') in H3 end.
  exists (mkRing (<[p := e3]> (struAlarmMotionDetect st)) (Z.of_nat (p + 1)) (dwAlarmMotionDetectRd st)), x.
  split; [|split; [|done]].
  - goes_on LCallback. cbn. rewrite u32_small by lia. unfold set_wr. cbn. by rewrite Nat2Z.inj_add.
  - unfold ring_holds. rewrite length_app. cbn [struAlarmMotionDetect dwAlarmMotionDetectWr length]. fold p.
    split; [by rewrite length_insert|]. split; [done|]. rewrite Nat.add_1_r.
    rewrite (take_S_r _ _ e3) by (apply list_lookup_insert_eq; lia).
    rewrite take_insert_ge by lia. rewrite fmap_app, Hh. done.
Qed.

Definition recorded_event (e : event) : Prop :=
  match e with Notify l _ info _ => is_recorded l info = true | _ => False end.

(** Notifications, each recorded to its end. *)
Lemma publish_all_reach events : forall st h sn log,
  reaches (at_rest st WIdle RIdle MTest h 0 sn log) -> ring_holds st h ->
  Forall event_ok events -> Forall recorded_event events -> (length h + length events <= 31)%nat ->
  exists st' h', reaches (at_rest st' WIdle RIdle MTest (h ++ h') 0 sn log) /\ ring_holds st' (h ++ h') /\
    dwAlarmMotionDetectRd st' = dwAlarmMotionDetectRd st /\ key_of_payload <$> h' = notified events.
Proof.
  induction events as [|e events IH]; intros st h sn log Hreach Hh Hev Hrec Hlen.
  { exists st, []. by rewrite app_nil_r. }
  apply Forall_cons_iff in Hev as [He Hev]. apply Forall_cons_iff in Hrec as [Hr Hrec]. simpl length in Hlen.
  destruct e as [l a info now| |]; [|done..]. cbn [recorded_event] in Hr.
  destruct (publish_reach st h 0 sn log l a info now) as (st1 & x & H1 & Hh1 & Hrd & Hk); [done || lia..|].
  assert (reaches (at_rest st1 WIdle RIdle MTest (h ++ [x]) 0 sn log)) as H2.
  { goes_on LCallback. cbn. destruct Hh1 as (_ & Hw & _). rewrite length_app in Hw. simpl length in Hw.
    unfold set_wr, wrap_wr, ALARM_MOTION_DETECT_MAX. rewrite (proj2 (Z.leb_gt _ _)) by lia. by destruct st1. }
  destruct (IH st1 (h ++ [x]) sn log) as (st' & h' & H3 & Hh3 & Hrd3 & Hk3); [done..|rewrite length_app; simpl; lia|].
  exists st', (x :: h'). rewrite <- app_assoc in H3, Hh3. split; [done|]. split; [done|]. split; [congruence|].
  rewrite fmap_cons, Hk, Hk3. unfold notified. cbn. by rewrite Hr.
Qed.
(** *** A round of [main] alone *)

Lemma alarm_at_below st i e :
  0 <= i -> 0 <= dwAlarmMotionDetectRd st -> i + dwAlarmMotionDetectRd st < 32 ->
  struAlarmMotionDetect st !! Z.to_nat (i + dwAlarmMotionDetectRd st) = Some e -> alarm_at i st = Ok e.
Proof.
  intros Hi Hr Hlt He. unfold alarm_at, alarm_index, ALARM_MOTION_DETECT_MAX. rewrite u32_small by lia.
  rewrite (proj2 (Z.leb_gt _ _)) by lia. rewrite <- (Z2Nat.id (i + _)) by lia. by apply read_lookup.
Qed.

Lemma texts_of_concat xs ys : texts_of (xs ++ ys) = texts_of xs ++ texts_of ys.
Proof. unfold ServiceRace.texts_of. by rewrite fmap_app, bind_app, fmap_app. Qed.

(** The [for] of the round: the alarms at the entries from [rd + i] on are sent. *)
Lemma for_reach xs : forall st w n i h c sn log,
  reaches (at_rest st w (RRead n i) MFor h c sn log) ->
  0 <= i -> n - i = Z.of_nat (length xs) -> 0 <= dwAlarmMotionDetectRd st -> n + dwAlarmMotionDetectRd st <= 32 ->
  payload_of <$> take (length xs) (drop (Z.to_nat (i + dwAlarmMotionDetectRd st)) (struAlarmMotionDetect st)) = xs ->
  Forall (fun x => alarm_ok localtime_r cams phones (key_of_payload x)) xs ->
  exists sn', reaches (at_rest (HikDevSetAlarmIdxOffset n st) w RIdle MTest h (c + n) sn' (log ++ texts_of xs)).
Proof.
  induction xs as [|x xs IH]; intros st w n i h c sn log Hreach Hi Hn Hr Hle Hxs Hok.
  { simpl in Hn. exists sn. rewrite app_nil_r. goes_on LMain. unfold main_step, reader_step.
    cbn [at_rest mpc core rpc shared]. by rewrite (proj2 (Z.ltb_ge i n)) by lia. }
  simpl length in *. apply Forall_cons_iff in Hok as [Hx Hok].
  destruct (drop _ (struAlarmMotionDetect st)) as [|e es] eqn:Ed; [done|]. cbn in Hxs. injection Hxs as He Hes.
  assert (struAlarmMotionDetect st !! Z.to_nat (i + dwAlarmMotionDetectRd st) = Some e) as Hlook.
  { rewrite <- (Nat.add_0_r (Z.to_nat _)), <- lookup_drop, Ed. done. }
  rewrite (drop_S _ _ _ Hlook) in Ed. injection Ed as Ed. apply alarm_at_below in Hlook; [|lia..].
  assert (reaches (at_rest st w (RRead n i) (MIp (alarm_date localtime_r x.2)) h c sn log)) as H1.
  { goes_on LMain. unfold main_step. cbn [at_rest mpc core rpc shared].
    rewrite (proj2 (Z.ltb_lt i n)), (HikDevGetAlarmDateTime_read _ _ _ _ Hlook) by lia. by rewrite <- He. }
  assert (reaches (at_rest st w (RRead n (i + 1)) (MSend (alarm_date localtime_r x.2) (alarm_ip x.1.1))
    h c (sn ++ [x]) log)) as H2.
  { goes_on LMain. unfold main_step, reader_step. cbn [at_rest mpc core rpc shared].
    rewrite (proj2 (Z.ltb_lt i n)), Hlook by lia. cbn [mbind option_bind].
    rewrite (alarm_ip_ok st i e Hlook) by (rewrite <- He in Hx; apply Hx). by rewrite <- He. }
  assert (reaches (at_rest st w (RRead n (i + 1)) MFor h c (sn ++ [x]) (log ++ texts_of [x]))) as H3.
  { goes_on LMain. unfold main_step. cbn [at_rest mpc core rpc shared rs_tables rs_sent rs_run].
    pose proof (deliver_alarm_texts localtime_r os_write com cams phones Hcams (key_of_payload x) db log Hx Hdb) as Hd.
    unfold key_of_payload in Hd. cbn [fst snd] in Hd. rewrite Hd.
    rewrite texts_of_cons. by rewrite app_nil_r. }
  destruct (IH st w n (i + 1) h c (sn ++ [x]) (log ++ texts_of [x])) as (sn' & H4); [done || lia..| |done|].
  { replace (Z.to_nat (i + 1 + _)) with (S (Z.to_nat (i + dwAlarmMotionDetectRd st))) by lia.
    by rewrite Ed. }
  exists sn'. by rewrite <- app_assoc, <- texts_of_concat in H4.
Qed.

(** A round that counts the entries from the read index to the write index. *)
Lemma round_reach xs st w h c sn log :
  reaches (at_rest st w RIdle MTest h c sn log) ->
  0 <= dwAlarmMotionDetectRd st -> dwAlarmMotionDetectWr st <= 32 ->
  dwAlarmMotionDetectWr st - dwAlarmMotionDetectRd st = Z.of_nat (length xs) -> xs <> [] ->
  payload_of <$> take (length xs) (drop (Z.to_nat (dwAlarmMotionDetectRd st)) (struAlarmMotionDetect st)) = xs ->
  Forall (fun x => alarm_ok localtime_r cams phones (key_of_payload x)) xs ->
  exists sn', reaches (at_rest (HikDevSetAlarmIdxOffset (Z.of_nat (length xs)) st) w RIdle MTest h
    (c + Z.of_nat (length xs)) sn' (log ++ texts_of xs)).
Proof.
  intros Hreach Hr Hw Hn Hne Hxs Hok. destruct xs as [|x xs]; [done|]. set (n := length (x :: xs)) in *.
  assert (reaches (at_rest st w RIdle MPoll h c sn log)) as H1 by (by goes_on LMain).
  assert (reaches (at_rest st w (RCount true (dwAlarmMotionDetectWr st)) MPoll h c sn log)) as H2.
  { goes_on LMain. unfold main_step, reader_step. cbn [at_rest mpc core rpc shared mbind option_bind].
    by rewrite (proj2 (Z.leb_le _ _)) by lia. }
  assert (reaches (at_rest st w (RRead (Z.of_nat n) 0) MFor h c sn log)) as H3.
  { goes_on LMain. unfold main_step, reader_step.
    cbn [at_rest mpc core rpc shared mbind option_bind split_store reload].
    rewrite Hn, u32_small by lia. by rewrite (proj2 (Z.eqb_neq _ _)) by (subst n; simpl; lia). }
  eapply for_reach; [exact H3|done || lia..|exact Hxs|exact Hok].
Qed.

(** *** Both *)

Lemma notified_length events : Forall recorded_event events -> length (notified events) = length events.
Proof.
  induction 1 as [|[l a info now| |] events He _ IH]; try done. unfold notified in *. cbn in *. by rewrite He; cbn; rewrite IH.
Qed.

Lemma published_deliverable events h :
  Forall event_ok events -> key_of_payload <$> h = notified events ->
  Forall (fun x => alarm_ok localtime_r cams phones (key_of_payload x)) h.
Proof.
  intros Hev Hk. apply (notified_ok localtime_r cams phones) in Hev. rewrite <- Hk in Hev.
  exact (proj1 (list.Forall_fmap _ _ _) Hev).
Qed.

(** 31 alarms are recorded and sent, then one is recorded up to the first of the two
    stores. *)
Lemma stale_reach events e :
  length events = 31%nat -> Forall event_ok (events ++ [e]) -> Forall recorded_event (events ++ [e]) ->
  exists st h x sn, reaches (at_rest st WWrap RIdle MTest (h ++ [x]) 31 sn (texts_of h)) /\
    ring_holds st (h ++ [x]) /\ dwAlarmMotionDetectRd st = 31 /\
    key_of_payload <$> h ++ [x] = notified (events ++ [e]) /\ length h = 31%nat.
Proof.
  intros Hlen Hev Hrec. apply Forall_app in Hev as [Hev He]. apply Forall_app in Hrec as [Hrec Hr].
  apply Forall_cons_iff in He as [He _]. apply Forall_cons_iff in Hr as [Hr _].
  destruct (publish_all_reach events HikDevOperate_init [] [] []) as (st1 & h & H1 & Hh1 & Hrd1 & Hk1);
    [apply sreach_init|done..|simpl; lia|].
  cbn [app] in *. assert (length h = 31%nat) as Hlh
    by (rewrite <- Hlen, <- notified_length, <- Hk1, length_fmap by done; done).
  pose proof (published_deliverable events h Hev Hk1) as Hok. pose proof Hh1 as (Hl1 & Hw1 & Hp1). cbn in Hrd1.
  destruct (round_reach h st1 WIdle h 0 [] []) as (sn & H2);
    [done|rewrite ?Hrd1, ?Hw1; lia..|by destruct h|by rewrite Hrd1|done|].
  rewrite Hlh in H2. change (Z.of_nat 31) with 31 in H2.
  destruct e as [l a info now| |]; [|done..].
  destruct (publish_reach (HikDevSetAlarmIdxOffset 31 st1) h 31 sn (texts_of h) l a info now)
    as (st & x & H3 & Hh3 & Hrd3 & Hk3); [exact H2|done|lia|done|done|lia|].
  exists st, h, x, sn. split; [done|]. split; [done|]. split; [rewrite Hrd3; cbn; by rewrite Hrd1|].
  split; [|done]. rewrite fmap_app, Hk1, notified_app. f_equal. cbn in *. by rewrite Hk3, Hr.
Qed.
End Stale.

(** C38: when [++wr] and its reset are two stores, messages are sent twice.  For any
    directory in the tables and any 32 notifications of motion alarms that can be
    delivered, there is an interleaving under light load (never more than 31
    alarms waiting) after which [main] is back at the head of its loop, exactly
    those 32 alarms have been published, and the messages of all 32 have been
    sent, each alarm's once in order and then all of them a second time: a round
    between the two stores takes the whole ring for unread. *)
Theorem interleaved_stale_messages localtime_r os_write com cams phones db events :
  Z.of_nat (length cams) < 2 ^ 32 -> holds db cams phones -> length events = 32%nat ->
  Forall (event_ok localtime_r cams phones) events -> Forall recorded_event events ->
  exists s, service_reachable localtime_r os_write com split_store (service_light localtime_r cams phones) db s /\
    mpc s = MTest /\ key_of_payload <$> hist (core s) = notified events /\
    rs_sent s = texts_of localtime_r os_write com cams phones (hist (core s) ++ hist (core s)).
Proof.
  intros Hcams Hdb Hlen Hev Hrec. destruct events as [|e events _] using rev_ind; [done|].
  rewrite length_app in Hlen. simpl in Hlen.
  destruct (stale_reach localtime_r os_write com cams phones Hcams db Hdb events e)
    as (st & h & x & sn & H1 & (Hl & Hw & Hh) & Hrd & Hk & Hlh); [lia|done..|].
  pose proof (published_deliverable localtime_r cams phones _ _ Hev Hk) as Hok.
  rewrite length_app, Hlh in Hw, Hh. cbn [length Nat.add] in Hw, Hh.
  destruct (round_reach localtime_r os_write com cams phones Hcams db Hdb [x] st WWrap (h ++ [x]) 31 sn _ H1)
    as (sn2 & H2); [lia|lia|simpl; lia|done| |by apply Forall_app in Hok as [_ Hok]|].
  { rewrite Hrd. change (Z.to_nat 31) with 31%nat. change (length [x]) with (32 - 31)%nat.
    rewrite <- skipn_firstn_comm, fmap_drop, Hh. by rewrite drop_app_length'. }
  assert (dwAlarmMotionDetectRd (HikDevSetAlarmIdxOffset (Z.of_nat (length [x])) st) = 0) as Hrd2
    by (cbn; by rewrite Hrd).
  destruct (round_reach localtime_r os_write com cams phones Hcams db Hdb (h ++ [x]) _ WWrap (h ++ [x]) _ sn2 _ H2)
    as (sn3 & H3); rewrite ?Hrd2, ?length_app, ?Hlh; [done|cbn; rewrite ?Hw; lia..|by destruct h| |done|].
  { exact Hh. }
  eexists. split; [exact H3|]. split; [done|]. split; [exact Hk|]. cbn [rs_sent at_rest core hist].
  by rewrite !texts_of_concat, <- !app_assoc.
Qed.

Lemma interleaved_stale_messages_witness :
  let text := message (s2b "2020-1-2 3:4:5") (c_ip sample_old) (s2b "hall") (s2b "13600000000") in
  exists s, service_reachable sample_clock sample_write sample_port split_store
      (service_light sample_clock sample_cams sample_phones) sample_tables s /\
    length (hist (core s)) = 32%nat /\ rs_sent s = replicate 64 (text, UART_TRUE).
Proof.
  intros text. set (events := replicate 32 (sample_alarm (c_ip sample_old))).
  destruct (interleaved_stale_messages sample_clock sample_write sample_port sample_cams sample_phones sample_tables
    events) as (s & Hreach & _ & Hk & Hsent).
  - vm_compute. reflexivity.
  - exact sample_tables_hold.
  - reflexivity.
  - apply Forall_replicate. exact sample_event_ok.
  - apply Forall_replicate. vm_compute. reflexivity.
  - exists s. split; [exact Hreach|]. split.
    + rewrite <- (length_fmap key_of_payload), Hk. vm_compute. reflexivity.
    + rewrite Hsent. unfold texts_of. rewrite fmap_app, Hk. apply (bool_decide_unpack _). vm_compute. exact I.
Defined.
