(* ===== verification/Main.v ===== *)
(** * Starting and ending the service: main.cpp

    [CreatePidFile], the start-up of [main] (src/src/main.cpp) from the settings
    file to the serial port, its camera loop, and [main] itself: start-up, the
    alarm loop of AlarmLoop.v and shutdown.  Each library keeps its own world;
    [world] holds the four. *)
From S2P Require Import Prelude CLib StdMap MySql DataBase.
From S2P Require Import CsvError CsvReader CsvParse HikDev.
From S2P Require Import Message SerialLine SerialConfig AlarmRing AlarmRace AlarmLoop ServiceRace.

(** ** The pid file *)

(** The system calls of [CreatePidFile] and of the end of [main]: a negative
    answer is an error, [os_strerror] its text. *)
Class PidOs (W : Type) := {
  os_getpid : W -> Z;
  os_access : bytes -> W -> Z * W;
  os_mkdir : bytes -> W -> Z * W;
  os_open_pid : bytes -> W -> Z * W;
  os_ftruncate : Z -> W -> Z * W;
  os_write_pid : Z -> bytes -> W -> Z * W;
  os_close : Z -> W -> W;
  os_remove : bytes -> W -> W;
  os_strerror : W -> bytes
}.

Definition pid_dir : bytes := s2b "/var/run/mdalarm".
Definition pid_file : bytes := s2b "/var/run/mdalarm/mdalarm.pid".

Section PidFile.
Context {W : Type} `{!PidOs W}.

(** [snprintf(pMsg, u32MsgSize, "... fail : %s\n", strerror(errno))]. *)
Definition fail_msg (u32MsgSize : Z) (text : string) (w : W) : bytes :=
  fst (snprintf u32MsgSize (s2b text ++ s2b " fail : " ++ os_strerror w ++ [LF])).

(** [CreatePidFile(pMsg, u32MsgSize)]: its result, the message left in [pMsg] if
    it fails, and the system. *)
Definition CreatePidFile (u32MsgSize : Z) (w : W) : Z * bytes * W :=
  let s32ServicePid := os_getpid w in
  let '(r, w) := os_access pid_dir w in
  let '(r, w) := if r <? 0 then os_mkdir pid_dir w else (0, w) in
  if r <? 0 then (-1, fail_msg u32MsgSize "mkdir /var/run/mdalarm" w, w)
  else
    let '(s32PidFd, w) := os_open_pid pid_file w in
    if s32PidFd <? 0 then
      (-1, fail_msg u32MsgSize "open /var/run/mdalarm/mdalarm pid file" w, w)
    else
      let '(r, w) := os_ftruncate s32PidFd w in
      if r <? 0 then
        (-1, fail_msg u32MsgSize "clear /var/run/mdalarm/mdalarm pid file" w, w)
      else
        let u8PidBuf := cstr (fst (snprintf 64 (fmt_d s32ServicePid ++ [LF]))) in
        let u32WrSize := str_size u8PidBuf in
        let '(n, w) := os_write_pid s32PidFd u8PidBuf w in
        if n <? u32WrSize then
          (-1, fail_msg u32MsgSize "write pid to /var/run/mdalarm/mdalarm file" w, w)
        else (0, [], os_close s32PidFd w).
End PidFile.

(** ** Start-up *)

Definition DbCfg_path : bytes := s2b "/usr/local/mdalarm/DbCfg.csv".

Section Startup.
Context {F WO WD WH WT : Type}.
Context `{!ByteSourceBase F} `{!PidOs WO} `{!MySqlApi WD} `{!HikSdk WH} `{!Tty WT}.

Record world := mkWorld { w_os : WO; w_db : WD; w_sdk : WH; w_tty : WT }.

(** One round of the loop over the cameras, [i] their index; the state is the
    SDK, the tables and the alarm handle. *)
Definition start_camera (i : Z) (s : WH * database * Z) : exec (WH * database * Z) :=
  let '(w, db, h) := s in
  '(ok, ip, db) ← GetCameraIp i [] db;
  if negb ok then Ok (w, db, h)
  else
    '(ok, CameraPort, db) ← GetCameraPort i 0 db;
    if negb ok then Ok (w, db, h)
    else
      '(ok, user, db) ← GetCameraUserName i [] db;
      if negb ok then Ok (w, db, h)
      else
        '(ok, pass, db) ← GetCameraPasswd i [] db;
        if negb ok then Ok (w, db, h)
        else
          let hdl := {| sDevIp := ip; wDevPort := u16 CameraPort; sDevUserName := user;
                        sDevPassword := pass; lUserId := -1 |} in
          '(id, w) ← HikDevLogin hdl w;
          if id <? 0 then Ok (w, db, h)
          else
            '(_, w, h) ← HikDevStartAlarm id w h;
            Ok (w, db, h).

Definition start_step (CameraNum : Z) (s : Z * (WH * database * Z))
    : exec (Z * (WH * database * Z) + WH * database * Z) :=
  let '(i, s) := s in
  if i <? CameraNum then s ← start_camera i s; Ok (inl (u64 (i + 1), s)) else Ok (inr s).

Definition start_cameras (s : WH * database * Z) : exec (WH * database * Z) :=
  let CameraNum := GetCameraNum (snd (fst s)) in
  loopM (S (Z.to_nat CameraNum)) (start_step CameraNum) (0, s).

(** What the loop starts with. *)
Record started := mkStarted {
  st_run : bool;
  st_tables : database;
  st_port : SerialPort;
  st_world : world
}.

(** [fopen] and the memory of the file buffer, the block length of csv.h, and
    the fuel of the two loops over a result set. *)
Variable fopen : bytes -> F + Z.
Variable block_len : Z.
Variable junk : bytes.
Variable fuel : nat.

(** [main] up to the loop; [past] is what lies behind the arrays of
    [SerialPort::Set].  A failed step clears [ServiceRun] and the next is run
    all the same.  The alarm handle, static, starts at 0. *)
Definition startup_with (past : past_end) (w : world) : result service_stop started :=
  let '(r, _, wo) := CreatePidFile 256 (w_os w) in
  let run := if r <? 0 then false else true in
  '(ok, cfg) ← match ParseCsvData fopen block_len junk (Some DbCfg_path) CsvParse_init with
               | Ok x => Ok x
               | Throw e => Throw (UncaughtCsv e)
               | Undefined f => Undefined f
               end;
  let run := if ok : bool then run else false in
  let '(ok, port) := StrToUint (GetDbPort cfg) in
  let run := if ok : bool then run else false in
  '(ok, wd, db) ← lift (ConnectDataBase fuel (Some (cstr (GetDbIp cfg))) port
     (Some (cstr (GetDbUserName cfg))) (Some (cstr (GetDbPasswd cfg))) (Some (cstr (GetDbName cfg)))
     (Some (cstr (GetDbTable cfg))) (w_db w) DataBaseOperate_init);
  let run := if ok : bool then run else false in
  '(ok, wh) ← lift (InitialSDK (w_sdk w));
  let run := if ok : bool then run else false in
  '(wh, db, _) ← lift (start_cameras (wh, db, 0));
  '(r, fd, normal, wt) ← lift (Open_with past UART_FALSE 115200 8 1 78 (w_tty w));
  let run := if r <? 0 then false else run in
  Ok (mkStarted run db
        (mkSerialPort fd normal (ucReadLineBuf SerialPort_init)
           (uiReadLineValidSize SerialPort_init) (uiReadLineIdx SerialPort_init))
        (mkWorld wo wd wh wt)).

Definition startup : world -> result service_stop started := startup_with nothing_past.

(** *** [main] *)

Variable localtime_r : Z -> tm.
Variable os_write : Z -> bytes -> Z.

Definition no_outbox {A} (m : result service_stop A) : loop_result A :=
  match m with
  | Ok a => Ok a
  | Throw e => Throw (e, [])
  | Undefined f => Undefined f
  end.

(** After the loop: [remove], [Close], [DeinitialSDK]. *)
Definition shutdown (port : SerialPort) (w : world) : world :=
  mkWorld (os_remove pid_file (w_os w)) (w_db w) (snd (DeinitialSDK (w_sdk w)))
    (Close (fd port) (w_tty w)).

(** [~SerialPort]: the port of [main] is closed again when [main] returns. *)
Definition SerialPort_destructor (port : SerialPort) (w : world) : world :=
  mkWorld (w_os w) (w_db w) (w_sdk w) (Close (fd port) (w_tty w)).

(** [main] over a schedule: still running, in a state of the loop, or returned with
    a status, the messages sent and the world it leaves. *)
Inductive main_state {A : Type} :=
  | Running (s : A) (w : world)
  | Returned (status : Z) (out : outbox) (w : world).
Arguments main_state : clear implicits.

(** A [return -1] from the loop runs the destructor and nothing else. *)
Definition main_with (past : past_end) (events : list event) (w : world)
    : loop_result (main_state service) :=
  st ← no_outbox (startup_with past w);
  match service_loop localtime_r os_write (st_port st) events
          (mkService (st_run st) HikDevOperate_init (st_tables st) []) with
  | Ok (inl s) => Ok (Running s (st_world st))
  | Ok (inr s) =>
      Ok (Returned 0 (sent s) (SerialPort_destructor (st_port st) (shutdown (st_port st) (st_world st))))
  | Throw (ReturnMinusOne, out) => Ok (Returned (-1) out (SerialPort_destructor (st_port st) (st_world st)))
  | Throw e => Throw e
  | Undefined f => Undefined f
  end.

Definition main_ : list event -> world -> loop_result (main_state service) := main_with nothing_past.

(** The same over an interleaving with the callback thread, whose notifications may
    have come since the cameras were armed: the start-up does not touch the ring.
    [None]: the schedule asks for a step that is not possible. *)
Definition main_interleaved (g : granularity) (past : past_end) (ls : list service_label) (w : world)
    : option (loop_result (main_state race_service)) :=
  match no_outbox (startup_with past w) with
  | Ok st =>
      s ← service_run localtime_r os_write (st_port st) g ls
            (race_service_init (st_run st) (st_tables st));
      Some match mpc s with
           | MLeft => Ok (Returned 0 (rs_sent s)
                            (SerialPort_destructor (st_port st) (shutdown (st_port st) (st_world st))))
           | MStop ReturnMinusOne =>
               Ok (Returned (-1) (rs_sent s) (SerialPort_destructor (st_port st) (st_world st)))
           | MStop e => Throw (e, rs_sent s)
           | MFault f => Undefined f
           | _ => Ok (Running s (st_world st))
           end
  | Throw e => Some (Throw e)
  | Undefined f => Some (Undefined f)
  end.

(** ** Specification *)

(** What the loop does for one camera of the directory. *)
Definition arm_camera (s : exec (WH * Z)) (c : camera) : exec (WH * Z) :=
  '(w, h) ← s;
  if bool_decide (c_ip c = []) then Ok (w, h)
  else if negb (forallb is_digit (c_port c)) then Ok (w, h)
  else
    '(id, w) ← HikDevLogin
      {| sDevIp := c_ip c; wDevPort := u16 (snd (StrToUint (c_port c)));
         sDevUserName := c_username c; sDevPassword := c_password c; lUserId := -1 |} w;
    if id <? 0 then Ok (w, h) else '(_, w, h) ← HikDevStartAlarm id w h; Ok (w, h).
End Startup.
Arguments world : clear implicits.
Arguments main_state : clear implicits.
Arguments started : clear implicits.

(** ** Lemmas *)

Section Cameras.
Context {WH : Type} `{!HikSdk WH}.

Lemma start_camera_holds cams phones db i c (w : WH) h :
  holds db cams phones -> cams !! i = Some c ->
  start_camera (Z.of_nat i) (w, db, h) =
    ('(w, h) ← arm_camera (Ok (w, h)) c; Ok (w, db, h)).
Proof.
  intros Hh Hc. destruct (camera_getters db cams phones i c [] 0 Hh Hc) as (Hip & Hport & Huser & Hpass).
  unfold start_camera, arm_camera. rewrite Hip. cbn [mbind result_bind].
  destruct (c_ip c) as [|x ip] eqn:E; [done|]. rewrite bool_decide_eq_false_2 by done.
  cbn [length Nat.eqb negb]. rewrite Hport. cbn [mbind result_bind].
  destruct (StrToUint (c_port c)) as [ok p] eqn:Ep. pose proof (StrToUint_digits (c_port c)) as Ed.
  rewrite Ep in Ed. cbn [fst snd] in *. subst ok. destruct (forallb is_digit (c_port c)); [|done].
  cbn [negb]. rewrite Huser. cbn [mbind result_bind negb]. rewrite Hpass. cbn [mbind result_bind negb].
  destruct (HikDevLogin _ w) as [[id w1]|[]|f]; cbn [mbind result_bind]; [|done].
  destruct (id <? 0); [done|]. destruct (HikDevStartAlarm id w1 h) as [[[ok w2] h2]|[]|f]; done.
Qed.

Lemma arm_cameras_stuck cams f :
  foldl arm_camera (Undefined f : exec (WH * Z)) cams = Undefined f.
Proof. induction cams as [|c cams IH]; [done|]. cbn [foldl]. exact IH. Qed.

Lemma start_step_eq n i s :
  start_step n (i, s) = if i <? n then s ← start_camera (WH := WH) i s; Ok (inl (u64 (i + 1), s)) else Ok (inr s).
Proof. done. Qed.

Lemma start_loop db cams phones : forall post pre fuel (w : WH) h,
  holds db cams phones -> cams = pre ++ post -> Z.of_nat (length cams) < 2 ^ 64 ->
  (length post < fuel)%nat ->
  loopM fuel (start_step (Z.of_nat (length cams))) (Z.of_nat (length pre), (w, db, h)) =
    ('(w, h) ← foldl arm_camera (Ok (w, h)) post; Ok (w, db, h)).
Proof.
  induction post as [|c post IH]; intros pre fuel w h Hh Hc Hl Hf;
    (destruct fuel as [|fuel]; [simpl in *; lia|]); rewrite loopM_S, start_step_eq;
    pose proof (f_equal length Hc) as Hlen; rewrite length_app in Hlen; simpl length in *.
  { by rewrite (proj2 (Z.ltb_ge _ _)) by lia. }
  rewrite (proj2 (Z.ltb_lt _ _)) by lia.
  rewrite (start_camera_holds cams phones db _ c) by (first [done|by rewrite Hc, list_lookup_middle]).
  cbn [foldl]. destruct (arm_camera (Ok (w, h)) c) as [[w' h']|[]|f]; cbn [mbind result_bind];
    [|by rewrite arm_cameras_stuck].
  unfold u64. rewrite Z.mod_small by (pows; lia).
  replace (Z.of_nat (length pre) + 1) with (Z.of_nat (length (pre ++ [c])))
    by (rewrite length_app; simpl; lia).
  apply IH; [done|by rewrite Hc, <- app_assoc|done|lia].
Qed.

Lemma start_cameras_fold db cams phones (w : WH) h :
  holds db cams phones -> Z.of_nat (length cams) < 2 ^ 64 ->
  start_cameras (w, db, h) = ('(w, h) ← foldl arm_camera (Ok (w, h)) cams; Ok (w, db, h)).
Proof.
  intros Hh Hl. unfold start_cameras. cbn [fst snd]. rewrite (holds_num _ _ _ Hh).
  apply (start_loop db cams phones cams []); [done..|lia].
Qed.
End Cameras.

(** The directory's phones cover its cameras: [GetCameraWarnPhone] never fails
    for a camera [GetCameraName] found, and [main] never returns -1. *)
Lemma phones_of_known cams ip : with_ip ip cams <> [] -> phones_of cams ip <> None.
Proof.
  intros H. unfold phones_of. destruct (with_ip ip cams) as [|c l] using rev_ind; [done|].
  by rewrite last_snoc.
Qed.

Section Connect.
Context {WD : Type} `{!MySqlApi WD} `{!MySqlLaws WD}.

(** The server accepts the connection. *)
Definition connects (ip user pass db : bytes) (port : Z) (w : WD) (conn : MYSQL) (w' : WD) : Prop :=
  exists mysql w1 w2, mysql_init w = (Some mysql, w1) /\
    mysql_options_connect_timeout mysql 7 w1 = (0, w2) /\
    mysql_real_connect mysql ip user pass db port w2 = (Some conn, w').

(** A first connection loads the cameras of the table. *)
Lemma ConnectDataBase_loads fuel ip port user pass db table w conn w1 res w2 cols rows :
  connects ip user pass db port w conn w1 -> query_gives conn table w1 res w2 cols rows ->
  all_columns cols -> (length (cstr table) <= 49)%nat ->
  (length cols < fuel)%nat -> (length rows < fuel)%nat ->
  exists w' st, ConnectDataBase fuel (Some ip) port (Some user) (Some pass) (Some db) (Some table) w
      DataBaseOperate_init = Ok (true, w', st) /\
    let cams := omap (row_camera cols) rows in holds st cams (phones_of cams).
Proof.
  intros (mysql & wa & wb & Hi & Ho & Hc) Hq Hcols Ht Hfc Hfr. unfold ConnectDataBase.
  rewrite Hi, Ho. change (nz 0) with false. cbn iota beta. rewrite Hc.
  destruct (load_table conn table w1 res w2 cols rows
    (set_names (missing_names (CameraInfoName DataBaseOperate_init)) DataBaseOperate_init)
    (fun _ => MISSING) [] fuel) as (w' & st & -> & Hh); [done..|].
  exists w', st. split; [done|]. destruct Hh as [Hh1 Hh2]. split; [exact Hh1|].
  intros i. rewrite Hh2. cbn. by destruct (phones_of _ i).
Qed.
End Connect.


Lemma lift_Ok {E A} (m : exec A) a : @lift E A m = Ok a -> m = Ok a.
Proof. destruct m as [x|[]|f]; cbn; congruence. Qed.

(** [Open] as it is never answers that the port is ready. *)
Lemma Open_not_ready {WT} `{!Tty WT} n baud databits stopbits parity (w : WT) r fd_ n' w' :
  Open_with nothing_past n baud databits stopbits parity w = Ok (r, fd_, n', w') -> r = UART_FALSE.
Proof.
  unfold Open_with. intros ([fd1 w1] & _ & H)%bind_Ok.
  destruct (fd1 =? UART_FALSE); [by injection H|].
  apply bind_Ok in H as ([r' w2] & Hs & H). injection H as <- _ _ _. unfold Set_with in Hs.
  destruct (tcgetattr fd1 w1) as [[o|] w3]; [|by injection Hs].
  by rewrite set_speed_out_of_bounds in Hs.
Qed.

(** ** Properties *)

Section Properties.
Context {F WO WD WH WT : Type}.
Context `{!ByteSourceBase F} `{!PidOs WO} `{!MySqlApi WD} `{!HikSdk WH} `{!Tty WT}.
Context (fopen : bytes -> F + Z) (block_len : Z) (junk : bytes) (fuel : nat).

(** The start-up in an environment where every step succeeds. *)
Lemma startup_spec `{!MySqlLaws WD} past (w : world WO WD WH WT) wo msg cfg conn wd1 res wd2 cols rows
    wh wh' h fd_ normal wt :
  CreatePidFile 256 (w_os w) = (0, msg, wo) ->
  ParseCsvData fopen block_len junk (Some DbCfg_path) CsvParse_init = Ok (true, cfg) ->
  forallb is_digit (strDbPort cfg) = true ->
  connects (cstr (strDbIp cfg)) (cstr (strDbUserName cfg)) (cstr (strDbPasswd cfg))
    (cstr (strDbName cfg)) (snd (StrToUint (strDbPort cfg))) (w_db w) conn wd1 ->
  query_gives conn (cstr (strDbTable cfg)) wd1 res wd2 cols rows -> all_columns cols ->
  (length (cstr (cstr (strDbTable cfg))) <= 49)%nat -> (length cols < fuel)%nat -> (length rows < fuel)%nat ->
  let cams := omap (row_camera cols) rows in
  Z.of_nat (length cams) < 2 ^ 64 ->
  InitialSDK (w_sdk w) = Ok (true, wh) ->
  foldl arm_camera (Ok (wh, 0)) cams = Ok (wh', h) ->
  Open_with past UART_FALSE 115200 8 1 78 (w_tty w) = Ok (UART_TRUE, fd_, normal, wt) ->
  exists st, startup_with fopen block_len junk fuel past w = Ok st /\
    st_port st = mkSerialPort fd_ normal (ucReadLineBuf SerialPort_init)
      (uiReadLineValidSize SerialPort_init) (uiReadLineIdx SerialPort_init) /\
    (exists wd, st_world st = mkWorld wo wd wh' wt) /\
    represents cams (phones_of cams)
      (mkService (st_run st) HikDevOperate_init (st_tables st) []) (mkSpec true [] []) /\
    forall ip, with_ip ip cams <> [] -> phones_of cams ip <> None.
Proof.
  intros Hpid Hcsv Hport Hconn Hq Hcols Ht Hfc Hfr cams Hlen Hsdk Harm Hopen.
  unfold startup_with. rewrite Hpid, Hcsv. change (0 <? 0) with false. cbn iota.
  cbn [mbind result_bind]. unfold GetDbPort.
  pose proof (StrToUint_digits (strDbPort cfg)) as Hd. rewrite Hport in Hd.
  destruct (StrToUint (strDbPort cfg)) as [ok port]. cbn [fst snd] in *. subst ok.
  destruct (ConnectDataBase_loads fuel _ _ _ _ _ _ _ _ _ _ _ _ _ Hconn Hq Hcols Ht Hfc Hfr)
    as (wd & db & Hc & Hh). fold cams in Hh.
  unfold GetDbIp, GetDbUserName, GetDbPasswd, GetDbName, GetDbTable. rewrite Hc.
  cbn [lift mbind result_bind]. rewrite Hsdk. cbn [lift mbind result_bind].
  rewrite (start_cameras_fold db cams (phones_of cams)) by done. rewrite Harm.
  cbn [lift mbind result_bind]. rewrite Hopen. cbn [lift mbind result_bind].
  change (UART_TRUE <? 0) with false. cbn iota. eexists. split; [done|]. cbn.
  split; [done|]. split; [by eexists|]. split; [|apply phones_of_known].
  split; [done|]. split; [exact HikDevOperate_init_inv|]. split; [reflexivity|]. by split.
Qed.


(** When every step of the start-up succeeds, the loop starts with the
    service running on the directory of the camera table: the tables hold the
    cameras of the complete rows, the SDK has been asked to arm each of them in
    order, every known camera has its phones, and the service represents the
    empty queue of the specification. *)
Theorem startup_ready `{!MySqlLaws WD} past (w : world WO WD WH WT) wo msg cfg conn wd1 res wd2 cols rows
    wh wh' h fd_ normal wt :
  CreatePidFile 256 (w_os w) = (0, msg, wo) ->
  ParseCsvData fopen block_len junk (Some DbCfg_path) CsvParse_init = Ok (true, cfg) ->
  forallb is_digit (strDbPort cfg) = true ->
  connects (cstr (strDbIp cfg)) (cstr (strDbUserName cfg)) (cstr (strDbPasswd cfg))
    (cstr (strDbName cfg)) (snd (StrToUint (strDbPort cfg))) (w_db w) conn wd1 ->
  query_gives conn (cstr (strDbTable cfg)) wd1 res wd2 cols rows -> all_columns cols ->
  (length (cstr (cstr (strDbTable cfg))) <= 49)%nat -> (length cols < fuel)%nat -> (length rows < fuel)%nat ->
  let cams := omap (row_camera cols) rows in
  Z.of_nat (length cams) < 2 ^ 64 ->
  InitialSDK (w_sdk w) = Ok (true, wh) ->
  foldl arm_camera (Ok (wh, 0)) cams = Ok (wh', h) ->
  Open_with past UART_FALSE 115200 8 1 78 (w_tty w) = Ok (UART_TRUE, fd_, normal, wt) ->
  exists st, startup_with fopen block_len junk fuel past w = Ok st /\
    fd (st_port st) = fd_ /\ isnormal (st_port st) = normal /\ w_sdk (st_world st) = wh' /\
    represents cams (phones_of cams)
      (mkService (st_run st) HikDevOperate_init (st_tables st) []) (mkSpec true [] []) /\
    forall ip, with_ip ip cams <> [] -> phones_of cams ip <> None.
Proof.
  intros Hpid Hcsv Hport Hconn Hq Hcols Ht Hfc Hfr cams Hlen Hsdk Harm Hopen.
  destruct (startup_spec past w _ _ _ _ _ _ _ _ _ _ _ _ _ _ _ Hpid Hcsv Hport Hconn Hq Hcols Ht Hfc Hfr
    Hlen Hsdk Harm Hopen) as (st & E & Hp & [wd Hw] & Hrep). exists st. by rewrite Hp, Hw.
Qed.

(** An environment in which every step of the start-up succeeds: [cams] are the
    cameras of the table, [port] and [w1] the port and the world the loop starts
    with. *)
Definition starts_up `{!MySqlLaws WD} (past : past_end) (w : world WO WD WH WT) (cams : list camera) (port : SerialPort)
    (w1 : world WO WD WH WT) : Prop :=
  exists msg cfg conn wd1 res wd2 cols rows wh h fd_ normal,
    CreatePidFile 256 (w_os w) = (0, msg, w_os w1) /\
    ParseCsvData fopen block_len junk (Some DbCfg_path) CsvParse_init = Ok (true, cfg) /\
    forallb is_digit (strDbPort cfg) = true /\
    connects (cstr (strDbIp cfg)) (cstr (strDbUserName cfg)) (cstr (strDbPasswd cfg))
      (cstr (strDbName cfg)) (snd (StrToUint (strDbPort cfg))) (w_db w) conn wd1 /\
    query_gives conn (cstr (strDbTable cfg)) wd1 res wd2 cols rows /\ all_columns cols /\
    (length (cstr (cstr (strDbTable cfg))) <= 49)%nat /\ (length cols < fuel)%nat /\ (length rows < fuel)%nat /\
    cams = omap (row_camera cols) rows /\
    InitialSDK (w_sdk w) = Ok (true, wh) /\
    foldl arm_camera (Ok (wh, 0)) cams = Ok (w_sdk w1, h) /\
    Open_with past UART_FALSE 115200 8 1 78 (w_tty w) = Ok (UART_TRUE, fd_, normal, w_tty w1) /\
    port = mkSerialPort fd_ normal (ucReadLineBuf SerialPort_init)
             (uiReadLineValidSize SerialPort_init) (uiReadLineIdx SerialPort_init).

Lemma starts_up_spec `{!MySqlLaws WD} past (w w1 : world WO WD WH WT) cams port :
  starts_up past w cams port w1 -> Z.of_nat (length cams) < 2 ^ 64 ->
  exists st, startup_with fopen block_len junk fuel past w = Ok st /\ st_port st = port /\
    (exists wd, st_world st = mkWorld (w_os w1) wd (w_sdk w1) (w_tty w1)) /\
    represents cams (phones_of cams)
      (mkService (st_run st) HikDevOperate_init (st_tables st) []) (mkSpec true [] []).
Proof.
  intros (msg & cfg & conn & wd1 & res & wd2 & cols & rows & wh & h & fd_ & normal & Hpid & Hcsv & Hport &
    Hconn & Hq & Hcols & Ht & Hfc & Hfr & -> & Hsdk & Harm & Hopen & ->) Hlen.
  destruct (startup_spec past w _ _ _ _ _ _ _ _ _ _ _ _ _ _ _ Hpid Hcsv Hport Hconn Hq Hcols Ht Hfc Hfr
    Hlen Hsdk Harm Hopen) as (st & E & Hfd & Hw & Hrep & _). by exists st.
Qed.

(** C2: the program end to end.  C leaves undefined the 21 words that the speed loop
    of [SerialPort::Set] reads behind its arrays (with no such words to read the
    service never runs, see C36); here they are given, as [past].  In an
    environment where every start-up step succeeds, over any schedule of
    notifications whose alarms can be delivered (the device address is terminated,
    and if the table knows it, each phone of the camera is empty or has 11
    characters and a message that fits [BufSent]), signals and rounds, with at most
    31 alarms waiting at any time, [main] behaves as the
    specification's queue does from the cameras of the table: it is still running,
    or it returned 0 after the messages of every alarm handled, with the pid file
    removed, the SDK cleaned up and the port closed, twice. *)
Theorem main_delivers `{!MySqlLaws WD} localtime_r os_write past events (w w1 : world WO WD WH WT)
    cams port out :
  starts_up past w cams port w1 -> Z.of_nat (length cams) < 2 ^ 32 ->
  Forall (event_ok localtime_r cams (phones_of cams)) events ->
  spec_loop localtime_r os_write port cams (phones_of cams) events (mkSpec true [] []) = Some out ->
  match out with
  | inl q => exists s w2,
      main_with fopen block_len junk fuel localtime_r os_write past events w = Ok (Running s w2) /\
      represents cams (phones_of cams) s q /\ w_sdk w2 = w_sdk w1 /\ w_tty w2 = w_tty w1
  | inr q => exists w2,
      main_with fopen block_len junk fuel localtime_r os_write past events w =
        Ok (Returned 0 (delivered q) w2) /\
      w_os w2 = os_remove pid_file (w_os w1) /\ w_sdk w2 = snd (NET_DVR_Cleanup (w_sdk w1)) /\
      w_tty w2 = Close (fd port) (Close (fd port) (w_tty w1))
  end.
Proof.
  intros Hup Hlen Hev Hspec. apply starts_up_spec in Hup as (st & E & Hfd & [wd Hw] & Hrep); [|lia].
  unfold main_with. rewrite E. cbn [no_outbox mbind result_bind]. rewrite Hfd.
  pose proof (service_loop_refines localtime_r os_write _ _ _ Hlen events _ _ out Hrep (List.Forall_nil _) Hev Hspec) as H.
  destruct out as [q|q]; destruct H as (s & -> & Hs).
  - exists s, (st_world st). rewrite Hw. by destruct w1.
  - eexists. split; [by rewrite (proj2 (proj2 (proj2 (proj2 Hs))))|]. rewrite Hw. by destruct w1.
Qed.

(** C4: [main] under the callback thread, each access to an index of the ring one
    load or one store, and the words behind the arrays of [SerialPort::Set] given as
    in C2.  From an environment where every step of the start-up succeeds, the loop
    starts with tables that hold the cameras of the database; over every
    interleaving with notifications whose alarms can be delivered and that come
    with fewer than 31 alarms waiting (the first as soon as the cameras are armed),
    [main] runs without fault or exception, the messages sent are those of the
    first alarms published, each once and in order; and once it has left the loop
    it has returned 0, having sent the messages of all the alarms consumed,
    removed the pid file, released the SDK and closed the port twice. *)
Theorem main_interleaved_delivers `{!MySqlLaws WD} localtime_r os_write past (w w1 : world WO WD WH WT) cams port :
  starts_up past w cams port w1 -> Z.of_nat (length cams) < 2 ^ 32 ->
  exists st, startup_with fopen block_len junk fuel past w = Ok st /\ holds (st_tables st) cams (phones_of cams) /\
  forall ls s, let init := race_service_init true (st_tables st) in
    Forall (label_ok localtime_r cams (phones_of cams)) ls ->
    light_schedule localtime_r os_write port one_access ls init = true ->
    service_run localtime_r os_write port one_access ls init = Some s ->
    let result := main_interleaved fopen block_len junk fuel localtime_r os_write one_access past ls w in
    exists xs w2, rs_sent s = texts_of localtime_r os_write port cams (phones_of cams) xs /\
      xs `prefix_of` hist (core s) /\
      match mpc s with
      | MLeft => result = Some (Ok (Returned 0 (rs_sent s) w2)) /\
          xs = take (Z.to_nat (consumed (core s))) (hist (core s)) /\
          w_os w2 = os_remove pid_file (w_os w1) /\ w_sdk w2 = snd (NET_DVR_Cleanup (w_sdk w1)) /\
          w_tty w2 = Close (fd port) (Close (fd port) (w_tty w1))
      | _ => result = Some (Ok (Running s w2)) /\ w_sdk w2 = w_sdk w1 /\ w_tty w2 = w_tty w1
      end.
Proof.
  intros Hup Hlen. apply starts_up_spec in Hup as (st & E & Hfd & [wd Hw] & Hrep); [|lia].
  pose proof Hrep as (Hrun & _ & _ & Hdb & _). cbn in Hrun, Hdb. exists st. do 2 (split; [done|]).
  intros ls s init Hok Hlight Hs result.
  assert (service_reachable localtime_r os_write port one_access
    (service_light localtime_r cams (phones_of cams)) (st_tables st) s) as Hreach
    by (eapply service_run_reachable; [exact Hok|exact Hlight|exact Hs|apply sreach_init]).
  apply (inv_reachable _ _ _ _ _ Hlen) in Hreach; [|done].
  destruct (inv_sent _ _ _ _ _ s Hreach) as (xs & Hxs & Hpre & Htake).
  pose proof (inv_running _ _ _ _ _ s Hreach) as [Hf Hst].
  subst result init. unfold main_interleaved. rewrite E. cbn [no_outbox]. rewrite Hfd, Hrun, Hs.
  cbn [mbind option_bind]. exists xs. destruct (mpc s) eqn:Em;
    try (by destruct (Hf f)); try (by destruct (Hst e));
    (eexists; split; [done|]; split; [done|]; split; [reflexivity|]); rewrite ?Hw; [by destruct w1..| |].
  all: try (by destruct w1). split; [by apply Htake; right|]. by destruct w1.
Qed.


(** C36: as the code is, no start-up lets the service run: whatever the
    environment, a start-up that ends at all within defined behaviour leaves
    [ServiceRun] false, since a serial port that opens and answers runs [Set] off
    its tables. *)
Theorem startup_never_runs (w : world WO WD WH WT) st :
  startup fopen block_len junk fuel w = Ok st -> st_run st = false.
Proof.
  unfold startup, startup_with. destruct (CreatePidFile 256 (w_os w)) as [[r msg] wo].
  intros ([ok cfg] & _ & H)%bind_Ok. destruct (StrToUint (GetDbPort cfg)) as [okp port].
  apply bind_Ok in H as ([[okd wd] db] & _ & H). apply bind_Ok in H as ([oks wh] & _ & H).
  apply bind_Ok in H as ([[wh' db'] h] & _ & H). apply bind_Ok in H as ([[[ro fd_] n] wt] & Ho & H).
  apply lift_Ok in Ho. apply Open_not_ready in Ho as ->. injection H as <-. reflexivity.
Qed.
End Properties.

(** ** Witnesses *)

(** A system whose pid file holds what was written last. *)
#[export] Instance TestPidOs : PidOs bytes := {|
  os_getpid _ := 421;
  os_access _ w := (-1, w);
  os_mkdir _ w := (0, w);
  os_open_pid _ w := (4, w);
  os_ftruncate _ _ := (0, []);
  os_write_pid _ b _ := (str_size b, b);
  os_close _ w := w;
  os_remove _ _ := [];
  os_strerror _ := s2b "No such file or directory"
|}.

(** A machine without a serial port. *)
#[export] Instance NoTty : Tty unit := {|
  tty_open _ w := (UART_FALSE, w);
  tty_close _ w := w;
  tcgetattr _ w := (None, w);
  tcflush_input _ w := w;
  tcsetattr_now _ _ w := (false, w)
|}.

Definition sample_file : OwningStdIOByteSource :=
  {| file := join db_columns ++ LF ::
       join [s2b "127.0.0.1"; s2b "3306"; s2b "root"; s2b "secret"; s2b "alarm"; s2b "cameras"] ++ [LF] |}.

Definition sample_world {WT} (w : WT) : world bytes server test_camera WT :=
  mkWorld [] (sample_server sample_columns sample_rows) sample_camera w.

Lemma startup_ready_witness :
  exists st, startup_with (fun _ => inl sample_file) 64 (replicate 192 NUL) 10 zeros_past
      (sample_world sample_termios) = Ok st /\
    represents (omap (row_camera sample_columns) sample_rows)
      (phones_of (omap (row_camera sample_columns) sample_rows))
      (mkService (st_run st) HikDevOperate_init (st_tables st) []) (mkSpec true [] []).
Proof.
  edestruct (startup_ready (fun _ => inl sample_file) 64 (replicate 192 NUL) 10 zeros_past
    (sample_world sample_termios)) as (st & E & _ & _ & _ & Hrep & _).
  - vm_compute. reflexivity.
  - vm_compute. reflexivity.
  - vm_compute. reflexivity.
  - exists tt. eexists _, _. split; [reflexivity|]. split; reflexivity.
  - exists (sample_server sample_columns sample_rows), (sample_opened sample_columns sample_rows).
    split; [reflexivity|]. split; [vm_compute; reflexivity|]. split; [reflexivity|].
    split; [reflexivity|]. repeat constructor.
  - split; [by apply (bool_decide_unpack _)|]. split; [|vm_compute; reflexivity].
    repeat constructor; by apply (bool_decide_unpack _).
  - vm_compute. lia.
  - vm_compute. lia.
  - vm_compute. lia.
  - vm_compute. reflexivity.
  - vm_compute. reflexivity.
  - vm_compute. reflexivity.
  - vm_compute. reflexivity.
  - exists st. split; [exact E|exact Hrep].
Defined.

Lemma startup_never_runs_witness :
  exists st, startup (fun _ => inl sample_file) 64 (replicate 192 NUL) 10 (sample_world tt) = Ok st /\
    st_run st = false.
Proof.
  assert (exists st, startup (fun _ => inl sample_file) 64 (replicate 192 NUL) 10 (sample_world tt) = Ok st)
    as [st E] by (eexists; vm_compute; reflexivity).
  exists st. split; [exact E|]. exact (startup_never_runs _ _ _ _ _ st E).
Defined.

(** The camera of the sample table, and its alarm. *)
Definition sample_row_cams : list camera := omap (row_camera sample_columns) sample_rows.

Lemma sample_row_event : event_ok sample_clock sample_row_cams (phones_of sample_row_cams) (sample_alarm (s2b "10.0.0.2")).
Proof.
  split; [vm_compute; lia|]. split; [intros _; by apply (bool_decide_unpack _)|].
  split; [vm_compute; discriminate|].
  intros c cs E _. vm_compute in E. injection E as <- <-.
  split; [vm_compute; discriminate|]. exists [s2b "13700000000"]. split; [vm_compute; reflexivity|].
  constructor; [|constructor]. right. split; [reflexivity|vm_compute; discriminate].
Qed.

(** The world the loop starts in. *)
Definition sample_ready (w : termios) : world bytes server test_camera termios :=
  mkWorld (s2b "421" ++ [LF]) (sample_server sample_columns sample_rows)
    {| tc_cfg := set_motion 4 1 (tc_cfg sample_camera); tc_callback := true; tc_armed := true |} w.

Lemma sample_starts_up :
  exists fd_ normal wt,
    let port := mkSerialPort fd_ normal (ucReadLineBuf SerialPort_init)
      (uiReadLineValidSize SerialPort_init) (uiReadLineIdx SerialPort_init) in
    starts_up (fun _ => inl sample_file) 64 (replicate 192 NUL) 10 zeros_past (sample_world sample_termios)
      sample_row_cams port (sample_ready wt) /\ normal = UART_TRUE.
Proof.
  eexists _, _, _. cbn zeta. split; [|].
  - exists [], (mkCsvParse (s2b "127.0.0.1") (s2b "3306") (s2b "root") (s2b "secret") (s2b "alarm") (s2b "cameras")).
    eexists _, _, _, _, sample_columns, sample_rows, sample_camera, 5, _, _.
    split; [vm_compute; reflexivity|]. split; [vm_compute; reflexivity|]. split; [vm_compute; reflexivity|].
    split; [exists tt; eexists _, _; split; [reflexivity|]; split; reflexivity|].
    split.
    { exists (sample_server sample_columns sample_rows), (sample_opened sample_columns sample_rows).
      split; [reflexivity|]. split; [vm_compute; reflexivity|]. split; [reflexivity|].
      split; [reflexivity|]. repeat constructor. }
    split; [split; [by apply (bool_decide_unpack _)|]; split; [|vm_compute; reflexivity];
      repeat constructor; by apply (bool_decide_unpack _)|].
    split; [vm_compute; lia|]. split; [vm_compute; lia|]. split; [vm_compute; lia|].
    split; [reflexivity|]. split; [vm_compute; reflexivity|]. split; [vm_compute; reflexivity|].
    split; [vm_compute; reflexivity|]. vm_compute. reflexivity.
  - reflexivity.
Qed.

(** One alarm, one round, the signal, and the round that sees it. *)
Lemma main_delivers_witness :
  let text := message (s2b "2020-1-2 3:4:5") (s2b "10.0.0.2") (s2b "gate") (s2b "13700000000") in
  exists w2,
    main_with (fun _ => inl sample_file) 64 (replicate 192 NUL) 10 sample_clock sample_write zeros_past
      [sample_alarm (s2b "10.0.0.2"); Round; Signal SIGTERM; Round] (sample_world sample_termios) =
      Ok (Returned 0 [(text, UART_TRUE)] w2) /\
    w_os w2 = [].
Proof.
  intros text. destruct sample_starts_up as (fd_ & normal & wt & Hup & ->).
  destruct (main_delivers (fun _ => inl sample_file) 64 (replicate 192 NUL) 10 sample_clock sample_write zeros_past
    [sample_alarm (s2b "10.0.0.2"); Round; Signal SIGTERM; Round] (sample_world sample_termios) _
    sample_row_cams _ (inr (mkSpec false [] [(text, UART_TRUE)])) Hup) as (w2 & E & Hos & _).
  - vm_compute. reflexivity.
  - repeat (apply List.Forall_cons; [first [exact sample_row_event|exact I]|]). apply List.Forall_nil.
  - vm_compute. reflexivity.
  - exists w2. split; [exact E|exact Hos].
Defined.

(** What the start-up leaves in the tables. *)
Definition sample_loaded : database :=
  match startup_with (fun _ => inl sample_file) 64 (replicate 192 NUL) 10 zeros_past (sample_world sample_termios) with
  | Ok st => st_tables st
  | _ => DataBaseOperate_init
  end.

(** An alarm, a round that starts while it is being recorded, one that finds it, and
    SIGTERM. *)
Definition sample_threads : list service_label :=
  LNotify COMM_ALARM_V30 (device_at (s2b "10.0.0.2")) demo_info 7 ::
  [LCallback; LMain; LMain; LCallback; LMain; LCallback; LCallback] ++ replicate 4 LMain ++
  LSignal SIGTERM :: replicate 4 LMain.

Lemma main_interleaved_delivers_witness :
  let text := message (s2b "2020-1-2 3:4:5") (s2b "10.0.0.2") (s2b "gate") (s2b "13700000000") in
  exists w2,
    main_interleaved (fun _ => inl sample_file) 64 (replicate 192 NUL) 10 sample_clock sample_write one_access zeros_past
      sample_threads (sample_world sample_termios) = Some (Ok (Returned 0 [(text, UART_TRUE)] w2)) /\
    w_os w2 = [].
Proof.
  intros text. destruct sample_starts_up as (fd_ & normal & wt & Hup & ->).
  destruct (main_interleaved_delivers (fun _ => inl sample_file) 64 (replicate 192 NUL) 10 sample_clock sample_write zeros_past
    (sample_world sample_termios) _ sample_row_cams _ Hup) as (st & E & _ & Hrun); [vm_compute; reflexivity|].
  assert (st_tables st = sample_loaded) as Et by (unfold sample_loaded; rewrite E; reflexivity).
  rewrite Et in Hrun.
  set (port := mkSerialPort fd_ UART_TRUE _ _ _) in Hrun.
  set (s := default (race_service_init true sample_loaded)
    (service_run sample_clock sample_write port one_access sample_threads (race_service_init true sample_loaded))).
  destruct (Hrun sample_threads s) as (xs & w2 & _ & _ & Hs).
  - apply List.Forall_cons; [exact sample_row_event|].
    unfold sample_threads. repeat (apply List.Forall_cons; [exact I|]). apply List.Forall_nil.
  - vm_compute. reflexivity.
  - vm_compute. reflexivity.
  - assert (mpc s = MLeft) as Em by (vm_compute; reflexivity). rewrite Em in Hs.
    destruct Hs as (Hres & _ & Hos & _). exists w2. split; [|exact Hos].
    rewrite Hres. assert (rs_sent s = [(text, UART_TRUE)]) as -> by (vm_compute; reflexivity). reflexivity.
Defined.


